(* ===== verification/_CoqProject ===== *)
-Q . S2P
Prelude.v
GoText.v
Model.v
Store.v
MemoryStore.v
BoltStore.v
Runtime.v
Fixtures.v
StoreProperties.v
Scheduler.v
Reconciler.v
Replicas.v
Api.v
ApiProperties.v
Concurrency.v
Proxy.v
ProxyProperties.v
ProxyHandler.v
ProxyHandlerProperties.v
Jobs.v
Orchestrator.v
JobCustody.v
OrchestratorProperties.v
Agent.v
AgentProperties.v
AgentShutdown.v
Http.v
ServeMux.v
Routes.v
Infractl.v
InfractlProperties.v
AgentPods.v
AgentExamples.v
GoFormat.v
Settings.v
ProxyConfig.v
ProxyMetrics.v
ProxyMetricsProperties.v
ProxyMetered.v
ProxyMain.v
Middleware.v
Pool.v
PoolProperties.v
Mlctl.v
MlctlProperties.v
GoHeap.v
SharedStore.v
SharedStoreProperties.v
Ticker.v
Discovery.v
ControlPlaneProcess.v
WorkerProcess.v
ProxyProcess.v
OrchestratorServer.v
OrchestratorProcess.v
CpMetrics.v
DemoBackend.v
