(* ===== verification/Prelude.v ===== *)
(** * Verification of the backend infrastructure platform

    The repository holds three Go programs.  The _control plane_
    (src/control-plane) is a small container orchestrator: an HTTP API over a
    store of deployments, pods, nodes and services, a scheduler that places
    pending pods on nodes, and a reconciler that keeps the wanted number of
    replicas and recovers the pods of silent nodes.  The _reverse proxy_
    (src/reverse-proxy-load-balancer) forwards requests to the healthy backends of
    a pool that it health-checks and can refresh from the control plane.  The
    _job orchestrator_ (src/ml-job-orchestrator) runs submitted commands as
    subprocesses with priorities, retries and cancellation.  Each keeps shared
    state that several goroutines change at once; what makes them correct is what
    holds of that state under every interleaving and every failure of a call.

    ** How code is modelled

    Pure code is a function.  Code with effects is a program ([prog], below): a
    tree of calls of atomic operations with pure code in between, written in the
    order of the source, early returns included.  The same tree is run on a
    concrete machine ([run]), reasoned about with [wp] over a step relation of the
    operations, and interleaved with others as threads.  Integers are [Z] with
    [int64] and [uint64] wrap-around written out ([+64], [uint64_wrap]); floats
    are IEEE binary64 ([SpecFloat]); instants are nanoseconds, with the zero
    instant 0; maps are [gmap].  Entities are values, although the Go code passes
    pointers: SharedStoreProperties proves on a heap that the in-memory store,
    which clones what it takes and returns, cannot tell the difference.  Loops
    are structural, except the polling loop of [CancelJob], which takes 101
    iterations as fuel: two seconds in steps of at least 20 ms and the check that
    ends it ([CancelJob_returns] proves that this is enough); the agent's ticker
    loops, which take the number of ticks they live for as an argument that the
    theorems quantify over (the other ticker loops are state machines without a
    bound, in Ticker.v); and the parsers of flags and durations, whose fuel is the number of arguments or characters left.

    Taken as parameters, with the documented behaviour the proofs use: bbolt
    buckets and transactions and the JSON codec ([BoltLib], [Codec] in
    BoltStore.v, instantiated in [ToyBolt]), [net/url] ([UrlLib], instantiated in
    [ToyUrl]), the order of [sort.Slice] and of map iteration ([SliceSort],
    [MapRange]), crypto/rand, the clock (readings do not go back), the float
    conversion of values no [int64] can hold, reading a file and decoding YAML, the
    constructor of the Docker client, gorilla/mux ([GorillaMux], instantiated in
    [PlainMux]), the Prometheus registry ([PromRegistry]), and the results of HTTP
    round trips, subprocesses and Docker calls (arbitrary).  What the programs use of Go's own
    libraries is defined from its documentation: text, durations, query strings
    and numbers (GoText, Http, GoFormat), package flag (GoFormat), the patterns of
    [http.ServeMux] (ServeMux).

    ** Files and sources

    - Prelude: integers, floats, hex, status codes, sorting, programs, [wp],
      shared lemmas and tactics.
    - Model: control-plane/internal/model (entities, status tables,
      [HasCapacityFor], [Active]).  Store: the [Store] interface of
      internal/state as operations [StoreOp] with the contract [op_post] and the
      class [StoreImpl] that an implementation meets and its clients rely on.
      MemoryStore, BoltStore: memory_store.go and bolt_store.go, method by method.
      StoreProperties: both refine the contract and agree with each other.
      GoHeap: the [Clone] methods on a heap of structs, maps, slices and pointers.
      SharedStore, SharedStoreProperties: memory_store.go on that heap, with the
      pointers its clients keep.
    - Runtime: the operations [CpE] of the control plane, their relation on the
      abstract [World], the executable machine, and [cp_sound], which carries
      every [wp] result over to runs on any [StoreImpl].  Fixtures: a small
      cluster for examples.
    - Scheduler: internal/scheduler ([SelectNode], [Tick]).  Reconciler, Replicas:
      internal/reconciler ([backoff], [reconcileDeployments],
      [detectUnhealthyNodes], [reschedulePodsFor], [Tick]).  Api, ApiProperties:
      internal/api (all handlers, the route table, [resolveServiceBackends]).
    - Concurrency: cmd/control-plane as any number of scheduler passes, reconciler
      passes and requests interleaved at store operations ([cstep]); the listings
      of the in-memory store, which take no lock, also entry by entry.
    - Ticker: [for { select { case <-ticker.C: ... case <-ctx.Done(): return } }]
      as a state machine, shared by the processes below, and the states of an
      [http.Server].  ControlPlaneProcess, WorkerProcess, ProxyProcess,
      OrchestratorProcess: the main functions of cmd/control-plane, cmd/worker,
      cmd/proxy and cmd/orchestrator as processes: their goroutines, the server
      with its start, failure and shutdown, the signal and the exit.
    - Discovery: config_provider.go, alone and composed with the control plane's
      routes and handlers.  OrchestratorServer: the orchestrator's routes, and
      [mlctl] composed with them.  CpMetrics: the Prometheus collectors of the
      control plane, the agent and the orchestrator.  DemoBackend: cmd/backend.
    - Proxy, ProxyProperties: internal/backend, internal/balancer and
      internal/health of the reverse proxy.  A [*Backend] is a location of a heap,
      so that one object can be in the old and the new pool.  [Next] reads the
      pool in one step.
    - ProxyHandler, ProxyHandlerProperties: internal/proxy (director.go,
      handler.go), and the running proxy: requests, health checks and refreshes
      interleaved ([pstep]), for any balancer that meets the class [Balancer].
    - Jobs: model, store and retry of the job orchestrator.  Orchestrator: its
      scheduler, executor, worker loop and API.  JobCustody: who is responsible
      for a job, under interference.  OrchestratorProperties: the results.  Pool,
      PoolProperties: worker/pool.go with its shutdown, as cmd/orchestrator uses
      it.
    - Agent: control-plane/internal/worker (agent.go, executor.go, container.go):
      registration, heartbeats, polling, the execution of a pod as a subprocess
      or a container, and [Run] with its goroutines, semaphore and wait group
      ([agent_step]).  AgentProperties, AgentShutdown: slots and shutdown.
      AgentPods: what an execution reports, alone and composed with the control
      plane's handlers.  AgentExamples: executions that show the limits.
    - Routes: the control plane's route table on the mux.  Middleware: middleware.go
      of the control plane and of the orchestrator.
    - Infractl, InfractlProperties: cmd/infractl.  Mlctl, MlctlProperties:
      cmd/mlctl.  Settings: config.go of the control plane and the orchestrator,
      the flags and variables of cmd/worker and cmd/orchestrator, logging.
    - ProxyConfig: internal/config of the proxy.  ProxyMetrics,
      ProxyMetricsProperties: internal/metrics and internal/admin.  ProxyMetered:
      the registry inside the running proxy.  ProxyMain: cmd/proxy up to the
      point where it serves, transport.go and [proxy.New].

    ** What is proved

    - Stores.  Every method of both stores meets the contract (for bbolt: or
      reports a storage error and changes nothing), so the two are
      interchangeable; transitions follow the table and stamp each time once.
      Clients may keep and edit everything they passed or were given: the store
      behaves as a store of values.
    - Scheduling.  [SelectNode] is optimal; a pass never oversubscribes a node,
      only moves ready pending pods onto healthy nodes, is work-conserving and
      books exactly what it placed, storage faults included.
    - Reconciliation.  One pass brings every deployment to its replica count and
      touches nothing it should not; heartbeat supervision recovers exactly the
      pods of silent nodes; the retry delay is the documented one up to attempt 33
      and overflows after it; pods reported FAILED are left alone.
    - API.  The complete effect and answer of submission, cancellation,
      registration, heartbeats, reports and discovery, errors included.
    - Concurrency of the control plane.  Identity, specification, life cycle and
      provenance are kept under every interleaving, listings that others write
      into included; cancellation is permanent for deployments, and not for pods;
      the creation counters are exact.
    - Processes.  cmd/control-plane and cmd/orchestrator refine the interleaved
      systems the results above are about; the four processes panic only on
      intervals that are not positive, begin to shut down only after the signal,
      and exit with the status and in the state they should: requests answered,
      workers and loops ended, connection counts at zero, no job RUNNING.
    - Across programs.  A refresh leaves the proxy with exactly the healthy nodes of
      the control plane that carry the service's labels, and the loop only ever
      installs pools the control plane has had; what [mlctl] submits, reads and
      cancels is what the orchestrator stores.
    - Proxy.  Round robin and weighted round robin are exactly fair over a cycle,
      least connections is minimal, health changes are debounced, a refresh keeps
      the objects of unchanged backends; a request is answered once with the right
      status and bounded retries; connection counts are exact under every
      interleaving and return to zero.
    - Job orchestrator.  No job is stranded or owned twice, jobs follow their life
      cycle within their retry budget although writes are not validated, ticks
      dispatch by priority and age, a run settles its job, the cancel handler
      answers; and an execution in which a cancellation is lost.  Shutting the
      pool down runs what is queued and cannot get stuck; a job sent meanwhile can
      be left behind, and cmd/orchestrator cancels running jobs before the grace
      period begins.
    - Worker agent.  Pods in execution never exceed the slots and every slot comes
      back; a pod is reported RUNNING and then finished exactly once, with the
      status its execution calls for; over a network that delivers, the control
      plane ends with that outcome recorded and the capacity given back; after a
      signal at most the pod of the poll in flight outlives [Run].  Executions in
      which it does, in which a pod is started twice, and in which a lost report
      makes it run again.
    - Edges.  No two routes of the control plane overlap; the middleware changes
      no response and answers a panic; [infractl] reaches the intended handlers
      and its filters survive the URL; [mlctl] submits what the flags say;
      settings fall back to their defaults and the programs panic at start
      exactly on intervals that are not positive.
    - Proxy at large.  [Load] accepts exactly the acceptable files and completes
      them; [main] fails for three reasons only; the metrics page can be read
      back, and its counters agree with the backends under every interleaving.

    ** Not modelled

    Sockets, TLS and the bytes of HTTP messages (requests and answers are their
    methods, paths, headers, statuses and decoded bodies); the text of JSON and
    YAML; client_golang's page of the control plane, the agent and the
    orchestrator (the calls on its collectors are operations of the programs);
    the Docker daemon and the subprocesses that jobs and pods run; log lines,
    except in Middleware; package clauses, imports and test files. *)

From Stdlib Require Import ZArith Lia SpecFloat.
From stdpp Require Import base gmap strings list sorting.

#[global] Set Default Goal Selector "!".

(** ** Go integers, durations and instants *)

Declare Scope go_scope.
Delimit Scope go_scope with go.

(** [int] and [int64]: two's complement at width 64. *)
Definition int64_wrap (z : Z) : Z := (z + 2 ^ 63) mod 2 ^ 64 - 2 ^ 63.

(** [uint64]. *)
Definition uint64_wrap (z : Z) : Z := z mod 2 ^ 64.

Notation "x +64 y" := (int64_wrap (x + y)) (at level 50, left associativity) : go_scope.
Notation "x -64 y" := (int64_wrap (x - y)) (at level 50, left associativity) : go_scope.
Notation "x *64 y" := (int64_wrap (x * y)) (at level 40, left associativity) : go_scope.

Definition min_int64 : Z := - 2 ^ 63.
Definition max_int64 : Z := 2 ^ 63 - 1.

(** A value a Go [int] can hold. *)
Definition in_int64 (z : Z) : Prop := (min_int64 <= z <= max_int64)%Z.

(** [time.Time]: nanoseconds since the zero instant, so the zero value is [0].
    [time.Duration]: nanoseconds, an [int64]. *)
Abbreviation Time := Z (only parsing).
Abbreviation Duration := Z (only parsing).

Definition Second : Duration := 1000000000.
Definition Millisecond : Duration := 1000000.

Definition IsZero (t : Time) : bool := Z.eqb t 0.
Definition Before (t u : Time) : bool := Z.ltb t u.
Definition After (t u : Time) : bool := Z.ltb u t.

(** [Time.Sub] saturates at the ends of the [int64] range. *)
Definition Sub (t u : Time) : Duration := Z.max min_int64 (Z.min max_int64 (t - u)).
Definition Add (t : Time) (d : Duration) : Time := (t + d)%Z.

Lemma int64_wrap_id z : in_int64 z -> int64_wrap z = z.
Proof.
  unfold in_int64, min_int64, max_int64, int64_wrap; intros.
  rewrite Z.mod_small; lia.
Qed.

Lemma int64_wrap_range z : in_int64 (int64_wrap z).
Proof.
  unfold in_int64, min_int64, max_int64, int64_wrap.
  pose proof (Z.mod_pos_bound (z + 2 ^ 63) (2 ^ 64)). lia.
Qed.

Lemma uint64_wrap_id z : (0 <= z < 2 ^ 64)%Z -> uint64_wrap z = z.
Proof. apply Z.mod_small. Qed.

Lemma uint64_wrap_range z : (0 <= uint64_wrap z < 2 ^ 64)%Z.
Proof. apply Z.mod_pos_bound. lia. Qed.

(** ** Go [float64], as IEEE 754 binary64 *)

Abbreviation float64 := spec_float.
Definition fzero : float64 := S754_zero false.
Definition fadd (x y : float64) : float64 := SFadd 53 1024 x y.
Definition fsub (x y : float64) : float64 := SFsub 53 1024 x y.
Definition fle (x y : float64) : bool := SFleb x y.
Definition flt (x y : float64) : bool := SFltb x y.
Definition feq (x y : float64) : bool := SFeqb x y.

(** [time.Duration(f)] of a float [f] that is the exact integer [z]: the value
    when an [int64] can hold it; otherwise Go leaves the result to the
    implementation, [conv] here. *)
Definition float_to_int64 (conv : Z -> Z) (z : Z) : Z :=
  if ((min_int64 <=? z) && (z <=? max_int64))%Z then z else int64_wrap (conv z).

#[global] Instance float64_eq_dec : EqDecision float64.
Proof. solve_decision. Defined.

(** ** Status codes of net/http *)

Definition StatusOK : Z := 200.
Definition StatusCreated : Z := 201.
Definition StatusAccepted : Z := 202.
Definition StatusNoContent : Z := 204.
Definition StatusBadRequest : Z := 400.
Definition StatusNotFound : Z := 404.
Definition StatusConflict : Z := 409.
Definition StatusInternalServerError : Z := 500.
Definition StatusBadGateway : Z := 502.
Definition StatusServiceUnavailable : Z := 503.
Definition StatusGatewayTimeout : Z := 504.

(** ** Hexadecimal text, as [encoding/hex] writes it *)

Abbreviation byte := Byte.byte.

Definition hex_digit (n : Z) : Ascii.ascii :=
  Ascii.ascii_of_N (Z.to_N (if Z.ltb n 10 then 48 + n else 87 + n)).

Definition hex_of_byte (b : byte) : string :=
  let n := Z.of_N (Byte.to_N b) in
  String (hex_digit (n / 16)) (String (hex_digit (n mod 16)) EmptyString).

(** [hex.EncodeToString] *)
Fixpoint EncodeToString (bs : list byte) : string :=
  match bs with
  | [] => EmptyString
  | b :: bs => hex_of_byte b +:+ EncodeToString bs
  end.

(** ** [sort.Slice]

    The result is a permutation of the input that is ordered by [less]; which
    order equal elements end up in is not specified.  Code that sorts is
    parametrised by an implementation of this interface. *)

Class WeakOrder {A} (less : A -> A -> bool) : Prop := {
  less_trans : forall x y z, less y x = false -> less z y = false -> less z x = false;
  less_total : forall x y, less y x = false \/ less x y = false }.

Class SliceSort := {
  sort_slice : forall {A}, (A -> A -> bool) -> list A -> list A;
  sort_slice_perm : forall A less (l : list A), sort_slice less l ≡ₚ l;
  sort_slice_sorted : forall A less (l : list A),
    WeakOrder less -> StronglySorted (fun x y => less y x = false) (sort_slice less l) }.

#[global] Instance not_less_dec {A} (less : A -> A -> bool) (x y : A) :
  Decision ((fun x y => less y x = false) x y).
Proof. unfold Decision. cbv beta. decide equality. Defined.

#[global] Program Instance merge_slice_sort : SliceSort := {|
  sort_slice A less l :=
    @merge_sort A (fun x y => less y x = false) (not_less_dec less) l |}.
Next Obligation. intros. apply merge_sort_Permutation. Qed.
Next Obligation.
  intros A less l [Ht Htot]. eapply @StronglySorted_merge_sort.
  - intros x y z. apply Ht.
  - intros x y. apply Htot.
Qed.

(** Iteration order of [sync.Map.Range] and of [range] over a map: any
    permutation of the entries, possibly another one at every call (the [nat]
    numbers the calls). *)
Class MapRange := {
  map_range : forall {A}, nat -> gmap string A -> list A;
  map_range_perm : forall A n (m : gmap string A), map_range n m ≡ₚ (map_to_list m).*2 }.

#[global] Program Instance key_map_range : MapRange := {|
  map_range A _ m := (map_to_list m).*2 |}.
Next Obligation. done. Qed.

(** ** Effectful programs

    A program over the atomic operations [E] is a tree of calls: the code
    between two calls is pure.  The same tree is run sequentially by [run],
    reasoned about with [wp], and interleaved with other programs. *)

Inductive prog (E : Type -> Type) (A : Type) : Type :=
| Ret (a : A)
| Vis {X : Type} (e : E X) (k : X -> prog E A).
Arguments Ret {E A} a.
Arguments Vis {E A X} e k.

Fixpoint prog_bind {E A B} (p : prog E A) (f : A -> prog E B) : prog E B :=
  match p with
  | Ret a => f a
  | Vis e k => Vis e (fun x => prog_bind (k x) f)
  end.

#[global] Instance prog_ret E : MRet (prog E) := fun A a => Ret a.
#[global] Instance prog_mbind E : MBind (prog E) := fun A B f p => prog_bind p f.

Definition call {E X} (e : E X) : prog E X := Vis e Ret.

(** [for _, x := range l { s = f x s }] *)
Fixpoint for_each {E A S} (l : list A) (s : S) (f : A -> S -> prog E S) : prog E S :=
  match l with
  | [] => Ret s
  | x :: l => s' ← f x s; for_each l s' f
  end.

(** Sequential execution by a handler of the operations. *)
Definition handler (E : Type -> Type) (W : Type) := forall X, E X -> W -> X * W.

Fixpoint run {E W A} (h : handler E W) (p : prog E A) (w : W) : A * W :=
  match p with
  | Ret a => (a, w)
  | Vis e k => let '(x, w') := h _ e w in run h (k x) w'
  end.

(** ** Weakest preconditions over a step relation of the operations *)

Section Wp.
Context {E : Type -> Type} {W : Type}.
Variable R : forall X, E X -> W -> X -> W -> Prop.

Fixpoint wp {A} (p : prog E A) (Q : A -> W -> Prop) (w : W) : Prop :=
  match p with
  | Ret a => Q a w
  | Vis e k => forall x w', R _ e w x w' -> wp (k x) Q w'
  end.

Lemma wp_bind {A B} (p : prog E A) (f : A -> prog E B) Q w :
  wp (p ≫= f) Q w <-> wp p (fun a => wp (f a) Q) w.
Proof.
  revert w. induction p as [a|X e k IH]; intros w; [done|]. cbn.
  split; intros H x w' HR; apply IH, H, HR.
Qed.

Lemma wp_call {A X} (e : E X) (k : X -> prog E A) Q w :
  (forall x w', R X e w x w' -> wp (k x) Q w') -> wp (call e ≫= k) Q w.
Proof. done. Qed.

Lemma wp_mono {A} (p : prog E A) (Q Q' : A -> W -> Prop) w :
  (forall a w', Q a w' -> Q' a w') -> wp p Q w -> wp p Q' w.
Proof.
  intros HQ. revert w. induction p as [a|X e k IH]; intros w; cbn; eauto.
Qed.

Lemma wp_conj {A} (p : prog E A) (Q Q' : A -> W -> Prop) w :
  wp p Q w -> wp p Q' w -> wp p (fun a w => Q a w /\ Q' a w) w.
Proof. revert w. induction p as [a|X e k IH]; intros w; cbn; eauto. Qed.

(** Sequencing: a specification of the first part, used for the rest. *)
Lemma wp_seq {A B} (p : prog E A) (f : A -> prog E B) (P : A -> W -> Prop) Q w :
  wp p P w -> (forall a w', P a w' -> wp (f a) Q w') -> wp (p ≫= f) Q w.
Proof. intros Hp Hf. apply wp_bind. eapply wp_mono; [|exact Hp]. eauto. Qed.

(** Loop rule: the invariant speaks of the elements already done and of the
    ones left. *)
Lemma wp_for_each {A S} (I : list A -> list A -> S -> W -> Prop)
    (f : A -> S -> prog E S) (l : list A) (s : S) (w : W) :
  I [] l s w ->
  (forall pre x post s w, l = pre ++ x :: post -> I pre (x :: post) s w ->
     wp (f x s) (fun s' w' => I (pre ++ [x]) post s' w') w) ->
  wp (for_each l s f) (fun s' w' => I l [] s' w') w.
Proof.
  intros HI Hstep.
  cut (forall post pre s w, l = pre ++ post -> I pre post s w ->
        wp (for_each post s f) (fun s' w' => I l [] s' w') w).
  { intros H. by apply (H l []). }
  clear s w HI. induction post as [|x post IH]; intros pre s w Hl HI; cbn.
  - rewrite app_nil_r in Hl. by subst.
  - eapply wp_seq; [by apply Hstep|]. cbn. intros s' w' HI'.
    apply (IH (pre ++ [x])); [|done]. by rewrite Hl, <- app_assoc.
Qed.

(** Loop rule for an invariant that does not depend on the position. *)
Lemma wp_for_each_inv {A S} (I : S -> W -> Prop)
    (f : A -> S -> prog E S) (l : list A) (s : S) (w : W) :
  I s w ->
  (forall x s w, x ∈ l -> I s w -> wp (f x s) I w) ->
  wp (for_each l s f) I w.
Proof.
  intros HI Hstep. apply (wp_for_each (fun _ _ => I)); [done|].
  intros pre x post s' w' -> H. apply Hstep; [set_solver|done].
Qed.
End Wp.

(** Fewer behaviours satisfy more. *)
Lemma wp_subrel {E W A} (R R' : forall X, E X -> W -> X -> W -> Prop) (p : prog E A) Q w :
  (forall X e w x w', R' X e w x w' -> R X e w x w') -> wp R p Q w -> wp R' p Q w.
Proof. intros HR. revert w. induction p as [a|X e k IH]; intros w; cbn; eauto. Qed.

(** Big-step executions of a program. *)
Fixpoint runs {E W A} (R : forall X, E X -> W -> X -> W -> Prop) (p : prog E A) (w : W) (a : A) (w' : W)
    : Prop :=
  match p with
  | Ret b => a = b /\ w' = w
  | Vis e k => exists x w1, R _ e w x w1 /\ runs R (k x) w1 a w'
  end.

Lemma runs_bind {E W A B} (R : forall X, E X -> W -> X -> W -> Prop) (p : prog E A) (f : A -> prog E B)
    w a w1 b w2 :
  runs R p w a w1 -> runs R (f a) w1 b w2 -> runs R (p ≫= f) w b w2.
Proof.
  revert w. induction p as [c|X e k IH]; intros w; cbn; [by intros [-> ->]|].
  intros (x & w0 & HR & Hr) Hf. exists x, w0. split; [done|]. by apply IH.
Qed.

Lemma wp_runs {E W A} (R : forall X, E X -> W -> X -> W -> Prop) (p : prog E A) Q w a w' :
  wp R p Q w -> runs R p w a w' -> Q a w'.
Proof.
  revert w. induction p as [b|X e k IH]; intros w; cbn; [by intros ? [-> ->]|].
  intros Hwp (x & w1 & HR & Hr). eauto.
Qed.

(** A handler on concrete states [V] implements a step relation on abstract
    states [W] through [Abs]. *)
Definition implements {E V W} (h : handler E V)
    (R : forall X, E X -> W -> X -> W -> Prop) (Abs : V -> W -> Prop) : Prop :=
  forall X (e : E X) v w, Abs v w ->
    exists w', R X e w (h X e v).1 w' /\ Abs (h X e v).2 w'.

(** What [wp] proves of a program, every implementation's run satisfies. *)
Lemma wp_adequacy {E V W A} (h : handler E V)
    (R : forall X, E X -> W -> X -> W -> Prop) (Abs : V -> W -> Prop)
    (p : prog E A) (Q : A -> W -> Prop) v w :
  implements h R Abs -> Abs v w -> wp R p Q w ->
  exists w', Abs (run h p v).2 w' /\ Q (run h p v).1 w'.
Proof.
  intros Himp. revert v w. induction p as [a|X e k IH]; intros v w HA Hwp; cbn.
  { by exists w. }
  destruct (Himp X e v w HA) as (w' & HR & HA').
  destruct (h X e v) as [x v'] eqn:Eh; cbn in *. apply (IH x v' w'); auto.
Qed.

(** A run of an implementation is an execution. *)
Lemma run_runs {E V W A} (h : handler E V) (R : forall X, E X -> W -> X -> W -> Prop) (Abs : V -> W -> Prop)
    (p : prog E A) v w :
  implements h R Abs -> Abs v w -> exists w', runs R p w (run h p v).1 w' /\ Abs (run h p v).2 w'.
Proof.
  intros Himp. revert v w. induction p as [a|X e k IH]; intros v w HA; cbn; [by exists w|].
  destruct (Himp X e v w HA) as (w1 & HR & HA1). destruct (h X e v) as [x v1]. cbn in *.
  destruct (IH x v1 w1 HA1) as (w' & Hr & HA'). exists w'. split; [by exists x, w1|done].
Qed.

Lemma runs_subrel {E W A} (R R' : forall X, E X -> W -> X -> W -> Prop) (p : prog E A) w a w' :
  (forall X e w x w', R X e w x w' -> R' X e w x w') -> runs R p w a w' -> runs R' p w a w'.
Proof.
  intros HR. revert w. induction p as [b|X e k IH]; intros w; cbn; [done|].
  intros (x & w1 & Hx & Hr). exists x, w1. auto.
Qed.

(** ** Programs that must meet an obligation before every operation

    [gwp] is [wp] with a precondition [pre] of each operation: the program is
    entitled to every operation it performs, whatever it is answered. *)

Section Gwp.
Context {E : Type -> Type} {W : Type}.
Variable pre : forall X, E X -> W -> Prop.
Variable R : forall X, E X -> W -> X -> W -> Prop.

Fixpoint gwp {A} (p : prog E A) (Q : A -> W -> Prop) (w : W) : Prop :=
  match p with
  | Ret a => Q a w
  | Vis e k => pre _ e w /\ forall x w', R _ e w x w' -> gwp (k x) Q w'
  end.

Lemma gwp_mono {A} (p : prog E A) (Q Q' : A -> W -> Prop) w :
  (forall a w', Q a w' -> Q' a w') -> gwp p Q w -> gwp p Q' w.
Proof.
  intros HQ. revert w. induction p as [a|X e k IH]; intros w; cbn; [eauto|]. intros [? ?]. eauto.
Qed.

Lemma gwp_bind {A B} (p : prog E A) (f : A -> prog E B) Q w :
  gwp (p ≫= f) Q w <-> gwp p (fun a => gwp (f a) Q) w.
Proof.
  revert w. induction p as [a|X e k IH]; intros w; [done|]. cbn.
  split; intros [Hp H]; (split; [exact Hp|]); intros x w' HR; apply IH, H, HR.
Qed.

Lemma gwp_seq {A B} (p : prog E A) (f : A -> prog E B) (P : A -> W -> Prop) Q w :
  gwp p P w -> (forall a w', P a w' -> gwp (f a) Q w') -> gwp (p ≫= f) Q w.
Proof. intros Hp Hf. apply gwp_bind. eapply gwp_mono; [|exact Hp]. eauto. Qed.

Lemma gwp_call {A X} (e : E X) (k : X -> prog E A) Q w :
  pre X e w -> (forall x w', R X e w x w' -> gwp (k x) Q w') -> gwp (call e ≫= k) Q w.
Proof. by split. Qed.

Lemma gwp_step {A X} (e : E X) (k : X -> prog E A) Q w :
  gwp (Vis e k) Q w -> pre X e w /\ forall x w', R X e w x w' -> gwp (k x) Q w'.
Proof. done. Qed.
End Gwp.

(** *** Adding up what the elements of a list own *)

Fixpoint tally {A} (f : A -> Z) (l : list A) : Z :=
  match l with [] => 0 | x :: l => f x + tally f l end.

Lemma tally_app {A} (f : A -> Z) (l k : list A) : tally f (l ++ k) = (tally f l + tally f k)%Z.
Proof. induction l; cbn; lia. Qed.

Lemma tally_insert {A} (f : A -> Z) (l : list A) i x y :
  l !! i = Some x -> tally f (<[i := y]> l) = (tally f l - f x + f y)%Z.
Proof.
  revert i. induction l as [|z l IH]; intros [|i] H; cbn in *; simplify_eq; [lia|].
  rewrite IH by done. lia.
Qed.

Lemma tally_nonneg {A} (f : A -> Z) (l : list A) :
  (forall x, 0 <= f x)%Z -> (0 <= tally f l)%Z.
Proof. intros Hf. induction l as [|x l IH]; cbn; [lia|]. specialize (Hf x). lia. Qed.

Lemma tally_lookup_le {A} (f : A -> Z) (l : list A) i x :
  (forall x, 0 <= f x)%Z -> l !! i = Some x -> (f x <= tally f l)%Z.
Proof.
  intros Hf. revert i. induction l as [|z l IH]; intros [|i] H; cbn in *; simplify_eq.
  - pose proof (tally_nonneg f l Hf). lia.
  - specialize (IH _ H). specialize (Hf z). lia.
Qed.

Lemma tally_le_Forall2 {A B} (f : A -> Z) (g : B -> Z) (P : A -> B -> Prop) (l : list A) (k : list B) :
  (forall a b, P a b -> f a <= g b)%Z -> Forall2 P l k -> (tally f l <= tally g k)%Z.
Proof. intros HP. induction 1 as [|a b l k Hab _ IH]; cbn; [lia|]. specialize (HP _ _ Hab). lia. Qed.

Lemma tally_filter {A} (P : A -> bool) (l : list A) :
  tally (fun x => if P x then 1 else 0)%Z l = Z.of_nat (length (filter (fun x => P x = true) l)).
Proof.
  induction l as [|x l IH]; [done|]. rewrite filter_cons. cbn. destruct (P x); case_decide; try done;
    cbn [length]; lia.
Qed.

(** ** Shared lemmas and automation *)

Create HintDb plat.

Ltac split_and_all := repeat match goal with
  | H : _ /\ _ |- _ => destruct H
  | H : exists _, _ |- _ => destruct H
  end.

(** One case split on a [match] or [if] of the goal. *)
Ltac case_one := match goal with
  | |- context [match ?x with _ => _ end] =>
      lazymatch x with context [match _ with _ => _ end] => fail | _ => destruct x eqn:? end
  end.

Lemma insert_middle {A} (l1 l2 : list A) x y : <[length l1 := y]> (l1 ++ x :: l2) = l1 ++ y :: l2.
Proof. induction l1 as [|z l1 IH]; [done|]. cbn. f_equal. exact IH. Qed.

Lemma Forall_middle {A} (P : A -> Prop) l1 x l2 :
  Forall P (l1 ++ x :: l2) <-> Forall P l1 /\ P x /\ Forall P l2.
Proof. by rewrite Forall_app, Forall_cons. Qed.

Lemma filter_Permutation_mono {A} (P : A -> Prop) `{forall x, Decision (P x)} (l k : list A) :
  l ≡ₚ k -> filter P l ≡ₚ filter P k.
Proof. intros ->. done. Qed.

Lemma StronglySorted_weaken {A} (R R' : A -> A -> Prop) (l : list A) :
  (forall x y, R x y -> R' x y) -> StronglySorted R l -> StronglySorted R' l.
Proof. intros HR. induction 1; constructor; [done|]. eapply Forall_impl; [done|auto]. Qed.

Lemma option_Forall2_mono {A B} (P Q : A -> B -> Prop) (x : option A) (y : option B) :
  (forall a b, P a b -> Q a b) -> option_Forall2 P x y -> option_Forall2 Q x y.
Proof. intros HPQ []; constructor; auto. Qed.

Lemma option_Forall2_refl' {A} (P : A -> A -> Prop) (x : option A) :
  (forall a, P a a) -> option_Forall2 P x x.
Proof. intros. destruct x; constructor; auto. Qed.

Lemma filter_all_true {A} (l : list A) : filter (fun _ => true = true) l = l.
Proof. induction l as [|x l IH]; [done|]. by rewrite filter_cons, IH. Qed.

(** The values of a map, in some order. *)
Lemma elem_of_map_values {A} (m : gmap string A) (x : A) :
  x ∈ (map_to_list m).*2 <-> exists k, m !! k = Some x.
Proof.
  rewrite list_elem_of_fmap. split.
  - intros ([k y] & -> & Hy). exists k. by apply elem_of_map_to_list.
  - intros [k Hk]. exists (k, x). split; [done|]. by apply elem_of_map_to_list.
Qed.

(** When every value carries its own key, listing the values lists no key twice. *)
Lemma NoDup_values_key {A} (f : A -> string) (m : gmap string A) :
  map_Forall (fun k x => f x = k) m -> NoDup (f <$> (map_to_list m).*2).
Proof.
  intros H. replace (f <$> (map_to_list m).*2) with (map_to_list m).*1.
  { apply NoDup_fst_map_to_list. }
  rewrite <- list_fmap_compose. apply list_fmap_ext. intros i [k x] Hi.
  apply list_elem_of_lookup_2, elem_of_map_to_list in Hi. symmetry. by apply H.
Qed.

(** *** Counting the values of a map *)

Definition b2z (b : bool) : Z := if b then 1 else 0.

Definition count_values {A} (P : A -> bool) (m : gmap string A) : Z :=
  Z.of_nat (length (filter (fun x => P x = true) (map_to_list m).*2)).

Lemma count_values_fresh {A} (P : A -> bool) (m : gmap string A) k x :
  m !! k = None -> count_values P (<[k := x]> m) = (count_values P m + b2z (P x))%Z.
Proof.
  intros Hk. unfold count_values. rewrite map_to_list_insert by done.
  rewrite fmap_cons, filter_cons. cbn [snd]. destruct (P x) eqn:HP; case_decide; try done;
    cbn [length b2z]; lia.
Qed.

Lemma count_values_update {A} (P : A -> bool) (m : gmap string A) k x y :
  m !! k = Some y -> count_values P (<[k := x]> m) = (count_values P m - b2z (P y) + b2z (P x))%Z.
Proof.
  intros Hk. rewrite <- insert_delete_eq, count_values_fresh by apply lookup_delete_eq.
  rewrite <- (insert_delete_id m k y Hk) at 2.
  rewrite count_values_fresh by apply lookup_delete_eq. lia.
Qed.

Lemma count_values_list {A} (P Q : A -> bool) (m : gmap string A) l :
  l ≡ₚ filter (fun x => Q x = true) (map_to_list m).*2 ->
  Z.of_nat (length (filter (fun x => P x = true) l)) = count_values (fun x => Q x && P x) m.
Proof.
  intros ->. unfold count_values. do 2 f_equal.
  rewrite list_filter_filter. apply list_filter_iff. intros x. rewrite andb_true_iff. tauto.
Qed.

Lemma count_values_nonneg {A} (P : A -> bool) (m : gmap string A) : (0 <= count_values P m)%Z.
Proof. unfold count_values. lia. Qed.

Lemma count_values_le {A} (P Q : A -> bool) (m : gmap string A) :
  (forall x, P x = true -> Q x = true) -> (count_values P m <= count_values Q m)%Z.
Proof.
  intros HPQ. unfold count_values. apply Nat2Z.inj_le.
  induction ((map_to_list m).*2) as [|x xs IH]; [done|]. rewrite !filter_cons.
  specialize (HPQ x). do 2 case_decide; cbn [length]; try lia; tauto.
Qed.

(** Counting sees only the values that count. *)
Lemma count_values_ext {A} (P : A -> bool) (m m' : gmap string A) :
  (forall k x, P x = true -> m !! k = Some x <-> m' !! k = Some x) ->
  count_values P m = count_values P m'.
Proof.
  intros Hext. unfold count_values. f_equal.
  assert (Hlen : forall n : gmap string A,
    length (filter (fun x => P x = true) (map_to_list n).*2) =
    length (filter (fun kx : string * A => P kx.2 = true) (map_to_list n))).
  { intros n. induction (map_to_list n) as [|[k x] l IH]; [done|].
    rewrite fmap_cons, !filter_cons. cbn [snd]. case_decide; cbn [length]; congruence. }
  rewrite !Hlen. apply Permutation_length, NoDup_Permutation.
  1,2: apply NoDup_filter, NoDup_map_to_list.
  intros [k x]. rewrite !list_elem_of_filter, !elem_of_map_to_list. cbn. naive_solver.
Qed.
