(* ===== verification/GoText.v ===== *)
(** * Text and numbers of the Go standard library

    What the programs use of strconv, strings, fmt and time on text:
    [strconv.Atoi], [%d], [strings.TrimSpace], [strings.Fields],
    [strings.ToLower], [time.ParseDuration], [Duration.String],
    [Duration.Round], and the conversion [int64(f)] of a float. *)

From S2P Require Import Prelude.
From Stdlib Require Import ZArith Lia Ascii SpecFloat DecimalString.
From stdpp Require Import base gmap strings list.
Local Open Scope go_scope.

(** ** Characters *)

Definition code (c : ascii) : Z := Z.of_N (N_of_ascii c).
Definition of_code (n : Z) : ascii := ascii_of_N (Z.to_N n).

Definition is_digit (c : ascii) : bool := ((48 <=? code c) && (code c <=? 57))%Z.
(** The ASCII white space of unicode.IsSpace. *)
Definition is_space (c : ascii) : bool := bool_decide (code c ∈ [9; 10; 11; 12; 13; 32]%Z).

Fixpoint trim_left (s : string) : string :=
  match s with String c rest => if is_space c then trim_left rest else s | EmptyString => s end.
Fixpoint trim_right (s : string) : string :=
  match s with
  | EmptyString => EmptyString
  | String c rest =>
      match trim_right rest with
      | EmptyString => if is_space c then EmptyString else String c EmptyString
      | rest => String c rest
      end
  end.
Definition TrimSpace (s : string) : string := trim_right (trim_left s).

(** [strings.Fields]: the maximal runs of characters that are not spaces. *)
Fixpoint fields_from (word : string) (s : string) : list string :=
  let flush := if String.eqb word EmptyString then [] else [word] in
  match s with
  | EmptyString => flush
  | String c rest =>
      if is_space c then flush ++ fields_from EmptyString rest
      else fields_from (word +:+ String c EmptyString) rest
  end.
Definition Fields (s : string) : list string := fields_from EmptyString s.

(** [strings.ToLower] on ASCII. *)
Definition lower (c : ascii) : ascii :=
  if ((65 <=? code c) && (code c <=? 90))%Z then of_code (code c + 32) else c.
Fixpoint ToLower (s : string) : string :=
  match s with EmptyString => EmptyString | String c rest => String (lower c) (ToLower rest) end.

(** ** Integers *)

(** The text [fmt] prints for [%d]. *)
Definition itoa (z : Z) : string := NilZero.string_of_int (Z.to_int z).

(** [strconv.Atoi]: an optional sign and decimal digits, in the [int64] range. *)
Fixpoint parse_digits (s : string) (acc : Z) : option Z :=
  match s with
  | EmptyString => Some acc
  | String ch rest =>
      let n := Z.of_nat (nat_of_ascii ch) in
      if ((48 <=? n) && (n <=? 57))%Z then parse_digits rest (10 * acc + (n - 48))%Z else None
  end.

Definition Atoi (s : string) : option Z :=
  let '(neg, digits) :=
    match s with
    | String ch rest => if Ascii.eqb ch "-" then (true, rest) else if Ascii.eqb ch "+" then (false, rest) else (false, s)
    | EmptyString => (false, s)
    end in
  if String.eqb digits EmptyString then None
  else
    match parse_digits digits 0 with
    | None => None
    | Some v =>
        let v := if neg : bool then (- v)%Z else v in
        if ((min_int64 <=? v) && (v <=? max_int64))%Z then Some v else None
    end.

(** ** Floats *)

Definition fmul (x y : float64) : float64 := SFmul 53 1024 x y.
Definition fdiv (x y : float64) : float64 := SFdiv 53 1024 x y.
(** [float64(z)] *)
Definition float_of_Z (z : Z) : float64 := binary_normalize 53 1024 z 0 false.
(** The float literal [1e9]. *)
Definition f1e9 : float64 := S754_finite false 8388608000000000 (-23).

(** The integer part of a float, if it is finite. *)
Definition ftrunc (f : float64) : option Z :=
  match f with
  | S754_zero _ => Some 0%Z
  | S754_finite s m e =>
      let n := (if 0 <=? e then Z.pos m * 2 ^ e else Z.pos m / 2 ^ (- e))%Z in
      Some (if s then (- n)%Z else n)
  | _ => None
  end.

(** [int64(f)]: Go leaves the conversion of a float that an [int64] cannot hold
    to the implementation, [conv]. *)
Definition int64_of_float (conv : float64 -> Z) (f : float64) : Z :=
  match ftrunc f with
  | Some z => if ((min_int64 <=? z) && (z <=? max_int64))%Z then z else int64_wrap (conv f)
  | None => int64_wrap (conv f)
  end.

(** ** Durations *)

Definition Nanosecond : Duration := 1.
Definition Microsecond : Duration := 1000.
Definition Minute : Duration := 60 * Second.
Definition Hour : Duration := 60 * Minute.

(** The units of [unitMap]; the micro sign is U+00B5 or U+03BC in UTF-8. *)
Definition micro_sign (a b : nat) : string :=
  String (ascii_of_nat a) (String (ascii_of_nat b) "s").
Definition unit_of (u : string) : option Z :=
  if String.eqb u "ns" then Some Nanosecond
  else if bool_decide (u ∈ ["us"; micro_sign 194 181; micro_sign 206 188]) then Some Microsecond
  else if String.eqb u "ms" then Some Millisecond
  else if String.eqb u "s" then Some Second
  else if String.eqb u "m" then Some Minute
  else if String.eqb u "h" then Some Hour
  else None.

(** [leadingInt]: the digits at the front, an error above 2^63. *)
Fixpoint leading_int (s : string) (x : Z) : option (Z * string) :=
  match s with
  | String c rest =>
      if is_digit c then
        if (2 ^ 63 / 10 <? x)%Z then None
        else
          let x' := (x * 10 + (code c - 48))%Z in
          if (2 ^ 63 <? x')%Z then None else leading_int rest x'
      else Some (x, s)
  | EmptyString => Some (x, s)
  end.

(** [leadingFraction]: digits that would overflow are dropped. *)
Fixpoint leading_fraction (s : string) (x : Z) (scale : float64) (overflow : bool)
    : Z * float64 * string :=
  match s with
  | String c rest =>
      if is_digit c then
        if overflow then leading_fraction rest x scale true
        else if ((2 ^ 63 - 1) / 10 <? x)%Z then leading_fraction rest x scale true
        else
          let y := (x * 10 + (code c - 48))%Z in
          if (2 ^ 63 <? y)%Z then leading_fraction rest x scale true
          else leading_fraction rest y (fmul scale (float_of_Z 10)) false
      else (x, scale, s)
  | EmptyString => (x, scale, s)
  end.

(** The characters up to the next digit or period. *)
Fixpoint leading_unit (s : string) : string * string :=
  match s with
  | String c rest =>
      if Ascii.eqb c "." || is_digit c then (EmptyString, s)
      else let '(u, rest) := leading_unit rest in (String c u, rest)
  | EmptyString => (EmptyString, EmptyString)
  end.

(** One [number unit] pair: its value in nanoseconds and the rest. *)
Definition duration_term (s : string) : option (Z * string) :=
  match s with
  | EmptyString => None
  | String c _ =>
      if negb (Ascii.eqb c "." || is_digit c) then None
      else
        match leading_int s 0 with
        | None => None
        | Some (v, s1) =>
            let pre := negb (String.eqb s s1) in
            let '(f, scale, s2, post) :=
              match s1 with
              | String p rest =>
                  if Ascii.eqb p "." then
                    let '(f, scale, s2) := leading_fraction rest 0 (float_of_Z 1) false in
                    (f, scale, s2, negb (String.eqb rest s2))
                  else (0%Z, float_of_Z 1, s1, false)
              | EmptyString => (0%Z, float_of_Z 1, s1, false)
              end in
            if negb pre && negb post then None
            else
              let '(u, s3) := leading_unit s2 in
              match unit_of u with
              | None => None
              | Some unit =>
                  if (2 ^ 63 / unit <? v)%Z then None
                  else
                    let v := (v * unit)%Z in
                    let v := if (0 <? f)%Z then
                      (v + default 0 (ftrunc (fmul (float_of_Z f) (fdiv (float_of_Z unit) scale))))%Z else v in
                    if (2 ^ 63 <? v)%Z then None else Some (v, s3)
              end
        end
  end.

(** The loop; every term consumes at least its unit, so that the length of the
    text is enough fuel. *)
Fixpoint duration_terms (fuel : nat) (s : string) (d : Z) : option Z :=
  match fuel with
  | O => None
  | S fuel =>
      if String.eqb s EmptyString then Some d
      else
        match duration_term s with
        | None => None
        | Some (v, rest) =>
            let d := uint64_wrap (d + v) in
            if (2 ^ 63 <? d)%Z then None else duration_terms fuel rest d
        end
  end.

Definition ParseDuration (s : string) : option Duration :=
  let '(neg, s) :=
    match s with
    | String c rest => if Ascii.eqb c "-" then (true, rest) else if Ascii.eqb c "+" then (false, rest) else (false, s)
    | EmptyString => (false, s)
    end in
  if String.eqb s "0" then Some 0%Z
  else if String.eqb s EmptyString then None
  else
    match duration_terms (S (String.length s)) s 0 with
    | None => None
    | Some d =>
        if neg : bool then Some (int64_wrap (- d))
        else if (max_int64 <? d)%Z then None else Some d
    end.

(** *** Duration.String *)

Definition digit_char (n : Z) : ascii := of_code (48 + n).

(** [fmtFrac]: the last [prec] decimal digits of [v], trailing zeros and the
    point omitted, and what is left of [v]. *)
Fixpoint fmt_frac (prec : nat) (v : Z) (print : bool) (acc : string) : Z * string :=
  match prec with
  | O => (v, if print then String "." acc else acc)
  | S prec =>
      let d := (v mod 10)%Z in
      let print := print || negb (d =? 0)%Z in
      fmt_frac prec (v / 10) print (if print then String (digit_char d) acc else acc)
  end.

Definition Duration_String (d : Duration) : string :=
  let u := uint64_wrap (Z.abs d) in
  let text :=
    if (u <? Second)%Z then
      if (u =? 0)%Z then "0s"
      else if (u <? Microsecond)%Z then itoa u +:+ "ns"
      else if (u <? Millisecond)%Z then
        let '(n, frac) := fmt_frac 3 u false (micro_sign 194 181) in itoa n +:+ frac
      else let '(n, frac) := fmt_frac 6 u false "ms" in itoa n +:+ frac
    else
      let '(secs, frac) := fmt_frac 9 u false "s" in
      let text := itoa (secs mod 60) +:+ frac in
      let mins := (secs / 60)%Z in
      if (0 <? mins)%Z then
        let text := itoa (mins mod 60) +:+ "m" +:+ text in
        let hours := (mins / 60)%Z in
        if (0 <? hours)%Z then itoa hours +:+ "h" +:+ text else text
      else text in
  if (d <? 0)%Z then "-" +:+ text else text.

(** [Duration.Round]: to the nearest multiple of [m], halves away from zero, the
    extreme value on overflow. *)
Definition less_than_half (x y : Z) : bool := (uint64_wrap (x + x) <? uint64_wrap y)%Z.

Definition Round (d m : Duration) : Duration :=
  if (m <=? 0)%Z then d
  else
    let r := Z.rem d m in
    if (d <? 0)%Z then
      let r := (- r)%Z in
      if less_than_half r m then int64_wrap (d + r)
      else let d1 := int64_wrap (d - m + r) in if (d1 <? d)%Z then d1 else min_int64
    else if less_than_half r m then int64_wrap (d - r)
    else let d1 := int64_wrap (d + m - r) in if (d <? d1)%Z then d1 else max_int64.

Example parse_duration_examples :
  ParseDuration "1h15m30.918s" = Some (4530918 * Millisecond)%Z /\
  ParseDuration "-1.5h" = Some (- 90 * Minute)%Z /\
  ParseDuration "500ms" = Some (500 * Millisecond)%Z /\
  ParseDuration "0" = Some 0%Z /\ ParseDuration "5" = None /\ ParseDuration "" = None /\
  ParseDuration "1x" = None /\ ParseDuration "9223372036854775808ns" = None /\
  ParseDuration "-9223372036854775808ns" = Some min_int64.
Proof. vm_compute. split_and!; reflexivity. Qed.

Example duration_string_examples :
  Duration_String (4530918 * Millisecond) = "1h15m30.918s" /\
  Duration_String (2 * Millisecond + 200000) = "2.2ms" /\
  Duration_String 0 = "0s" /\ Duration_String (-5 * Second) = "-5s" /\
  Duration_String (5 * Minute) = "5m0s" /\ Duration_String 999 = "999ns".
Proof. vm_compute. split_and!; reflexivity. Qed.
