(* ===== verification/Model.v ===== *)
(** * control-plane/internal/model: the entities and their life cycles

    Deployments, pods, nodes and services with the fields of the Go structs,
    the three status tables and the predicates the rest of the control plane
    asks.  A Go status is a string; the named constants are constructors and
    any other string a request body may carry is the [Other] constructor.
    [map[string]string] is a [gmap]; reading a nil map and an empty map is the
    same in Go, so both are the empty [gmap].  The [Clone] methods copy slices,
    maps and pointers so that stored values are never shared with a caller:
    entities are immutable values here, which is what cloning establishes. *)

From S2P Require Import Prelude.
From Stdlib Require Import ZArith Lia.
From stdpp Require Import base gmap strings list.

(** ** Deployments *)

Abbreviation DeploymentType := string (only parsing).
Definition DeploymentBatch : DeploymentType := "batch".
Definition DeploymentService : DeploymentType := "service".

Abbreviation RestartPolicy := string (only parsing).
Definition RestartNever : RestartPolicy := "never".
Definition RestartOnFailure : RestartPolicy := "on_failure".
Definition RestartAlways : RestartPolicy := "always".

Inductive DeploymentStatus :=
| DeploymentPending | DeploymentActive | DeploymentDegraded | DeploymentCancelled
| DeploymentStatusOther (s : string).

#[global] Instance DeploymentStatus_eq_dec : EqDecision DeploymentStatus.
Proof. solve_decision. Defined.

Definition allowedDeploymentTransitions (s : DeploymentStatus) : list DeploymentStatus :=
  match s with
  | DeploymentPending => [DeploymentActive; DeploymentCancelled]
  | DeploymentActive => [DeploymentDegraded; DeploymentCancelled]
  | DeploymentDegraded => [DeploymentActive; DeploymentCancelled]
  | DeploymentCancelled => []
  | DeploymentStatusOther _ => []
  end.

Definition TransitionDeployment (from to : DeploymentStatus) : bool :=
  existsb (fun s => bool_decide (s = to)) (allowedDeploymentTransitions from).

Record ResourceRequest := mkResourceRequest { Req_CPU : float64; Req_MemoryMB : Z }.

(** The zero value [model.ResourceRequest{}]. *)
Definition zeroRequest : ResourceRequest := mkResourceRequest fzero 0.

Record Deployment := mkDeployment {
  Deployment_ID : string;
  Deployment_Name : string;
  Deployment_Namespace : string;
  Deployment_Labels : gmap string string;
  Deployment_Type : DeploymentType;
  Deployment_Image : string;
  Deployment_Command : string;
  Deployment_Args : list string;
  Deployment_Replicas : Z;
  Deployment_MaxRetries : Z;
  Deployment_RestartPolicy : RestartPolicy;
  Deployment_Resources : ResourceRequest;
  Deployment_Status : DeploymentStatus;
  Deployment_CreatedAt : Time;
  Deployment_UpdatedAt : Time }.

(** [d.Status = st; d.UpdatedAt = now] *)
Definition deployment_with_status (st : DeploymentStatus) (now : Time) (d : Deployment) : Deployment :=
  mkDeployment (Deployment_ID d) (Deployment_Name d) (Deployment_Namespace d)
    (Deployment_Labels d) (Deployment_Type d) (Deployment_Image d) (Deployment_Command d)
    (Deployment_Args d) (Deployment_Replicas d) (Deployment_MaxRetries d)
    (Deployment_RestartPolicy d) (Deployment_Resources d) st (Deployment_CreatedAt d) now.

Definition deployment_touch (now : Time) (d : Deployment) : Deployment :=
  deployment_with_status (Deployment_Status d) now d.

(** ** Pods *)

Inductive PodStatus :=
| PodPending | PodScheduled | PodRunning | PodSucceeded | PodFailed | PodRetrying
| PodDeadLetter | PodCancelled | PodStatusOther (s : string).

#[global] Instance PodStatus_eq_dec : EqDecision PodStatus.
Proof. solve_decision. Defined.

Definition allowedPodTransitions (s : PodStatus) : list PodStatus :=
  match s with
  | PodPending => [PodScheduled; PodCancelled]
  | PodScheduled => [PodRunning; PodPending; PodCancelled]
  | PodRunning => [PodSucceeded; PodFailed; PodCancelled]
  | PodFailed => [PodRetrying; PodDeadLetter]
  | PodRetrying => [PodPending; PodScheduled]
  | PodSucceeded => []
  | PodDeadLetter => []
  | PodCancelled => []
  | PodStatusOther _ => []
  end.

Definition TransitionPod (from to : PodStatus) : bool :=
  existsb (fun s => bool_decide (s = to)) (allowedPodTransitions from).

Record Pod := mkPod {
  Pod_ID : string;
  Pod_DeploymentID : string;
  Pod_NodeID : string;
  Pod_Namespace : string;
  Pod_Labels : gmap string string;
  Pod_Attempt : Z;
  Pod_Status : PodStatus;
  Pod_Image : string;
  Pod_ContainerID : string;
  Pod_Command : string;
  Pod_Args : list string;
  Pod_Resources : ResourceRequest;
  Pod_ExitCode : option Z;
  Pod_Error : string;
  Pod_Output : string;
  Pod_CreatedAt : Time;
  Pod_ScheduledAt : option Time;
  Pod_StartedAt : option Time;
  Pod_FinishedAt : option Time;
  Pod_RunAfter : Time }.

(** Field assignments [p.F = v], the mutable fields only. *)
Definition pod_set (nodeID : string) (attempt : Z) (st : PodStatus) (exitCode : option Z)
    (err output : string) (scheduledAt startedAt finishedAt : option Time)
    (runAfter : Time) (p : Pod) : Pod :=
  mkPod (Pod_ID p) (Pod_DeploymentID p) nodeID (Pod_Namespace p) (Pod_Labels p) attempt st
    (Pod_Image p) (Pod_ContainerID p) (Pod_Command p) (Pod_Args p) (Pod_Resources p)
    exitCode err output (Pod_CreatedAt p) scheduledAt startedAt finishedAt runAfter.

Definition pod_with_node (n : string) (p : Pod) : Pod :=
  pod_set n (Pod_Attempt p) (Pod_Status p) (Pod_ExitCode p) (Pod_Error p) (Pod_Output p)
    (Pod_ScheduledAt p) (Pod_StartedAt p) (Pod_FinishedAt p) (Pod_RunAfter p) p.

Definition pod_with_attempt (a : Z) (p : Pod) : Pod :=
  pod_set (Pod_NodeID p) a (Pod_Status p) (Pod_ExitCode p) (Pod_Error p) (Pod_Output p)
    (Pod_ScheduledAt p) (Pod_StartedAt p) (Pod_FinishedAt p) (Pod_RunAfter p) p.

Definition pod_with_runafter (t : Time) (p : Pod) : Pod :=
  pod_set (Pod_NodeID p) (Pod_Attempt p) (Pod_Status p) (Pod_ExitCode p) (Pod_Error p)
    (Pod_Output p) (Pod_ScheduledAt p) (Pod_StartedAt p) (Pod_FinishedAt p) t p.

Definition pod_with_result (code : option Z) (out : string) (p : Pod) : Pod :=
  pod_set (Pod_NodeID p) (Pod_Attempt p) (Pod_Status p) code (Pod_Error p) out
    (Pod_ScheduledAt p) (Pod_StartedAt p) (Pod_FinishedAt p) (Pod_RunAfter p) p.

(** The fields a pod is created with and that no operation of the control
    plane assigns afterwards. *)
Record PodTemplate := mkPodTemplate {
  tmpl_ID : string; tmpl_DeploymentID : string; tmpl_Namespace : string;
  tmpl_Labels : gmap string string; tmpl_Image : string; tmpl_ContainerID : string;
  tmpl_Command : string; tmpl_Args : list string; tmpl_Resources : ResourceRequest;
  tmpl_CreatedAt : Time }.

Definition pod_template (p : Pod) : PodTemplate :=
  mkPodTemplate (Pod_ID p) (Pod_DeploymentID p) (Pod_Namespace p) (Pod_Labels p)
    (Pod_Image p) (Pod_ContainerID p) (Pod_Command p) (Pod_Args p) (Pod_Resources p)
    (Pod_CreatedAt p).

Definition Active (p : Pod) : bool :=
  match Pod_Status p with
  | PodPending | PodScheduled | PodRunning | PodRetrying | PodFailed | PodSucceeded => true
  | _ => false
  end.

(** ** Nodes *)

Inductive NodeStatus :=
| NodeRegistering | NodeHealthy | NodeDraining | NodeUnhealthy | NodeRemoved
| NodeStatusOther (s : string).

#[global] Instance NodeStatus_eq_dec : EqDecision NodeStatus.
Proof. solve_decision. Defined.

Definition allowedNodeTransitions (s : NodeStatus) : list NodeStatus :=
  match s with
  | NodeRegistering => [NodeHealthy; NodeUnhealthy]
  | NodeHealthy => [NodeDraining; NodeUnhealthy]
  | NodeDraining => [NodeRemoved; NodeUnhealthy]
  | NodeUnhealthy => [NodeHealthy; NodeRemoved]
  | NodeRemoved => []
  | NodeStatusOther _ => []
  end.

Definition TransitionNode (from to : NodeStatus) : bool :=
  existsb (fun s => bool_decide (s = to)) (allowedNodeTransitions from).

Record ResourceCapacity := mkResourceCapacity { Cap_CPU : float64; Cap_MemoryMB : Z }.

Definition zeroCapacity : ResourceCapacity := mkResourceCapacity fzero 0.

(** [c1 == c2] on two capacities: field by field, with float equality. *)
Definition capacity_eqb (c1 c2 : ResourceCapacity) : bool :=
  feq (Cap_CPU c1) (Cap_CPU c2) && (Cap_MemoryMB c1 =? Cap_MemoryMB c2)%Z.

Record Node := mkNode {
  Node_ID : string;
  Node_Hostname : string;
  Node_Address : string;
  Node_Labels : gmap string string;
  Node_Status : NodeStatus;
  Node_Capacity : ResourceCapacity;
  Node_Available : ResourceCapacity;
  Node_RunningJobs : Z;
  Node_MaxConcurrent : Z;
  Node_LastHeartbeatAt : Time;
  Node_RegisteredAt : Time }.

Definition node_set (st : NodeStatus) (avail : ResourceCapacity) (running : Z)
    (hb : Time) (n : Node) : Node :=
  mkNode (Node_ID n) (Node_Hostname n) (Node_Address n) (Node_Labels n) st
    (Node_Capacity n) avail running (Node_MaxConcurrent n) hb (Node_RegisteredAt n).

Definition node_with_status (st : NodeStatus) (n : Node) : Node :=
  node_set st (Node_Available n) (Node_RunningJobs n) (Node_LastHeartbeatAt n) n.

Definition node_with_usage (avail : ResourceCapacity) (running : Z) (n : Node) : Node :=
  node_set (Node_Status n) avail running (Node_LastHeartbeatAt n) n.

(** The fields a node registers with. *)
Record NodeTemplate := mkNodeTemplate {
  ntmpl_ID : string; ntmpl_Hostname : string; ntmpl_Address : string;
  ntmpl_Labels : gmap string string; ntmpl_Capacity : ResourceCapacity;
  ntmpl_MaxConcurrent : Z; ntmpl_RegisteredAt : Time }.

Definition node_template (n : Node) : NodeTemplate :=
  mkNodeTemplate (Node_ID n) (Node_Hostname n) (Node_Address n) (Node_Labels n)
    (Node_Capacity n) (Node_MaxConcurrent n) (Node_RegisteredAt n).

Definition HasCapacityFor (n : Node) (req : ResourceRequest) : bool :=
  if ((0 <? Node_MaxConcurrent n) && (Node_MaxConcurrent n <=? Node_RunningJobs n))%Z
  then false
  else fle (Req_CPU req) (Cap_CPU (Node_Available n))
       && (Req_MemoryMB req <=? Cap_MemoryMB (Node_Available n))%Z.

(** ** Services *)

Abbreviation LoadBalanceStrategy := string (only parsing).
Definition StrategyRoundRobin : LoadBalanceStrategy := "round_robin".
Definition StrategyLeastConn : LoadBalanceStrategy := "least_conn".
Definition StrategyWeighted : LoadBalanceStrategy := "weighted_round_robin".

Record RetryPolicy := mkRetryPolicy { MaxAttempts : Z; PerTryTimeoutMS : Z }.

Record HealthCheckConfig := mkHealthCheckConfig { Hc_Path : string; Hc_IntervalSeconds : Z }.

Record BackendSpec := mkBackendSpec { Spec_Name : string; Spec_URL : string; Spec_Weight : Z }.

Record Service := mkService {
  Service_ID : string;
  Service_Name : string;
  Service_Namespace : string;
  Service_PathPrefix : string;
  Service_Strategy : LoadBalanceStrategy;
  Service_Selector : gmap string string;
  Service_RetryPolicy : RetryPolicy;
  Service_HealthCheck : HealthCheckConfig;
  Service_UpdatedAt : Time }.

Definition service_touch (now : Time) (s : Service) : Service :=
  mkService (Service_ID s) (Service_Name s) (Service_Namespace s) (Service_PathPrefix s)
    (Service_Strategy s) (Service_Selector s) (Service_RetryPolicy s)
    (Service_HealthCheck s) now.

#[global] Instance ResourceRequest_eq_dec : EqDecision ResourceRequest.
Proof. solve_decision. Defined.
#[global] Instance ResourceCapacity_eq_dec : EqDecision ResourceCapacity.
Proof. solve_decision. Defined.
#[global] Instance Deployment_eq_dec : EqDecision Deployment.
Proof. solve_decision. Defined.
#[global] Instance Pod_eq_dec : EqDecision Pod.
Proof. solve_decision. Defined.
#[global] Instance Node_eq_dec : EqDecision Node.
Proof. solve_decision. Defined.
#[global] Instance RetryPolicy_eq_dec : EqDecision RetryPolicy.
Proof. solve_decision. Defined.
#[global] Instance HealthCheckConfig_eq_dec : EqDecision HealthCheckConfig.
Proof. solve_decision. Defined.
#[global] Instance Service_eq_dec : EqDecision Service.
Proof. solve_decision. Defined.

(** ** Facts about the status tables *)

Lemma TransitionPod_spec from to :
  TransitionPod from to = true <-> to ∈ allowedPodTransitions from.
Proof.
  unfold TransitionPod. rewrite existsb_exists. setoid_rewrite bool_decide_eq_true.
  rewrite list_elem_of_In. naive_solver.
Qed.

Lemma TransitionNode_spec from to :
  TransitionNode from to = true <-> to ∈ allowedNodeTransitions from.
Proof.
  unfold TransitionNode. rewrite existsb_exists. setoid_rewrite bool_decide_eq_true.
  rewrite list_elem_of_In. naive_solver.
Qed.

Lemma TransitionDeployment_spec from to :
  TransitionDeployment from to = true <-> to ∈ allowedDeploymentTransitions from.
Proof.
  unfold TransitionDeployment. rewrite existsb_exists. setoid_rewrite bool_decide_eq_true.
  rewrite list_elem_of_In. naive_solver.
Qed.

(** Life-cycle reachability: zero or more legal transitions. *)
Definition pod_step (s s' : PodStatus) : Prop := TransitionPod s s' = true.
Definition pod_path : PodStatus -> PodStatus -> Prop := rtc pod_step.
Definition node_path : NodeStatus -> NodeStatus -> Prop :=
  rtc (fun s s' => TransitionNode s s' = true).
Definition deployment_path : DeploymentStatus -> DeploymentStatus -> Prop :=
  rtc (fun s s' => TransitionDeployment s s' = true).
