(* ===== verification/Store.v ===== *)
(** * control-plane/internal/state: the Store interface and its contract

    [StoreOp] is the Go interface [state.Store]: one constructor per method,
    indexed by what the method returns.  [op_post] is the contract every
    implementation meets, on the abstract [Cluster] of four maps; [StoreImpl]
    packs an implementation with its abstraction and the proof that it meets
    the contract.  The scheduler, the reconciler and the API handlers are
    verified against [op_post] and run on any [StoreImpl]. *)

From S2P Require Import Prelude Model.
From Stdlib Require Import ZArith Lia.
From stdpp Require Import base gmap strings list.

(** ** Errors *)

Inductive Err :=
| ErrNotFound | ErrAlreadyExists | ErrInvalidTransition
| ErrEncoding.  (* an error of the storage engine or of the JSON codec *)

#[global] Instance Err_eq_dec : EqDecision Err.
Proof. solve_decision. Defined.

(** A Go [error]: [None] is nil. *)
Abbreviation error := (option Err) (only parsing).

(** ** matchesSelector *)

(** [labels[k]] of an absent key is the empty string. *)
Definition label_at (labels : gmap string string) (k : string) : string :=
  default EmptyString (labels !! k).

Definition matchesSelector (labels selector : gmap string string) : bool :=
  forallb (fun kv => bool_decide (label_at labels kv.1 = kv.2)) (map_to_list selector).

(** ** The interface *)

Inductive StoreOp : Type -> Type :=
| OpCreateDeployment (d : Deployment) : StoreOp error
| OpGetDeployment (id : string) : StoreOp (Deployment + Err)
| OpListDeployments : StoreOp (list Deployment * error)
| OpListDeploymentsByNamespace (ns : string) : StoreOp (list Deployment * error)
| OpUpdateDeployment (d : Deployment) : StoreOp error
| OpTransitionDeployment (id : string) (to : DeploymentStatus) : StoreOp error
| OpDeleteDeployment (id : string) : StoreOp error
| OpCreatePod (p : Pod) : StoreOp error
| OpGetPod (id : string) : StoreOp (Pod + Err)
| OpListPodsByDeployment (deploymentID : string) : StoreOp (list Pod * error)
| OpListPodsByStatus (st : PodStatus) : StoreOp (list Pod * error)
| OpListPodsByNode (nodeID : string) : StoreOp (list Pod * error)
| OpListPodsByLabels (ns : string) (selector : gmap string string) : StoreOp (list Pod * error)
| OpUpdatePod (p : Pod) : StoreOp error
| OpTransitionPod (id : string) (to : PodStatus) (errMsg : string) : StoreOp error
| OpRegisterNode (n : Node) : StoreOp error
| OpGetNode (id : string) : StoreOp (Node + Err)
| OpListNodes : StoreOp (list Node * error)
| OpListNodesByLabels (selector : gmap string string) : StoreOp (list Node * error)
| OpUpdateNode (n : Node) : StoreOp error
| OpTransitionNode (id : string) (to : NodeStatus) : StoreOp error
| OpUpsertService (s : Service) : StoreOp error
| OpGetService (id : string) : StoreOp (Service + Err)
| OpListServices : StoreOp (list Service * error)
| OpDeleteService (id : string) : StoreOp error.

(** ** The abstract state *)

Record Cluster := mkCluster {
  deployments : gmap string Deployment;
  pods : gmap string Pod;
  nodes : gmap string Node;
  services : gmap string Service }.

Definition with_deployments (m : gmap string Deployment) (c : Cluster) : Cluster :=
  mkCluster m (pods c) (nodes c) (services c).
Definition with_pods (m : gmap string Pod) (c : Cluster) : Cluster :=
  mkCluster (deployments c) m (nodes c) (services c).
Definition with_nodes (m : gmap string Node) (c : Cluster) : Cluster :=
  mkCluster (deployments c) (pods c) m (services c).
Definition with_services (m : gmap string Service) (c : Cluster) : Cluster :=
  mkCluster (deployments c) (pods c) (nodes c) m.

Definition empty_cluster : Cluster := mkCluster ∅ ∅ ∅ ∅.

(** Every entity is stored under its own ID. *)
Record cluster_wf (c : Cluster) : Prop := {
  wf_deployments : map_Forall (fun k d => Deployment_ID d = k) (deployments c);
  wf_pods : map_Forall (fun k p => Pod_ID p = k) (pods c);
  wf_nodes : map_Forall (fun k n => Node_ID n = k) (nodes c);
  wf_services : map_Forall (fun k s => Service_ID s = k) (services c) }.

(** ** Status updates as the store applies them *)

Definition isTerminalPodStatus (s : PodStatus) : bool :=
  match s with
  | PodSucceeded | PodDeadLetter | PodCancelled => true
  | _ => false
  end.

(** [if t == nil { t = &now }] *)
Definition set_once (now : Time) (t : option Time) : option Time :=
  match t with None => Some now | Some _ => t end.

(** The update [TransitionPod] makes to a pod once the transition is legal. *)
Definition apply_pod_transition (to : PodStatus) (errMsg : string) (now : Time) (p : Pod) : Pod :=
  pod_set (Pod_NodeID p) (Pod_Attempt p) to (Pod_ExitCode p)
    (if String.eqb errMsg EmptyString then Pod_Error p else errMsg)
    (Pod_Output p)
    (match to with PodScheduled => set_once now (Pod_ScheduledAt p) | _ => Pod_ScheduledAt p end)
    (match to with PodRunning => set_once now (Pod_StartedAt p) | _ => Pod_StartedAt p end)
    (if isTerminalPodStatus to then set_once now (Pod_FinishedAt p) else Pod_FinishedAt p)
    (Pod_RunAfter p) p.

(** ** The contract *)

(** A new entity under a free key. *)
Definition create_post {A} (key : string) (x : A) (m : gmap string A) (r : error)
    (m' : gmap string A) : Prop :=
  match m !! key with
  | Some _ => r = Some ErrAlreadyExists /\ m' = m
  | None => r = None /\ m' = <[key := x]> m
  end.

(** Overwriting an existing entity. *)
Definition update_post {A} (key : string) (x : A) (m : gmap string A) (r : error)
    (m' : gmap string A) : Prop :=
  match m !! key with
  | Some _ => r = None /\ m' = <[key := x]> m
  | None => r = Some ErrNotFound /\ m' = m
  end.

Definition delete_post {A} (key : string) (m : gmap string A) (r : error)
    (m' : gmap string A) : Prop :=
  match m !! key with
  | Some _ => r = None /\ m' = delete key m
  | None => r = Some ErrNotFound /\ m' = m
  end.

(** A validated status change. *)
Definition transition_post {A} (key : string) (legal : A -> bool) (f : A -> A)
    (m : gmap string A) (r : error) (m' : gmap string A) : Prop :=
  match m !! key with
  | None => r = Some ErrNotFound /\ m' = m
  | Some x => if legal x then r = None /\ m' = <[key := f x]> m
              else r = Some ErrInvalidTransition /\ m' = m
  end.

Definition get_post {A} (key : string) (m : gmap string A) (r : A + Err) : Prop :=
  r = match m !! key with Some x => inl x | None => inr ErrNotFound end.

(** A listing returns the matching values in an unspecified order. *)
Definition list_post {A} (P : A -> bool) (m : gmap string A) (r : list A * error) : Prop :=
  r.2 = None /\ r.1 ≡ₚ filter (fun x => P x = true) (map_to_list m).*2.

(** The outcome of a method whose storage engine reports an error: the error
    is returned and nothing is stored. *)
Definition op_fault {X} (op : StoreOp X) : X -> Prop :=
  match op in StoreOp X return X -> Prop with
  | OpGetDeployment _ => fun r => r = inr ErrEncoding
  | OpListDeployments => fun r => r.2 = Some ErrEncoding
  | OpListDeploymentsByNamespace _ => fun r => r.2 = Some ErrEncoding
  | OpGetPod _ => fun r => r = inr ErrEncoding
  | OpListPodsByDeployment _ => fun r => r.2 = Some ErrEncoding
  | OpListPodsByStatus _ => fun r => r.2 = Some ErrEncoding
  | OpListPodsByNode _ => fun r => r.2 = Some ErrEncoding
  | OpListPodsByLabels _ _ => fun r => r.2 = Some ErrEncoding
  | OpGetNode _ => fun r => r = inr ErrEncoding
  | OpListNodes => fun r => r.2 = Some ErrEncoding
  | OpListNodesByLabels _ => fun r => r.2 = Some ErrEncoding
  | OpGetService _ => fun r => r = inr ErrEncoding
  | OpListServices => fun r => r.2 = Some ErrEncoding
  | OpCreateDeployment _ | OpUpdateDeployment _ | OpTransitionDeployment _ _
  | OpDeleteDeployment _ | OpCreatePod _ | OpUpdatePod _ | OpTransitionPod _ _ _
  | OpRegisterNode _ | OpUpdateNode _ | OpTransitionNode _ _ | OpUpsertService _
  | OpDeleteService _ => fun r => r = Some ErrEncoding
  end.

(** The outcome when the storage engine works; [now] is the clock reading the
    method makes. *)
Definition op_ok {X} (op : StoreOp X) (now : Time) (c : Cluster) : X -> Cluster -> Prop :=
  match op in StoreOp X return X -> Cluster -> Prop with
  | OpCreateDeployment d => fun r c' =>
      exists m, create_post (Deployment_ID d) d (deployments c) r m /\ c' = with_deployments m c
  | OpGetDeployment id => fun r c' => get_post id (deployments c) r /\ c' = c
  | OpListDeployments => fun r c' => list_post (fun _ => true) (deployments c) r /\ c' = c
  | OpListDeploymentsByNamespace ns => fun r c' =>
      list_post (fun d => bool_decide (Deployment_Namespace d = ns)) (deployments c) r /\ c' = c
  | OpUpdateDeployment d => fun r c' =>
      exists m, update_post (Deployment_ID d) (deployment_touch now d) (deployments c) r m
                /\ c' = with_deployments m c
  | OpTransitionDeployment id to => fun r c' =>
      exists m, transition_post id (fun d => TransitionDeployment (Deployment_Status d) to)
                  (deployment_with_status to now) (deployments c) r m
                /\ c' = with_deployments m c
  | OpDeleteDeployment id => fun r c' =>
      exists m, delete_post id (deployments c) r m /\ c' = with_deployments m c
  | OpCreatePod p => fun r c' =>
      exists m, create_post (Pod_ID p) p (pods c) r m /\ c' = with_pods m c
  | OpGetPod id => fun r c' => get_post id (pods c) r /\ c' = c
  | OpListPodsByDeployment did => fun r c' =>
      list_post (fun p => bool_decide (Pod_DeploymentID p = did)) (pods c) r /\ c' = c
  | OpListPodsByStatus st => fun r c' =>
      list_post (fun p => bool_decide (Pod_Status p = st)) (pods c) r /\ c' = c
  | OpListPodsByNode nid => fun r c' =>
      list_post (fun p => bool_decide (Pod_NodeID p = nid)) (pods c) r /\ c' = c
  | OpListPodsByLabels ns sel => fun r c' =>
      list_post (fun p => (String.eqb ns EmptyString || bool_decide (Pod_Namespace p = ns))
                          && matchesSelector (Pod_Labels p) sel) (pods c) r /\ c' = c
  | OpUpdatePod p => fun r c' =>
      exists m, update_post (Pod_ID p) p (pods c) r m /\ c' = with_pods m c
  | OpTransitionPod id to errMsg => fun r c' =>
      exists m, transition_post id (fun p => TransitionPod (Pod_Status p) to)
                  (apply_pod_transition to errMsg now) (pods c) r m
                /\ c' = with_pods m c
  | OpRegisterNode n => fun r c' =>
      exists m, create_post (Node_ID n) n (nodes c) r m /\ c' = with_nodes m c
  | OpGetNode id => fun r c' => get_post id (nodes c) r /\ c' = c
  | OpListNodes => fun r c' => list_post (fun _ => true) (nodes c) r /\ c' = c
  | OpListNodesByLabels sel => fun r c' =>
      list_post (fun n => matchesSelector (Node_Labels n) sel) (nodes c) r /\ c' = c
  | OpUpdateNode n => fun r c' =>
      exists m, update_post (Node_ID n) n (nodes c) r m /\ c' = with_nodes m c
  | OpTransitionNode id to => fun r c' =>
      exists m, transition_post id (fun n => TransitionNode (Node_Status n) to)
                  (node_with_status to) (nodes c) r m
                /\ c' = with_nodes m c
  | OpUpsertService s => fun r c' =>
      r = None /\ c' = with_services (<[Service_ID s := service_touch now s]> (services c)) c
  | OpGetService id => fun r c' => get_post id (services c) r /\ c' = c
  | OpListServices => fun r c' => list_post (fun _ => true) (services c) r /\ c' = c
  | OpDeleteService id => fun r c' =>
      exists m, delete_post id (services c) r m /\ c' = with_services m c
  end.

(** The contract; [faults] says whether storage errors are possible. *)
Definition op_post (faults : bool) {X} (op : StoreOp X) (now : Time)
    (c : Cluster) (r : X) (c' : Cluster) : Prop :=
  op_ok op now c r c' \/ (faults = true /\ op_fault op r /\ c' = c).

(** ** Implementations

    An implementation runs every method on its own state; [now] is the clock
    reading the method may take and [n] numbers the calls. *)
Class StoreImpl (S : Type) := {
  store_do : forall X, StoreOp X -> Time -> nat -> S -> X * S;
  store_faults : bool;
  store_abs : S -> Cluster -> Prop;
  store_do_ok : forall X (op : StoreOp X) now n s c, store_abs s c ->
    exists c', op_post store_faults op now c (store_do X op now n s).1 c'
               /\ store_abs (store_do X op now n s).2 c' }.
Arguments store_do {S _ X}.

(** ** Consequences of the contract *)

Lemma with_pods_id c : with_pods (pods c) c = c.
Proof. by destruct c. Qed.
Lemma with_nodes_id c : with_nodes (nodes c) c = c.
Proof. by destruct c. Qed.
Lemma with_deployments_id c : with_deployments (deployments c) c = c.
Proof. by destruct c. Qed.
Lemma with_services_id c : with_services (services c) c = c.
Proof. by destruct c. Qed.

Section Keyed.
Context {A : Type} (f : A -> string) (m m' : gmap string A) (r : error) (k : string) (x : A).
Hypothesis Hwf : map_Forall (fun k x => f x = k) m.

Lemma create_post_wf :
  create_post k x m r m' -> f x = k -> map_Forall (fun k x => f x = k) m'.
Proof using Hwf.
  unfold create_post. intros H Hk. destruct (m !! k); destruct H as [_ ->]; [done|].
  by apply map_Forall_insert_2.
Qed.

Lemma update_post_wf :
  update_post k x m r m' -> f x = k -> map_Forall (fun k x => f x = k) m'.
Proof using Hwf.
  unfold update_post. intros H Hk. destruct (m !! k); destruct H as [_ ->]; [|done].
  by apply map_Forall_insert_2.
Qed.

Lemma delete_post_wf :
  delete_post k m r m' -> map_Forall (fun k x => f x = k) m'.
Proof using Hwf.
  unfold delete_post. intros H. destruct (m !! k); destruct H as [_ ->]; [|done].
  by apply map_Forall_delete.
Qed.

Lemma transition_post_wf legal g :
  transition_post k legal g m r m' ->
  (forall x, f (g x) = f x) -> map_Forall (fun k x => f x = k) m'.
Proof using Hwf.
  unfold transition_post. intros H Hg. destruct (m !! k) as [y|] eqn:E; [|by destruct H as [_ ->]].
  destruct (legal y); destruct H as [_ ->]; [|done].
  apply map_Forall_insert_2; [|done]. rewrite Hg. by apply Hwf.
Qed.
End Keyed.

Lemma matchesSelector_spec labels selector :
  matchesSelector labels selector = true <->
  forall k v, selector !! k = Some v -> label_at labels k = v.
Proof.
  unfold matchesSelector. rewrite forallb_forall. split.
  - intros H k v Hkv. specialize (H (k, v)). cbn in H.
    rewrite bool_decide_eq_true in H. apply H.
    by apply list_elem_of_In, elem_of_map_to_list.
  - intros H [k v] Hin. apply bool_decide_eq_true, H.
    by apply elem_of_map_to_list, list_elem_of_In.
Qed.

Lemma list_post_elem {A} (P : A -> bool) (m : gmap string A) l e x :
  list_post P m (l, e) -> x ∈ l <-> (exists k, m !! k = Some x) /\ P x = true.
Proof.
  intros [_ Hp]; cbn in Hp. rewrite Hp, list_elem_of_filter, elem_of_map_values. tauto.
Qed.

Lemma list_post_nodup {A} (f : A -> string) (P : A -> bool) (m : gmap string A) l e :
  map_Forall (fun k x => f x = k) m -> list_post P m (l, e) -> NoDup (f <$> l).
Proof.
  intros Hwf [_ Hp]; cbn in Hp. rewrite Hp.
  pose proof (NoDup_values_key f m Hwf) as Hnd.
  revert Hnd. generalize ((map_to_list m).*2) as vs. clear.
  induction vs as [|v vs IH]; [done|].
  rewrite filter_cons, fmap_cons, NoDup_cons. intros [Hni Hnd].
  destruct (decide _); [|by apply IH]. rewrite fmap_cons. apply NoDup_cons. split; [|by apply IH].
  intros Hin. apply Hni. apply list_elem_of_fmap in Hin as (y & -> & Hy).
  apply list_elem_of_filter in Hy as [_ Hy]. by apply list_elem_of_fmap_2.
Qed.

(** Every method keeps entities under their own ID. *)
Lemma op_post_wf faults X (op : StoreOp X) now c r c' :
  cluster_wf c -> op_post faults op now c r c' -> cluster_wf c'.
Proof.
  intros [Hd Hp Hn Hs] [H|(_ & _ & ->)]; [|by split].
  destruct op; cbn in H; split_and_all; subst; split; cbn; eauto 2;
    solve [eapply create_post_wf; eassumption || done | eapply update_post_wf; eassumption || done
          | eapply delete_post_wf; eassumption | eapply transition_post_wf; eassumption || done
          | by apply map_Forall_insert_2].
Qed.
