(* ===== verification/MemoryStore.v ===== *)
(** * control-plane/internal/state/memory_store.go

    The in-memory store, one definition per method.  The mutex makes every
    writing method atomic, so a method is a function on the four maps; the
    clock reading a method makes is its argument [now], the order in which
    [sync.Map.Range] visits the entries comes from [map_range].  The instance
    at the end shows that the store meets the contract of [Store]. *)

From S2P Require Import Prelude Model Store.
From Stdlib Require Import ZArith Lia.
From stdpp Require Import base gmap strings list.

Record MemoryStore := mkMemoryStore {
  m_deployments : gmap string Deployment;
  m_pods : gmap string Pod;
  m_nodes : gmap string Node;
  m_services : gmap string Service }.

Definition NewMemoryStore : MemoryStore := mkMemoryStore ∅ ∅ ∅ ∅.

Definition put_deployment (id : string) (d : Deployment) (s : MemoryStore) : MemoryStore :=
  mkMemoryStore (<[id := d]> (m_deployments s)) (m_pods s) (m_nodes s) (m_services s).
Definition put_pod (id : string) (p : Pod) (s : MemoryStore) : MemoryStore :=
  mkMemoryStore (m_deployments s) (<[id := p]> (m_pods s)) (m_nodes s) (m_services s).
Definition put_node (id : string) (n : Node) (s : MemoryStore) : MemoryStore :=
  mkMemoryStore (m_deployments s) (m_pods s) (<[id := n]> (m_nodes s)) (m_services s).
Definition put_service (id : string) (v : Service) (s : MemoryStore) : MemoryStore :=
  mkMemoryStore (m_deployments s) (m_pods s) (m_nodes s) (<[id := v]> (m_services s)).

(** [Range] with a callback that appends the entries passing [keep]. *)
Definition range_filter `{MapRange} {A} (n : nat) (keep : A -> bool) (m : gmap string A) : list A :=
  filter (fun x => keep x = true) (map_range n m).

(** ** Deployments *)

Definition CreateDeployment (d : Deployment) (s : MemoryStore) : error * MemoryStore :=
  match m_deployments s !! Deployment_ID d with
  | Some _ => (Some ErrAlreadyExists, s)
  | None => (None, put_deployment (Deployment_ID d) d s)
  end.

Definition GetDeployment (id : string) (s : MemoryStore) : Deployment + Err :=
  match m_deployments s !! id with
  | None => inr ErrNotFound
  | Some d => inl d
  end.

Definition ListDeployments `{MapRange} (n : nat) (s : MemoryStore) : list Deployment * error :=
  (range_filter n (fun _ => true) (m_deployments s), None).

Definition ListDeploymentsByNamespace `{MapRange} (n : nat) (namespace : string) (s : MemoryStore)
    : list Deployment * error :=
  (range_filter n (fun d => bool_decide (Deployment_Namespace d = namespace)) (m_deployments s), None).

Definition UpdateDeployment (now : Time) (d : Deployment) (s : MemoryStore) : error * MemoryStore :=
  match m_deployments s !! Deployment_ID d with
  | None => (Some ErrNotFound, s)
  | Some _ => (None, put_deployment (Deployment_ID d) (deployment_touch now d) s)
  end.

Definition TransitionDeployment (now : Time) (id : string) (to : DeploymentStatus)
    (s : MemoryStore) : error * MemoryStore :=
  match m_deployments s !! id with
  | None => (Some ErrNotFound, s)
  | Some d =>
      if negb (Model.TransitionDeployment (Deployment_Status d) to)
      then (Some ErrInvalidTransition, s)
      else (None, put_deployment id (deployment_with_status to now d) s)
  end.

Definition DeleteDeployment (id : string) (s : MemoryStore) : error * MemoryStore :=
  match m_deployments s !! id with
  | None => (Some ErrNotFound, s)
  | Some _ => (None, mkMemoryStore (delete id (m_deployments s)) (m_pods s) (m_nodes s) (m_services s))
  end.

(** ** Pods *)

Definition CreatePod (p : Pod) (s : MemoryStore) : error * MemoryStore :=
  match m_pods s !! Pod_ID p with
  | Some _ => (Some ErrAlreadyExists, s)
  | None => (None, put_pod (Pod_ID p) p s)
  end.

Definition GetPod (id : string) (s : MemoryStore) : Pod + Err :=
  match m_pods s !! id with
  | None => inr ErrNotFound
  | Some p => inl p
  end.

Definition ListPodsByDeployment `{MapRange} (n : nat) (deploymentID : string) (s : MemoryStore)
    : list Pod * error :=
  (range_filter n (fun p => bool_decide (Pod_DeploymentID p = deploymentID)) (m_pods s), None).

Definition ListPodsByStatus `{MapRange} (n : nat) (status : PodStatus) (s : MemoryStore)
    : list Pod * error :=
  (range_filter n (fun p => bool_decide (Pod_Status p = status)) (m_pods s), None).

Definition ListPodsByNode `{MapRange} (n : nat) (nodeID : string) (s : MemoryStore)
    : list Pod * error :=
  (range_filter n (fun p => bool_decide (Pod_NodeID p = nodeID)) (m_pods s), None).

Definition ListPodsByLabels `{MapRange} (n : nat) (namespace : string)
    (selector : gmap string string) (s : MemoryStore) : list Pod * error :=
  (range_filter n (fun p =>
     (String.eqb namespace EmptyString || bool_decide (Pod_Namespace p = namespace))
     && matchesSelector (Pod_Labels p) selector) (m_pods s), None).

Definition UpdatePod (p : Pod) (s : MemoryStore) : error * MemoryStore :=
  match m_pods s !! Pod_ID p with
  | None => (Some ErrNotFound, s)
  | Some _ => (None, put_pod (Pod_ID p) p s)
  end.

Definition TransitionPod (now : Time) (id : string) (to : PodStatus) (errMsg : string)
    (s : MemoryStore) : error * MemoryStore :=
  match m_pods s !! id with
  | None => (Some ErrNotFound, s)
  | Some p =>
      if negb (Model.TransitionPod (Pod_Status p) to)
      then (Some ErrInvalidTransition, s)
      else
        let scheduledAt := match to with
          | PodScheduled => set_once now (Pod_ScheduledAt p) | _ => Pod_ScheduledAt p end in
        let startedAt := match to with
          | PodRunning => set_once now (Pod_StartedAt p) | _ => Pod_StartedAt p end in
        let finishedAt :=
          if isTerminalPodStatus to then set_once now (Pod_FinishedAt p) else Pod_FinishedAt p in
        let err := if String.eqb errMsg EmptyString then Pod_Error p else errMsg in
        (None, put_pod id (pod_set (Pod_NodeID p) (Pod_Attempt p) to (Pod_ExitCode p) err
                 (Pod_Output p) scheduledAt startedAt finishedAt (Pod_RunAfter p) p) s)
  end.

(** ** Nodes *)

Definition RegisterNode (n : Node) (s : MemoryStore) : error * MemoryStore :=
  match m_nodes s !! Node_ID n with
  | Some _ => (Some ErrAlreadyExists, s)
  | None => (None, put_node (Node_ID n) n s)
  end.

Definition GetNode (id : string) (s : MemoryStore) : Node + Err :=
  match m_nodes s !! id with
  | None => inr ErrNotFound
  | Some n => inl n
  end.

Definition ListNodes `{MapRange} (n : nat) (s : MemoryStore) : list Node * error :=
  (range_filter n (fun _ => true) (m_nodes s), None).

Definition ListNodesByLabels `{MapRange} (n : nat) (selector : gmap string string)
    (s : MemoryStore) : list Node * error :=
  (range_filter n (fun nd => matchesSelector (Node_Labels nd) selector) (m_nodes s), None).

Definition UpdateNode (n : Node) (s : MemoryStore) : error * MemoryStore :=
  match m_nodes s !! Node_ID n with
  | None => (Some ErrNotFound, s)
  | Some _ => (None, put_node (Node_ID n) n s)
  end.

Definition TransitionNode (id : string) (to : NodeStatus) (s : MemoryStore) : error * MemoryStore :=
  match m_nodes s !! id with
  | None => (Some ErrNotFound, s)
  | Some n =>
      if negb (Model.TransitionNode (Node_Status n) to)
      then (Some ErrInvalidTransition, s)
      else (None, put_node id (node_with_status to n) s)
  end.

(** ** Services *)

Definition UpsertService (now : Time) (svc : Service) (s : MemoryStore) : error * MemoryStore :=
  (None, put_service (Service_ID svc) (service_touch now svc) s).

Definition GetService (id : string) (s : MemoryStore) : Service + Err :=
  match m_services s !! id with
  | None => inr ErrNotFound
  | Some v => inl v
  end.

Definition ListServices `{MapRange} (n : nat) (s : MemoryStore) : list Service * error :=
  (range_filter n (fun _ => true) (m_services s), None).

Definition DeleteService (id : string) (s : MemoryStore) : error * MemoryStore :=
  match m_services s !! id with
  | None => (Some ErrNotFound, s)
  | Some _ => (None, mkMemoryStore (m_deployments s) (m_pods s) (m_nodes s) (delete id (m_services s)))
  end.

(** ** The store as an implementation of the interface *)

(** The dispatch of the [Store] interface to the methods above. *)
Definition mem_do `{MapRange} X (op : StoreOp X) (now : Time) (n : nat) (s : MemoryStore)
    : X * MemoryStore :=
  match op in StoreOp X return X * MemoryStore with
  | OpCreateDeployment d => CreateDeployment d s
  | OpGetDeployment id => (GetDeployment id s, s)
  | OpListDeployments => (ListDeployments n s, s)
  | OpListDeploymentsByNamespace ns => (ListDeploymentsByNamespace n ns s, s)
  | OpUpdateDeployment d => UpdateDeployment now d s
  | OpTransitionDeployment id to => TransitionDeployment now id to s
  | OpDeleteDeployment id => DeleteDeployment id s
  | OpCreatePod p => CreatePod p s
  | OpGetPod id => (GetPod id s, s)
  | OpListPodsByDeployment did => (ListPodsByDeployment n did s, s)
  | OpListPodsByStatus st => (ListPodsByStatus n st s, s)
  | OpListPodsByNode nid => (ListPodsByNode n nid s, s)
  | OpListPodsByLabels ns sel => (ListPodsByLabels n ns sel s, s)
  | OpUpdatePod p => UpdatePod p s
  | OpTransitionPod id to e => TransitionPod now id to e s
  | OpRegisterNode nd => RegisterNode nd s
  | OpGetNode id => (GetNode id s, s)
  | OpListNodes => (ListNodes n s, s)
  | OpListNodesByLabels sel => (ListNodesByLabels n sel s, s)
  | OpUpdateNode nd => UpdateNode nd s
  | OpTransitionNode id to => TransitionNode id to s
  | OpUpsertService v => UpsertService now v s
  | OpGetService id => (GetService id s, s)
  | OpListServices => (ListServices n s, s)
  | OpDeleteService id => DeleteService id s
  end.

Definition mem_abs (s : MemoryStore) : Cluster :=
  mkCluster (m_deployments s) (m_pods s) (m_nodes s) (m_services s).

Lemma range_filter_post `{MapRange} {A} n (keep : A -> bool) (m : gmap string A) :
  list_post keep m (range_filter n keep m, None).
Proof. split; [done|]. unfold range_filter. cbn. by rewrite map_range_perm. Qed.

Create HintDb mem_ops.
#[local] Hint Unfold CreateDeployment GetDeployment UpdateDeployment TransitionDeployment
  DeleteDeployment CreatePod GetPod UpdatePod RegisterNode GetNode UpdateNode
  TransitionNode GetService DeleteService
  create_post update_post transition_post delete_post get_post : mem_ops.

(** The field updates of [TransitionPod], folded. *)
Lemma TransitionPod_unfold now id to errMsg s :
  TransitionPod now id to errMsg s =
  match m_pods s !! id with
  | None => (Some ErrNotFound, s)
  | Some p => if negb (Model.TransitionPod (Pod_Status p) to) then (Some ErrInvalidTransition, s)
              else (None, put_pod id (apply_pod_transition to errMsg now p) s)
  end.
Proof. done. Qed.

(** Every method of the in-memory store does what the contract says. *)
Lemma mem_do_op_ok `{MapRange} X (op : StoreOp X) now n s :
  op_ok op now (mem_abs s) (mem_do X op now n s).1 (mem_abs (mem_do X op now n s).2).
Proof.
  destruct op; cbn -[Model.TransitionPod Model.TransitionDeployment Model.TransitionNode];
    try (split; [apply range_filter_post | done]);
    rewrite ?TransitionPod_unfold; autounfold with mem_ops; cbn -[Model.TransitionPod Model.TransitionDeployment Model.TransitionNode];
    repeat (case_one; try discriminate; simplify_eq/=);
    first [by split | by eexists; split; [split; reflexivity|]].
Qed.

#[global] Program Instance memory_store_impl `{MapRange} : StoreImpl MemoryStore := {|
  store_do := mem_do;
  store_faults := false;
  store_abs s c := mem_abs s = c |}.
Next Obligation.
  intros ? X op now n s c <-. eexists. split; [left; apply mem_do_op_ok | done].
Qed.
