(* ===== verification/BoltStore.v ===== *)
(** * control-plane/internal/state/bolt_store.go

    The persistent store.  bbolt and encoding/json are parameters: [BoltLib]
    is what the code uses of a bucket and of a transaction's commit, [Codec]
    is [json.Marshal]/[json.Unmarshal] at one entity type.  [db.Update] runs a
    closure on the buckets and keeps its effect only when the closure returns
    nil and the commit succeeds; [db.View] only reads.  The store meets the
    same contract as the in-memory store, with storage faults as the only
    additional outcome, and with none when the library reports none. *)

From S2P Require Import Prelude Model Store.
From Stdlib Require Import ZArith Lia.
From stdpp Require Import base gmap strings list.

(** What is used of bbolt: a bucket is an ordered key/value store; [Put] and
    [Delete] can report an error; [ForEach] visits every entry once;
    [commit_ok n] says whether the commit of the [n]-th call succeeds. *)
Class BoltLib (raw : Type) := {
  Bucket : Type;
  BEmpty : Bucket;
  BGet : Bucket -> string -> option raw;
  BPut : Bucket -> string -> raw -> option Bucket;
  BDelete : Bucket -> string -> option Bucket;
  BForEach : Bucket -> list (string * raw);
  commit_ok : nat -> bool;
  BGet_empty : forall k, BGet BEmpty k = None;
  BGet_put : forall b b' k v j, BPut b k v = Some b' ->
    BGet b' j = if decide (k = j) then Some v else BGet b j;
  BGet_delete : forall b b' k j, BDelete b k = Some b' ->
    BGet b' j = if decide (k = j) then None else BGet b j;
  BForEach_nodup : forall b, NoDup (BForEach b).*1;
  BForEach_elem : forall b k v, (k, v) ∈ BForEach b <-> BGet b k = Some v }.

(** [json.Marshal] and [json.Unmarshal] at type [T]: decoding an encoded value
    gives the value back.  (Entities reach the store through decoded request
    bodies, so their strings are valid UTF-8.) *)
Class Codec (raw T : Type) := {
  Marshal : T -> option raw;
  Unmarshal : raw -> option T;
  codec_roundtrip : forall v r, Marshal v = Some r -> Unmarshal r = Some v }.

Section Bolt.
Context {raw : Type} `{!BoltLib raw}.
Context `{!Codec raw Deployment, !Codec raw Pod, !Codec raw Node, !Codec raw Service}.

(** The four entity buckets. *)
Record BoltStore := mkBoltStore {
  bucketDeployments : Bucket;
  bucketPods : Bucket;
  bucketNodes : Bucket;
  bucketServices : Bucket }.

(** A fresh database: the four buckets are created empty. *)
Definition NewBoltStore : BoltStore := mkBoltStore BEmpty BEmpty BEmpty BEmpty.

Definition with_bucketDeployments (s : BoltStore) (b : Bucket) : BoltStore :=
  mkBoltStore b (bucketPods s) (bucketNodes s) (bucketServices s).
Definition with_bucketPods (s : BoltStore) (b : Bucket) : BoltStore :=
  mkBoltStore (bucketDeployments s) b (bucketNodes s) (bucketServices s).
Definition with_bucketNodes (s : BoltStore) (b : Bucket) : BoltStore :=
  mkBoltStore (bucketDeployments s) (bucketPods s) b (bucketServices s).
Definition with_bucketServices (s : BoltStore) (b : Bucket) : BoltStore :=
  mkBoltStore (bucketDeployments s) (bucketPods s) (bucketNodes s) b.

(** ** helpers *)

Definition bget {T} `{!Codec raw T} (b : Bucket) (id : string) : T + Err :=
  match BGet b id with
  | None => inr ErrNotFound
  | Some r => match Unmarshal r with None => inr ErrEncoding | Some v => inl v end
  end.

Definition bput {T} `{!Codec raw T} (b : Bucket) (id : string) (v : T) : Bucket + Err :=
  match Marshal v with
  | None => inr ErrEncoding
  | Some r => match BPut b id r with None => inr ErrEncoding | Some b' => inl b' end
  end.

Definition bdelete (b : Bucket) (id : string) : Bucket + Err :=
  match BGet b id with
  | None => inr ErrNotFound
  | Some _ => match BDelete b id with None => inr ErrEncoding | Some b' => inl b' end
  end.

(** [s.db.Update(fn)] for a closure that works on one bucket. *)
Definition db_update (n : nat) (fn : Bucket + Err) (set : Bucket -> BoltStore) (s : BoltStore)
    : error * BoltStore :=
  match fn with
  | inr e => (Some e, s)
  | inl b => if commit_ok n then (None, set b) else (Some ErrEncoding, s)
  end.

(** [Bucket.ForEach] with a callback that decodes every value and appends the
    ones passing [keep]; it stops at the first decoding error. *)
Fixpoint foreach_decode {T} `{!Codec raw T} (keep : T -> bool) (kvs : list (string * raw))
    : list T * error :=
  match kvs with
  | [] => ([], None)
  | (_, v) :: kvs =>
      match Unmarshal v with
      | None => ([], Some ErrEncoding)
      | Some x => let '(out, e) := foreach_decode keep kvs in
                  (if keep x then x :: out else out, e)
      end
  end.

Definition blist {T} `{!Codec raw T} (keep : T -> bool) (b : Bucket) : list T * error :=
  foreach_decode keep (BForEach b).

(** [if b.Get(id) != nil { return ErrAlreadyExists }; return bput(b, id, v)] *)
Definition bcreate {T} `{!Codec raw T} (b : Bucket) (id : string) (v : T) : Bucket + Err :=
  match BGet b id with Some _ => inr ErrAlreadyExists | None => bput b id v end.

(** [if b.Get(id) == nil { return ErrNotFound }; return bput(b, id, v)] *)
Definition bupdate {T} `{!Codec raw T} (b : Bucket) (id : string) (v : T) : Bucket + Err :=
  match BGet b id with None => inr ErrNotFound | Some _ => bput b id v end.

(** ** Deployments *)

Definition CreateDeployment (n : nat) (d : Deployment) (s : BoltStore) : error * BoltStore :=
  db_update n (bcreate (bucketDeployments s) (Deployment_ID d) d) (with_bucketDeployments s) s.

Definition GetDeployment (id : string) (s : BoltStore) : Deployment + Err :=
  bget (bucketDeployments s) id.

Definition ListDeployments (s : BoltStore) : list Deployment * error :=
  blist (fun _ => true) (bucketDeployments s).

Definition ListDeploymentsByNamespace (namespace : string) (s : BoltStore)
    : list Deployment * error :=
  blist (fun d => bool_decide (Deployment_Namespace d = namespace)) (bucketDeployments s).

Definition UpdateDeployment (n : nat) (now : Time) (d : Deployment) (s : BoltStore)
    : error * BoltStore :=
  db_update n (bupdate (bucketDeployments s) (Deployment_ID d) (deployment_touch now d))
    (with_bucketDeployments s) s.

Definition TransitionDeployment (n : nat) (now : Time) (id : string) (to : DeploymentStatus)
    (s : BoltStore) : error * BoltStore :=
  db_update n
    (match bget (T := Deployment) (bucketDeployments s) id with
     | inr e => inr e
     | inl d => if negb (Model.TransitionDeployment (Deployment_Status d) to)
                then inr ErrInvalidTransition
                else bput (bucketDeployments s) id (deployment_with_status to now d)
     end) (with_bucketDeployments s) s.

Definition DeleteDeployment (n : nat) (id : string) (s : BoltStore) : error * BoltStore :=
  db_update n (bdelete (bucketDeployments s) id) (with_bucketDeployments s) s.

(** ** Pods *)

Definition CreatePod (n : nat) (p : Pod) (s : BoltStore) : error * BoltStore :=
  db_update n (bcreate (bucketPods s) (Pod_ID p) p) (with_bucketPods s) s.

Definition GetPod (id : string) (s : BoltStore) : Pod + Err := bget (bucketPods s) id.

Definition ListPodsByDeployment (deploymentID : string) (s : BoltStore) : list Pod * error :=
  blist (fun p => bool_decide (Pod_DeploymentID p = deploymentID)) (bucketPods s).

Definition ListPodsByStatus (status : PodStatus) (s : BoltStore) : list Pod * error :=
  blist (fun p => bool_decide (Pod_Status p = status)) (bucketPods s).

Definition ListPodsByNode (nodeID : string) (s : BoltStore) : list Pod * error :=
  blist (fun p => bool_decide (Pod_NodeID p = nodeID)) (bucketPods s).

Definition ListPodsByLabels (namespace : string) (selector : gmap string string) (s : BoltStore)
    : list Pod * error :=
  blist (fun p => (String.eqb namespace EmptyString || bool_decide (Pod_Namespace p = namespace))
                  && matchesSelector (Pod_Labels p) selector) (bucketPods s).

Definition UpdatePod (n : nat) (p : Pod) (s : BoltStore) : error * BoltStore :=
  db_update n (bupdate (bucketPods s) (Pod_ID p) p) (with_bucketPods s) s.

Definition TransitionPod (n : nat) (now : Time) (id : string) (to : PodStatus) (errMsg : string)
    (s : BoltStore) : error * BoltStore :=
  db_update n
    (match bget (T := Pod) (bucketPods s) id with
     | inr e => inr e
     | inl p =>
         if negb (Model.TransitionPod (Pod_Status p) to) then inr ErrInvalidTransition
         else
           let err := if String.eqb errMsg EmptyString then Pod_Error p else errMsg in
           let scheduledAt := match to with
             | PodScheduled => set_once now (Pod_ScheduledAt p) | _ => Pod_ScheduledAt p end in
           let startedAt := match to with
             | PodRunning => set_once now (Pod_StartedAt p) | _ => Pod_StartedAt p end in
           let finishedAt :=
             if isTerminalPodStatus to then set_once now (Pod_FinishedAt p) else Pod_FinishedAt p in
           bput (bucketPods s) id
             (pod_set (Pod_NodeID p) (Pod_Attempt p) to (Pod_ExitCode p) err
                (Pod_Output p) scheduledAt startedAt finishedAt (Pod_RunAfter p) p)
     end) (with_bucketPods s) s.

(** ** Nodes *)

Definition RegisterNode (n : nat) (nd : Node) (s : BoltStore) : error * BoltStore :=
  db_update n (bcreate (bucketNodes s) (Node_ID nd) nd) (with_bucketNodes s) s.

Definition GetNode (id : string) (s : BoltStore) : Node + Err := bget (bucketNodes s) id.

Definition ListNodes (s : BoltStore) : list Node * error := blist (fun _ => true) (bucketNodes s).

Definition ListNodesByLabels (selector : gmap string string) (s : BoltStore) : list Node * error :=
  blist (fun nd => matchesSelector (Node_Labels nd) selector) (bucketNodes s).

Definition UpdateNode (n : nat) (nd : Node) (s : BoltStore) : error * BoltStore :=
  db_update n (bupdate (bucketNodes s) (Node_ID nd) nd) (with_bucketNodes s) s.

Definition TransitionNode (n : nat) (id : string) (to : NodeStatus) (s : BoltStore)
    : error * BoltStore :=
  db_update n
    (match bget (T := Node) (bucketNodes s) id with
     | inr e => inr e
     | inl nd => if negb (Model.TransitionNode (Node_Status nd) to)
                 then inr ErrInvalidTransition
                 else bput (bucketNodes s) id (node_with_status to nd)
     end) (with_bucketNodes s) s.

(** ** Services *)

Definition UpsertService (n : nat) (now : Time) (svc : Service) (s : BoltStore)
    : error * BoltStore :=
  db_update n (bput (bucketServices s) (Service_ID svc) (service_touch now svc))
    (with_bucketServices s) s.

Definition GetService (id : string) (s : BoltStore) : Service + Err := bget (bucketServices s) id.

Definition ListServices (s : BoltStore) : list Service * error :=
  blist (fun _ => true) (bucketServices s).

Definition DeleteService (n : nat) (id : string) (s : BoltStore) : error * BoltStore :=
  db_update n (bdelete (bucketServices s) id) (with_bucketServices s) s.

(** ** The dispatch of the interface *)

Definition bolt_do X (op : StoreOp X) (now : Time) (n : nat) (s : BoltStore) : X * BoltStore :=
  match op in StoreOp X return X * BoltStore with
  | OpCreateDeployment d => CreateDeployment n d s
  | OpGetDeployment id => (GetDeployment id s, s)
  | OpListDeployments => (ListDeployments s, s)
  | OpListDeploymentsByNamespace ns => (ListDeploymentsByNamespace ns s, s)
  | OpUpdateDeployment d => UpdateDeployment n now d s
  | OpTransitionDeployment id to => TransitionDeployment n now id to s
  | OpDeleteDeployment id => DeleteDeployment n id s
  | OpCreatePod p => CreatePod n p s
  | OpGetPod id => (GetPod id s, s)
  | OpListPodsByDeployment did => (ListPodsByDeployment did s, s)
  | OpListPodsByStatus st => (ListPodsByStatus st s, s)
  | OpListPodsByNode nid => (ListPodsByNode nid s, s)
  | OpListPodsByLabels ns sel => (ListPodsByLabels ns sel s, s)
  | OpUpdatePod p => UpdatePod n p s
  | OpTransitionPod id to e => TransitionPod n now id to e s
  | OpRegisterNode nd => RegisterNode n nd s
  | OpGetNode id => (GetNode id s, s)
  | OpListNodes => (ListNodes s, s)
  | OpListNodesByLabels sel => (ListNodesByLabels sel s, s)
  | OpUpdateNode nd => UpdateNode n nd s
  | OpTransitionNode id to => TransitionNode n id to s
  | OpUpsertService v => UpsertService n now v s
  | OpGetService id => (GetService id s, s)
  | OpListServices => (ListServices s, s)
  | OpDeleteService id => DeleteService n id s
  end.

(** ** Refinement of the contract *)

(** A bucket holds the JSON of exactly the entries of a map. *)
Definition bucket_abs {T} `{!Codec raw T} (b : Bucket) (m : gmap string T) : Prop :=
  forall k, match BGet b k with
            | None => m !! k = None
            | Some r => exists x, Unmarshal r = Some x /\ m !! k = Some x
            end.

Lemma bucket_abs_functional {T} `{!Codec raw T} b (m1 m2 : gmap string T) :
  bucket_abs b m1 -> bucket_abs b m2 -> m1 = m2.
Proof.
  intros H1 H2. apply map_eq. intros k. specialize (H1 k). specialize (H2 k).
  destruct (BGet b k); [destruct H1 as (? & ? & ?), H2 as (? & ? & ?)|]; congruence.
Qed.

Record bolt_abs (s : BoltStore) (c : Cluster) : Prop := {
  abs_deployments : bucket_abs (bucketDeployments s) (deployments c);
  abs_pods : bucket_abs (bucketPods s) (pods c);
  abs_nodes : bucket_abs (bucketNodes s) (nodes c);
  abs_services : bucket_abs (bucketServices s) (services c) }.

(** No encoding, storage or commit error is ever reported. *)
Record bolt_reliable : Prop := {
  rel_deployment : forall d : Deployment, is_Some (Marshal (raw := raw) d);
  rel_pod : forall p : Pod, is_Some (Marshal (raw := raw) p);
  rel_node : forall n : Node, is_Some (Marshal (raw := raw) n);
  rel_service : forall v : Service, is_Some (Marshal (raw := raw) v);
  rel_put : forall b k v, is_Some (BPut b k v);
  rel_delete : forall b k, is_Some (BDelete b k);
  rel_commit : forall n, commit_ok n = true }.

(** The effect of [db_update] on its one bucket. *)
Definition upd (n : nat) (fn : Bucket + Err) (b : Bucket) : error * Bucket :=
  match fn with
  | inr e => (Some e, b)
  | inl b' => if commit_ok n then (None, b') else (Some ErrEncoding, b)
  end.

Lemma db_update_upd n fn set b s :
  set b = s -> db_update n fn set s = ((upd n fn b).1, set (upd n fn b).2).
Proof. intros <-. unfold db_update, upd. by repeat case_one. Qed.

Section OneBucket.
Context {T : Type} `{!Codec raw T}.
Variables (b : Bucket) (m : gmap string T).
Variable fl : bool.
Hypothesis Habs : bucket_abs b m.
Hypothesis Hmar : fl = false -> forall v : T, is_Some (Marshal (raw := raw) v).
Hypothesis Hput : fl = false -> forall b k v, is_Some (BPut b k v).
Hypothesis Hdel : fl = false -> forall b k, is_Some (BDelete b k).
Hypothesis Hcom : fl = false -> forall n, commit_ok n = true.

(** The contract [post] of a method, or a fault that changes nothing. *)
Definition sim (post : error -> gmap string T -> Prop) (rb : error * Bucket) : Prop :=
  exists m', bucket_abs rb.2 m' /\
    (post rb.1 m' \/ (fl = true /\ rb.1 = Some ErrEncoding /\ m' = m)).

Lemma bucket_get k :
  (BGet b k = None /\ m !! k = None) \/
  (exists r x, BGet b k = Some r /\ Unmarshal r = Some x /\ m !! k = Some x).
Proof using Habs.
  generalize (Habs k). destruct (BGet b k); [intros (x & ? & ?); right; eauto | by left].
Qed.

Lemma sim_fault post : fl = true -> sim post (Some ErrEncoding, b).
Proof using Habs. intros. exists m. split; [exact Habs | by right]. Qed.

Lemma sim_same (post : error -> gmap string T -> Prop) r : post r m -> sim post (r, b).
Proof using Habs. intros. exists m. split; [exact Habs | by left]. Qed.

Lemma sim_commit n b' m' (post : error -> gmap string T -> Prop) :
  bucket_abs b' m' -> post None m' -> sim post (upd n (inl b') b).
Proof using Habs Hcom.
  intros Hb Hp. cbn. destruct (commit_ok n) eqn:E.
  - exists m'. split; [exact Hb | by left].
  - apply sim_fault, not_false_is_true. intros Hf. by rewrite (Hcom Hf) in E.
Qed.

Lemma sim_put n k v (post : error -> gmap string T -> Prop) :
  post None (<[k := v]> m) -> sim post (upd n (bput b k v) b).
Proof using Habs Hmar Hput Hcom.
  intros Hp. unfold bput. destruct (Marshal v) as [r|] eqn:Em.
  2:{ apply sim_fault, not_false_is_true. intros Hf.
      destruct (Hmar Hf v) as [? H]. by rewrite H in Em. }
  destruct (BPut b k r) as [b'|] eqn:Eb.
  2:{ apply sim_fault, not_false_is_true. intros Hf.
      destruct (Hput Hf b k r) as [? H]. by rewrite H in Eb. }
  eapply sim_commit; [|exact Hp]. intros j.
  rewrite (BGet_put _ _ _ _ j Eb), lookup_insert. destruct (decide (k = j)); [|apply Habs].
  exists v. split; [by apply codec_roundtrip | done].
Qed.

Lemma upsert_sim n k v :
  sim (fun r m' => r = None /\ m' = <[k := v]> m) (upd n (bput b k v) b).
Proof using Habs Hmar Hput Hcom. by apply sim_put. Qed.

Lemma create_sim n k v : sim (create_post k v m) (upd n (bcreate b k v) b).
Proof using Habs Hmar Hput Hcom.
  unfold bcreate, create_post. destruct (bucket_get k) as [[-> E]|(r & x & -> & _ & E)]; rewrite E.
  - by apply sim_put.
  - by apply sim_same.
Qed.

Lemma update_sim n k v : sim (update_post k v m) (upd n (bupdate b k v) b).
Proof using Habs Hmar Hput Hcom.
  unfold bupdate, update_post. destruct (bucket_get k) as [[-> E]|(r & x & -> & _ & E)]; rewrite E.
  - by apply sim_same.
  - by apply sim_put.
Qed.

Lemma delete_sim n k : sim (delete_post k m) (upd n (bdelete b k) b).
Proof using Habs Hdel Hcom.
  unfold bdelete, delete_post. destruct (bucket_get k) as [[-> E]|(r & x & -> & _ & E)]; rewrite E.
  { by apply sim_same. }
  destruct (BDelete b k) as [b'|] eqn:Eb.
  2:{ apply sim_fault, not_false_is_true. intros Hf.
      destruct (Hdel Hf b k) as [? H]. by rewrite H in Eb. }
  eapply (sim_commit _ _ (delete k m)); [|done]. intros j.
  rewrite (BGet_delete _ _ _ j Eb), lookup_delete. destruct (decide (k = j)); [done|apply Habs].
Qed.

Lemma transition_sim n k legal (f : T -> T) :
  sim (transition_post k legal f m)
    (upd n (match bget (T := T) b k with
            | inr e => inr e
            | inl x => if negb (legal x) then inr ErrInvalidTransition else bput b k (f x)
            end) b).
Proof using Habs Hmar Hput Hcom.
  unfold bget, transition_post.
  destruct (bucket_get k) as [[-> E]|(r & x & -> & -> & E)]; rewrite E; [by apply sim_same|].
  destruct (legal x); cbn [negb]; [by apply sim_put | by apply sim_same].
Qed.

Lemma get_sim k : get_post k m (bget b k).
Proof using Habs.
  unfold get_post, bget. by destruct (bucket_get k) as [[-> ->]|(r & x & -> & -> & ->)].
Qed.

(** The decoded entries of the bucket are the entries of the map. *)
Lemma bucket_entries l :
  Forall2 (fun kv x => m !! kv.1 = Some x) (BForEach b) l -> l ≡ₚ (map_to_list m).*2.
Proof using Habs.
  intros Hl. pose proof (Forall2_length _ _ _ Hl) as Hlen.
  rewrite <- (snd_zip (BForEach b).*1 l) by (rewrite length_fmap; lia).
  apply fmap_Permutation, NoDup_Permutation; [|apply NoDup_map_to_list|].
  { apply NoDup_fmap_1 with fst. rewrite fst_zip by (rewrite length_fmap; lia).
    apply BForEach_nodup. }
  intros [k x]. rewrite elem_of_map_to_list, list_elem_of_lookup.
  setoid_rewrite lookup_zip_with_Some. split.
  - intros (i & k' & x' & Heq & H1 & H2). simplify_eq.
    apply list_lookup_fmap_Some in H1 as ([k1 r1] & -> & H1).
    destruct (Forall2_lookup_l _ _ _ _ _ Hl H1) as (y & Hy & Hm). cbn in *. congruence.
  - intros Hm. destruct (bucket_get k) as [[_ H1]|(r & y & H1 & _ & _)]; [congruence|].
    apply BForEach_elem, list_elem_of_lookup in H1 as [i Hi].
    destruct (Forall2_lookup_l _ _ _ _ _ Hl Hi) as (z & Hz & Hm'). cbn in Hm'.
    exists i, k, x. split; [done|]. split; [by rewrite list_lookup_fmap, Hi|]. congruence.
Qed.

Lemma foreach_decode_ok (keep : T -> bool) kvs l :
  Forall2 (fun kv x => Unmarshal kv.2 = Some x) kvs l ->
  foreach_decode keep kvs = (filter (fun x => keep x = true) l, None).
Proof using Type.
  induction 1 as [|[k r] x kvs l Hx Hl IH]; [done|]. cbn [foreach_decode].
  cbn in Hx. rewrite Hx, IH, filter_cons. by destruct (keep x).
Qed.

Lemma list_sim (keep : T -> bool) : list_post keep m (blist keep b).
Proof using Habs.
  assert (Forall (fun kv => exists x, Unmarshal kv.2 = Some x /\ m !! kv.1 = Some x) (BForEach b))
    as Hf.
  { apply Forall_forall. intros [k r] Hin. apply BForEach_elem in Hin.
    destruct (bucket_get k) as [[H1 _]|(r' & x & H1 & H2 & H3)]; [congruence|].
    exists x. cbn. split; congruence. }
  apply Forall_exists_Forall2_l in Hf as [l Hl]. unfold blist.
  rewrite (foreach_decode_ok _ _ l).
  2:{ eapply Forall2_impl; [exact Hl|]. cbn. tauto. }
  split; [done|]. cbn. rewrite (bucket_entries l); [done|].
  eapply Forall2_impl; [exact Hl|]. cbn. tauto.
Qed.
End OneBucket.

(** One bucket's outcome, lifted to the whole store. *)

Lemma lift_deployments fl post s c rb :
  bolt_abs s c -> sim (deployments c) fl post rb ->
  exists c', ((exists m, post rb.1 m /\ c' = with_deployments m c) \/
              (fl = true /\ rb.1 = Some ErrEncoding /\ c' = c))
             /\ bolt_abs (with_bucketDeployments s rb.2) c'.
Proof.
  intros [] (m' & Hb & [Hp|(Hf & Hr & ->)]).
  - exists (with_deployments m' c). split; [left; eauto | by split].
  - exists c. split; [by right | by split].
Qed.

Lemma lift_pods fl post s c rb :
  bolt_abs s c -> sim (pods c) fl post rb ->
  exists c', ((exists m, post rb.1 m /\ c' = with_pods m c) \/
              (fl = true /\ rb.1 = Some ErrEncoding /\ c' = c))
             /\ bolt_abs (with_bucketPods s rb.2) c'.
Proof.
  intros [] (m' & Hb & [Hp|(Hf & Hr & ->)]).
  - exists (with_pods m' c). split; [left; eauto | by split].
  - exists c. split; [by right | by split].
Qed.

Lemma lift_nodes fl post s c rb :
  bolt_abs s c -> sim (nodes c) fl post rb ->
  exists c', ((exists m, post rb.1 m /\ c' = with_nodes m c) \/
              (fl = true /\ rb.1 = Some ErrEncoding /\ c' = c))
             /\ bolt_abs (with_bucketNodes s rb.2) c'.
Proof.
  intros [] (m' & Hb & [Hp|(Hf & Hr & ->)]).
  - exists (with_nodes m' c). split; [left; eauto | by split].
  - exists c. split; [by right | by split].
Qed.

Lemma lift_services fl post s c rb :
  bolt_abs s c -> sim (services c) fl post rb ->
  exists c', ((exists m, post rb.1 m /\ c' = with_services m c) \/
              (fl = true /\ rb.1 = Some ErrEncoding /\ c' = c))
             /\ bolt_abs (with_bucketServices s rb.2) c'.
Proof.
  intros [] (m' & Hb & [Hp|(Hf & Hr & ->)]).
  - exists (with_services m' c). split; [left; eauto | by split].
  - exists c. split; [by right | by split].
Qed.

Create HintDb bolt_ops.
#[local] Hint Unfold CreateDeployment GetDeployment ListDeployments ListDeploymentsByNamespace
  UpdateDeployment TransitionDeployment DeleteDeployment CreatePod GetPod ListPodsByDeployment
  ListPodsByStatus ListPodsByNode ListPodsByLabels UpdatePod TransitionPod RegisterNode GetNode
  ListNodes ListNodesByLabels UpdateNode TransitionNode UpsertService GetService ListServices
  DeleteService : bolt_ops.

Section Reliable.
Variable fl : bool.
Hypothesis Hrel : fl = false -> bolt_reliable.

Local Ltac reads HA lem := eexists; split; [left; split; [eapply lem; apply HA | done] | exact HA].
Local Ltac writes s HA lift set b sim :=
  rewrite (db_update_upd _ _ (set s) (b s) s) by (by destruct s);
  edestruct lift as (c' & Hc & Habs');
    [exact HA | eapply sim; [apply HA | intros Hf; apply (Hrel Hf) ..]
    | exists c'; split; [|exact Habs'];
      destruct Hc as [(m & Hp & ->)|(Hf & Hr & ->)]; [left; cbn; naive_solver | right; eauto]].

(** The Bolt store meets the contract; when the library is reliable, without
    faults. *)
Lemma bolt_do_post X (op : StoreOp X) now n s c :
  bolt_abs s c ->
  exists c', op_post fl op now c (bolt_do X op now n s).1 c' /\ bolt_abs (bolt_do X op now n s).2 c'.
Proof using Hrel.
  intros HA. destruct op; cbn [bolt_do fst snd]; autounfold with bolt_ops;
    try reads HA @get_sim; try reads HA @list_sim.
  - writes s HA lift_deployments with_bucketDeployments bucketDeployments @create_sim.
  - writes s HA lift_deployments with_bucketDeployments bucketDeployments @update_sim.
  - writes s HA lift_deployments with_bucketDeployments bucketDeployments @transition_sim.
  - writes s HA lift_deployments with_bucketDeployments bucketDeployments @delete_sim.
  - writes s HA lift_pods with_bucketPods bucketPods @create_sim.
  - writes s HA lift_pods with_bucketPods bucketPods @update_sim.
  - writes s HA lift_pods with_bucketPods bucketPods @transition_sim.
  - writes s HA lift_nodes with_bucketNodes bucketNodes @create_sim.
  - writes s HA lift_nodes with_bucketNodes bucketNodes @update_sim.
  - writes s HA lift_nodes with_bucketNodes bucketNodes @transition_sim.
  - writes s HA lift_services with_bucketServices bucketServices @upsert_sim.
  - writes s HA lift_services with_bucketServices bucketServices @delete_sim.
Qed.
End Reliable.

(** A fresh database is the empty cluster. *)
Lemma NewBoltStore_abs : bolt_abs NewBoltStore empty_cluster.
Proof. split; intros k; cbn; by rewrite BGet_empty. Qed.

#[global] Program Instance bolt_store_impl : StoreImpl BoltStore := {|
  store_do := bolt_do;
  store_faults := true;
  store_abs := bolt_abs |}.
Next Obligation. intros. by apply bolt_do_post. Qed.
End Bolt.
Arguments BoltStore raw {_}.
