(* ===== verification/Runtime.v ===== *)
(** * The control plane's execution model

    The scheduler, the reconciler and the API handlers are programs over the
    atomic operations [CpE]: a method of the store (atomic under the store's
    mutex or transaction), a clock reading, a read of crypto/rand, a Prometheus
    counter or gauge call, and the scheduler's mutex-guarded statistics.
    [cp_rel] says what one operation may do to the [World]; [cp_handle] runs it
    on a concrete store.  [cp_sound] connects them, so that a property proved
    with [wp] holds of every run on every store that meets the contract. *)

From S2P Require Import Prelude Model Store.
From Stdlib Require Import ZArith Lia.
From stdpp Require Import base gmap strings list.

(** Calls on the Prometheus collectors of internal/metrics. *)
Inductive Metric :=
| DeploymentsTotal | JobsTotal | JobsSucceeded | JobsFailed | JobsDeadLetter
| SchedulerQueueDepth (v : Z) | SchedulerLatency (d : Duration)
| ReconcilerIterations | WorkerHeartbeats | UnhealthyWorkers (v : Z).

(** scheduler.Stats *)
Record Stats := mkStats { LastTickAt : Time; ScheduledLast : Z; PendingNow : Z }.
Definition zeroStats : Stats := mkStats 0 0 0.

Inductive CpE : Type -> Type :=
| EStore {X} (op : StoreOp X) : CpE X
| ENow : CpE Time
| ERandRead (n : nat) : CpE (option (list byte))
| EMetric (m : Metric) : CpE unit
| EGetStats : CpE Stats
| ESetStats (s : Stats) : CpE unit.

Definition store {X} (op : StoreOp X) : prog CpE X := call (EStore op).
Definition time_now : prog CpE Time := call ENow.
Definition metric (m : Metric) : prog CpE unit := call (EMetric m).

(** ** Abstract semantics *)

Record World := mkWorld {
  w_cluster : Cluster;
  w_clock : Time;           (* the latest clock reading *)
  w_metrics : list Metric;
  w_stats : Stats }.

Definition with_cluster (c : Cluster) (t : Time) (w : World) : World :=
  mkWorld c t (w_metrics w) (w_stats w).

(** Clock readings do not go back. *)
Definition cp_rel (faults : bool) X (e : CpE X) : World -> X -> World -> Prop :=
  match e in CpE X return World -> X -> World -> Prop with
  | EStore op => fun w r w' => exists now c', (w_clock w <= now)%Z /\
      op_post faults op now (w_cluster w) r c' /\ w' = with_cluster c' now w
  | ENow => fun w t w' => (w_clock w <= t)%Z /\ w' = with_cluster (w_cluster w) t w
  | ERandRead n => fun w r w' => w' = w /\ (forall bs, r = Some bs -> length bs = n)
  | EMetric m => fun w _ w' => w' = mkWorld (w_cluster w) (w_clock w) (w_metrics w ++ [m]) (w_stats w)
  | EGetStats => fun w r w' => r = w_stats w /\ w' = w
  | ESetStats s => fun w _ w' => w' = mkWorld (w_cluster w) (w_clock w) (w_metrics w) s
  end.

(** ** Concrete semantics *)

(** The environment: clock readings and random bytes, by step number. *)
Record Oracle := mkOracle {
  o_now : nat -> Time;
  o_rand : nat -> nat -> option (list byte);
  o_now_mono : forall i j, i <= j -> (o_now i <= o_now j)%Z;
  o_rand_len : forall i n bs, o_rand i n = Some bs -> length bs = n }.

Record Machine (S : Type) := mkMachine {
  mc_store : S;
  mc_steps : nat;
  mc_metrics : list Metric;
  mc_stats : Stats }.
Arguments mkMachine {S}.
Arguments mc_store {S}.
Arguments mc_steps {S}.
Arguments mc_metrics {S}.
Arguments mc_stats {S}.

Definition cp_handle {S} `{!StoreImpl S} (o : Oracle) : handler CpE (Machine S) := fun X e m =>
  let n := mc_steps m in
  match e in CpE X return X * Machine S with
  | EStore op =>
      let '(r, s') := store_do op (o_now o n) n (mc_store m) in
      (r, mkMachine s' (Datatypes.S n) (mc_metrics m) (mc_stats m))
  | ENow => (o_now o n, mkMachine (mc_store m) (Datatypes.S n) (mc_metrics m) (mc_stats m))
  | ERandRead k =>
      (o_rand o n k, mkMachine (mc_store m) (Datatypes.S n) (mc_metrics m) (mc_stats m))
  | EMetric x => (tt, mkMachine (mc_store m) (Datatypes.S n) (mc_metrics m ++ [x]) (mc_stats m))
  | EGetStats => (mc_stats m, mkMachine (mc_store m) (Datatypes.S n) (mc_metrics m) (mc_stats m))
  | ESetStats st => (tt, mkMachine (mc_store m) (Datatypes.S n) (mc_metrics m) st)
  end.

(** The abstract view of a machine. *)
Record machine_abs {S} `{!StoreImpl S} (o : Oracle) (m : Machine S) (w : World) : Prop := {
  ma_store : store_abs (mc_store m) (w_cluster w);
  ma_clock : (w_clock w <= o_now o (mc_steps m))%Z;
  ma_metrics : mc_metrics m = w_metrics w;
  ma_stats : mc_stats m = w_stats w }.

Lemma cp_handle_implements {S} `{!StoreImpl S} (o : Oracle) :
  implements (cp_handle o) (cp_rel store_faults) (machine_abs o).
Proof.
  intros X e m w [Hs Hc Hm Ht].
  pose proof (o_now_mono o (mc_steps m) (Datatypes.S (mc_steps m)) ltac:(lia)) as Hmono.
  destruct e as [X op| |k|x| |st]; cbn.
  - destruct (store_do_ok X op (o_now o (mc_steps m)) (mc_steps m) _ _ Hs) as (c' & Hp & Ha).
    destruct (store_do op _ _ _) as [r s'] eqn:E. cbn in *.
    exists (with_cluster c' (o_now o (mc_steps m)) w). split; [|by constructor].
    exists (o_now o (mc_steps m)), c'. auto.
  - exists (with_cluster (w_cluster w) (o_now o (mc_steps m)) w). split; [auto|by constructor].
  - exists w. split; [split; [done|]; intros bs Hb; by apply (o_rand_len o) in Hb | constructor; cbn; auto; lia].
  - exists (mkWorld (w_cluster w) (w_clock w) (w_metrics w ++ [x]) (w_stats w)).
    split; [done | constructor; cbn; auto; [lia | by rewrite Hm]].
  - exists w. split; [auto | constructor; cbn; auto; lia].
  - exists (mkWorld (w_cluster w) (w_clock w) (w_metrics w) st).
    split; [done | constructor; cbn; auto; lia].
Qed.

(** What [wp] proves of a control-plane program holds of its run on any store
    that meets the contract, for any clock, randomness and listing order. *)
Lemma cp_sound {S} `{!StoreImpl S} (o : Oracle) {A} (p : prog CpE A) Q (m : Machine S) w :
  machine_abs o m w -> wp (cp_rel store_faults) p Q w ->
  exists w', machine_abs o (run (cp_handle o) p m).2 w' /\ Q (run (cp_handle o) p m).1 w'.
Proof. intros. eapply wp_adequacy; eauto using cp_handle_implements. Qed.

(** ** Proof rules *)

Section Rules.
Context {A : Type} (fl : bool) (Q : A -> World -> Prop) (w : World).

Lemma wp_store {X} (op : StoreOp X) (k : X -> prog CpE A) :
  (forall now r c', (w_clock w <= now)%Z -> op_post fl op now (w_cluster w) r c' ->
     wp (cp_rel fl) (k r) Q (with_cluster c' now w)) ->
  wp (cp_rel fl) (store op ≫= k) Q w.
Proof. intros H r w' (now & c' & Hn & Hp & ->). by apply H. Qed.

Lemma wp_now (k : Time -> prog CpE A) :
  (forall t, (w_clock w <= t)%Z -> wp (cp_rel fl) (k t) Q (with_cluster (w_cluster w) t w)) ->
  wp (cp_rel fl) (time_now ≫= k) Q w.
Proof. intros H t w' (Ht & ->). by apply H. Qed.

Lemma wp_metric (m : Metric) (k : unit -> prog CpE A) :
  wp (cp_rel fl) (k tt) Q (mkWorld (w_cluster w) (w_clock w) (w_metrics w ++ [m]) (w_stats w)) ->
  wp (cp_rel fl) (metric m ≫= k) Q w.
Proof. intros H [] w' ->. done. Qed.

Lemma wp_rand n (k : option (list byte) -> prog CpE A) :
  (forall r, (forall bs, r = Some bs -> length bs = n) -> wp (cp_rel fl) (k r) Q w) ->
  wp (cp_rel fl) (call (ERandRead n) ≫= k) Q w.
Proof. intros H r w' [-> Hr]. by apply H. Qed.

Lemma wp_setstats st (k : unit -> prog CpE A) :
  wp (cp_rel fl) (k tt) Q (mkWorld (w_cluster w) (w_clock w) (w_metrics w) st) ->
  wp (cp_rel fl) (call (ESetStats st) ≫= k) Q w.
Proof. intros H [] w' ->. done. Qed.

Lemma wp_getstats (k : Stats -> prog CpE A) :
  wp (cp_rel fl) (k (w_stats w)) Q w ->
  wp (cp_rel fl) (call EGetStats ≫= k) Q w.
Proof. intros H r w' [-> ->]. done. Qed.
End Rules.

(** Entities stay under their own ID and the clock does not go back, whatever
    program runs. *)
Lemma wp_cluster_wf {A} fl (p : prog CpE A) w :
  cluster_wf (w_cluster w) ->
  wp (cp_rel fl) p (fun _ w' => cluster_wf (w_cluster w') /\ (w_clock w <= w_clock w')%Z) w.
Proof.
  revert w. induction p as [a|X e k IH]; intros w Hwf; [split; [done|cbn; lia]|].
  intros x w' HR. assert (H : cluster_wf (w_cluster w') /\ (w_clock w <= w_clock w')%Z).
  { destruct e; cbn in HR; split_and_all; subst; cbn; split; try done; try lia.
    by eapply op_post_wf. }
  destruct H as [Hwf' Hcl]. eapply wp_mono; [|by apply IH]. cbn. intros _ w'' [? ?]. split; [done|lia].
Qed.

(** The rules on a reliable store, where the outcome of a call is known. *)
Section Reliable.
Context {A : Type} (Q : A -> World -> Prop) (w : World).
Local Abbreviation c := (w_cluster w).

Lemma wp_update_pod p q (k : error -> prog CpE A) :
  pods c !! Pod_ID p = Some q ->
  (forall t, (w_clock w <= t)%Z ->
     wp (cp_rel false) (k None) Q (with_cluster (with_pods (<[Pod_ID p := p]> (pods c)) c) t w)) ->
  wp (cp_rel false) (store (OpUpdatePod p) ≫= k) Q w.
Proof.
  intros Hq H. apply wp_store. intros t r c' Ht [(m & Hm & ->)|(? & _)]; [|done].
  unfold update_post in Hm. rewrite Hq in Hm. destruct Hm as [-> ->]. by apply H.
Qed.

Lemma wp_transition_pod id q to msg (k : error -> prog CpE A) :
  pods c !! id = Some q -> TransitionPod (Pod_Status q) to = true ->
  (forall t, (w_clock w <= t)%Z ->
     wp (cp_rel false) (k None) Q
       (with_cluster (with_pods (<[id := apply_pod_transition to msg t q]> (pods c)) c) t w)) ->
  wp (cp_rel false) (store (OpTransitionPod id to msg) ≫= k) Q w.
Proof.
  intros Hq Hto H. apply wp_store. intros t r c' Ht [(m & Hm & ->)|(? & _)]; [|done].
  unfold transition_post in Hm. rewrite Hq, Hto in Hm. destruct Hm as [-> ->]. by apply H.
Qed.

Lemma wp_transition_node id q to (k : error -> prog CpE A) :
  nodes c !! id = Some q -> TransitionNode (Node_Status q) to = true ->
  (forall t, (w_clock w <= t)%Z ->
     wp (cp_rel false) (k None) Q
       (with_cluster (with_nodes (<[id := node_with_status to q]> (nodes c)) c) t w)) ->
  wp (cp_rel false) (store (OpTransitionNode id to) ≫= k) Q w.
Proof.
  intros Hq Hto H. apply wp_store. intros t r c' Ht [(m & Hm & ->)|(? & _)]; [|done].
  unfold transition_post in Hm. rewrite Hq, Hto in Hm. destruct Hm as [-> ->]. by apply H.
Qed.

Lemma wp_get_deployment id (k : Deployment + Err -> prog CpE A) :
  (forall t, (w_clock w <= t)%Z ->
     wp (cp_rel false) (k (match deployments c !! id with Some d => inl d | None => inr ErrNotFound end))
       Q (with_cluster c t w)) ->
  wp (cp_rel false) (store (OpGetDeployment id) ≫= k) Q w.
Proof.
  intros H. apply wp_store. intros t r c' Ht [[-> ->]|(? & _)]; [|done]. by apply H.
Qed.

Lemma wp_get_node id (k : Node + Err -> prog CpE A) :
  (forall t, (w_clock w <= t)%Z ->
     wp (cp_rel false) (k (match nodes c !! id with Some n => inl n | None => inr ErrNotFound end))
       Q (with_cluster c t w)) ->
  wp (cp_rel false) (store (OpGetNode id) ≫= k) Q w.
Proof.
  intros H. apply wp_store. intros t r c' Ht [[-> ->]|(? & _)]; [|done]. by apply H.
Qed.

Lemma wp_get_pod id (k : Pod + Err -> prog CpE A) :
  (forall t, (w_clock w <= t)%Z ->
     wp (cp_rel false) (k (match pods c !! id with Some p => inl p | None => inr ErrNotFound end))
       Q (with_cluster c t w)) ->
  wp (cp_rel false) (store (OpGetPod id) ≫= k) Q w.
Proof.
  intros H. apply wp_store. intros t r c' Ht [[-> ->]|(? & _)]; [|done]. by apply H.
Qed.

Lemma wp_get_service id (k : Service + Err -> prog CpE A) :
  (forall t, (w_clock w <= t)%Z ->
     wp (cp_rel false) (k (match services c !! id with Some s => inl s | None => inr ErrNotFound end))
       Q (with_cluster c t w)) ->
  wp (cp_rel false) (store (OpGetService id) ≫= k) Q w.
Proof.
  intros H. apply wp_store. intros t r c' Ht [[-> ->]|(? & _)]; [|done]. by apply H.
Qed.

Lemma wp_update_node n q (k : error -> prog CpE A) :
  nodes c !! Node_ID n = Some q ->
  (forall t, (w_clock w <= t)%Z ->
     wp (cp_rel false) (k None) Q (with_cluster (with_nodes (<[Node_ID n := n]> (nodes c)) c) t w)) ->
  wp (cp_rel false) (store (OpUpdateNode n) ≫= k) Q w.
Proof.
  intros Hq H. apply wp_store. intros t r c' Ht [(m & Hm & ->)|(? & _)]; [|done].
  unfold update_post in Hm. rewrite Hq in Hm. destruct Hm as [-> ->]. by apply H.
Qed.
End Reliable.

(** ** Random identifiers *)

(** [generateID(prefix)] of internal/api/handlers.go: [prefix_] and eight hex
    digits, or an error of crypto/rand. *)
Definition generateID (prefix : string) : prog CpE (option string) :=
  r ← call (ERandRead 4);
  Ret (match r with
       | None => None
       | Some b => Some (prefix +:+ "_" +:+ EncodeToString b)
       end).

(** A deterministic environment for examples: a clock that advances by one
    second per step and counts in four big-endian bytes as randomness. *)
Definition byte_of (n : Z) : byte :=
  match Byte.of_N (Z.to_N (n mod 256)) with Some b => b | None => Byte.x00 end.

Definition counter_bytes (i n : nat) : list byte :=
  (fun k => byte_of (Z.of_nat i / 256 ^ (Z.of_nat n - 1 - Z.of_nat k))) <$> seq 0 n.

#[program] Definition test_oracle (start : Time) : Oracle := {|
  o_now i := (start + Z.of_nat i * Second)%Z;
  o_rand i n := Some (counter_bytes i n) |}.
Next Obligation. intros start i j H. cbn. unfold Second. lia. Qed.
Next Obligation.
  intros start i n bs [= <-]. unfold counter_bytes. rewrite length_map. by rewrite length_seq.
Qed.
