(* ===== verification/Fixtures.v ===== *)
(** * A small cluster used by the worked examples

    One deployment of two replicas, two pods of it, one healthy and one
    draining node, and one service. *)

From S2P Require Import Prelude Model Store MemoryStore Runtime.
From Stdlib Require Import ZArith Lia SpecFloat.
From stdpp Require Import base gmap strings list.
Local Open Scope Z_scope.

(** The float [1.0]. *)
Definition fone : float64 := S754_finite false 4503599627370496 (-52).
Definition ftwo : float64 := S754_finite false 4503599627370496 (-51).

Definition demo_deployment : Deployment :=
  mkDeployment "deploy_1" "train" "default" {[ "app" := "train" ]} DeploymentBatch "" "sleep" ["1"]
    2 1 RestartOnFailure (mkResourceRequest fone 512) DeploymentActive 100 100.

Definition demo_pod (id : string) (st : PodStatus) (node : string) (created : Time) : Pod :=
  mkPod id "deploy_1" node "default" {[ "app" := "train" ]} 0 st "" "" "sleep" ["1"]
    (mkResourceRequest fone 512) None "" "" created None None None 0.

Definition demo_node (id : string) (st : NodeStatus) (running : Z) (hb : Time) : Node :=
  mkNode id "host" "http://localhost:9100" {[ "zone" := "a" ]} st (mkResourceCapacity ftwo 2048)
    (mkResourceCapacity ftwo 2048) running 4 hb 50.

Definition demo_service : Service :=
  mkService "svc_1" "web" "default" "/web" StrategyRoundRobin {[ "zone" := "a" ]}
    (mkRetryPolicy 3 500) (mkHealthCheckConfig "/health" 5) 100.

(** Two pods on their way, one healthy node, one node being drained. *)
Definition demo_cluster : Cluster :=
  mkCluster {[ "deploy_1" := demo_deployment ]}
    {[ "pod_1" := demo_pod "pod_1" PodPending "" 200; "pod_2" := demo_pod "pod_2" PodRunning "node_1" 210 ]}
    {[ "node_1" := demo_node "node_1" NodeHealthy 1 300; "node_2" := demo_node "node_2" NodeDraining 0 300 ]}
    {[ "svc_1" := demo_service ]}.

Definition demo_world : World := mkWorld demo_cluster 1000 [] zeroStats.

Definition demo_store : MemoryStore :=
  mkMemoryStore (deployments demo_cluster) (pods demo_cluster) (nodes demo_cluster) (services demo_cluster).

Definition demo_machine : Machine MemoryStore := mkMachine demo_store 0 [] zeroStats.

#[global] Instance cluster_wf_dec c : Decision (cluster_wf c).
Proof.
  refine (cast_if (decide (
    map_Forall (fun k d => Deployment_ID d = k) (deployments c) /\
    map_Forall (fun k p => Pod_ID p = k) (pods c) /\
    map_Forall (fun k n => Node_ID n = k) (nodes c) /\
    map_Forall (fun k s => Service_ID s = k) (services c)))).
  - by destruct_and!.
  - intros []. naive_solver.
Defined.

Lemma demo_wf : cluster_wf demo_cluster.
Proof. apply (bool_decide_unpack _). vm_compute. exact I. Qed.

Lemma demo_machine_abs : machine_abs (test_oracle 1000) demo_machine demo_world.
Proof. by split. Qed.

(** Every program of the control plane runs to its end, from every world. *)
Lemma cp_runs_total {A} (fl : bool) (p : prog CpE A) (w : World) : exists a w', runs (cp_rel fl) p w a w'.
Proof.
  set (c := w_cluster w).
  set (m := mkMachine (mkMemoryStore (deployments c) (pods c) (nodes c) (services c)) 0 (w_metrics w) (w_stats w)).
  assert (Ha : machine_abs (test_oracle (w_clock w)) m w).
  { split; [by destruct c eqn:Ec|cbn; lia|done|done]. }
  destruct (run_runs _ _ _ p m w (cp_handle_implements (test_oracle (w_clock w))) Ha) as (w' & Hr & _).
  eexists _, w'. eapply runs_subrel; [|exact Hr]. intros X e w1 x w2 HR. destruct e; try exact HR.
  destruct HR as (now & c' & ? & Hp & ?). exists now, c'. split_and!; [done| |done].
  destruct Hp as [Hp|(Hf & _)]; [by left|done].
Qed.
