(* ===== verification/StoreProperties.v ===== *)
(** * Properties of the status tables and of the two stores

    The life cycles, the contract both stores meet, and their agreement. *)

From S2P Require Import Prelude MemoryStore BoltStore Model Store Runtime Fixtures.
From Stdlib Require Import ZArith Lia.
From stdpp Require Import base gmap strings list.

(** ** Life cycles *)

Lemma pod_path_closed (P : PodStatus -> Prop) s s' :
  (forall a b, P a -> b ∈ allowedPodTransitions a -> P b) -> P s -> pod_path s s' -> P s'.
Proof.
  intros Hstep Hs Hp. revert Hs. induction Hp as [|a b c Hab _ IH]; [done|].
  intros Ha. apply IH. eapply Hstep; [exact Ha|]. by apply TransitionPod_spec.
Qed.

Lemma pod_path_step s s' s'' : TransitionPod s s' = true -> pod_path s' s'' -> pod_path s s''.
Proof. intros. by eapply rtc_l. Qed.

Lemma pod_path_refl s : pod_path s s.
Proof. apply rtc_refl. Qed.

#[local] Hint Resolve pod_path_refl : plat.
Local Ltac path l := match l with
  | ?s :: ?l' => eapply (pod_path_step _ s); [reflexivity|path l']
  | nil => apply pod_path_refl
  end.

(** The pod life cycle: the statuses without an outgoing transition are
    exactly the ones the store stamps [FinishedAt] for; every status is reachable
    from PENDING, and every other status can still reach a final one; a final
    status is never left. *)
Theorem pod_lifecycle (s : PodStatus) :
  (forall x, s <> PodStatusOther x) ->
  (allowedPodTransitions s = [] <-> isTerminalPodStatus s = true) /\
  pod_path PodPending s /\
  (exists f, isTerminalPodStatus f = true /\ pod_path s f) /\
  (isTerminalPodStatus s = true -> forall s', pod_path s s' -> s' = s).
Proof.
  intros Hs. split_and!.
  - by destruct s; split; intros; try done; destruct (Hs s).
  - destruct s; try by destruct (Hs s).
    + path (@nil PodStatus).
    + path [PodScheduled].
    + path [PodScheduled; PodRunning].
    + path [PodScheduled; PodRunning; PodSucceeded].
    + path [PodScheduled; PodRunning; PodFailed].
    + path [PodScheduled; PodRunning; PodFailed; PodRetrying].
    + path [PodScheduled; PodRunning; PodFailed; PodDeadLetter].
    + path [PodCancelled].
  - destruct s; try by destruct (Hs s).
    + exists PodCancelled. split; [done|]. path [PodCancelled].
    + exists PodCancelled. split; [done|]. path [PodCancelled].
    + exists PodCancelled. split; [done|]. path [PodCancelled].
    + exists PodSucceeded. split; [done|]. path (@nil PodStatus).
    + exists PodDeadLetter. split; [done|]. path [PodDeadLetter].
    + exists PodCancelled. split; [done|]. path [PodPending; PodCancelled].
    + exists PodDeadLetter. split; [done|]. path (@nil PodStatus).
    + exists PodCancelled. split; [done|]. path (@nil PodStatus).
  - intros Ht s' Hp. apply (pod_path_closed (fun x => x = s) s); [|done|done].
    intros a b -> Hb. by destruct s; apply not_elem_of_nil in Hb || discriminate.
Qed.

Lemma pod_lifecycle_witness : pod_path PodPending PodRetrying.
Proof. apply (pod_lifecycle PodRetrying). intros x [=]. Defined.

(** ** The contract determines the outcome *)

(** Equality of results, up to the order of a listing. *)
Definition same_result {X} (op : StoreOp X) : X -> X -> Prop :=
  match op in StoreOp X return X -> X -> Prop with
  | OpListDeployments | OpListDeploymentsByNamespace _ => fun r1 r2 => r1.1 ≡ₚ r2.1 /\ r1.2 = r2.2
  | OpListPodsByDeployment _ | OpListPodsByStatus _ | OpListPodsByNode _ | OpListPodsByLabels _ _ =>
      fun r1 r2 => r1.1 ≡ₚ r2.1 /\ r1.2 = r2.2
  | OpListNodes | OpListNodesByLabels _ => fun r1 r2 => r1.1 ≡ₚ r2.1 /\ r1.2 = r2.2
  | OpListServices => fun r1 r2 => r1.1 ≡ₚ r2.1 /\ r1.2 = r2.2
  | _ => eq
  end.

Lemma list_post_functional {A} (P : A -> bool) (m : gmap string A) r1 r2 :
  list_post P m r1 -> list_post P m r2 -> r1.1 ≡ₚ r2.1 /\ r1.2 = r2.2.
Proof. intros [-> ->] [-> H]. by rewrite H. Qed.

Section Functional.
Context {A : Type} (k : string) (m m1 m2 : gmap string A) (r1 r2 : error).

Lemma create_functional x : create_post k x m r1 m1 -> create_post k x m r2 m2 -> r1 = r2 /\ m1 = m2.
Proof. unfold create_post. destruct (m !! k); naive_solver. Qed.
Lemma update_functional x : update_post k x m r1 m1 -> update_post k x m r2 m2 -> r1 = r2 /\ m1 = m2.
Proof. unfold update_post. destruct (m !! k); naive_solver. Qed.
Lemma delete_functional : delete_post k m r1 m1 -> delete_post k m r2 m2 -> r1 = r2 /\ m1 = m2.
Proof. unfold delete_post. destruct (m !! k); naive_solver. Qed.
Lemma transition_functional l f :
  transition_post k l f m r1 m1 -> transition_post k l f m r2 m2 -> r1 = r2 /\ m1 = m2.
Proof. unfold transition_post. destruct (m !! k) as [x|]; [destruct (l x)|]; naive_solver. Qed.
End Functional.

(** Two outcomes of the same kind of update agree. *)
Ltac same_update := match goal with
  | H1 : create_post _ _ _ _ _, H2 : create_post _ _ _ _ _ |- _ =>
      destruct (create_functional _ _ _ _ _ _ _ H1 H2)
  | H1 : update_post _ _ _ _ _, H2 : update_post _ _ _ _ _ |- _ =>
      destruct (update_functional _ _ _ _ _ _ _ H1 H2)
  | H1 : delete_post _ _ _ _, H2 : delete_post _ _ _ _ |- _ =>
      destruct (delete_functional _ _ _ _ _ _ H1 H2)
  | H1 : transition_post _ _ _ _ _ _, H2 : transition_post _ _ _ _ _ _ |- _ =>
      destruct (transition_functional _ _ _ _ _ _ _ _ H1 H2)
  | _ => unfold get_post in *
  end; by subst.

Lemma op_ok_functional {X} (op : StoreOp X) now c r1 c1 r2 c2 :
  op_ok op now c r1 c1 -> op_ok op now c r2 c2 -> same_result op r1 r2 /\ c1 = c2.
Proof.
  destruct op; cbn; intros H1 H2; split_and_all; subst; try done;
    first [split; [by eapply list_post_functional|done] | same_update].
Qed.

(** ** The two stores *)

(** Every method of the in-memory store meets the contract of the Store
    interface, without faults: results, errors and stored values are the ones
    the contract determines, for every listing order of [sync.Map.Range]. *)
Theorem MemoryStore_refines `{MapRange} {X} (op : StoreOp X) (now : Time) (n : nat) (s : MemoryStore) :
  op_ok op now (mem_abs s) (mem_do X op now n s).1 (mem_abs (mem_do X op now n s).2).
Proof. apply mem_do_op_ok. Qed.

Section BoltProperties.
Context {raw : Type} `{!BoltLib raw}.
Context `{!Codec raw Deployment, !Codec raw Pod, !Codec raw Node, !Codec raw Service}.

(** C20: Every method of the bbolt store, run on a database that holds a
    cluster, either does what the contract says or reports a storage error and
    leaves the database as it was; when encoding, writes and commits never fail
    it always does what the contract says. *)
Theorem BoltStore_refines {X} (op : StoreOp X) (now : Time) (n : nat) (s : BoltStore raw) (c : Cluster) :
  bolt_abs s c ->
  exists c', op_post true op now c (bolt_do X op now n s).1 c' /\ bolt_abs (bolt_do X op now n s).2 c' /\
    (bolt_reliable -> op_ok op now c (bolt_do X op now n s).1 c').
Proof.
  intros Ha. destruct (bolt_do_post true ltac:(done) X op now n s c Ha) as (c' & Hp & Ha').
  exists c'. split_and!; [done|done|]. intros Hrel.
  destruct (bolt_do_post false (fun _ => Hrel) X op now n s c Ha) as (c2 & [Hp2|(? & _)] & Ha2); [|done].
  destruct Hp as [Hp|(_ & Hf & ->)]; [done|].
  (* both abstractions describe the same buckets *)
  replace c with c2 at 2; [done|]. destruct c as [d1 p1 n1 s1], c2 as [d2 p2 n2 s2].
  destruct Ha' as [A1 A2 A3 A4], Ha2 as [B1 B2 B3 B4]. cbn in *.
  f_equal; by eapply bucket_abs_functional.
Qed.

End BoltProperties.

(** ** Time stamps *)

(** What a transition of pod [id] to [to] may answer and do. *)
Definition pod_moved (fl : bool) (id : string) (to : PodStatus) (msg : string) (now : Time)
    (c c' : Cluster) (r : error) : Prop :=
  match r with
  | None => exists p p', pods c !! id = Some p /\ to ∈ allowedPodTransitions (Pod_Status p) /\
      c' = with_pods (<[id := p']> (pods c)) c /\
      Pod_Status p' = to /\ pod_template p' = pod_template p /\
      Pod_NodeID p' = Pod_NodeID p /\ Pod_Attempt p' = Pod_Attempt p /\
      Pod_Error p' = (if String.eqb msg EmptyString then Pod_Error p else msg) /\
      Pod_ScheduledAt p' = (if bool_decide (to = PodScheduled) then set_once now (Pod_ScheduledAt p) else Pod_ScheduledAt p) /\
      Pod_StartedAt p' = (if bool_decide (to = PodRunning) then set_once now (Pod_StartedAt p) else Pod_StartedAt p) /\
      Pod_FinishedAt p' = (if isTerminalPodStatus to then set_once now (Pod_FinishedAt p) else Pod_FinishedAt p)
  | Some e => c' = c /\
      (e = ErrNotFound -> pods c !! id = None) /\
      (e = ErrInvalidTransition -> exists p, pods c !! id = Some p /\ to ∉ allowedPodTransitions (Pod_Status p)) /\
      (e = ErrEncoding -> fl = true)
  end.

Lemma op_post_pod_moved fl id to msg now c r c' :
  op_post fl (OpTransitionPod id to msg) now c r c' -> pod_moved fl id to msg now c c' r.
Proof.
  intros [(m & Hm & ->)|(-> & -> & ->)]; unfold pod_moved; [|naive_solver].
  unfold transition_post in Hm. destruct (pods c !! id) as [p|] eqn:Hp.
  2:{ destruct Hm as [-> ->]. rewrite with_pods_id. naive_solver. }
  destruct (TransitionPod (Pod_Status p) to) eqn:Hl; destruct Hm as [-> ->].
  - exists p, (apply_pod_transition to msg now p). rewrite TransitionPod_spec in Hl.
    split_and!; try done; by destruct to.
  - rewrite with_pods_id. split_and!; try done. intros _. exists p. split; [done|].
    rewrite <- TransitionPod_spec. congruence.
Qed.

(** [TransitionPod] of every store implementation, when it succeeds, moves
    the pod along an edge of the status table and changes, besides the status
    and a nonempty error message, only time stamps that were not set yet:
    [ScheduledAt] on entering SCHEDULED, [StartedAt] on entering RUNNING,
    [FinishedAt] on entering a final status.  Illegal edges and unknown pods are
    refused and change nothing. *)
Theorem TransitionPod_stamps {S} `{!StoreImpl S} (id : string) (to : PodStatus) (msg : string) (now : Time)
    (n : nat) (s : S) (c : Cluster) :
  store_abs s c ->
  exists c', store_abs (store_do (OpTransitionPod id to msg) now n s).2 c' /\
    pod_moved store_faults id to msg now c c' (store_do (OpTransitionPod id to msg) now n s).1.
Proof.
  intros Hs. destruct (store_do_ok _ (OpTransitionPod id to msg) now n s c Hs) as (c' & Hp & Ha).
  exists c'. split; [done|]. by apply op_post_pod_moved.
Qed.

Lemma TransitionPod_stamps_witness :
  exists c' p', store_abs (store_do (OpTransitionPod "pod_1" PodScheduled "") 1000%Z 0 demo_store).2 c' /\
    pods c' !! "pod_1" = Some p' /\ Pod_Status p' = PodScheduled /\ Pod_ScheduledAt p' = Some 1000%Z.
Proof.
  assert (H0 : store_abs demo_store demo_cluster) by reflexivity.
  destruct (TransitionPod_stamps "pod_1" PodScheduled "" 1000%Z 0 demo_store demo_cluster H0)
    as (c' & Ha & Hm).
  assert (Hr : (store_do (OpTransitionPod "pod_1" PodScheduled "") 1000%Z 0 demo_store).1 = None) by reflexivity.
  rewrite Hr in Hm. destruct Hm as (p & p' & Hp & _ & -> & Hst & _ & _ & _ & _ & Hsch & _).
  exists (with_pods (<["pod_1" := p']> (pods demo_cluster)) demo_cluster), p'.
  split; [exact Ha|]. split; [apply lookup_insert_eq|]. split; [exact Hst|]. rewrite Hsch.
  assert (Hd : pods demo_cluster !! "pod_1" = Some (demo_pod "pod_1" PodPending "" 200)) by reflexivity.
  assert (p = demo_pod "pod_1" PodPending "" 200) as -> by congruence. reflexivity.
Defined.

(** ** A library that satisfies the assumptions on bbolt and JSON *)

Module ToyBolt.
(** Buckets are finite maps and the encoding of a value is the value. *)
Definition raw : Type := Deployment + (Pod + (Node + Service)).

#[global] Program Instance toy_bolt : BoltLib raw := {|
  Bucket := gmap string raw;
  BEmpty := ∅;
  BGet b k := b !! k;
  BPut b k v := Some (<[k := v]> b);
  BDelete b k := Some (delete k b);
  BForEach b := map_to_list b;
  commit_ok _ := true |}.
Next Obligation. done. Qed.
Next Obligation. intros b b' k v j [= <-]. apply lookup_insert. Qed.
Next Obligation. intros b b' k j [= <-]. apply lookup_delete. Qed.
Next Obligation. intros b. apply NoDup_fst_map_to_list. Qed.
Next Obligation. intros. apply elem_of_map_to_list. Qed.

#[global] Instance toy_deployments : Codec raw Deployment.
Proof.
  refine {| Marshal x := Some (inl x); Unmarshal r := match r with inl x => Some x | _ => None end |}.
  by intros v r [= <-].
Defined.
#[global] Instance toy_pods : Codec raw Pod.
Proof.
  refine {| Marshal x := Some (inr (inl x)); Unmarshal r := match r with inr (inl x) => Some x | _ => None end |}.
  by intros v r [= <-].
Defined.
#[global] Instance toy_nodes : Codec raw Node.
Proof.
  refine {| Marshal x := Some (inr (inr (inl x))); Unmarshal r := match r with inr (inr (inl x)) => Some x | _ => None end |}.
  by intros v r [= <-].
Defined.
#[global] Instance toy_services : Codec raw Service.
Proof.
  refine {| Marshal x := Some (inr (inr (inr x))); Unmarshal r := match r with inr (inr (inr x)) => Some x | _ => None end |}.
  by intros v r [= <-].
Defined.

Lemma toy_reliable : bolt_reliable (raw := raw).
Proof. split; intros; cbn; eauto. Qed.
End ToyBolt.
Import ToyBolt.

Lemma BoltStore_refines_witness :
  exists c', op_ok (OpCreatePod (demo_pod "p" PodPending "" 0)) 0 empty_cluster
    (bolt_do _ (OpCreatePod (demo_pod "p" PodPending "" 0)) 0 0 NewBoltStore).1 c'.
Proof.
  destruct (BoltStore_refines (OpCreatePod (demo_pod "p" PodPending "" 0)) 0 0 NewBoltStore empty_cluster
    NewBoltStore_abs) as (c' & _ & _ & H).
  exists c'. exact (H toy_reliable).
Defined.

