(* ===== verification/Scheduler.v ===== *)
(** * control-plane/internal/scheduler: placement and the scheduling pass

    [SelectNode] and [Tick] as in placement.go and scheduler.go.  The slice of
    node pointers a pass works on is a list, a pointer into it is an index, so
    that capacity taken by one pod is seen by the placement of the next. *)

From S2P Require Import Prelude Model Store Runtime Fixtures.
From Stdlib Require Import ZArith Lia Sorted.
From stdpp Require Import base gmap strings list.
Local Open Scope go_scope.

(** ** placement.go *)

(** [n.RunningJobs < best.RunningJobs || (n.RunningJobs == best.RunningJobs &&
    n.RegisteredAt.Before(best.RegisteredAt))] *)
Definition better (n best : Node) : bool :=
  (Node_RunningJobs n <? Node_RunningJobs best)%Z
  || ((Node_RunningJobs n =? Node_RunningJobs best)%Z
      && Before (Node_RegisteredAt n) (Node_RegisteredAt best)).

Fixpoint select_from (i : nat) (candidates : list Node) (required : ResourceRequest)
    (best : option (nat * Node)) : option (nat * Node) :=
  match candidates with
  | [] => best
  | n :: rest =>
      let best' :=
        if negb (bool_decide (Node_Status n = NodeHealthy)) then best
        else if negb (HasCapacityFor n required) then best
        else match best with
             | None => Some (i, n)
             | Some (_, b) => if better n b then Some (i, n) else best
             end in
      select_from (S i) rest required best'
  end.

(** [None] is [ErrNoCapacity]. *)
Definition SelectNode (candidates : list Node) (required : ResourceRequest) : option (nat * Node) :=
  select_from 0 candidates required None.

(** ** scheduler.go *)

(** The backoff gate of the reconciler. *)
Definition backing_off (now : Time) (pod : Pod) : bool :=
  negb (IsZero (Pod_RunAfter pod)) && After (Pod_RunAfter pod) now.

(** [node.Available -= required; node.RunningJobs++] *)
Definition reserve (required : ResourceRequest) (node : Node) : Node :=
  node_with_usage
    (mkResourceCapacity (fsub (Cap_CPU (Node_Available node)) (Req_CPU required))
       (Cap_MemoryMB (Node_Available node) -64 Req_MemoryMB required))
    (Node_RunningJobs node +64 1) node.

(** The rest of an iteration once the pod's request is known: select a node,
    assign the pod to it, flip the status, reserve the capacity. *)
Definition place_pod (required : ResourceRequest) (pod : Pod) (st : list Node * Z)
    : prog CpE (list Node * Z) :=
  let '(nodes, scheduled) := st in
  match SelectNode nodes required with
  | None => Ret st
  | Some (i, node) =>
      let pod := pod_with_node (Node_ID node) pod in
      err ← store (OpUpdatePod pod);
      match err with
      | Some _ => Ret st
      | None =>
          err ← store (OpTransitionPod (Pod_ID pod) PodScheduled EmptyString);
          match err with
          | Some _ => Ret st
          | None =>
              let node := reserve required node in
              _ ← store (OpUpdateNode node);
              t ← time_now;
              _ ← metric (SchedulerLatency (Sub t (Pod_CreatedAt pod)));
              Ret (<[i := node]> nodes, (scheduled + 1)%Z)
          end
      end
  end.

(** One iteration of the loop over the pending pods. *)
Definition schedule_pod (now : Time) (pod : Pod) (st : list Node * Z) : prog CpE (list Node * Z) :=
  if backing_off now pod then Ret st
  else
    d ← store (OpGetDeployment (Pod_DeploymentID pod));
    place_pod (match d with inl d => Deployment_Resources d | inr _ => zeroRequest end) pod st.

Definition older (p q : Pod) : bool := Before (Pod_CreatedAt p) (Pod_CreatedAt q).

Definition Tick `{SliceSort} : prog CpE unit :=
  '(pending, err) ← store (OpListPodsByStatus PodPending);
  match err with
  | Some _ => Ret tt
  | None =>
      let pending := sort_slice older pending in
      '(nodes, err) ← store OpListNodes;
      match err with
      | Some _ => Ret tt
      | None =>
          now ← time_now;
          '(nodes, scheduled) ← for_each pending (nodes, 0%Z) (schedule_pod now);
          let left := (Z.of_nat (length pending) - scheduled)%Z in
          _ ← metric (SchedulerQueueDepth left);
          t ← time_now;
          call (ESetStats (mkStats t scheduled left))
      end
  end.

(** ** SelectNode *)

(** The nodes the policy considers. *)
Definition eligible (required : ResourceRequest) (n : Node) : bool :=
  bool_decide (Node_Status n = NodeHealthy) && HasCapacityFor n required.

Lemma better_trans a b c : better a b = true -> better b c = true -> better a c = true.
Proof.
  unfold better, Before. rewrite !orb_true_iff, !andb_true_iff, !Z.ltb_lt, !Z.eqb_eq. lia.
Qed.

(** [better] is the lexicographic order on load, registration time and position. *)
Lemma better_lex n b i j :
  better n b = false -> (j < i -> better b n = true) ->
  (Node_RunningJobs b < Node_RunningJobs n)%Z \/
  Node_RunningJobs b = Node_RunningJobs n /\
    ((Node_RegisteredAt b < Node_RegisteredAt n)%Z \/ Node_RegisteredAt b = Node_RegisteredAt n /\ i <= j).
Proof.
  unfold better, Before.
  rewrite orb_false_iff, andb_false_iff, orb_true_iff, andb_true_iff, !Z.ltb_ge, !Z.ltb_lt, Z.eqb_neq, Z.eqb_eq.
  destruct (decide (j < i)); lia.
Qed.

Lemma better_weak a b c : better a b = true -> better c b = false -> better c a = false.
Proof.
  intros Hab Hcb. destruct (better c a) eqn:E; [|done].
  by rewrite (better_trans _ _ _ E Hab) in Hcb.
Qed.

(** The running minimum of the loop: the best of the candidates seen, and the
    earliest among equals. *)
Definition best_of (required : ResourceRequest) (seen : list Node) (best : option (nat * Node)) : Prop :=
  match best with
  | None => forall n, n ∈ seen -> eligible required n = false
  | Some (i, b) => seen !! i = Some b /\ eligible required b = true /\
      (forall j n, seen !! j = Some n -> eligible required n = true ->
         better n b = false /\ (j < i -> better b n = true))
  end.

Lemma best_of_snoc required seen n best :
  best_of required seen best ->
  best_of required (seen ++ [n])
    (if negb (bool_decide (Node_Status n = NodeHealthy)) then best
     else if negb (HasCapacityFor n required) then best
     else match best with
          | None => Some (length seen, n)
          | Some (_, b) => if better n b then Some (length seen, n) else best
          end).
Proof.
  intros Hb.
  assert (Hskip : eligible required n = false -> best_of required (seen ++ [n]) best).
  { intros He. destruct best as [[i b]|]; cbn in *.
    - destruct Hb as (H1 & H2 & H3). split; [by apply lookup_app_l_Some|]. split; [done|].
      intros j m Hj Hm. apply lookup_app_Some in Hj as [Hj|[_ Hj]]; [by apply (H3 j)|].
      apply list_lookup_singleton_Some in Hj as [_ <-]. congruence.
    - intros m Hm. apply elem_of_app in Hm as [Hm|Hm]; [by apply Hb|].
      apply list_elem_of_singleton in Hm. by subst. }
  unfold eligible in Hskip. case_bool_decide as Hh; cbn [negb andb] in *; [|by apply Hskip].
  destruct (HasCapacityFor n required) eqn:Hc; cbn [negb] in *; [|by apply Hskip].
  assert (He : eligible required n = true).
  { unfold eligible. rewrite Hc. by case_bool_decide. }
  destruct best as [[i b]|]; cbn in Hb; [destruct (better n b) eqn:Hnb|].
  - destruct Hb as (H1 & H2 & H3). cbn. split; [by apply list_lookup_middle|]. split; [done|].
    intros j m Hj Hm. apply lookup_app_Some in Hj as [Hj|[Hge Hj]].
    + destruct (H3 j m Hj Hm) as [Hmb _]. split; [by eapply better_weak|]. intros _.
      destruct (decide (better b m = true)) as [Hbm|Hbm].
      * by eapply better_trans.
      * apply not_true_is_false in Hbm. revert Hnb Hbm Hmb. unfold better, Before.
        rewrite !orb_true_iff, !orb_false_iff, !andb_true_iff, !andb_false_iff,
          !Z.ltb_lt, !Z.ltb_ge, !Z.eqb_eq, !Z.eqb_neq. lia.
    + apply list_lookup_singleton_Some in Hj as [Hz <-]. split; [|lia].
      unfold better, Before. rewrite orb_false_iff, andb_false_iff, !Z.ltb_ge. lia.
  - destruct Hb as (H1 & H2 & H3). cbn. split; [by apply lookup_app_l_Some|]. split; [done|].
    intros j m Hj Hm. apply lookup_app_Some in Hj as [Hj|[Hge Hj]]; [by apply (H3 j)|].
    apply list_lookup_singleton_Some in Hj as [_ <-]. split; [done|].
    apply lookup_lt_Some in H1. lia.
  - cbn. split; [by apply list_lookup_middle|]. split; [done|].
    intros j m Hj Hm. apply lookup_app_Some in Hj as [Hj|[Hge Hj]].
    + apply list_elem_of_lookup_2, Hb in Hj. congruence.
    + apply list_lookup_singleton_Some in Hj as [Hz <-]. split; [|lia].
      unfold better, Before. rewrite orb_false_iff, andb_false_iff, !Z.ltb_ge. lia.
Qed.

Lemma select_from_spec required rest seen best :
  best_of required seen best ->
  best_of required (seen ++ rest) (select_from (length seen) rest required best).
Proof.
  revert seen best. induction rest as [|n rest IH]; intros seen best Hb; cbn [select_from].
  { by rewrite app_nil_r. }
  rewrite cons_middle, app_assoc.
  replace (S (length seen)) with (length (seen ++ [n])) by (rewrite length_app; cbn; lia).
  by apply IH, best_of_snoc.
Qed.

Lemma SelectNode_best required candidates :
  best_of required candidates (SelectNode candidates required).
Proof. apply (select_from_spec _ _ []). by intros n ?%not_elem_of_nil. Qed.

(** ** One iteration *)

(** The request a pod is placed with: its deployment's, or the zero request
    when the deployment cannot be read. *)
Definition required_of (c : Cluster) (pod : Pod) : ResourceRequest :=
  match deployments c !! Pod_DeploymentID pod with
  | Some d => Deployment_Resources d
  | None => zeroRequest
  end.

Definition request_ok (fl : bool) (c : Cluster) (pod : Pod) (req : ResourceRequest) : Prop :=
  req = required_of c pod \/ (fl = true /\ req = zeroRequest).

(** The pod as a pass leaves it on node [nid]. *)
Definition scheduled_pod (t : Time) (nid : string) (pod : Pod) : Pod :=
  apply_pod_transition PodScheduled EmptyString t (pod_with_node nid pod).

(** What one iteration can do, given the stored pod is the listed one. *)
Inductive iteration (fl : bool) (now : Time) (pod : Pod) (ns : list Node) (k : Z) (c : Cluster)
  : list Node -> Z -> Cluster -> Prop :=
| it_backoff : backing_off now pod = true -> iteration fl now pod ns k c ns k c
| it_nofit req : backing_off now pod = false -> request_ok fl c pod req ->
    SelectNode ns req = None -> iteration fl now pod ns k c ns k c
| it_fault : fl = true -> backing_off now pod = false -> iteration fl now pod ns k c ns k c
| it_fault_assigned req i node : fl = true -> backing_off now pod = false ->
    SelectNode ns req = Some (i, node) ->
    iteration fl now pod ns k c ns k
      (with_pods (<[Pod_ID pod := pod_with_node (Node_ID node) pod]> (pods c)) c)
| it_placed req i node t c1 c2 : backing_off now pod = false -> request_ok fl c pod req ->
    SelectNode ns req = Some (i, node) ->
    c1 = with_pods (<[Pod_ID pod := scheduled_pod t (Node_ID node) pod]> (pods c)) c ->
    (c2 = with_nodes (<[Node_ID node := reserve req node]> (nodes c1)) c1
     \/ (fl = true /\ c2 = c1)) ->
    iteration fl now pod ns k c (<[i := reserve req node]> ns) (k + 1) c2.

Section Iteration.
Variables (fl : bool) (now : Time) (pod : Pod) (ns : list Node) (k : Z).
Variable Q : list Node * Z -> World -> Prop.

Lemma place_pod_wp req c w :
  w_cluster w = c -> backing_off now pod = false -> request_ok fl c pod req ->
  pods c !! Pod_ID pod = Some pod -> Pod_Status pod = PodPending ->
  (forall n, n ∈ ns -> is_Some (nodes c !! Node_ID n)) ->
  (forall ns' k' w', (w_clock w <= w_clock w')%Z ->
     iteration fl now pod ns k c ns' k' (w_cluster w') -> Q (ns', k') w') ->
  wp (cp_rel fl) (place_pod req pod (ns, k)) Q w.
Proof using Type.
  intros <- Hb Hreq Hpod Hst Hns HQ. unfold place_pod.
  destruct (SelectNode ns req) as [[i node]|] eqn:Es; [|apply HQ; [lia|by eapply it_nofit]].
  assert (node ∈ ns) as Hin.
  { pose proof (SelectNode_best req ns) as Hbest. rewrite Es in Hbest.
    by eapply list_elem_of_lookup_2, Hbest. }
  apply wp_store. intros t1 e1 c1 Ht1 [(m & Hm & ->)|(Hfl & -> & ->)].
  2:{ apply HQ; [cbn; lia|]. by apply it_fault. }
  unfold update_post in Hm. cbn in Hm. rewrite Hpod in Hm. destruct Hm as [-> ->].
  apply wp_store. intros t2 e2 c2 Ht2 [(m & Hm & ->)|(Hfl & -> & ->)].
  2:{ apply HQ; [cbn in *; lia|]. by eapply it_fault_assigned. }
  unfold transition_post in Hm. cbn in Hm. rewrite lookup_insert_eq in Hm. cbn in Hm.
  rewrite Hst in Hm. destruct Hm as [-> ->].
  apply wp_store. intros t3 e3 c3 Ht3 He3. apply wp_now. intros t4 Ht4. apply wp_metric.
  apply HQ; [cbn in *; lia|].
  apply (it_placed _ _ _ _ _ _ req i node t2 _ _ Hb Hreq Es eq_refl).
  destruct He3 as [(m & Hm & ->)|(Hfl & _ & ->)]; [left|right; split; [done|]].
  2:{ unfold with_pods; cbn. by rewrite insert_insert_eq. }
  unfold update_post in Hm. cbn in Hm. destruct (Hns node Hin) as [? Hn]. rewrite Hn in Hm.
  destruct Hm as [_ ->]. unfold with_nodes, with_pods; cbn. by rewrite insert_insert_eq.
Qed.

Lemma schedule_pod_wp w :
  pods (w_cluster w) !! Pod_ID pod = Some pod -> Pod_Status pod = PodPending ->
  (forall n, n ∈ ns -> is_Some (nodes (w_cluster w) !! Node_ID n)) ->
  (forall ns' k' w', (w_clock w <= w_clock w')%Z ->
     iteration fl now pod ns k (w_cluster w) ns' k' (w_cluster w') -> Q (ns', k') w') ->
  wp (cp_rel fl) (schedule_pod now pod (ns, k)) Q w.
Proof using Type.
  intros Hpod Hst Hns HQ. unfold schedule_pod.
  destruct (backing_off now pod) eqn:Hb; [apply HQ; [lia|by apply it_backoff]|].
  apply wp_store. intros t d c Ht Hd.
  apply (place_pod_wp _ (w_cluster w)); auto.
  - by destruct Hd as [[_ ->]|(_ & _ & ->)].
  - unfold request_ok, required_of. destruct Hd as [[-> _]|(Hfl & Hd & _)].
    + left. by destruct (deployments _ !! _).
    + right. cbn in Hd. by subst.
  - intros ns' k' w' Hw. apply HQ. cbn in Hw. lia.
Qed.
End Iteration.

(** ** The whole pass *)

(** The iterations of a pass, in order. *)
Inductive iterations (fl : bool) (now : Time)
  : list Pod -> list Node -> Z -> Cluster -> list Node -> Z -> Cluster -> Prop :=
| its_nil ns k c : iterations fl now [] ns k c ns k c
| its_snoc pre pod ns k c ns1 k1 c1 ns2 k2 c2 :
    iterations fl now pre ns k c ns1 k1 c1 ->
    iteration fl now pod ns1 k1 c1 ns2 k2 c2 ->
    pods c !! Pod_ID pod = Some pod -> pods c1 !! Pod_ID pod = Some pod ->
    Pod_Status pod = PodPending ->
    iterations fl now (pre ++ [pod]) ns k c ns2 k2 c2.

(** What a pass does: it lists, sorts, reads the clock and iterates. *)
Inductive pass (fl : bool) (w w' : World) : Prop :=
| pass_fault : fl = true -> w_cluster w' = w_cluster w -> w_stats w' = w_stats w -> pass fl w w'
| pass_run pending ns now ns' k t :
    pending ≡ₚ filter (fun p => bool_decide (Pod_Status p = PodPending) = true)
                 (map_to_list (pods (w_cluster w))).*2 ->
    StronglySorted (fun p q => older q p = false) pending ->
    ns ≡ₚ (map_to_list (nodes (w_cluster w))).*2 ->
    (w_clock w <= now <= w_clock w')%Z ->
    iterations fl now pending ns 0 (w_cluster w) ns' k (w_cluster w') ->
    w_stats w' = mkStats t k (Z.of_nat (length pending) - k) ->
    pass fl w w'.

#[global] Instance older_weak : WeakOrder older.
Proof. split; intros; unfold older, Before in *; rewrite !Z.ltb_ge in *; lia. Qed.

Lemma iteration_nodes_dom fl now pod ns k c ns' k' c' :
  iteration fl now pod ns k c ns' k' c' ->
  (forall n, n ∈ ns -> is_Some (nodes c !! Node_ID n)) ->
  (forall n, n ∈ ns' -> is_Some (nodes c' !! Node_ID n)).
Proof.
  intros Hit Hns. destruct Hit as [| | | |req i node t c1 c2 _ _ Hs -> Hc2]; try done.
  assert (Hall : forall n, n ∈ <[i := reserve req node]> ns -> is_Some (nodes c !! Node_ID n)).
  { intros n Hn. apply list_elem_of_lookup in Hn as [j Hj].
    apply list_lookup_insert_Some in Hj as [(-> & <- & Hlt)|[_ Hj]].
    - apply (Hns node). pose proof (SelectNode_best req ns) as Hb. rewrite Hs in Hb.
      by eapply list_elem_of_lookup_2, Hb.
    - by eapply Hns, list_elem_of_lookup_2. }
  destruct Hc2 as [->|[_ ->]]; intros n Hn; cbn; [|by apply Hall].
  rewrite lookup_insert. case_decide; [done|]. by apply Hall.
Qed.

Lemma iteration_other_pods fl now pod ns k c ns' k' c' id :
  iteration fl now pod ns k c ns' k' c' -> id <> Pod_ID pod -> pods c' !! id = pods c !! id.
Proof.
  destruct 1 as [| | | |req i node t c1 c2 _ _ Hs -> Hc2]; intros Hne; cbn; try done.
  - by rewrite lookup_insert_ne.
  - destruct Hc2 as [->|[_ ->]]; cbn; by rewrite lookup_insert_ne.
Qed.

Lemma Tick_loop_wp fl now pending ns w :
  NoDup (Pod_ID <$> pending) ->
  (forall p, p ∈ pending -> pods (w_cluster w) !! Pod_ID p = Some p /\ Pod_Status p = PodPending) ->
  (forall n, n ∈ ns -> is_Some (nodes (w_cluster w) !! Node_ID n)) ->
  wp (cp_rel fl) (for_each pending (ns, 0%Z) (schedule_pod now))
    (fun s w' => (w_clock w <= w_clock w')%Z /\
       iterations fl now pending ns 0 (w_cluster w) s.1 s.2 (w_cluster w')) w.
Proof.
  intros Hnd Hpend Hns.
  eapply wp_mono; [|apply (wp_for_each _ (fun pre post s w' =>
    (w_clock w <= w_clock w')%Z /\
    iterations fl now pre ns 0 (w_cluster w) s.1 s.2 (w_cluster w') /\
    (forall p, p ∈ post -> pods (w_cluster w') !! Pod_ID p = Some p) /\
    (forall n, n ∈ s.1 -> is_Some (nodes (w_cluster w') !! Node_ID n))))].
  - cbn. intros s w' (H1 & H2 & _). done.
  - split; [lia|]. split; [constructor|]. split; [|done]. intros p Hp. by apply Hpend.
  - intros pre pod post [ns1 k1] w1 -> (Hcl & Hits & Hpost & Hn1). cbn in *.
    assert (Hst : Pod_Status pod = PodPending) by (apply Hpend; set_solver).
    assert (Hin : pods (w_cluster w1) !! Pod_ID pod = Some pod) by (apply Hpost; set_solver).
    assert (Hin0 : pods (w_cluster w) !! Pod_ID pod = Some pod) by (apply Hpend; set_solver).
    apply schedule_pod_wp; [done|done|done|]. intros ns' k' w' Hcl' Hit. cbn.
    split; [lia|]. split; [by eapply its_snoc|]. split; [|by eapply iteration_nodes_dom].
    intros p Hp. erewrite iteration_other_pods; [apply Hpost; set_solver|exact Hit|].
    rewrite fmap_app, fmap_cons in Hnd. apply NoDup_app in Hnd as (_ & _ & Hnd).
    apply NoDup_cons in Hnd as [Hni _]. intros Heq. apply Hni. rewrite <- Heq.
    by apply list_elem_of_fmap_2.
Qed.

Section Pass.
Context `{SliceSort}.

Lemma Tick_pass fl w :
  cluster_wf (w_cluster w) -> wp (cp_rel fl) Tick (fun _ w' => pass fl w w') w.
Proof.
  intros Hwf. unfold Tick.
  apply wp_store. intros t1 [pending e1] c1 Ht1 [[Hl ->]|(Hfl & He & ->)].
  2:{ cbn in He. subst e1. by apply pass_fault. }
  pose proof Hl as [He1 Hperm]. cbn in He1, Hperm. subst e1.
  apply wp_store. intros t2 [ns e2] c2 Ht2 [[Hn ->]|(Hfl & He & ->)].
  2:{ cbn in He. subst e2. by apply pass_fault. }
  pose proof Hn as [He2 Hnperm]. cbn in He2, Hnperm. subst e2.
  apply wp_now. intros now Hnow. cbn in Ht2, Hnow.
  eapply wp_seq; [apply Tick_loop_wp|].
  - rewrite sort_slice_perm. eapply list_post_nodup; [apply Hwf|exact Hl].
  - intros p Hp. rewrite sort_slice_perm in Hp.
    apply (list_post_elem _ _ _ _ p Hl) in Hp as [[k Hk] Hp]. cbn.
    rewrite bool_decide_eq_true in Hp. by rewrite (wf_pods _ Hwf k p Hk).
  - cbn. intros n Hin. apply (list_post_elem _ _ _ _ n Hn) in Hin as [[k Hk] _].
    by rewrite (wf_nodes _ Hwf k n Hk).
  - intros [ns' k'] w' (Hcl & Hits). cbn in Hcl, Hits. apply wp_metric. apply wp_now. intros t Ht.
    intros [] w'' ->. cbn in Ht. eapply (pass_run _ _ _ (sort_slice older pending) ns now ns' k' t); cbn.
    + by rewrite sort_slice_perm.
    + apply sort_slice_sorted, _.
    + by rewrite Hnperm, filter_all_true.
    + lia.
    + exact Hits.
    + done.
Qed.
End Pass.

(** Induction over a pass: a predicate kept by every iteration holds at the end. *)
Lemma iterations_inv fl now (J : list Pod -> list Node -> Cluster -> Prop) pending ns k c ns' k' c' :
  J [] ns c ->
  (forall pre pod ns1 k1 c1 ns2 k2 c2,
     pods c !! Pod_ID pod = Some pod -> pods c1 !! Pod_ID pod = Some pod ->
     Pod_Status pod = PodPending ->
     J pre ns1 c1 -> iteration fl now pod ns1 k1 c1 ns2 k2 c2 -> J (pre ++ [pod]) ns2 c2) ->
  iterations fl now pending ns k c ns' k' c' -> J pending ns' c'.
Proof. intros H0 Hstep. induction 1; eauto. Qed.

(** Lookup in the node slice after a reservation. *)
Lemma reserved_elem ns i req node n :
  SelectNode ns req = Some (i, node) -> n ∈ <[i := reserve req node]> ns ->
  n = reserve req node \/ n ∈ ns.
Proof.
  intros Hs Hn. apply list_elem_of_lookup in Hn as [j Hj].
  apply list_lookup_insert_Some in Hj as [(_ & -> & _)|[_ Hj]]; [by left|right].
  by eapply list_elem_of_lookup_2.
Qed.

Lemma selected_elem ns i req node :
  SelectNode ns req = Some (i, node) -> ns !! i = Some node /\ node ∈ ns /\ eligible req node = true.
Proof.
  intros Hs. pose proof (SelectNode_best req ns) as Hb. rewrite Hs in Hb.
  destruct Hb as (H1 & H2 & _). eauto using list_elem_of_lookup_2.
Qed.

Lemma eligible_healthy req n : eligible req n = true -> Node_Status n = NodeHealthy.
Proof. unfold eligible. rewrite andb_true_iff, bool_decide_eq_true. tauto. Qed.

Lemma backing_off_mono p now t :
  (now <= t)%Z -> backing_off now p = false -> backing_off t p = false.
Proof.
  unfold backing_off, After. rewrite !andb_false_iff, !Z.ltb_ge. intros ? [?|?]; [by left|right; lia].
Qed.

(** *** Frame: what a pass may change *)

(** Only the usage of a node changes. *)
Definition node_usage_only (n n' : Node) : Prop :=
  n' = node_with_usage (Node_Available n') (Node_RunningJobs n') n.

(** A pod is untouched, or it was pending and due and is now scheduled on a
    node that was healthy (or, after a storage fault, only assigned to it). *)
Definition pod_placed (fl : bool) (c0 : Cluster) (t_end : Time) (p p' : Pod) : Prop :=
  p' = p \/
  (Pod_Status p = PodPending /\ backing_off t_end p = false /\
   exists n, nodes c0 !! Node_ID n = Some n /\ Node_Status n = NodeHealthy /\
     ((exists t, p' = scheduled_pod t (Node_ID n) p)
      \/ (fl = true /\ p' = pod_with_node (Node_ID n) p))).

Record pass_frame (fl : bool) (c0 : Cluster) (t_end : Time) (c : Cluster) : Prop := {
  pf_deployments : deployments c = deployments c0;
  pf_services : services c = services c0;
  pf_pods : forall id, option_Forall2 (pod_placed fl c0 t_end) (pods c0 !! id) (pods c !! id);
  pf_nodes : forall id, option_Forall2 node_usage_only (nodes c0 !! id) (nodes c !! id) }.

Lemma node_usage_only_refl n : node_usage_only n n.
Proof. by destruct n. Qed.

Lemma node_usage_only_reserve n n1 req :
  node_usage_only n n1 -> node_usage_only n (reserve req n1).
Proof. unfold node_usage_only. intros ->. by destruct n. Qed.

Lemma node_usage_only_same n n' :
  node_usage_only n n' -> Node_ID n' = Node_ID n /\ Node_Status n' = Node_Status n.
Proof. intros ->. by destruct n. Qed.

#[local] Hint Resolve node_usage_only_refl node_usage_only_reserve : plat.

(** The loop invariant behind the frame: the pods already visited, and the
    slice the pass works on next to the nodes it started from. *)
Definition frame_inv (fl : bool) (now : Time) (c0 : Cluster) (ns : list Node) (c : Cluster) : Prop :=
  pass_frame fl c0 now c /\
  (forall n, n ∈ ns -> exists n0, nodes c0 !! Node_ID n = Some n0 /\ Node_ID n0 = Node_ID n
                       /\ node_usage_only n0 n).

Lemma frame_pod fl now c0 id p p' (m m' : gmap string Pod) :
  pods c0 !! id = Some p -> pod_placed fl c0 now p p' ->
  (forall id, option_Forall2 (pod_placed fl c0 now) (pods c0 !! id) (m !! id)) ->
  m' = <[id := p']> m ->
  forall id, option_Forall2 (pod_placed fl c0 now) (pods c0 !! id) (m' !! id).
Proof.
  intros Hp0 Hpl Hm -> j. rewrite lookup_insert. case_decide as Heq; [|done]. subst j.
  rewrite Hp0. by constructor.
Qed.

Lemma frame_inv_step fl now c0 pod ns k c ns' k' c' :
  pods c0 !! Pod_ID pod = Some pod -> Pod_Status pod = PodPending ->
  frame_inv fl now c0 ns c -> iteration fl now pod ns k c ns' k' c' -> frame_inv fl now c0 ns' c'.
Proof.
  intros Hpod Hst [[Hd Hs Hp Hn] Hns] Hit.
  assert (Hsel : forall req i node, SelectNode ns req = Some (i, node) ->
    exists n0, nodes c0 !! Node_ID n0 = Some n0 /\ Node_ID n0 = Node_ID node /\
               node_usage_only n0 node /\ Node_Status n0 = NodeHealthy).
  { intros req i node Hsn. apply selected_elem in Hsn as (_ & Hin & He).
    destruct (Hns node Hin) as (n0 & H1 & H2 & H3). exists n0. rewrite H2. repeat split; try done.
    destruct (node_usage_only_same _ _ H3) as [_ <-]. by apply eligible_healthy in He. }
  destruct Hit as [| | |req i node Hfl Hb Hsn|req i node t c1 c2 Hb Hreq Hsn -> Hc2]; try done.
  - destruct (Hsel _ _ _ Hsn) as (n0 & H1 & H2 & H3 & H4). split; [|done]. split; cbn; try done.
    eapply frame_pod; [exact Hpod| |exact Hp|done]. right. rewrite <- H2. eauto 10.
  - destruct (Hsel _ _ _ Hsn) as (n0 & H1 & H2 & H3 & H4).
    assert (Hns' : forall n, n ∈ <[i := reserve req node]> ns ->
      exists n0, nodes c0 !! Node_ID n = Some n0 /\ Node_ID n0 = Node_ID n /\ node_usage_only n0 n).
    { intros n Hin. destruct (reserved_elem _ _ _ _ _ Hsn Hin) as [->|Hin']; [|by apply Hns].
      exists n0. cbn. rewrite <- H2. auto with plat. }
    assert (Hpods : forall id, option_Forall2 (pod_placed fl c0 now) (pods c0 !! id)
              (<[Pod_ID pod := scheduled_pod t (Node_ID node) pod]> (pods c) !! id)).
    { eapply frame_pod; [exact Hpod| |exact Hp|done]. right. rewrite <- H2. eauto 10. }
    split; [|done]. destruct Hc2 as [->|[_ ->]]; split; cbn; try done.
    intros id. rewrite lookup_insert. case_decide as Heq; [|done]. subst id.
    rewrite <- H2, H1. constructor. auto with plat.
Qed.

Lemma iterations_frame fl now pending ns k c ns' k' c' :
  cluster_wf c -> ns ≡ₚ (map_to_list (nodes c)).*2 ->
  iterations fl now pending ns k c ns' k' c' -> pass_frame fl c now c'.
Proof.
  intros Hwf Hns Hits.
  apply (iterations_inv _ _ (fun _ ns1 c1 => frame_inv fl now c ns1 c1)) in Hits as [H _]; [done| |].
  - split.
    + split; try done; intros id; apply option_Forall2_refl'; auto with plat. by left.
    + intros n Hin. rewrite Hns, elem_of_map_values in Hin. destruct Hin as [j Hj].
      exists n. rewrite (wf_nodes _ Hwf _ _ Hj). auto with plat.
  - intros. eapply frame_inv_step; eauto.
Qed.

(** *** Capacity: a pass does not oversubscribe *)

(** A node within its limits: free memory between zero and the capacity, and
    no more jobs than [MaxConcurrent] when that is set. *)
Record node_fits (n : Node) : Prop := {
  fits_mem : (0 <= Cap_MemoryMB (Node_Available n) <= Cap_MemoryMB (Node_Capacity n))%Z;
  fits_cap : in_int64 (Cap_MemoryMB (Node_Capacity n));
  fits_max : in_int64 (Node_MaxConcurrent n);
  fits_run : in_int64 (Node_RunningJobs n);
  fits_jobs : (0 < Node_MaxConcurrent n -> Node_RunningJobs n <= Node_MaxConcurrent n)%Z }.

(** No request asks for a negative amount of memory. *)
Definition requests_nonneg (c : Cluster) : Prop :=
  map_Forall (fun _ d => 0 <= Req_MemoryMB (Deployment_Resources d))%Z (deployments c).

Lemma HasCapacityFor_spec n req :
  HasCapacityFor n req = true ->
  (0 < Node_MaxConcurrent n -> Node_RunningJobs n < Node_MaxConcurrent n)%Z /\
  fle (Req_CPU req) (Cap_CPU (Node_Available n)) = true /\
  (Req_MemoryMB req <= Cap_MemoryMB (Node_Available n))%Z.
Proof.
  unfold HasCapacityFor. destruct (_ && _) eqn:E; [done|].
  rewrite andb_false_iff, Z.ltb_ge, Z.leb_gt in E. rewrite andb_true_iff, Z.leb_le.
  intros [? ?]. split; [lia|done].
Qed.

Lemma reserve_fits n req :
  node_fits n -> HasCapacityFor n req = true -> (0 <= Req_MemoryMB req)%Z -> node_fits (reserve req n).
Proof.
  intros [Hm Hc Hx Hr Hj] Hcap Hreq. apply HasCapacityFor_spec in Hcap as (Hjobs & _ & Hmem).
  unfold in_int64, min_int64, max_int64 in *.
  split; cbn; unfold in_int64, min_int64, max_int64; try done.
  - rewrite int64_wrap_id; unfold in_int64, min_int64, max_int64; lia.
  - apply int64_wrap_range.
  - intros Hpos. rewrite int64_wrap_id; unfold in_int64, min_int64, max_int64; lia.
Qed.

Lemma request_nonneg fl c pod req :
  requests_nonneg c -> request_ok fl c pod req -> (0 <= Req_MemoryMB req)%Z.
Proof.
  intros Hnn [->|[_ ->]]; [|done]. unfold required_of.
  destruct (deployments c !! _) eqn:E; [by apply (Hnn _ _ E) | done].
Qed.

Lemma iterations_fits fl now pending ns k c ns' k' c' :
  requests_nonneg c -> ns ≡ₚ (map_to_list (nodes c)).*2 ->
  map_Forall (fun _ n => node_fits n) (nodes c) ->
  iterations fl now pending ns k c ns' k' c' ->
  map_Forall (fun _ n => node_fits n) (nodes c').
Proof.
  intros Hnn Hns Hfit Hits.
  apply (iterations_inv _ _ (fun _ ns1 c1 => deployments c1 = deployments c /\
    (forall n, n ∈ ns1 -> node_fits n) /\ map_Forall (fun _ n => node_fits n) (nodes c1))) in Hits.
  - tauto.
  - split; [done|]. split; [|done]. intros n Hn. rewrite Hns, elem_of_map_values in Hn.
    destruct Hn as [j Hj]. by apply (Hfit j).
  - intros pre pod ns1 k1 c1 ns2 k2 c2 _ _ _ (Hd & Hl & Hs) Hit.
    destruct Hit as [| | | |req i node t c3 c4 _ Hreq Hsn -> Hc]; try done.
    destruct (selected_elem _ _ _ _ Hsn) as (_ & Hin & He).
    apply andb_true_iff in He as [_ Hcap].
    assert (Hr : node_fits (reserve req node)).
    { apply reserve_fits; [by apply Hl|done|]. eapply request_nonneg; [|exact Hreq].
      unfold requests_nonneg. by rewrite Hd. }
    assert (Hns2 : forall n, n ∈ <[i := reserve req node]> ns1 -> node_fits n).
    { intros n Hn. destruct (reserved_elem _ _ _ _ _ Hsn Hn) as [->|?]; auto. }
    destruct Hc as [->|[_ ->]]; cbn; split_and!; try done. by apply map_Forall_insert_2.
Qed.

(** *** Bookkeeping: job counters follow the pods *)

(** The pods that hold a slot of node [nid]. *)
Definition occupies (nid : string) (p : Pod) : Prop :=
  Pod_NodeID p = nid /\ (Pod_Status p = PodScheduled \/ Pod_Status p = PodRunning).

#[global] Instance occupies_dec nid p : Decision (occupies nid p).
Proof. unfold occupies. apply _. Defined.

Definition booked (c : Cluster) (nid : string) : Z :=
  Z.of_nat (size (filter (fun kv : string * Pod => occupies nid kv.2) (pods c))).

Lemma booked_insert (m : gmap string Pod) id p p' (P : Pod -> Prop) `{forall p, Decision (P p)} :
  m !! id = Some p -> ~ P p ->
  size (filter (fun kv : string * Pod => P kv.2) (<[id := p']> m)) =
  (size (filter (fun kv : string * Pod => P kv.2) m) + (if decide (P p') then 1 else 0))%nat.
Proof.
  intros Hp HnP. rewrite map_filter_insert. cbn. case_decide.
  - rewrite map_size_insert_None; [lia|]. apply map_lookup_filter_None. right.
    intros x Hx. rewrite Hp in Hx. by simplify_eq.
  - rewrite map_filter_delete, delete_id; [lia|]. apply map_lookup_filter_None. right.
    intros x Hx. rewrite Hp in Hx. by simplify_eq.
Qed.

(** In the absence of faults the slice and the stored nodes agree. *)
Definition in_sync (ns : list Node) (c : Cluster) : Prop :=
  NoDup (Node_ID <$> ns) /\ (forall n, n ∈ ns -> nodes c !! Node_ID n = Some n).

Lemma in_sync_init c ns :
  cluster_wf c -> ns ≡ₚ (map_to_list (nodes c)).*2 -> in_sync ns c.
Proof.
  intros Hwf Hns. split.
  - rewrite Hns. apply NoDup_values_key, Hwf.
  - intros n Hn. rewrite Hns, elem_of_map_values in Hn. destruct Hn as [j Hj].
    by rewrite (wf_nodes _ Hwf _ _ Hj).
Qed.

Lemma in_sync_placed ns i req node c pid p' :
  SelectNode ns req = Some (i, node) -> in_sync ns c ->
  in_sync (<[i := reserve req node]> ns)
    (with_nodes (<[Node_ID node := reserve req node]> (nodes c)) (with_pods (<[pid := p']> (pods c)) c)).
Proof.
  intros Hs [Hnd Hin]. apply selected_elem in Hs as (Hi & _ & _). split.
  - rewrite list_fmap_insert. cbn. rewrite list_insert_id; [done|].
    by rewrite list_lookup_fmap, Hi.
  - intros n Hn. cbn. apply list_elem_of_lookup in Hn as [j Hj].
    apply list_lookup_insert_Some in Hj as [(_ & <- & _)|[Hne Hj]]; [apply lookup_insert_eq|].
    rewrite lookup_insert_ne; [by eapply Hin, list_elem_of_lookup_2|].
    intros Heq. apply Hne. eapply NoDup_lookup; [exact Hnd| |];
      rewrite list_lookup_fmap, ?Hi, ?Hj; cbn; [done|by rewrite Heq].
Qed.

(** For every node, the job counter minus the pods that hold a slot there. *)
Definition same_slack (c0 c : Cluster) : Prop :=
  forall nid, option_Forall2 (fun n0 n =>
    Node_RunningJobs n = int64_wrap (Node_RunningJobs n0 + (booked c nid - booked c0 nid)))
    (nodes c0 !! nid) (nodes c !! nid).

Lemma int64_wrap_add_l a b : int64_wrap (int64_wrap a + b) = int64_wrap (a + b).
Proof.
  unfold int64_wrap. f_equal.
  replace ((a + 2 ^ 63) mod 2 ^ 64 - 2 ^ 63 + b + 2 ^ 63)%Z with ((a + 2 ^ 63) mod 2 ^ 64 + b)%Z by lia.
  rewrite Z.add_mod_idemp_l by lia. f_equal. lia.
Qed.

Lemma same_slack_placed c0 c pod t ns i req node :
  SelectNode ns req = Some (i, node) -> in_sync ns c ->
  pods c !! Pod_ID pod = Some pod -> Pod_Status pod = PodPending -> same_slack c0 c ->
  same_slack c0 (with_nodes (<[Node_ID node := reserve req node]> (nodes c))
    (with_pods (<[Pod_ID pod := scheduled_pod t (Node_ID node) pod]> (pods c)) c)).
Proof.
  intros Hs [_ Hin] Hpod Hst Hsl nid. apply selected_elem in Hs as (_ & Hel & _).
  assert (Hb : booked (with_nodes (<[Node_ID node := reserve req node]> (nodes c))
    (with_pods (<[Pod_ID pod := scheduled_pod t (Node_ID node) pod]> (pods c)) c)) nid
    = (booked c nid + if decide (Node_ID node = nid) then 1 else 0)%Z).
  { unfold booked. cbn. rewrite (booked_insert _ _ pod); [|done|].
    2:{ unfold occupies. rewrite Hst. naive_solver. }
    rewrite Nat2Z.inj_add. f_equal. unfold occupies. cbn. repeat case_decide; naive_solver. }
  specialize (Hsl nid). rewrite Hb. cbn. rewrite lookup_insert. case_decide as Heq.
  - subst nid. rewrite (Hin _ Hel) in Hsl. inversion Hsl as [n0 n1 Hn Heq1|]; subst.
    constructor. cbn. rewrite Hn, int64_wrap_add_l. f_equal. lia.
  - by rewrite Z.add_0_r.
Qed.

Lemma iterations_slack now pending ns k c ns' k' c' :
  cluster_wf c -> ns ≡ₚ (map_to_list (nodes c)).*2 ->
  map_Forall (fun _ n => in_int64 (Node_RunningJobs n)) (nodes c) ->
  iterations false now pending ns k c ns' k' c' -> same_slack c c'.
Proof.
  intros Hwf Hns Hint Hits.
  apply (iterations_inv _ _ (fun _ ns1 c1 => in_sync ns1 c1 /\ same_slack c c1)) in Hits as [_ H]; [done| |].
  - split; [by apply in_sync_init|]. intros nid. destruct (nodes c !! nid) as [n|] eqn:E; constructor.
    rewrite Z.sub_diag, Z.add_0_r, int64_wrap_id; [done|]. by apply (Hint _ _ E).
  - intros pre pod ns1 k1 c1 ns2 k2 c2 _ Hpod Hst [Hsync Hsl] Hit.
    destruct Hit as [| | | |req i node t c3 c4 _ Hreq Hsn -> Hc]; try done.
    destruct Hc as [->|[? _]]; [|done].
    split; [by apply (in_sync_placed _ _ _ _ c1) | by eapply (same_slack_placed c c1)].
Qed.

(** *** Progress: a pass that places nothing had nothing to place *)

Definition someone_scheduled (c0 c : Cluster) : Prop :=
  exists id p p', pods c0 !! id = Some p /\ Pod_Status p = PodPending /\
    pods c !! id = Some p' /\ Pod_Status p' = PodScheduled.

Lemma iterations_progress now pending ns k c ns' k' c' :
  iterations false now pending ns k c ns' k' c' ->
  someone_scheduled c c' \/
  (forall p n, p ∈ pending -> backing_off now p = false -> n ∈ ns -> eligible (required_of c p) n = false).
Proof.
  intros Hits.
  apply (iterations_inv _ _ (fun pre ns1 c1 => someone_scheduled c c1 \/
    (ns1 = ns /\ c1 = c /\
     forall p n, p ∈ pre -> backing_off now p = false -> n ∈ ns ->
       eligible (required_of c p) n = false))) in Hits; [tauto| |].
  - right. split_and!; try done. by intros p n ?%not_elem_of_nil.
  - intros pre pod ns1 k1 c1 ns2 k2 c2 Hp0 Hp1 Hst [(id & p & p' & H1 & H2 & H3 & H4)|(-> & -> & Hall)] Hit.
    + left. exists id, p, p'. split_and!; try done.
      erewrite iteration_other_pods; [exact H3|exact Hit|]. intros ->. congruence.
    + destruct Hit as [Hb|req Hb Hreq Hsn| | |req i node t c3 c4 Hb Hreq Hsn -> Hc]; try done.
      * right. split_and!; try done. intros p n [Hp|Hp]%elem_of_app Hbp Hn; [by apply Hall|].
        apply list_elem_of_singleton in Hp. subst. congruence.
      * right. split_and!; try done. intros p n [Hp|Hp]%elem_of_app Hbp Hn; [by apply Hall|].
        apply list_elem_of_singleton in Hp. subst. destruct Hreq as [->|[? _]]; [|done].
        pose proof (SelectNode_best (required_of c pod) ns) as Hbest. rewrite Hsn in Hbest.
        by apply Hbest.
      * left. exists (Pod_ID pod), pod, (scheduled_pod t (Node_ID node) pod). split_and!; try done.
        destruct Hc as [->|[? _]]; [|done]. cbn. apply lookup_insert_eq.
Qed.

(** ** Properties *)

(** C25: [SelectNode] returns the least-loaded of the healthy nodes that have
    capacity and concurrency headroom for the request, the earliest registered
    among equally loaded ones and the first in the slice among those, and
    reports [ErrNoCapacity] exactly when no node qualifies. *)
Theorem SelectNode_correct (candidates : list Node) (required : ResourceRequest) :
  match SelectNode candidates required with
  | Some (i, best) =>
      candidates !! i = Some best /\ Node_Status best = NodeHealthy /\
      HasCapacityFor best required = true /\
      forall j n, candidates !! j = Some n -> Node_Status n = NodeHealthy ->
        HasCapacityFor n required = true ->
        (Node_RunningJobs best < Node_RunningJobs n)%Z \/
        Node_RunningJobs best = Node_RunningJobs n /\
          ((Node_RegisteredAt best < Node_RegisteredAt n)%Z \/
           Node_RegisteredAt best = Node_RegisteredAt n /\ i <= j)
  | None => forall n, n ∈ candidates -> Node_Status n = NodeHealthy ->
              HasCapacityFor n required = false
  end.
Proof.
  pose proof (SelectNode_best required candidates) as H.
  destruct (SelectNode candidates required) as [[i b]|]; cbn in H; unfold eligible in H.
  - setoid_rewrite andb_true_iff in H. setoid_rewrite bool_decide_eq_true in H.
    destruct H as (Hi & [Hs Hc] & Hmin). split_and!; [done..|]. intros j n Hj Hn Hcap.
    apply (better_lex n b i j); naive_solver.
  - intros n Hn Hh. specialize (H n Hn). rewrite bool_decide_true in H; done.
Qed.

Section Properties.
Context `{SliceSort}.

(** One scheduling pass changes nothing but: a pod that was pending and
    whose backoff is over may become scheduled on a node that is registered and
    healthy, with every other field kept except a first [ScheduledAt]; nodes
    change in their free capacity and job counter only.  Deployments and
    services are untouched.  Holds on every store, storage faults included. *)
Theorem Tick_frame (fl : bool) (w : World) :
  cluster_wf (w_cluster w) ->
  wp (cp_rel fl) Tick (fun _ w' => pass_frame fl (w_cluster w) (w_clock w') (w_cluster w')) w.
Proof.
  intros Hwf. eapply wp_mono; [|by apply Tick_pass]. intros _ w' [_ Hc _|pending ns now ns' k t _ _ Hns Hnow Hits _].
  - rewrite Hc. split; try done; intros id; apply option_Forall2_refl'; auto with plat. by left.
  - apply iterations_frame in Hits as [Hd Hs Hp Hn]; [|done|done]. split; try done. intros id.
    eapply option_Forall2_mono; [|apply Hp]. intros p p' [->|(H1 & H2 & H3)]; [by left|right].
    split; [done|]. split; [|done]. eapply backing_off_mono; [|exact H2]. lia.
Qed.


(** The capacity bookkeeping of a pass is exact: on a reliable store each
    node's job counter grows by exactly the number of pods that newly hold a
    slot on it. *)
Theorem Tick_bookkeeping (w : World) :
  cluster_wf (w_cluster w) ->
  map_Forall (fun _ n => in_int64 (Node_RunningJobs n)) (nodes (w_cluster w)) ->
  wp (cp_rel false) Tick (fun _ w' => same_slack (w_cluster w) (w_cluster w')) w.
Proof.
  intros Hwf Hint. eapply wp_mono; [|by apply Tick_pass].
  intros _ w' [? _ _|pending ns now ns' k t _ _ Hns Hnow Hits _]; [done|].
  by eapply iterations_slack in Hits.
Qed.

(** C26: A pass is work-conserving: on a reliable store, if it schedules no pod
    at all then no pending pod whose backoff was over when the pass began fits
    on any healthy node. *)
Theorem Tick_work_conserving (w : World) :
  cluster_wf (w_cluster w) ->
  wp (cp_rel false) Tick (fun _ w' =>
    someone_scheduled (w_cluster w) (w_cluster w') \/
    forall id p nid n, pods (w_cluster w) !! id = Some p -> Pod_Status p = PodPending ->
      backing_off (w_clock w) p = false -> nodes (w_cluster w) !! nid = Some n ->
      Node_Status n = NodeHealthy ->
      HasCapacityFor n (required_of (w_cluster w) p) = false) w.
Proof.
  intros Hwf. eapply wp_mono; [|by apply Tick_pass].
  intros _ w' [? _ _|pending ns now ns' k t Hpend _ Hns Hnow Hits _]; [done|].
  destruct (iterations_progress _ _ _ _ _ _ _ _ Hits) as [?|Hall]; [by left|right].
  intros id p nid n Hp Hst Hb Hn Hh.
  assert (He : eligible (required_of (w_cluster w) p) n = false).
  { apply Hall.
    - rewrite Hpend, list_elem_of_filter, elem_of_map_values. rewrite bool_decide_true; eauto.
    - eapply backing_off_mono; [|exact Hb]. lia.
    - rewrite Hns, elem_of_map_values. eauto. }
  unfold eligible in He. by rewrite bool_decide_true in He.
Qed.
End Properties.

(** *** The demo cluster *)

(** The demo cluster's pending pod is scheduled on the healthy node. *)
Definition demo_after_tick : Machine MemoryStore.MemoryStore :=
  (run (cp_handle (test_oracle 1000)) Tick demo_machine).2.

Example demo_tick_schedules :
  (fun p => (Pod_Status p, Pod_NodeID p)) <$> (MemoryStore.m_pods (mc_store demo_after_tick) !! "pod_1")
  = Some (PodScheduled, "node_1").
Proof. vm_compute. reflexivity. Qed.

Lemma Tick_frame_witness :
  exists w', machine_abs (test_oracle 1000) demo_after_tick w' /\
    pass_frame false demo_cluster (w_clock w') (w_cluster w').
Proof.
  apply (cp_sound (test_oracle 1000) Tick
    (fun _ w' => pass_frame false demo_cluster (w_clock w') (w_cluster w')) demo_machine demo_world
    demo_machine_abs).
  apply Tick_frame. exact demo_wf.
Defined.

Lemma demo_fits : map_Forall (fun _ n => node_fits n) (nodes demo_cluster).
Proof.
  repeat (apply map_Forall_insert_2); try apply map_Forall_empty;
    (split; vm_compute; try done; by split).
Qed.


Lemma Tick_bookkeeping_witness :
  wp (cp_rel false) Tick (fun _ w' => same_slack demo_cluster (w_cluster w')) demo_world.
Proof.
  apply (Tick_bookkeeping demo_world); [exact demo_wf|].
  intros k n Hk. apply (fits_run n). by apply (demo_fits k).
Defined.

Lemma Tick_work_conserving_witness :
  wp (cp_rel false) Tick (fun _ w' =>
    someone_scheduled demo_cluster (w_cluster w') \/
    forall id p nid n, pods demo_cluster !! id = Some p -> Pod_Status p = PodPending ->
      backing_off 1000 p = false -> nodes demo_cluster !! nid = Some n ->
      Node_Status n = NodeHealthy -> HasCapacityFor n (required_of demo_cluster p) = false) demo_world.
Proof. apply (Tick_work_conserving demo_world). exact demo_wf. Defined.
