(* ===== verification/Reconciler.v ===== *)
(** * control-plane/internal/reconciler: desired state under failures

    [backoff], [newPodID], [reconcileDeployments], [detectUnhealthyNodes],
    [reschedulePodsFor] and [Tick] as in backoff.go, id.go and reconciler.go. *)

From S2P Require Import Prelude Model Store Runtime Fixtures.
From Stdlib Require Import ZArith Lia Sorted.
From stdpp Require Import base gmap strings list.
Local Open Scope go_scope.

(** ** backoff.go *)

Definition maxBackoff : Duration := 60 * Second.

(** [math.Pow(2, float64(attempt))] is exact for the attempt counts below 1024;
    for a negative count the value lies in (0, 1) and truncates to 0. *)
Definition backoff (conv : Z -> Z) (attempt : Z) : Duration :=
  let pow := if (attempt <? 0)%Z then 0%Z else (2 ^ attempt)%Z in
  let d := float_to_int64 conv pow *64 Second in
  if (maxBackoff <? d)%Z then maxBackoff else d.

(** ** id.go *)

Definition newPodID : prog CpE (option string) :=
  r ← call (ERandRead 4);
  Ret (match r with
       | None => None
       | Some b => Some ("pod_" +:+ EncodeToString b)
       end).

(** ** reconciler.go *)

(** The pod a deployment is the template of. *)
Definition new_pod (id : string) (d : Deployment) (now : Time) : Pod :=
  mkPod id (Deployment_ID d) EmptyString (Deployment_Namespace d) (Deployment_Labels d) 0
    PodPending (Deployment_Image d) EmptyString (Deployment_Command d) (Deployment_Args d)
    (Deployment_Resources d) None EmptyString EmptyString now None None None 0.

(** One replica: a fresh ID, the pod, the counter.  A failure skips it. *)
Definition create_replica (d : Deployment) : prog CpE unit :=
  id ← newPodID;
  match id with
  | None => Ret tt
  | Some id =>
      now ← time_now;
      err ← store (OpCreatePod (new_pod id d now));
      match err with
      | Some _ => Ret tt
      | None => metric JobsTotal
      end
  end.

Definition newer (p q : Pod) : bool := After (Pod_CreatedAt p) (Pod_CreatedAt q).

Definition cancellable (p : Pod) : bool :=
  match Pod_Status p with PodPending | PodScheduled => true | _ => false end.

(** The number of pods that occupy a replica slot. *)
Definition count_active (pods : list Pod) : Z :=
  Z.of_nat (length (filter (fun p => Active p = true) pods)).

Definition has_dead_letter (pods : list Pod) : bool :=
  existsb (fun p => bool_decide (Pod_Status p = PodDeadLetter)) pods.

(** Bringing the number of pods of one deployment to its replica count. *)
Definition scale `{SliceSort} (d : Deployment) (pods : list Pod) : prog CpE unit :=
  let active := count_active pods in
  if (active <? Deployment_Replicas d)%Z then
    for_each (seq 0 (Z.to_nat (Deployment_Replicas d -64 active))) tt (fun _ _ => create_replica d)
  else if (Deployment_Replicas d <? active)%Z then
    let excess := active -64 Deployment_Replicas d in
    let candidates := sort_slice newer (filter (fun p => cancellable p = true) pods) in
    for_each (take (Z.to_nat excess) candidates) tt (fun p _ =>
      _ ← store (OpTransitionPod (Pod_ID p) PodCancelled "deployment scaled down"); Ret tt)
  else Ret tt.

(** Recording whether some pod of the deployment was dead-lettered. *)
Definition mark_degraded (d : Deployment) (status : DeploymentStatus) (pods : list Pod)
    : prog CpE unit :=
  let dead := has_dead_letter pods in
  if dead && bool_decide (status = DeploymentActive) then
    _ ← store (OpTransitionDeployment (Deployment_ID d) DeploymentDegraded); Ret tt
  else if negb dead && bool_decide (status = DeploymentDegraded) then
    _ ← store (OpTransitionDeployment (Deployment_ID d) DeploymentActive); Ret tt
  else Ret tt.

(** The part of the loop body after the deployment is known to be active or
    degraded. *)
Definition reconcile_pods `{SliceSort} (d : Deployment) (status : DeploymentStatus) : prog CpE unit :=
  '(pods, err) ← store (OpListPodsByDeployment (Deployment_ID d));
  match err with
  | Some _ => Ret tt
  | None => _ ← scale d pods; mark_degraded d status pods
  end.

(** The loop body of [reconcileDeployments]. *)
Definition reconcile_deployment `{SliceSort} (d : Deployment) : prog CpE unit :=
  match Deployment_Status d with
  | DeploymentCancelled => Ret tt
  | DeploymentPending =>
      err ← store (OpTransitionDeployment (Deployment_ID d) DeploymentActive);
      match err with
      | Some _ => Ret tt
      | None => reconcile_pods d DeploymentActive
      end
  | st => reconcile_pods d st
  end.

Definition reconcileDeployments `{SliceSort} : prog CpE unit :=
  '(ds, err) ← store OpListDeployments;
  match err with
  | Some _ => Ret tt
  | None => for_each ds tt (fun d _ => reconcile_deployment d)
  end.

Section Failures.
(** Go's conversion of an out-of-range float, and the reconciler's
    configuration. *)
Variable conv : Z -> Z.
Variable heartbeatTimeout : Duration.

(** A pod that was dispatched but never picked up goes back to the queue. *)
Definition requeue_scheduled (p : Pod) : prog CpE unit :=
  err ← store (OpUpdatePod (pod_with_node EmptyString p));
  match err with
  | Some _ => Ret tt
  | None => _ ← store (OpTransitionPod (Pod_ID p) PodPending EmptyString); Ret tt
  end.

(** A pod that was running is retried with backoff or dead-lettered. *)
Definition retry_running (p : Pod) : prog CpE unit :=
  deployment ← store (OpGetDeployment (Pod_DeploymentID p));
  let maxRetries := match deployment with inl d => Deployment_MaxRetries d | inr _ => 0%Z end in
  let newAttempt := Pod_Attempt p +64 1 in
  if (newAttempt <=? maxRetries)%Z then
    now ← time_now;
    let p' := pod_with_node EmptyString
                (pod_with_runafter (Prelude.Add now (backoff conv newAttempt)) (pod_with_attempt newAttempt p)) in
    err ← store (OpUpdatePod p');
    match err with
    | Some _ => Ret tt
    | None =>
        err ← store (OpTransitionPod (Pod_ID p) PodFailed "node heartbeat timeout");
        match err with
        | Some _ => Ret tt
        | None =>
            _ ← store (OpTransitionPod (Pod_ID p) PodRetrying EmptyString);
            _ ← store (OpTransitionPod (Pod_ID p) PodPending EmptyString);
            metric JobsFailed
        end
    end
  else
    err ← store (OpUpdatePod (pod_with_attempt newAttempt p));
    match err with
    | Some _ => Ret tt
    | None =>
        err ← store (OpTransitionPod (Pod_ID p) PodFailed "node heartbeat timeout");
        match err with
        | Some _ => Ret tt
        | None =>
            _ ← store (OpTransitionPod (Pod_ID p) PodDeadLetter "max retries exceeded after node failure");
            _ ← metric JobsFailed;
            metric JobsDeadLetter
        end
    end.

(** The loop body of [reschedulePodsFor]. *)
Definition reschedule_pod (p : Pod) : prog CpE unit :=
  match Pod_Status p with
  | PodScheduled => requeue_scheduled p
  | PodRunning => retry_running p
  | _ => Ret tt
  end.

Definition reschedulePodsFor (nodeID : string) : prog CpE unit :=
  '(pods, err) ← store (OpListPodsByNode nodeID);
  match err with
  | Some _ => Ret tt
  | None => for_each pods tt (fun p _ => reschedule_pod p)
  end.

Definition timed_out (now : Time) (n : Node) : bool :=
  (heartbeatTimeout <? Prelude.Sub now (Node_LastHeartbeatAt n))%Z.

(** The loop body of [detectUnhealthyNodes]; the result is the new
    [unhealthyCount]. *)
Definition detect_node (now : Time) (n : Node) (unhealthyCount : Z) : prog CpE Z :=
  let count := if bool_decide (Node_Status n = NodeUnhealthy) then (unhealthyCount + 1)%Z
               else unhealthyCount in
  if bool_decide (Node_Status n = NodeHealthy) && timed_out now n then
    err ← store (OpTransitionNode (Node_ID n) NodeUnhealthy);
    match err with
    | Some _ => Ret count
    | None => _ ← reschedulePodsFor (Node_ID n); Ret (count + 1)%Z
    end
  else if bool_decide (Node_Status n = NodeDraining) && timed_out now n then
    err ← store (OpTransitionNode (Node_ID n) NodeRemoved);
    match err with
    | Some _ => Ret count
    | None => _ ← reschedulePodsFor (Node_ID n); Ret count
    end
  else Ret count.

Definition detectUnhealthyNodes : prog CpE unit :=
  '(nodes, err) ← store OpListNodes;
  match err with
  | Some _ => Ret tt
  | None =>
      now ← time_now;
      count ← for_each nodes 0%Z (detect_node now);
      metric (UnhealthyWorkers count)
  end.

Definition Tick `{SliceSort} : prog CpE unit :=
  _ ← reconcileDeployments;
  _ ← detectUnhealthyNodes;
  metric ReconcilerIterations.
End Failures.

(** ** backoff *)

Lemma backoff_table conv :
  Forall (fun a => backoff conv a = Z.min (2 ^ a * Second) maxBackoff) (Z.of_nat <$> seq 0 34).
Proof. repeat constructor. Qed.

(** ** Recovery of the pods of a lost node *)

(** [maxRetries] as the reconciler reads it. *)
Definition max_retries (c : Cluster) (p : Pod) : Z :=
  match deployments c !! Pod_DeploymentID p with Some d => Deployment_MaxRetries d | None => 0 end.

(** What becomes of a pod whose node is lost at time [t]. *)
Definition recovered (conv : Z -> Z) (maxRetries : Z) (t : Time) (p : Pod) : Pod :=
  match Pod_Status p with
  | PodScheduled =>
      pod_set EmptyString (Pod_Attempt p) PodPending (Pod_ExitCode p) (Pod_Error p) (Pod_Output p)
        (Pod_ScheduledAt p) (Pod_StartedAt p) (Pod_FinishedAt p) (Pod_RunAfter p) p
  | PodRunning =>
      let a := Pod_Attempt p +64 1 in
      if (a <=? maxRetries)%Z then
        pod_set EmptyString a PodPending (Pod_ExitCode p) "node heartbeat timeout" (Pod_Output p)
          (Pod_ScheduledAt p) (Pod_StartedAt p) (Pod_FinishedAt p) (t + backoff conv a)%Z p
      else
        pod_set (Pod_NodeID p) a PodDeadLetter (Pod_ExitCode p)
          "max retries exceeded after node failure" (Pod_Output p)
          (Pod_ScheduledAt p) (Pod_StartedAt p) (set_once t (Pod_FinishedAt p)) (Pod_RunAfter p) p
  | _ => p
  end.

Lemma recovered_ID conv mx t p : Pod_ID (recovered conv mx t p) = Pod_ID p.
Proof. unfold recovered. destruct (Pod_Status p); try done. by destruct (_ <=? _)%Z. Qed.

Lemma recovered_deployment conv mx t p :
  Pod_DeploymentID (recovered conv mx t p) = Pod_DeploymentID p.
Proof. unfold recovered. destruct (Pod_Status p); try done. by destruct (_ <=? _)%Z. Qed.

(** A recovered pod is no longer on a node: recovering it again does nothing. *)
Lemma recovered_idem conv mx t mx' t' p :
  recovered conv mx' t' (recovered conv mx t p) = recovered conv mx t p.
Proof.
  unfold recovered. destruct (Pod_Status p) eqn:E; rewrite ?E; try done.
  destruct (Pod_Attempt p +64 1 <=? mx)%Z; done.
Qed.

(** The pods of the nodes [lost] are recovered at some time between [lo] and
    [hi], the others are as they were. *)
Definition recovery (conv : Z -> Z) (mx : Pod -> Z) (lost : list string) (lo hi : Time)
    (m m' : gmap string Pod) : Prop :=
  forall id, option_Forall2 (fun p p' =>
    if decide (Pod_NodeID p ∈ lost)
    then exists t, (lo <= t <= hi)%Z /\ p' = recovered conv (mx p) t p
    else p' = p) (m !! id) (m' !! id).

Lemma recovery_nil conv mx lo hi m : recovery conv mx [] lo hi m m.
Proof. intros id. apply option_Forall2_refl'. intros p. case_decide; [set_solver|done]. Qed.

Lemma recovery_trans conv mx lost nid lo mid hi m1 m2 m3 :
  (forall p t, mx (recovered conv (mx p) t p) = mx p) -> (lo <= mid <= hi)%Z ->
  recovery conv mx lost lo mid m1 m2 -> recovery conv mx [nid] mid hi m2 m3 ->
  recovery conv mx (lost ++ [nid]) lo hi m1 m3.
Proof.
  intros Hmx Hlo H1 H2 id. specialize (H1 id). specialize (H2 id).
  destruct H1 as [p p1 Hp|]; inversion H2 as [? p2 Hp1 Heq1 Heq2|]; subst; constructor.
  destruct (decide (Pod_NodeID p ∈ lost)) as [Hl|Hl].
  - destruct Hp as (t & Ht & ->). rewrite decide_True by set_solver.
    destruct (decide (_ ∈ [nid])); [destruct Hp1 as (t' & Ht' & ->)|subst p2].
    + exists t. split; [lia|]. apply recovered_idem.
    + exists t. split; [lia|done].
  - subst p1. destruct (decide (Pod_NodeID p ∈ [nid])) as [Hn|Hn].
    + rewrite decide_True by set_solver. destruct Hp1 as (t' & Ht' & ->). exists t'. split; [lia|done].
    + rewrite decide_False by set_solver. done.
Qed.

Lemma recovery_wf conv mx lost lo hi m m' :
  recovery conv mx lost lo hi m m' ->
  map_Forall (fun k p => Pod_ID p = k) m -> map_Forall (fun k p => Pod_ID p = k) m'.
Proof.
  intros H Hwf id p' Hp'. specialize (H id). rewrite Hp' in H. inversion H as [p ? Hp Heq|]; subst.
  symmetry in Heq. apply Hwf in Heq. subst id.
  case_decide; [destruct Hp as (t & _ & ->); apply recovered_ID | by subst].
Qed.

Section Recovery.
Variable conv : Z -> Z.

Lemma with_pods_twice m1 m2 c : with_pods m2 (with_pods m1 c) = with_pods m2 c.
Proof using Type. done. Qed.

(** The store calls of [requeue_scheduled] and [retry_running] on a reliable
    store add up to [recovered]. *)
Lemma reschedule_pod_wp p w (Q : unit -> World -> Prop) :
  pods (w_cluster w) !! Pod_ID p = Some p ->
  (forall t w', (w_clock w <= t <= w_clock w')%Z ->
     w_cluster w' = with_pods (<[Pod_ID p := recovered conv (max_retries (w_cluster w) p) t p]>
                                 (pods (w_cluster w))) (w_cluster w) ->
     Q tt w') ->
  wp (cp_rel false) (reschedule_pod conv p) Q w.
Proof using Type.
  intros Hp HQ. unfold reschedule_pod.
  assert (Hid : w_cluster w = with_pods (<[Pod_ID p := p]> (pods (w_cluster w))) (w_cluster w)).
  { by rewrite insert_id, with_pods_id. }
  destruct (Pod_Status p) eqn:Hst;
    try (apply (HQ (w_clock w)); [lia|]; unfold recovered; rewrite Hst; exact Hid).
  - unfold requeue_scheduled. eapply wp_update_pod; [exact Hp|]. intros t1 Ht1.
    eapply wp_transition_pod; [apply lookup_insert_eq|cbn; by rewrite Hst|]. intros t2 Ht2.
    cbn in *. apply (HQ t1); [cbn; lia|]. cbn. rewrite insert_insert_eq.
    unfold recovered. by rewrite Hst.
  - unfold retry_running. apply wp_get_deployment. intros t0 Ht0.
    assert (Hmx : match match deployments (w_cluster w) !! Pod_DeploymentID p with
                        | Some d => inl d | None => inr ErrNotFound end with
                  | inl d => Deployment_MaxRetries d | inr _ => 0%Z end
                  = max_retries (w_cluster w) p).
    { unfold max_retries. by destruct (deployments _ !! _). }
    rewrite Hmx. destruct (Pod_Attempt p +64 1 <=? max_retries (w_cluster w) p)%Z eqn:Hle.
    + apply wp_now. intros t Ht. eapply wp_update_pod; [exact Hp|]. intros t1 Ht1.
      eapply wp_transition_pod; [apply lookup_insert_eq|cbn; by rewrite Hst|]. intros t2 Ht2.
      eapply wp_transition_pod; [apply lookup_insert_eq|done|]. intros t3 Ht3.
      eapply wp_transition_pod; [apply lookup_insert_eq|done|]. intros t4 Ht4.
      intros [] w' ->. cbn in *. apply (HQ t); [cbn; lia|]. cbn.
      rewrite !insert_insert_eq. unfold recovered. by rewrite Hst, Hle.
    + eapply wp_update_pod; [exact Hp|]. intros t1 Ht1.
      eapply wp_transition_pod; [apply lookup_insert_eq|cbn; by rewrite Hst|]. intros t2 Ht2.
      eapply wp_transition_pod; [apply lookup_insert_eq|done|]. intros t3 Ht3.
      apply wp_metric. intros [] w' ->. cbn in *. apply (HQ t3); [cbn; lia|]. cbn.
      rewrite !insert_insert_eq. unfold recovered. by rewrite Hst, Hle.
Qed.

Lemma reschedulePodsFor_wp nid w (Q : unit -> World -> Prop) :
  cluster_wf (w_cluster w) ->
  (forall w', (w_clock w <= w_clock w')%Z ->
     recovery conv (max_retries (w_cluster w)) [nid] (w_clock w) (w_clock w')
       (pods (w_cluster w)) (pods (w_cluster w')) ->
     w_cluster w' = with_pods (pods (w_cluster w')) (w_cluster w) -> Q tt w') ->
  wp (cp_rel false) (reschedulePodsFor conv nid) Q w.
Proof using Type.
  intros Hwf HQ. unfold reschedulePodsFor.
  apply wp_store. intros t0 [ps e] c' Ht0 [[Hl ->]|(? & _)]; [|done].
  pose proof Hl as [He _]. cbn in He. subst e.
  pose proof (list_post_nodup _ _ _ _ _ (wf_pods _ Hwf) Hl) as Hnd.
  assert (Hel : forall p, p ∈ ps <-> pods (w_cluster w) !! Pod_ID p = Some p /\ Pod_NodeID p = nid).
  { intros p. rewrite (list_post_elem _ _ _ _ p Hl), bool_decide_eq_true. split.
    - intros [[k Hk] Hn]. by rewrite (wf_pods _ Hwf _ _ Hk).
    - intros [Hk Hn]. eauto. }
  eapply wp_mono; [|apply (wp_for_each _ (fun pre post _ w' =>
    (w_clock w <= w_clock w')%Z /\
    w_cluster w' = with_pods (pods (w_cluster w')) (w_cluster w) /\
    forall id, option_Forall2 (fun p p' =>
      if decide (id ∈ Pod_ID <$> pre)
      then exists t, (w_clock w <= t <= w_clock w')%Z /\ p' = recovered conv (max_retries (w_cluster w) p) t p
      else p' = p) (pods (w_cluster w) !! id) (pods (w_cluster w') !! id)))].
  - intros [] w' (Hcl & Hc & Hall). apply HQ; [done| |done]. intros id. specialize (Hall id).
    destruct (pods (w_cluster w) !! id) as [p|] eqn:Hp; inversion Hall as [? ? Hpp|]; subst; constructor.
    pose proof (wf_pods _ Hwf _ _ Hp) as Hid. cbn in Hid.
    destruct (decide (Pod_NodeID p ∈ [nid])) as [Hn|Hn].
    + rewrite decide_True in Hpp; [done|]. rewrite <- Hid. apply list_elem_of_fmap_2, Hel.
      rewrite Hid. set_solver.
    + rewrite decide_False in Hpp; [done|]. intros (q & Hq & Hin)%list_elem_of_fmap.
      apply Hel in Hin as [Hin Hnn]. rewrite <- Hq in Hin. rewrite Hp in Hin. set_solver.
  - cbn. split; [done|]. split; [by rewrite with_pods_id|]. intros id. apply option_Forall2_refl'.
    intros p. rewrite decide_False; [done|set_solver].
  - intros pre p post [] w1 Heq (Hcl & Hc & Hall).
    assert (Hpid : Pod_ID p ∉ Pod_ID <$> pre).
    { rewrite Heq, fmap_app, fmap_cons in Hnd. apply NoDup_app in Hnd as (_ & Hd & _).
      intros Hin. apply (Hd _ Hin). set_solver. }
    assert (Hp0 : pods (w_cluster w) !! Pod_ID p = Some p) by (apply Hel; set_solver).
    assert (Hp1 : pods (w_cluster w1) !! Pod_ID p = Some p).
    { specialize (Hall (Pod_ID p)). rewrite Hp0 in Hall. inversion Hall as [? q Hq|]; subst.
      rewrite decide_False in Hq by done. by subst. }
    apply reschedule_pod_wp; [done|]. intros t w' Ht Hc'.
    split; [lia|]. split; [by rewrite Hc', Hc|]. intros id. rewrite Hc'. cbn.
    rewrite fmap_app. destruct (decide (Pod_ID p = id)) as [<-|Hne].
    + rewrite lookup_insert_eq, Hp0. constructor. rewrite decide_True by set_solver.
      exists t. split; [lia|]. rewrite Hc. done.
    + rewrite lookup_insert_ne by done. eapply option_Forall2_mono; [|apply Hall].
      intros q q' Hq. destruct (decide (id ∈ Pod_ID <$> pre)).
      * rewrite decide_True by set_solver. destruct Hq as (t' & ? & ->). exists t'. split; [lia|done].
      * rewrite decide_False; [done|]. set_solver.
Qed.
End Recovery.

(** ** detectUnhealthyNodes *)

(** A node whose heartbeats have stopped. *)
Definition failed (heartbeatTimeout : Duration) (now : Time) (n : Node) : bool :=
  timed_out heartbeatTimeout now n &&
  (bool_decide (Node_Status n = NodeHealthy) || bool_decide (Node_Status n = NodeDraining)).

(** A silent healthy node is unhealthy, a silent draining node is gone. *)
Definition verdict (heartbeatTimeout : Duration) (now : Time) (n : Node) : Node :=
  if failed heartbeatTimeout now n then
    node_with_status (if bool_decide (Node_Status n = NodeHealthy) then NodeUnhealthy else NodeRemoved) n
  else n.

Definition is_unhealthy (n : Node) : bool := bool_decide (Node_Status n = NodeUnhealthy).

Section Detection.
Variables (conv : Z -> Z) (hto : Duration).
Local Abbreviation fails := (failed hto).
Local Abbreviation verdict := (verdict hto).

(** The nodes lost among [l]. *)
Definition lost (now : Time) (l : list Node) : list string :=
  Node_ID <$> filter (fun n => fails now n = true) l.

Lemma lost_app now l k : lost now (l ++ k) = lost now l ++ lost now k.
Proof using Type. unfold lost. by rewrite filter_app, fmap_app. Qed.

Lemma lost_single now n : lost now [n] = if fails now n then [Node_ID n] else [].
Proof using Type. unfold lost. rewrite filter_cons, filter_nil. by destruct (fails now n). Qed.

(** State of the loop: the nodes [pre] were judged and the pods of the lost
    ones recovered. *)
Record judged (now : Time) (c : Cluster) (lo hi : Time) (pre : list Node) (c' : Cluster) : Prop := {
  j_deployments : deployments c' = deployments c;
  j_services : services c' = services c;
  j_nodes : forall id, nodes c' !! id =
    (fun n => if decide (id ∈ Node_ID <$> pre) then verdict now n else n) <$> (nodes c !! id);
  j_pods : recovery conv (max_retries c) (lost now pre) lo hi (pods c) (pods c') }.

Lemma judged_wf now c lo hi pre c' : cluster_wf c -> judged now c lo hi pre c' -> cluster_wf c'.
Proof using Type.
  intros Hwf [Hd Hs Hn Hp]. split.
  - rewrite Hd. apply Hwf.
  - eapply recovery_wf, Hwf; done.
  - intros id n' Hn'. rewrite Hn in Hn'. apply fmap_Some in Hn' as (n & Hn' & ->).
    apply (wf_nodes _ Hwf) in Hn'. cbn in Hn'. subst id.
    case_decide; [|done]. unfold Reconciler.verdict. by destruct (fails now n).
  - rewrite Hs. apply Hwf.
Qed.

Lemma max_retries_recovered c mx t p :
  max_retries c (recovered conv mx t p) = max_retries c p.
Proof using Type. unfold max_retries. by rewrite recovered_deployment. Qed.

Lemma max_retries_eq c c' : deployments c' = deployments c -> max_retries c' = max_retries c.
Proof using Type. intros H. unfold max_retries. by rewrite H. Qed.

(** A judged node is not judged again. *)
Lemma judged_same now c lo mid hi pre n c' :
  fails now n = false -> (mid <= hi)%Z -> nodes c !! Node_ID n = Some n ->
  judged now c lo mid pre c' -> judged now c lo hi (pre ++ [n]) c'.
Proof using Type.
  intros Hf Hle Hn [Hd Hs Hno Hp]. split; [done|done| |].
  - intros id. rewrite Hno, fmap_app. destruct (nodes c !! id) as [m|] eqn:Hm; [|done].
    cbn. f_equal. destruct (decide (id = Node_ID n)) as [->|Hne].
    + rewrite Hm in Hn. simplify_eq. unfold Reconciler.verdict. rewrite Hf. by do 2 case_decide.
    + destruct (decide (id ∈ Node_ID <$> pre)).
      * rewrite decide_True by set_solver. done.
      * rewrite decide_False by set_solver. done.
  - rewrite lost_app, lost_single, Hf, app_nil_r. intros id.
    eapply option_Forall2_mono; [|apply Hp]. intros p p'. cbn. case_decide; [|done].
    intros (t & ? & ->). exists t. split; [lia|done].
Qed.

(** A node that fails is judged, and its pods are recovered after it. *)
Lemma judged_next now c lo mid t hi pre n to c1 c' :
  fails now n = true -> verdict now n = node_with_status to n -> nodes c !! Node_ID n = Some n ->
  (lo <= mid)%Z -> (mid <= t)%Z -> (t <= hi)%Z -> judged now c lo mid pre c1 ->
  recovery conv (max_retries (with_nodes (<[Node_ID n := node_with_status to n]> (nodes c1)) c1)) [Node_ID n] t hi
    (pods c1) (pods c') ->
  c' = with_pods (pods c') (with_nodes (<[Node_ID n := node_with_status to n]> (nodes c1)) c1) ->
  judged now c lo hi (pre ++ [n]) c'.
Proof using Type.
  intros Hf Hv Hn Hlo Hmid Hhi [Hd Hs Hno Hp] Hrec Hc'. split; [by rewrite Hc'|by rewrite Hc'| |].
  - intros id. rewrite Hc'. cbn. rewrite fmap_app, lookup_insert.
    destruct (decide (Node_ID n = id)) as [<-|Hne].
    + rewrite Hn. cbn. by rewrite decide_True, Hv by set_solver.
    + rewrite Hno. destruct (nodes _ !! id); [|done]. cbn. f_equal.
      destruct (decide (id ∈ Node_ID <$> pre)).
      * rewrite decide_True by set_solver. done.
      * rewrite decide_False by set_solver. done.
  - rewrite lost_app, lost_single, Hf. eapply (recovery_trans _ _ _ _ _ mid); [| |exact Hp|].
    + intros. apply max_retries_recovered.
    + lia.
    + replace (max_retries c) with (max_retries c1) by (by apply max_retries_eq).
      intros id. eapply option_Forall2_mono; [|apply Hrec]. intros p p'. cbn. case_decide; [|done].
      intros (t' & ? & ->). exists t'. split; [lia|done].
Qed.

Lemma detect_node_wp now n pre w0 w k (Q : Z -> World -> Prop) :
  cluster_wf (w_cluster w0) -> nodes (w_cluster w0) !! Node_ID n = Some n ->
  Node_ID n ∉ Node_ID <$> pre -> (w_clock w0 <= w_clock w)%Z ->
  judged now (w_cluster w0) (w_clock w0) (w_clock w) pre (w_cluster w) ->
  (forall w', (w_clock w <= w_clock w')%Z ->
     judged now (w_cluster w0) (w_clock w0) (w_clock w') (pre ++ [n]) (w_cluster w') ->
     Q (k + b2z (is_unhealthy (verdict now n)))%Z w') ->
  wp (cp_rel false) (detect_node conv hto now n k) Q w.
Proof using Type.
  intros Hwf Hn0 Hni Hcl Hj HQ. unfold detect_node.
  assert (Hcur : nodes (w_cluster w) !! Node_ID n = Some n).
  { rewrite (j_nodes _ _ _ _ _ _ Hj), Hn0. cbn. by rewrite decide_False. }
  assert (Hwf1 : cluster_wf (w_cluster w)) by (by eapply judged_wf).
  set (count := if bool_decide (Node_Status n = NodeUnhealthy) then (k + 1)%Z else k).
  assert (Hskip : fails now n = false -> Q count w).
  { intros Hf. replace count with (k + b2z (is_unhealthy (verdict now n)))%Z.
    - apply HQ; [lia|]. by apply (judged_same _ _ _ (w_clock w)); [| lia | |].
    - unfold count, is_unhealthy, Reconciler.verdict. rewrite Hf. case_bool_decide; cbn; lia. }
  assert (Hgo : forall to count', fails now n = true -> TransitionNode (Node_Status n) to = true ->
    verdict now n = node_with_status to n -> count' = (k + b2z (is_unhealthy (verdict now n)))%Z ->
    wp (cp_rel false) (store (OpTransitionNode (Node_ID n) to) ≫= fun err =>
      match err with Some _ => Ret count | None =>
        _ ← reschedulePodsFor conv (Node_ID n); Ret count' end) Q w).
  { intros to count' Hf Hto Hv ->. eapply wp_transition_node; [exact Hcur|done|]. intros t Ht.
    rewrite wp_bind. apply reschedulePodsFor_wp.
    - destruct Hwf1 as [? ? Hwn ?]. split; cbn; try done. by apply map_Forall_insert_2.
    - intros w' Hcl' Hrec Hc'. cbn in Hcl', Hrec. apply HQ; [lia|].
      by apply (judged_next _ _ _ (w_clock w) t _ _ n to (w_cluster w)). }
  pose proof (eq_refl (fails now n)) as Hfn. unfold failed at 2 in Hfn.
  destruct (timed_out hto now n).
  2:{ rewrite !andb_false_r. by apply Hskip. }
  rewrite !andb_true_r. cbn in Hfn.
  destruct (decide (Node_Status n = NodeHealthy)) as [Hh|Hh].
  - rewrite (bool_decide_true _ Hh) in *. cbn in Hfn. apply Hgo; [done|by rewrite Hh| |].
    + unfold Reconciler.verdict. by rewrite Hfn, bool_decide_true.
    + unfold count, Reconciler.verdict. rewrite Hfn, bool_decide_false by congruence.
      by rewrite bool_decide_true.
  - rewrite (bool_decide_false _ Hh) in *. cbn in Hfn.
    destruct (decide (Node_Status n = NodeDraining)) as [Hdr|Hdr].
    + rewrite (bool_decide_true _ Hdr) in *. apply Hgo; [done|by rewrite Hdr| |].
      * unfold Reconciler.verdict. by rewrite Hfn, bool_decide_false.
      * unfold count, Reconciler.verdict. rewrite Hfn, !bool_decide_false by congruence.
        change (is_unhealthy _) with false. cbn. lia.
    + rewrite (bool_decide_false _ Hdr) in *. by apply Hskip.
Qed.

Lemma recovery_perm mx l k lo hi m m' :
  l ≡ₚ k -> recovery conv mx l lo hi m m' -> recovery conv mx k lo hi m m'.
Proof using Type.
  intros Hlk H id. eapply option_Forall2_mono; [|apply H]. intros p p'. cbn.
  destruct (decide (Pod_NodeID p ∈ l)) as [Hl|Hl]; rewrite Hlk in Hl.
  - by rewrite decide_True.
  - by rewrite decide_False.
Qed.

Lemma recovery_later mx l lo lo' hi m m' :
  (lo <= lo')%Z -> recovery conv mx l lo' hi m m' -> recovery conv mx l lo hi m m'.
Proof using Type.
  intros Hle H id. eapply option_Forall2_mono; [|apply H]. intros p p'. cbn. case_decide; [|done].
  intros (t & ? & ->). exists t. split; [lia|done].
Qed.

(** What one pass of heartbeat supervision does. *)
Definition supervised (w w' : World) : Prop :=
  exists now, (w_clock w <= now <= w_clock w')%Z /\
    deployments (w_cluster w') = deployments (w_cluster w) /\
    services (w_cluster w') = services (w_cluster w) /\
    nodes (w_cluster w') = verdict now <$> nodes (w_cluster w) /\
    recovery conv (max_retries (w_cluster w)) (lost now (map_to_list (nodes (w_cluster w))).*2)
      (w_clock w) (w_clock w') (pods (w_cluster w)) (pods (w_cluster w')) /\
    last (w_metrics w') = Some (UnhealthyWorkers (count_values is_unhealthy (nodes (w_cluster w')))).

Lemma count_verdicts now (m : gmap string Node) (l : list Node) :
  l ≡ₚ (map_to_list m).*2 ->
  Z.of_nat (length (filter (fun n => is_unhealthy n = true) (verdict now <$> l))) =
  count_values is_unhealthy (verdict now <$> m).
Proof using Type.
  intros ->. unfold count_values. do 3 f_equal. rewrite map_to_list_fmap.
  rewrite <- !list_fmap_compose. by apply list_fmap_ext.
Qed.

Lemma detect_loop_wp now ns w :
  cluster_wf (w_cluster w) -> NoDup (Node_ID <$> ns) ->
  (forall n, n ∈ ns -> nodes (w_cluster w) !! Node_ID n = Some n) ->
  wp (cp_rel false) (for_each ns 0%Z (detect_node conv hto now))
    (fun k w' => (w_clock w <= w_clock w')%Z /\
       judged now (w_cluster w) (w_clock w) (w_clock w') ns (w_cluster w') /\
       k = Z.of_nat (length (filter (fun n => is_unhealthy n = true) (verdict now <$> ns)))) w.
Proof using Type.
  intros Hwf Hnd Hns. apply (wp_for_each _ (fun pre _ k w' => (w_clock w <= w_clock w')%Z /\
       judged now (w_cluster w) (w_clock w) (w_clock w') pre (w_cluster w') /\
       k = Z.of_nat (length (filter (fun n => is_unhealthy n = true) (verdict now <$> pre))))).
  - split; [lia|]. split; [|done]. split; [done|done| |apply recovery_nil].
    intros id. by destruct (nodes _ !! id).
  - intros pre n post k w1 Heq (Hcl & Hj & ->). eapply detect_node_wp; try done.
    + apply Hns. set_solver.
    + rewrite Heq, fmap_app, fmap_cons in Hnd. apply NoDup_app in Hnd as (_ & Hd & _).
      intros Hin. apply (Hd _ Hin). set_solver.
    + intros w' Hcl' Hj'. split; [lia|]. split; [done|].
      rewrite fmap_app, filter_app, length_app. cbn [fmap list_fmap]. rewrite filter_cons, filter_nil.
      destruct (is_unhealthy (verdict now n)); case_decide; try done; cbn [b2z length]; lia.
Qed.

Lemma detectUnhealthyNodes_wp w :
  cluster_wf (w_cluster w) ->
  wp (cp_rel false) (detectUnhealthyNodes conv hto) (fun _ w' => supervised w w') w.
Proof using Type.
  intros Hwf. unfold detectUnhealthyNodes.
  apply wp_store. intros t0 [ns e] c' Ht0 [[Hl ->]|(? & _)]; [|done].
  pose proof Hl as [He Hperm]. cbn in He, Hperm. subst e. rewrite filter_all_true in Hperm.
  apply wp_now. intros now Hnow. cbn in Hnow. eapply wp_seq; [apply (detect_loop_wp now)|].
  - done.
  - rewrite Hperm. apply NoDup_values_key, Hwf.
  - intros n Hn. rewrite Hperm, elem_of_map_values in Hn. destruct Hn as [j Hj]. cbn.
    by rewrite (wf_nodes _ Hwf _ _ Hj).
  - cbn. intros k w1 (Hcl & [Hd Hs Hn Hp] & ->) [] w' ->. cbn.
    assert (Hnodes : nodes (w_cluster w1) = verdict now <$> nodes (w_cluster w)).
    { apply map_eq. intros id. rewrite Hn, lookup_fmap. cbn.
      destruct (nodes (w_cluster w) !! id) as [n|] eqn:E; [|done]. cbn.
      rewrite decide_True; [done|]. rewrite <- (wf_nodes _ Hwf _ _ E).
      apply list_elem_of_fmap_2. rewrite Hperm. apply elem_of_map_values. eauto. }
    exists now. split_and!; [cbn; lia|cbn; lia|done|done|done| |].
    + eapply recovery_later, recovery_perm, Hp; [cbn; lia|].
      unfold lost. by rewrite Hperm.
    + cbn [w_metrics w_cluster]. rewrite last_snoc. do 2 f_equal. rewrite Hnodes. by apply count_verdicts.
Qed.
End Detection.

(** ** Properties *)

(** The retry delay is the documented one, [2^attempt] seconds capped at
    sixty, for attempt counts up to 33. *)
Theorem backoff_exact (conv : Z -> Z) (attempt : Z) :
  (0 <= attempt <= 33)%Z -> backoff conv attempt = Z.min (2 ^ attempt * Second) maxBackoff.
Proof.
  intros Ha. apply (proj1 (Forall_forall _ _) (backoff_table conv) attempt).
  apply list_elem_of_fmap. exists (Z.to_nat attempt). split; [lia|].
  apply elem_of_seq. lia.
Qed.

Lemma backoff_exact_witness : backoff (fun _ => 0%Z) 5 = 32000000000%Z /\ backoff (fun _ => 0%Z) 33 = maxBackoff.
Proof.
  split; [rewrite (backoff_exact _ 5) by lia | rewrite (backoff_exact _ 33) by lia]; reflexivity.
Defined.


(** C7: A heartbeat supervision pass on a reliable store marks exactly the
    healthy nodes whose last heartbeat is too old as unhealthy and removes
    exactly such draining ones; the pods of those nodes, and no others, are
    recovered: scheduled ones return to the queue at no cost, running ones
    return with one attempt more and a backoff, or are dead-lettered when the
    retries are used up.  The gauge equals the number of unhealthy nodes. *)
Theorem detectUnhealthyNodes_correct (conv : Z -> Z) (heartbeatTimeout : Duration) (w : World) :
  cluster_wf (w_cluster w) ->
  wp (cp_rel false) (detectUnhealthyNodes conv heartbeatTimeout)
    (fun _ w' => supervised conv heartbeatTimeout w w') w.
Proof. apply detectUnhealthyNodes_wp. Qed.

(** At time 1000 s the demo nodes have been silent for more than 30 s. *)
Definition silent_world : World := mkWorld demo_cluster (1000 * Second) [] zeroStats.

Lemma detectUnhealthyNodes_correct_witness :
  wp (cp_rel false) (detectUnhealthyNodes (fun _ => 0%Z) (30 * Second))
    (fun _ w' => supervised (fun _ => 0%Z) (30 * Second) silent_world w') silent_world.
Proof. apply (detectUnhealthyNodes_correct _ _ silent_world). exact demo_wf. Defined.

(** The running pod of the lost node is pending again, with an attempt more. *)
Example demo_recovery :
  let m := (run (cp_handle (test_oracle (1000 * Second)))
              (detectUnhealthyNodes (fun _ => 0%Z) (30 * Second)) demo_machine).2 in
  ((fun p => (Pod_Status p, Pod_NodeID p, Pod_Attempt p)) <$> (MemoryStore.m_pods (mc_store m) !! "pod_2"),
   Node_Status <$> (MemoryStore.m_nodes (mc_store m) !! "node_1"),
   Node_Status <$> (MemoryStore.m_nodes (mc_store m) !! "node_2"))
  = (Some (PodPending, "", 1%Z), Some NodeUnhealthy, Some NodeRemoved).
Proof. vm_compute. reflexivity. Qed.
