(* ===== verification/Replicas.v ===== *)
(** * Replica reconciliation: what reconcileDeployments does and where it converges

    The frame of a pass (what it may touch, storage faults included) and its
    effect on replica counts when the store works and generated IDs are new. *)

From S2P Require Import Prelude Model Store Runtime Fixtures Reconciler.
From Stdlib Require Import ZArith Lia Sorted.
From stdpp Require Import base gmap strings list.
Local Open Scope go_scope.

(** ** Effects of one deployment's turn *)

(** The status changes the reconciler makes to a deployment. *)
Definition dep_step (d d' : Deployment) : Prop :=
  d' = d \/ (Deployment_Status d <> DeploymentCancelled /\
    exists st t, st ∈ [DeploymentActive; DeploymentDegraded] /\
      deployment_path (Deployment_Status d) st /\ d' = deployment_with_status st t d).

Lemma dep_step_trans d1 d2 d3 : dep_step d1 d2 -> dep_step d2 d3 -> dep_step d1 d3.
Proof.
  intros [->|(H1 & st & t & Hst & Hp & ->)]; [done|].
  intros [->|(_ & st' & t' & Hst' & Hp' & ->)]; right; split; [done| |done|].
  - by exists st, t.
  - exists st', t'. split_and!; [done| |done]. unfold deployment_path in *. cbn in Hp'. by etrans.
Qed.

(** Only the deployment [id] changes, and only in its status. *)
Definition dep_only (id : string) (c c' : Cluster) : Prop :=
  c' = with_deployments (deployments c') c /\
  (forall id', id' <> id -> deployments c' !! id' = deployments c !! id') /\
  option_Forall2 dep_step (deployments c !! id) (deployments c' !! id).

Lemma dep_only_refl id c : dep_only id c c.
Proof.
  split_and!; [by rewrite with_deployments_id|done|]. apply option_Forall2_refl'. by left.
Qed.

Lemma dep_only_wf id c c' : cluster_wf c -> dep_only id c c' -> cluster_wf c'.
Proof.
  intros [Hwd ? ? ?] (Hc & Ho & Hown). rewrite Hc. split; cbn; try done. intros id' d' Hd'.
  destruct (decide (id' = id)) as [->|Hne]; [|rewrite Ho in Hd' by done; by apply Hwd].
  rewrite Hd' in Hown. inversion Hown as [d ? Hs Hd|]; subst. symmetry in Hd. apply Hwd in Hd.
  by destruct Hs as [->|(_ & ? & ? & _ & _ & ->)].
Qed.

(** The pod as scale-down leaves it. *)
Definition cancelled_pod (t : Time) (p : Pod) : Pod :=
  apply_pod_transition PodCancelled "deployment scaled down" t p.

(** A pod of [d] is kept or, if it has not started, cancelled; a new pod is an
    instance of [d]. *)
Definition pod_change (d : Deployment) (lo hi : Time) (id : string) (p p' : option Pod) : Prop :=
  match p, p' with
  | Some p, Some p' => p' = p \/ (Pod_DeploymentID p = Deployment_ID d /\ cancellable p = true /\
      exists t, (lo <= t <= hi)%Z /\ p' = cancelled_pod t p)
  | None, Some p' => exists t, (lo <= t <= hi)%Z /\ p' = new_pod id d t
  | Some _, None => False
  | None, None => True
  end.

Definition pods_change (d : Deployment) (lo hi : Time) (m m' : gmap string Pod) : Prop :=
  forall id, pod_change d lo hi id (m !! id) (m' !! id).

Lemma pod_change_refl d lo hi id p : pod_change d lo hi id p p.
Proof. destruct p; cbn; eauto. Qed.

Lemma pod_change_later d lo hi hi' id p p' :
  (hi <= hi')%Z -> pod_change d lo hi id p p' -> pod_change d lo hi' id p p'.
Proof.
  intros Hle. destruct p, p'; cbn; try done.
  - intros [?|(? & ? & t & ? & ?)]; [by left|right]. split_and!; [done|done|]. exists t. split; [lia|done].
  - intros (t & ? & ?). exists t. split; [lia|done].
Qed.

Section Turn.
Context `{SliceSort} (fl : bool).

Lemma transition_dep_wp {A} id to w (k : error -> prog CpE A) Q :
  to ∈ [DeploymentActive; DeploymentDegraded] ->
  (forall t r c', (w_clock w <= t)%Z -> dep_only id (w_cluster w) c' ->
     wp (cp_rel fl) (k r) Q (with_cluster c' t w)) ->
  wp (cp_rel fl) (store (OpTransitionDeployment id to) ≫= k) Q w.
Proof using Type.
  intros Hto HQ. apply wp_store. intros t r c' Ht [(m & Hm & ->)|(_ & _ & ->)]; apply HQ; try done.
  2:{ apply dep_only_refl. }
  unfold transition_post in Hm. destruct (deployments (w_cluster w) !! id) as [d|] eqn:Hd.
  2:{ destruct Hm as [_ ->]. rewrite with_deployments_id. apply dep_only_refl. }
  destruct (TransitionDeployment (Deployment_Status d) to) eqn:Hl; destruct Hm as [_ ->].
  2:{ rewrite with_deployments_id. apply dep_only_refl. }
  split_and!; cbn; [done|by intros; rewrite lookup_insert_ne|].
  rewrite lookup_insert_eq, Hd. constructor. right. split.
  - intros Hc. by rewrite Hc in Hl.
  - exists to, t. split_and!; [done| |done]. by apply rtc_once.
Qed.

Lemma create_replica_wp d w (Q : unit -> World -> Prop) :
  (forall w', (w_clock w <= w_clock w')%Z -> w_cluster w' = w_cluster w -> Q tt w') ->
  (forall id t w', (w_clock w <= t <= w_clock w')%Z -> pods (w_cluster w) !! id = None ->
     w_cluster w' = with_pods (<[id := new_pod id d t]> (pods (w_cluster w))) (w_cluster w) -> Q tt w') ->
  wp (cp_rel fl) (create_replica d) Q w.
Proof using Type.
  intros Hsame Hnew. unfold create_replica. apply wp_bind. apply wp_rand. intros r _.
  destruct r as [bs|]; cbn [wp]; [|apply Hsame; [lia|done]].
  apply wp_now. intros t Ht.
  apply wp_store. intros t' e c' Ht' [(m & Hm & ->)|(_ & He & ->)]; cbn in Ht'.
  2:{ cbn in He. subst e. apply Hsame; [cbn; lia|done]. }
  unfold create_post in Hm. cbn in Hm. destruct (pods (w_cluster w) !! _) eqn:Hp; destruct Hm as [-> ->].
  - apply Hsame; [cbn; lia|]. cbn. apply with_pods_id.
  - intros [] w' ->. eapply (Hnew _ t); [cbn; lia|exact Hp|done].
Qed.

(** The candidates for cancellation, newest first. *)
Definition victims (d : Deployment) (ps : list Pod) : list Pod :=
  take (Z.to_nat (count_active ps -64 Deployment_Replicas d))
    (sort_slice newer (filter (fun p => cancellable p = true) ps)).

Lemma victims_spec d ps :
  NoDup (Pod_ID <$> ps) ->
  NoDup (Pod_ID <$> victims d ps) /\ forall p, p ∈ victims d ps -> p ∈ ps /\ cancellable p = true.
Proof using Type.
  intros Hnd. unfold victims.
  set (cs := sort_slice newer (filter (fun p => cancellable p = true) ps)).
  assert (Hcs : cs ≡ₚ filter (fun p => cancellable p = true) ps) by apply sort_slice_perm.
  assert (Hcn : NoDup (Pod_ID <$> cs)).
  { rewrite Hcs. eapply sublist_NoDup; [exact Hnd|]. apply fmap_sublist, sublist_filter. }
  split.
  - eapply sublist_NoDup; [exact Hcn|]. apply fmap_sublist, sublist_take.
  - intros p Hp. assert (Hin : p ∈ cs).
    { rewrite <- (take_drop (Z.to_nat (count_active ps -64 Deployment_Replicas d)) cs). set_solver. }
    rewrite Hcs, list_elem_of_filter in Hin. naive_solver.
Qed.

Lemma cancel_loop_wp d vs w :
  NoDup (Pod_ID <$> vs) ->
  (forall p, p ∈ vs -> pods (w_cluster w) !! Pod_ID p = Some p /\
     Pod_DeploymentID p = Deployment_ID d /\ cancellable p = true) ->
  wp (cp_rel fl) (for_each vs tt (fun p _ =>
      _ ← store (OpTransitionPod (Pod_ID p) PodCancelled "deployment scaled down"); Ret tt))
    (fun _ w' => (w_clock w <= w_clock w')%Z /\
       w_cluster w' = with_pods (pods (w_cluster w')) (w_cluster w) /\
       pods_change d (w_clock w) (w_clock w') (pods (w_cluster w)) (pods (w_cluster w'))) w.
Proof using Type.
  intros Hnd Hvs. eapply wp_mono; [|apply (wp_for_each _ (fun pre post _ w' =>
    (w_clock w <= w_clock w')%Z /\
    w_cluster w' = with_pods (pods (w_cluster w')) (w_cluster w) /\
    pods_change d (w_clock w) (w_clock w') (pods (w_cluster w)) (pods (w_cluster w')) /\
    forall p, p ∈ post -> pods (w_cluster w') !! Pod_ID p = Some p))].
  - cbn. intros _ w' (? & ? & ? & _). done.
  - split_and!; [lia|by rewrite with_pods_id|intros id; apply pod_change_refl|].
    intros p Hp. by apply Hvs.
  - intros pre p post [] w1 Heq (Hcl & Hc & Hch & Hpost).
    destruct (Hvs p) as (Hp0 & Hdid & Hcan); [set_solver|].
    assert (Hp1 := Hpost p ltac:(set_solver)).
    assert (Hother : forall q, q ∈ post -> Pod_ID q <> Pod_ID p).
    { intros q Hq Hqp. rewrite Heq, fmap_app, fmap_cons in Hnd.
      apply NoDup_app in Hnd as (_ & _ & [Hni _]%NoDup_cons). apply Hni. rewrite <- Hqp.
      by apply list_elem_of_fmap_2. }
    apply wp_store. intros t r c' Ht Hop. cbn.
    assert (Hcase : c' = w_cluster w1 \/
      c' = with_pods (<[Pod_ID p := cancelled_pod t p]> (pods (w_cluster w1))) (w_cluster w1)).
    { destruct Hop as [(m & Hm & ->)|(_ & _ & ->)]; [|by left].
      unfold transition_post in Hm. rewrite Hp1 in Hm.
      destruct (TransitionPod _ _); destruct Hm as [_ ->]; [by right|left; apply with_pods_id]. }
    destruct Hcase as [->| ->].
    + split_and!; [lia|done| |by intros; apply Hpost; set_solver].
      intros id. eapply pod_change_later, Hch. lia.
    + split_and!; [lia|cbn; by rewrite Hc| |].
      * intros id. cbn. destruct (decide (Pod_ID p = id)) as [<-|Hne].
        -- rewrite lookup_insert_eq, Hp0. right. split_and!; [done|done|]. exists t. split; [lia|done].
        -- rewrite lookup_insert_ne by done. eapply pod_change_later, Hch. lia.
      * intros q Hq. cbn. rewrite lookup_insert_ne; [apply Hpost; set_solver|].
        intros Hqp. by apply (Hother q).
Qed.

Lemma create_loop_wp {B} d (l : list B) w :
  wp (cp_rel fl) (for_each l tt (fun _ _ => create_replica d))
    (fun _ w' => (w_clock w <= w_clock w')%Z /\
       w_cluster w' = with_pods (pods (w_cluster w')) (w_cluster w) /\
       pods_change d (w_clock w) (w_clock w') (pods (w_cluster w)) (pods (w_cluster w'))) w.
Proof using Type.
  apply wp_for_each_inv.
  - split_and!; [lia|by rewrite with_pods_id|intros id; apply pod_change_refl].
  - intros _ [] w1 _ (Hcl & Hc & Hch). apply create_replica_wp.
    + intros w' Hcl' ->. split_and!; [lia|done|]. intros id. eapply pod_change_later, Hch. lia.
    + intros id t w' Ht Hid ->. split_and!; [lia|cbn; by rewrite Hc|]. intros id'. cbn.
      destruct (decide (id = id')) as [<-|Hne].
      * rewrite lookup_insert_eq. specialize (Hch id). rewrite Hid in Hch.
        destruct (pods (w_cluster w) !! id); [done|]. exists t. split; [lia|done].
      * rewrite lookup_insert_ne by done. eapply pod_change_later, Hch. lia.
Qed.
End Turn.

(** What the turn of one deployment does. *)
Record turn (d : Deployment) (lo hi : Time) (c c' : Cluster) : Prop := {
  turn_nodes : nodes c' = nodes c;
  turn_services : services c' = services c;
  turn_other : forall id, id <> Deployment_ID d -> deployments c' !! id = deployments c !! id;
  turn_own : option_Forall2 dep_step (deployments c !! Deployment_ID d) (deployments c' !! Deployment_ID d);
  turn_pods : pods_change d lo hi (pods c) (pods c') }.

Lemma turn_refl d lo hi c : turn d lo hi c c.
Proof.
  split; try done; [apply option_Forall2_refl'; by left|]. intros id. apply pod_change_refl.
Qed.

(** A status change of the deployment before or after its pods are handled. *)
Lemma turn_dep_l d lo lo' hi c c1 c' :
  (lo <= lo')%Z -> dep_only (Deployment_ID d) c c1 -> turn d lo' hi c1 c' -> turn d lo hi c c'.
Proof.
  intros Hle (Hc & Ho & Hown) [Hn Hs Hot How Hp]. rewrite Hc in Hn, Hs, Hp. cbn in *. split; try done.
  - intros id Hid. rewrite Hot, Ho; done.
  - destruct Hown; inversion How; subst; constructor. by eapply dep_step_trans.
  - intros id. specialize (Hp id). destruct (pods c !! id), (pods c' !! id); cbn in *; try done.
    + destruct Hp as [?|(? & ? & t & ? & ?)]; [by left|right]. split_and!; [done|done|].
      exists t. split; [lia|done].
    + destruct Hp as (t & ? & ?). exists t. split; [lia|done].
Qed.

Lemma turn_dep_r d lo hi hi' c c1 c' :
  (hi <= hi')%Z -> turn d lo hi c c1 -> dep_only (Deployment_ID d) c1 c' -> turn d lo hi' c c'.
Proof.
  intros Hle [Hn Hs Hot How Hp] (Hc & Ho & Hown). rewrite Hc. split; cbn; try done.
  - intros id Hid. rewrite Ho, Hot; done.
  - destruct How; inversion Hown; subst; constructor. by eapply dep_step_trans.
  - intros id. by eapply pod_change_later, Hp.
Qed.

Lemma turn_pods_only d lo hi c c' :
  c' = with_pods (pods c') c -> pods_change d lo hi (pods c) (pods c') -> turn d lo hi c c'.
Proof.
  intros -> H. split; try done. apply option_Forall2_refl'. by left.
Qed.

(** What a whole pass may do: a pod keeps its value unless its deployment is
    not cancelled. *)
Record reconcile_frame (lo hi : Time) (c c' : Cluster) : Prop := {
  rf_nodes : nodes c' = nodes c;
  rf_services : services c' = services c;
  rf_deployments : forall id, option_Forall2 dep_step (deployments c !! id) (deployments c' !! id);
  rf_pods : forall id, pods c' !! id = pods c !! id \/
    exists d, deployments c !! Deployment_ID d = Some d /\ Deployment_Status d <> DeploymentCancelled /\
      pod_change d lo hi id (pods c !! id) (pods c' !! id) }.

Section Pass.
Context `{SliceSort} (fl : bool).

Lemma scale_wp d ps w :
  NoDup (Pod_ID <$> ps) ->
  (forall p, p ∈ ps -> pods (w_cluster w) !! Pod_ID p = Some p /\ Pod_DeploymentID p = Deployment_ID d) ->
  wp (cp_rel fl) (scale d ps)
    (fun _ w' => (w_clock w <= w_clock w')%Z /\
       turn d (w_clock w) (w_clock w') (w_cluster w) (w_cluster w')) w.
Proof using Type.
  intros Hnd Hps. unfold scale. case_one; [|case_one].
  - eapply wp_mono; [|apply create_loop_wp]. intros [] w' (? & ? & ?). split; [done|].
    by apply turn_pods_only.
  - destruct (victims_spec d ps Hnd) as [Hvn Hvs].
    eapply wp_mono; [|apply (cancel_loop_wp fl d (victims d ps)); [done|]].
    + intros [] w' (? & ? & ?). split; [done|]. by apply turn_pods_only.
    + intros p Hp. destruct (Hvs p Hp) as [Hin ?]. destruct (Hps p Hin). done.
  - split; [lia|]. apply turn_refl.
Qed.

Lemma mark_degraded_wp d st ps w (Q : unit -> World -> Prop) :
  (forall w', (w_clock w <= w_clock w')%Z -> dep_only (Deployment_ID d) (w_cluster w) (w_cluster w') ->
     pods (w_cluster w') = pods (w_cluster w) -> Q tt w') ->
  wp (cp_rel fl) (mark_degraded d st ps) Q w.
Proof using Type.
  intros HQ. unfold mark_degraded. case_one; [|case_one].
  - apply transition_dep_wp; [set_solver|]. intros t r c' Ht Hd. apply HQ; [cbn; lia|done|].
    cbn. by destruct Hd as [-> _].
  - apply transition_dep_wp; [set_solver|]. intros t r c' Ht Hd. apply HQ; [cbn; lia|done|].
    cbn. by destruct Hd as [-> _].
  - apply HQ; [lia|apply dep_only_refl|done].
Qed.

Lemma reconcile_pods_wp d st w :
  cluster_wf (w_cluster w) ->
  wp (cp_rel fl) (reconcile_pods d st)
    (fun _ w' => (w_clock w <= w_clock w')%Z /\
       turn d (w_clock w) (w_clock w') (w_cluster w) (w_cluster w')) w.
Proof using Type.
  intros Hwf. unfold reconcile_pods.
  apply wp_store. intros t [ps e] c' Ht [[Hl ->]|(_ & He & ->)].
  2:{ cbn in He. subst e. split; [cbn; lia|]. apply turn_refl. }
  pose proof Hl as [He _]. cbn in He. subst e.
  eapply wp_seq; [apply (scale_wp d ps)|].
  - by eapply list_post_nodup, Hl; apply Hwf.
  - intros p Hp. apply (list_post_elem _ _ _ _ p Hl) in Hp as [[k Hk] Hp]. cbn.
    rewrite bool_decide_eq_true in Hp. by rewrite (wf_pods _ Hwf k p Hk).
  - intros [] w1 [Hcl Ht1]. cbn in Hcl, Ht1. apply mark_degraded_wp. intros w' Hcl' Hd _.
    split; [lia|]. eapply turn_dep_r; [|apply (turn_dep_l d _ t _ _ (w_cluster w))|exact Hd]; [exact Hcl'|lia|apply dep_only_refl|done].
Qed.

Lemma reconcile_deployment_wp d w :
  cluster_wf (w_cluster w) ->
  wp (cp_rel fl) (reconcile_deployment d)
    (fun _ w' => (w_clock w <= w_clock w')%Z /\
       (Deployment_Status d = DeploymentCancelled -> w_cluster w' = w_cluster w) /\
       turn d (w_clock w) (w_clock w') (w_cluster w) (w_cluster w')) w.
Proof using Type.
  intros Hwf. unfold reconcile_deployment. destruct (Deployment_Status d) eqn:Hst.
  - apply transition_dep_wp; [set_solver|]. intros t r c' Ht Hd. destruct r as [e|].
    + split_and!; [cbn; lia|done|]. eapply (turn_dep_l d _ t); [lia|exact Hd|apply turn_refl].
    + eapply wp_mono; [|apply reconcile_pods_wp].
      * cbn. intros [] w' [Hcl Htu]. split_and!; [lia|done|]. eapply turn_dep_l, Htu; [lia|done].
      * by eapply dep_only_wf.
  - eapply wp_mono; [|by apply reconcile_pods_wp]. intros [] w' [? ?]. done.
  - eapply wp_mono; [|by apply reconcile_pods_wp]. intros [] w' [? ?]. done.
  - split_and!; [lia|done|]. apply turn_refl.
  - eapply wp_mono; [|by apply reconcile_pods_wp]. intros [] w' [? ?]. done.
Qed.
End Pass.

Lemma turn_wf d lo hi c c' : cluster_wf c -> turn d lo hi c c' -> cluster_wf c'.
Proof.
  intros [Hwd Hwp Hwn Hws] [Hn Hs Hot Hown Hp]. split.
  - intros id d' Hd'. destruct (decide (id = Deployment_ID d)) as [->|Hne].
    + rewrite Hd' in Hown. inversion Hown as [d0 ? Hst Hd0|]; subst. symmetry in Hd0. apply Hwd in Hd0.
      by destruct Hst as [->|(_ & ? & ? & _ & _ & ->)].
    + rewrite Hot in Hd' by done. by apply Hwd.
  - intros id p' Hp'. specialize (Hp id). rewrite Hp' in Hp. cbn in Hp.
    destruct (pods c !! id) as [p|] eqn:E; cbn in Hp.
    + apply Hwp in E. by destruct Hp as [->|(_ & _ & t & _ & ->)].
    + by destruct Hp as (t & _ & ->).
  - by rewrite Hn.
  - by rewrite Hs.
Qed.

(** The turns of a pass, in order; [X] is what is known of each. *)
Inductive turns (X : Deployment -> Cluster -> Cluster -> Prop)
  : list Deployment -> Time -> Cluster -> Time -> Cluster -> Prop :=
| turns_nil t t' c : (t <= t')%Z -> turns X [] t c t' c
| turns_snoc pre d t c t1 c1 t2 c2 :
    turns X pre t c t1 c1 -> (t <= t1 <= t2)%Z ->
    (Deployment_Status d = DeploymentCancelled -> c2 = c1) ->
    turn d t1 t2 c1 c2 -> X d c1 c2 -> turns X (pre ++ [d]) t c t2 c2.

Lemma turns_wp `{SliceSort} R X ds w :
  (forall d w, cluster_wf (w_cluster w) ->
     wp R (reconcile_deployment d) (fun _ w' => (w_clock w <= w_clock w')%Z /\
       (Deployment_Status d = DeploymentCancelled -> w_cluster w' = w_cluster w) /\
       turn d (w_clock w) (w_clock w') (w_cluster w) (w_cluster w') /\ X d (w_cluster w) (w_cluster w')) w) ->
  cluster_wf (w_cluster w) ->
  wp R (for_each ds tt (fun d _ => reconcile_deployment d))
    (fun _ w' => (w_clock w <= w_clock w')%Z /\
       turns X ds (w_clock w) (w_cluster w) (w_clock w') (w_cluster w')) w.
Proof.
  intros Hone Hwf. eapply wp_mono; [|apply (wp_for_each _ (fun pre _ _ w' =>
    (w_clock w <= w_clock w')%Z /\ cluster_wf (w_cluster w') /\
    turns X pre (w_clock w) (w_cluster w) (w_clock w') (w_cluster w')))].
  - cbn. intros _ w' (? & _ & ?). done.
  - split_and!; [lia|done|]. constructor. lia.
  - intros pre d post [] w1 _ (Hcl & Hwf1 & Hts). eapply wp_mono; [|by apply Hone]. cbn.
    intros [] w2 (Hcl2 & Hcan & Htu & HX). split_and!; [lia|by eapply turn_wf|].
    by eapply turns_snoc; [|split|..].
Qed.

(** Induction over the turns of a pass that visits each deployment once: what
    belongs to a deployment is untouched before its own turn. *)
Record untouched (ds : list Deployment) (c c' : Cluster) : Prop := {
  un_deployments : forall id, id ∉ Deployment_ID <$> ds -> deployments c' !! id = deployments c !! id;
  un_pods : forall id p, (pods c !! id = Some p \/ pods c' !! id = Some p) ->
    Pod_DeploymentID p ∉ Deployment_ID <$> ds -> pods c' !! id = pods c !! id }.

Lemma turns_untouched X ds t c t' c' : turns X ds t c t' c' -> untouched ds c c'.
Proof.
  induction 1 as [t t' c Ht|pre d t c t1 c1 t2 c2 Hts [IHd IHp] Ht Hcan [Hn Hs Hot Hown Hp] HX]; [by split|].
  split.
  - intros id Hid. rewrite fmap_app in Hid. rewrite Hot by set_solver. apply IHd. set_solver.
  - intros id p Hpp Hni. rewrite fmap_app in Hni. specialize (Hp id).
    assert (Hni1 : Pod_DeploymentID p ∉ Deployment_ID <$> pre) by set_solver.
    assert (Hne : Pod_DeploymentID p <> Deployment_ID d) by set_solver.
    destruct Hpp as [Hc|Hc2].
    + rewrite (IHp id p) in Hp by eauto. rewrite Hc in *. cbn in Hp.
      destruct (pods c2 !! id); [|done]. by destruct Hp as [->|(? & _)].
    + rewrite Hc2 in Hp. cbn in Hp. destruct (pods c1 !! id) as [p1|] eqn:Hc1.
      * destruct Hp as [->|(Heq & _ & t' & _ & ->)]; [|done]. rewrite Hc2, <- Hc1. by apply (IHp id p1); eauto.
      * destruct Hp as (t' & _ & ->). done.
Qed.

Lemma turns_frame X ds t c t' c' :
  turns X ds t c t' c' -> NoDup (Deployment_ID <$> ds) ->
  (forall d, d ∈ ds -> deployments c !! Deployment_ID d = Some d) ->
  reconcile_frame t t' c c'.
Proof.
  induction 1 as [t t' c Ht|pre d t c t1 c1 t2 c2 Hts IH Ht Hcan Htu HX]; intros Hnd Hds.
  { split; try done; [|by left]. intros id. apply option_Forall2_refl'. by left. }
  rewrite fmap_app in Hnd. apply NoDup_app in Hnd as (Hnd1 & Hnd2 & _).
  destruct IH as [Hn Hs Hd Hp]; [done|intros; apply Hds; set_solver|].
  destruct (turns_untouched _ _ _ _ _ _ Hts) as [Hun Hup].
  assert (Hni : Deployment_ID d ∉ Deployment_ID <$> pre) by (intros Hin; apply (Hnd2 _ Hin); set_solver).
  assert (Hd0 : deployments c !! Deployment_ID d = Some d) by (apply Hds; set_solver).
  destruct (decide (Deployment_Status d = DeploymentCancelled)) as [Hc|Hc].
  { rewrite (Hcan Hc). split; try done. intros id. destruct (Hp id) as [?|(d' & ? & ? & ?)]; [by left|right].
    exists d'. split_and!; [done|done|]. eapply pod_change_later; [|done]. lia. }
  destruct Htu as [Hn2 Hs2 Hot Hown Hp2]. split; [congruence|congruence| |].
  - intros id. destruct (decide (id = Deployment_ID d)) as [->|Hne].
    + by rewrite <- (Hun (Deployment_ID d)).
    + by rewrite Hot.
  - intros id. specialize (Hp2 id). destruct (pods c1 !! id) as [p1|] eqn:E1.
    + destruct (pods c2 !! id) as [p2|] eqn:E2; [|done]. cbn in Hp2.
      destruct Hp2 as [->|(Hdid & Hcn & t' & ? & ->)].
      * rewrite <- E1. destruct (Hp id) as [?|(d' & ? & ? & ?)]; [by left|right].
        exists d'. split_and!; [done|done|]. eapply pod_change_later; [|done]. lia.
      * assert (E0 : pods c !! id = Some p1).
        { rewrite <- E1. symmetry. apply (Hup id p1); [by right|by rewrite Hdid]. }
        right. exists d. split_and!; [done|done|]. rewrite E0. right. split_and!; [done|done|].
        exists t'. split; [lia|done].
    + assert (E0 : pods c !! id = None).
      { destruct (Hp id) as [?|(d' & _ & _ & Hch)]; [congruence|]. rewrite E1 in Hch.
        by destruct (pods c !! id). }
      destruct (pods c2 !! id) as [p2|] eqn:E2; [|left; by rewrite E0].
      right. exists d. split_and!; [done|done|]. rewrite E0. destruct Hp2 as (t' & ? & ->).
      exists t'. split; [lia|done].
Qed.

(** ** Convergence of the replica count *)

(** The pods of [did] that occupy a replica slot, and those that scale-down may
    still cancel. *)
Definition replicas (c : Cluster) (did : string) : Z :=
  count_values (fun p => bool_decide (Pod_DeploymentID p = did) && Active p) (pods c).

Definition movable (c : Cluster) (did : string) : Z :=
  count_values (fun p => bool_decide (Pod_DeploymentID p = did) && cancellable p) (pods c).

(** The store works, crypto/rand works and generated pod IDs are new. *)
Definition cp_fresh X (e : CpE X) (w : World) (r : X) (w' : World) : Prop :=
  cp_rel false X e w r w' /\
  match e in CpE X return X -> Prop with
  | ERandRead _ => fun r => exists bs, r = Some bs /\
      pods (w_cluster w) !! ("pod_" +:+ EncodeToString bs) = None
  | _ => fun _ => True
  end r.

Lemma wp_fresh {A} (p : prog CpE A) Q w : wp (cp_rel false) p Q w -> wp cp_fresh p Q w.
Proof. apply wp_subrel. by intros X e w1 r w2 [H _]. Qed.

(** Where the replica count of [d] ends up: at the wanted number, unless too
    many pods already run and cannot be cancelled. *)
Definition settles (d : Deployment) (c c' : Cluster) : Prop :=
  deployments c !! Deployment_ID d = Some d -> (0 <= Deployment_Replicas d <= max_int64)%Z ->
  (replicas c (Deployment_ID d) <= max_int64)%Z ->
  Deployment_Status d <> DeploymentCancelled ->
  replicas c' (Deployment_ID d) =
    Z.max (Deployment_Replicas d) (replicas c (Deployment_ID d) - movable c (Deployment_ID d)).

Lemma create_replica_fresh d w (Q : unit -> World -> Prop) :
  (forall id t w', pods (w_cluster w) !! id = None ->
     w_cluster w' = with_pods (<[id := new_pod id d t]> (pods (w_cluster w))) (w_cluster w) -> Q tt w') ->
  wp cp_fresh (create_replica d) Q w.
Proof.
  intros HQ r w1 [[-> _] (bs & -> & Hfresh)]. intros t w2 [[Ht ->] _].
  intros e w3 [(t' & c' & Ht' & [(m & Hm & ->)|(? & _)] & ->) _]; [|done].
  unfold create_post in Hm. cbn in Hm. rewrite Hfresh in Hm. destruct Hm as [-> ->].
  intros [] w4 [-> _]. by eapply HQ.
Qed.

Lemma create_loop_fresh {B} d (l : list B) w :
  wp cp_fresh (for_each l tt (fun _ _ => create_replica d))
    (fun _ w' => replicas (w_cluster w') (Deployment_ID d) =
       replicas (w_cluster w) (Deployment_ID d) + Z.of_nat (length l))%Z w.
Proof.
  apply (wp_for_each _ (fun pre _ _ w' => replicas (w_cluster w') (Deployment_ID d) =
       replicas (w_cluster w) (Deployment_ID d) + Z.of_nat (length pre))%Z).
  - cbn. lia.
  - intros pre x post [] w1 _ Hr. apply create_replica_fresh. intros id t w' Hid ->.
    unfold replicas in *. cbn. rewrite count_values_fresh by done.
    rewrite length_app, Hr. cbn. rewrite bool_decide_true by done. cbn. lia.
Qed.

Lemma cancel_loop_fresh d vs w :
  NoDup (Pod_ID <$> vs) ->
  (forall p, p ∈ vs -> pods (w_cluster w) !! Pod_ID p = Some p /\
     Pod_DeploymentID p = Deployment_ID d /\ cancellable p = true) ->
  wp (cp_rel false) (for_each vs tt (fun p _ =>
      _ ← store (OpTransitionPod (Pod_ID p) PodCancelled "deployment scaled down"); Ret tt))
    (fun _ w' => replicas (w_cluster w') (Deployment_ID d) =
       replicas (w_cluster w) (Deployment_ID d) - Z.of_nat (length vs))%Z w.
Proof.
  intros Hnd Hvs. eapply wp_mono; [|apply (wp_for_each _ (fun pre post _ w' =>
    (replicas (w_cluster w') (Deployment_ID d) =
       replicas (w_cluster w) (Deployment_ID d) - Z.of_nat (length pre))%Z /\
    forall p, p ∈ post -> pods (w_cluster w') !! Pod_ID p = Some p))].
  - cbn. tauto.
  - split; [cbn; lia|]. intros p Hp. by apply Hvs.
  - intros pre p post [] w1 Heq [Hr Hpost].
    destruct (Hvs p) as (_ & Hdid & Hcan); [set_solver|]. assert (Hp1 := Hpost p ltac:(set_solver)).
    assert (Hactive : Active p = true /\ TransitionPod (Pod_Status p) PodCancelled = true).
    { unfold cancellable in Hcan. unfold Active. by destruct (Pod_Status p). }
    destruct Hactive as [Hact Hleg].
    eapply wp_transition_pod; [done|done|]. intros t Ht. split.
    + unfold replicas in *. cbn [w_cluster with_cluster pods with_pods].
      rewrite (count_values_update _ _ _ _ p) by done. rewrite Hr, Hact. cbn -[b2z].
      rewrite Hdid, bool_decide_true by done. rewrite length_app. cbn. lia.
    + intros q Hq. cbn. rewrite lookup_insert_ne; [apply Hpost; set_solver|]. intros Hqp.
      rewrite Heq, fmap_app, fmap_cons in Hnd.
      apply NoDup_app in Hnd as (_ & _ & [Hni _]%NoDup_cons). apply Hni. rewrite Hqp.
      by apply list_elem_of_fmap_2.
Qed.

Section Converge.
Context `{SliceSort}.

Lemma scale_settles d ps w :
  list_post (fun p => bool_decide (Pod_DeploymentID p = Deployment_ID d)) (pods (w_cluster w)) (ps, None) ->
  cluster_wf (w_cluster w) ->
  (0 <= Deployment_Replicas d <= max_int64)%Z ->
  (replicas (w_cluster w) (Deployment_ID d) <= max_int64)%Z ->
  wp cp_fresh (scale d ps) (fun _ w' => replicas (w_cluster w') (Deployment_ID d) =
    Z.max (Deployment_Replicas d)
      (replicas (w_cluster w) (Deployment_ID d) - movable (w_cluster w) (Deployment_ID d))) w.
Proof using Type.
  intros Hl Hwf Hr Hmax. pose proof Hl as [_ Hperm]. cbn in Hperm.
  assert (Hact : count_active ps = replicas (w_cluster w) (Deployment_ID d)) by (by apply count_values_list).
  assert (Hcan : Z.of_nat (length (filter (fun p => cancellable p = true) ps))
                 = movable (w_cluster w) (Deployment_ID d)) by (by apply count_values_list).
  pose proof (count_values_nonneg (fun p => bool_decide (Pod_DeploymentID p = Deployment_ID d) && Active p)
    (pods (w_cluster w))) as Hnn. fold (replicas (w_cluster w) (Deployment_ID d)) in Hnn.
  unfold max_int64 in *. unfold scale. rewrite Hact. case_one; [|case_one].
  - eapply wp_mono; [|apply create_loop_fresh]. intros [] w' ->. rewrite length_seq.
    apply Z.ltb_lt in Heqb. rewrite int64_wrap_id by (unfold in_int64, min_int64, max_int64; lia). lia.
  - apply Z.ltb_lt in Heqb0. rewrite <- Hact in *. change (take _ _) with (victims d ps).
    assert (Hnd : NoDup (Pod_ID <$> ps)) by (eapply list_post_nodup, Hl; apply Hwf).
    destruct (victims_spec d ps Hnd) as [Hvn Hvs].
    eapply wp_mono; [|apply wp_fresh, (cancel_loop_fresh d); [done|]].
    + intros [] w' Hw'. cbn beta in Hw'. rewrite Hw', <- Hcan, <- Hact. unfold victims.
      rewrite length_take, sort_slice_perm.
      rewrite int64_wrap_id by (unfold in_int64, min_int64, max_int64; lia). lia.
    + intros p Hp. destruct (Hvs p Hp) as [Hin ?].
      apply (list_post_elem _ _ _ _ p Hl) in Hin as [[k Hk] Hdid].
      rewrite bool_decide_eq_true in Hdid. by rewrite (wf_pods _ Hwf k p Hk).
  - apply Z.ltb_ge in Heqb, Heqb0. cbn. lia.
Qed.

Lemma reconcile_pods_settles d st w :
  cluster_wf (w_cluster w) -> (0 <= Deployment_Replicas d <= max_int64)%Z ->
  (replicas (w_cluster w) (Deployment_ID d) <= max_int64)%Z ->
  wp cp_fresh (reconcile_pods d st) (fun _ w' => replicas (w_cluster w') (Deployment_ID d) =
    Z.max (Deployment_Replicas d)
      (replicas (w_cluster w) (Deployment_ID d) - movable (w_cluster w) (Deployment_ID d))) w.
Proof using Type.
  intros Hwf Hr Hmax. unfold reconcile_pods.
  intros [ps e] w1 [(t & c' & Ht & [[Hl ->]|(? & _)] & ->) _]; [|done].
  pose proof Hl as [He _]. cbn in He. subst e. cbn [prog_bind].
  eapply wp_seq; [by apply scale_settles|]. cbn. intros [] w' Hw'.
  apply wp_fresh, mark_degraded_wp. intros w'' _ _ Hp. unfold replicas in *. by rewrite Hp.
Qed.

Lemma reconcile_deployment_settles d w :
  cluster_wf (w_cluster w) ->
  wp cp_fresh (reconcile_deployment d) (fun _ w' => settles d (w_cluster w) (w_cluster w')) w.
Proof using Type.
  intros Hwf.
  destruct (decide (deployments (w_cluster w) !! Deployment_ID d = Some d)) as [Hd|Hd].
  2:{ eapply wp_mono; [|by apply wp_fresh, reconcile_deployment_wp]. intros [] w' _ Hd'. done. }
  destruct (decide ((0 <= Deployment_Replicas d <= max_int64)%Z /\
     (replicas (w_cluster w) (Deployment_ID d) <= max_int64)%Z)) as [[Hr Hmax]|Hd'].
  2:{ eapply wp_mono; [|by apply wp_fresh, reconcile_deployment_wp]. intros [] w' _ ? ? ?.
      by destruct Hd'. }
  assert (Hpods : forall st, wp cp_fresh (reconcile_pods d st)
    (fun _ w' => settles d (w_cluster w) (w_cluster w')) w).
  { intros st. eapply wp_mono; [|by apply reconcile_pods_settles]. intros [] w' ? ? ? ? ?. done. }
  unfold reconcile_deployment. destruct (Deployment_Status d) eqn:Hst; try apply Hpods.
  2:{ intros _ _ _ Hc. by rewrite Hst in Hc. }
  intros r w1 [(t & c' & Ht & [(m & Hm & ->)|(? & _)] & ->) _]; [|done].
  unfold transition_post in Hm. rewrite Hd, Hst in Hm. destruct Hm as [-> ->].
  eapply wp_mono; [|apply reconcile_pods_settles]; [|cbn|done|done].
  - intros [] w' ? ? ? ? ?. done.
  - destruct Hwf. split; cbn; try done. by apply map_Forall_insert_2.
Qed.
End Converge.

Lemma turn_count d lo hi c c' (P : Pod -> bool) :
  turn d lo hi c c' -> (forall p, P p = true -> Pod_DeploymentID p <> Deployment_ID d) ->
  count_values P (pods c') = count_values P (pods c).
Proof.
  intros Htu HP. apply count_values_ext. intros k x Hx. specialize (HP x Hx).
  pose proof (turn_pods _ _ _ _ _ Htu k) as Hk.
  destruct (pods c !! k) as [p|], (pods c' !! k) as [p'|]; cbn in Hk; try done.
  - destruct Hk as [->|(Hd & _ & t & _ & ->)]; [done|]. split; intros [= <-]; by destruct HP.
  - destruct Hk as (t & _ & ->). split; intros [= <-]. by destruct HP.
Qed.

Lemma replicas_other d lo hi c c' did :
  turn d lo hi c c' -> did <> Deployment_ID d ->
  replicas c' did = replicas c did /\ movable c' did = movable c did.
Proof.
  intros Htu Hne. split; eapply turn_count; try exact Htu; intros p;
    rewrite andb_true_iff, bool_decide_eq_true; intros [-> _]; done.
Qed.

Lemma turns_settle ds t c t' c' d :
  turns settles ds t c t' c' -> NoDup (Deployment_ID <$> ds) ->
  (forall d, d ∈ ds -> deployments c !! Deployment_ID d = Some d) -> d ∈ ds ->
  settles d c c'.
Proof.
  intros Hts Hnd Hds Hin.
  cut ((d ∈ ds -> settles d c c') /\ (Deployment_ID d ∉ Deployment_ID <$> ds ->
    replicas c' (Deployment_ID d) = replicas c (Deployment_ID d) /\
    movable c' (Deployment_ID d) = movable c (Deployment_ID d))); [tauto|]. clear Hin.
  induction Hts as [t t' c Ht|pre d' t c t1 c1 t2 c2 Hts IH Ht Hcan Htu HX].
  { split; [set_solver|done]. }
  rewrite fmap_app in *. apply NoDup_app in Hnd as (Hnd1 & Hnd2 & _).
  destruct IH as [IH1 IH2]; [done|intros; apply Hds; set_solver|]. split.
  - intros [Hin|Hin]%elem_of_app.
    + assert (Hne : Deployment_ID d <> Deployment_ID d').
      { intros Heq. apply (Hnd2 (Deployment_ID d)); [by apply list_elem_of_fmap_2|set_solver]. }
      destruct (replicas_other _ _ _ _ _ _ Htu Hne) as [Hr _].
      unfold settles. rewrite Hr. by apply IH1.
    + apply list_elem_of_singleton in Hin as ->.
      assert (Hni : Deployment_ID d' ∉ Deployment_ID <$> pre) by (intros Hin; apply (Hnd2 _ Hin); set_solver).
      destruct (IH2 Hni) as [Hr Hm]. destruct (turns_untouched _ _ _ _ _ _ Hts) as [Hun _].
      unfold settles in *. by rewrite <- Hr, <- Hm, <- (Hun _ Hni).
  - intros Hni. destruct IH2 as [Hr Hm]; [set_solver|].
    destruct (replicas_other _ _ _ _ _ (Deployment_ID d) Htu) as [Hr2 Hm2]; [set_solver|]. split; congruence.
Qed.

(** The list of deployments a pass works on. *)
Lemma listed_deployments c ds e :
  cluster_wf c -> list_post (fun _ => true) (deployments c) (ds, e) ->
  NoDup (Deployment_ID <$> ds) /\
  (forall d, d ∈ ds <-> deployments c !! Deployment_ID d = Some d).
Proof.
  intros Hwf Hl. split; [eapply list_post_nodup, Hl; apply Hwf|]. intros d.
  rewrite (list_post_elem _ _ _ _ d Hl). split.
  - intros [[k Hk] _]. by rewrite (wf_deployments _ Hwf _ _ Hk).
  - eauto.
Qed.

Section Frame.
Context `{SliceSort}.

Lemma frame_lemma (fl : bool) (w : World) :
  cluster_wf (w_cluster w) ->
  wp (cp_rel fl) reconcileDeployments
    (fun _ w' => reconcile_frame (w_clock w) (w_clock w') (w_cluster w) (w_cluster w')) w.
Proof.
  intros Hwf. unfold reconcileDeployments.
  apply wp_store. intros t [ds e] c' Ht [[Hl ->]|(_ & He & ->)].
  2:{ cbn in He. subst e. eapply (turns_frame (fun _ _ _ => True) []); [|constructor|set_solver].
      constructor. cbn. lia. }
  pose proof Hl as [He _]. cbn in He. subst e.
  destruct (listed_deployments _ _ _ Hwf Hl) as [Hnd Hds].
  eapply wp_mono; [|apply (turns_wp _ (fun _ _ _ => True)); [|exact Hwf]].
  - cbn. intros [] w' [Hcl Hts]. destruct (turns_frame _ _ _ _ _ _ Hts Hnd) as [H1 H2 H3 H4].
    { intros d. apply Hds. }
    split; try done. intros id. destruct (H4 id) as [?|(d & ? & ? & Hch)]; [by left|right].
    exists d. split_and!; [done|done|]. destruct (pods (w_cluster w) !! id), (pods (w_cluster w') !! id); cbn in *; try done.
    + destruct Hch as [?|(? & ? & t' & ? & ?)]; [by left|right]. split_and!; [done|done|].
      exists t'. split; [lia|done].
    + destruct Hch as (t' & ? & ?). exists t'. split; [lia|done].
  - intros d w1 Hw1. eapply wp_mono; [|by apply reconcile_deployment_wp]. cbn. tauto.
Qed.
End Frame.

(** ** Properties *)

Section Properties.
Context `{SliceSort}.

(** C27: A reconciliation pass never touches nodes, services or the pods of a
    cancelled deployment; it never cancels a pod that has started running; the
    pods it creates are pending instances of a deployment that is not cancelled,
    with that deployment's namespace, labels, image, command and request; it
    deletes nothing and moves deployments only along their life cycle.  Holds on
    every store, storage faults included. *)
Theorem reconcileDeployments_frame (fl : bool) (w : World) :
  cluster_wf (w_cluster w) ->
  wp (cp_rel fl) reconcileDeployments
    (fun _ w' => reconcile_frame (w_clock w) (w_clock w') (w_cluster w) (w_cluster w')) w.
Proof. apply frame_lemma. Qed.

(** C6: The replica count converges in one pass: when the store and crypto/rand
    work and generated IDs are new, every deployment that is not cancelled ends
    the pass with exactly the wanted number of active pods, or, when more pods
    than wanted can no longer be cancelled, with those only. *)
Theorem reconcileDeployments_converges (w : World) :
  cluster_wf (w_cluster w) ->
  map_Forall (fun id d => (0 <= Deployment_Replicas d <= max_int64)%Z /\
    (replicas (w_cluster w) id <= max_int64)%Z) (deployments (w_cluster w)) ->
  wp cp_fresh reconcileDeployments (fun _ w' =>
    forall id d, deployments (w_cluster w) !! id = Some d ->
      Deployment_Status d <> DeploymentCancelled ->
      replicas (w_cluster w') id =
        Z.max (Deployment_Replicas d) (replicas (w_cluster w) id - movable (w_cluster w) id)) w.
Proof.
  intros Hwf Hb. unfold reconcileDeployments.
  intros [ds e] w1 [(t & c' & Ht & [[Hl ->]|(? & _)] & ->) _]; [|done].
  pose proof Hl as [He _]. cbn in He. subst e. cbn [prog_bind].
  destruct (listed_deployments _ _ _ Hwf Hl) as [Hnd Hds].
  eapply wp_mono; [|apply (turns_wp _ settles); [|exact Hwf]].
  - cbn. intros [] w' [Hcl Hts] id d Hd Hst.
    pose proof (wf_deployments _ Hwf _ _ Hd) as Hid. cbn in Hid. subst id.
    destruct (Hb _ _ Hd). eapply turns_settle; try done; [intros; by apply Hds|by apply Hds].
  - intros d w1 Hw1. eapply wp_mono; [|apply wp_conj].
    2:{ by apply wp_fresh, (reconcile_deployment_wp false). }
    2:{ by apply reconcile_deployment_settles. }
    cbn. tauto.
Qed.

(** A pod that an agent reported FAILED is left as it is by a whole
    reconciler tick: no retry is scheduled for it, and since a failed pod counts
    as active it keeps occupying its replica slot. *)
Theorem Tick_keeps_failed_pods (conv : Z -> Z) (heartbeatTimeout : Duration) (w : World) :
  cluster_wf (w_cluster w) ->
  wp (cp_rel false) (Reconciler.Tick conv heartbeatTimeout) (fun _ w' =>
    forall id p, pods (w_cluster w) !! id = Some p -> Pod_Status p = PodFailed ->
      pods (w_cluster w') !! id = Some p) w.
Proof.
  intros Hwf. unfold Reconciler.Tick.
  eapply wp_seq; [exact (wp_conj _ _ _ _ _ (frame_lemma false w Hwf) (wp_cluster_wf false _ w Hwf))|].
  cbv beta. intros [] w1 [Hf [Hwf1 _]].
  eapply wp_seq; [by apply detectUnhealthyNodes_wp|].
  cbn. intros [] w2 (now & _ & _ & _ & _ & Hrec & _) [] w3 ->. cbn. intros id p Hp Hst.
  assert (Hp1 : pods (w_cluster w1) !! id = Some p).
  { destruct (rf_pods _ _ _ _ Hf id) as [->|(d & _ & _ & Hch)]; [done|]. rewrite Hp in Hch. cbn in Hch.
    destruct (pods (w_cluster w1) !! id); [|done]. destruct Hch as [->|(_ & Hc & _)]; [done|].
    unfold cancellable in Hc. by rewrite Hst in Hc. }
  specialize (Hrec id). rewrite Hp1 in Hrec. inversion Hrec as [? p2 Hp2 Heq1 Heq2|]; subst.
  destruct (decide _); [|by subst]. destruct Hp2 as (t & _ & ->). unfold recovered. by rewrite Hst.
Qed.
End Properties.

Lemma reconcileDeployments_frame_witness :
  exists w', machine_abs (test_oracle 1000) (run (cp_handle (test_oracle 1000)) reconcileDeployments demo_machine).2 w' /\
    reconcile_frame 1000 (w_clock w') demo_cluster (w_cluster w').
Proof.
  apply (cp_sound (test_oracle 1000) reconcileDeployments
    (fun _ w' => reconcile_frame 1000 (w_clock w') demo_cluster (w_cluster w')) demo_machine demo_world
    demo_machine_abs).
  apply (reconcileDeployments_frame false demo_world). exact demo_wf.
Defined.

(** The demo cluster without its pods: two replicas are missing. *)
Definition bare_cluster : Cluster := with_pods ∅ demo_cluster.
Definition bare_world : World := mkWorld bare_cluster 1000 [] zeroStats.

Lemma reconcileDeployments_converges_witness :
  wp cp_fresh reconcileDeployments (fun _ w' =>
    forall id d, deployments bare_cluster !! id = Some d ->
      Deployment_Status d <> DeploymentCancelled ->
      replicas (w_cluster w') id =
        Z.max (Deployment_Replicas d) (replicas bare_cluster id - movable bare_cluster id)) bare_world.
Proof.
  apply (reconcileDeployments_converges bare_world).
  - apply (bool_decide_unpack _). vm_compute. exact I.
  - apply map_Forall_singleton. vm_compute. split; [split|]; intros [=].
Defined.

Example bare_reconciled :
  let m := (run (cp_handle (test_oracle 1000)) reconcileDeployments
    (mkMachine (MemoryStore.mkMemoryStore (deployments bare_cluster) ∅ (nodes bare_cluster) ∅) 0 [] zeroStats)).2 in
  (fun p => (Pod_Status p, Pod_DeploymentID p)) <$> MemoryStore.m_pods (mc_store m)
  = {[ "pod_00000002" := (PodPending, "deploy_1"); "pod_00000006" := (PodPending, "deploy_1") ]}.
Proof. vm_compute. reflexivity. Qed.

Lemma Tick_keeps_failed_pods_witness :
  wp (cp_rel false) (Reconciler.Tick (fun _ => 0%Z) (30 * Second)) (fun _ w' =>
    forall id p, pods demo_cluster !! id = Some p -> Pod_Status p = PodFailed ->
      pods (w_cluster w') !! id = Some p) demo_world.
Proof. apply (Tick_keeps_failed_pods _ _ demo_world). exact demo_wf. Defined.
