(* ===== verification/Api.v ===== *)
(** * control-plane/internal/api: the HTTP handlers

    One program per handler of handlers_deployment.go, handlers_node.go,
    handlers_proxy.go, handlers_scheduler.go and service_resolve.go.  A handler
    takes the decoded parts of the request it reads (path values, query values,
    the JSON body, [None] when decoding fails) and returns the status code, the
    [Location] header it sets and the value it encodes as the body. *)

From S2P Require Import Prelude Model Store Runtime Fixtures Scheduler.
From Stdlib Require Import ZArith Lia Ascii.
From stdpp Require Import base gmap strings list.
Local Open Scope go_scope.

(** ** Responses *)

Inductive Body :=
| BError (msg : string)                          (* writeJSONError with a literal *)
| BStoreError (e : Err)                          (* writeJSONError(w, _, err.Error()) *)
| BDeployment (d : option Deployment)            (* a nil pointer encodes as null *)
| BDeployments (ds : list Deployment) (total : nat)
| BPodList (ps : list Pod) (total : nat)
| BPodField (p : option Pod)                     (* {"pod": ...} *)
| BPod (p : option Pod)
| BNode (n : option Node)
| BNodes (ns : list Node) (total : nat)
| BService (s : option Service)
| BServices (ss : list Service) (total : option nat)
| BBackends (bs : list BackendSpec) (total : option nat)
| BQueue (ps : list Pod) (depth : nat)
| BStats (s : Stats)
| BStatus (s : string)                           (* {"status": ...} *)
| BEmpty.

Record Response := mkResponse { r_status : Z; r_location : option string; r_body : Body }.

Definition writeJSON (status : Z) (b : Body) : Response := mkResponse status None b.
Definition writeJSONError (status : Z) (msg : string) : Response := writeJSON status (BError msg).
Definition writeStoreError (status : Z) (e : Err) : Response := writeJSON status (BStoreError e).

(** [v, _ := f()]: the pointer of a failed lookup is nil. *)
Definition value_or_nil {A} (r : A + Err) : option A :=
  match r with inl x => Some x | inr _ => None end.

(** ** handlers.go *)

(** [strings.Cut(v, "=")] *)
Fixpoint cut_eq (v : string) : string * string * bool :=
  match v with
  | EmptyString => (EmptyString, EmptyString, false)
  | String ch rest =>
      if Ascii.eqb ch "="%char then (EmptyString, rest, true)
      else let '(k, val, ok) := cut_eq rest in (String ch k, val, ok)
  end.

Fixpoint parse_labels_into (vals : list string) (labels : gmap string string) : gmap string string :=
  match vals with
  | [] => labels
  | v :: vals =>
      let '(k, val, ok) := cut_eq v in
      parse_labels_into vals (if ok then <[k := val]> labels else labels)
  end.

Definition parseLabels (vals : list string) : gmap string string := parse_labels_into vals ∅.

(** The loop [for attempt := 0; attempt < maxIDAttempts; attempt++]: generate an
    ID, try to create the entity, stop at the first success.  [None]: crypto/rand
    failed; [Some ""]: no attempt succeeded. *)
Fixpoint allocate (attempts : nat) (prefix : string) (create : string -> Time -> StoreOp error)
    : prog CpE (option string) :=
  match attempts with
  | O => Ret (Some EmptyString)
  | S attempts =>
      genID ← generateID prefix;
      match genID with
      | None => Ret None
      | Some genID =>
          now ← time_now;
          err ← store (create genID now);
          match err with
          | None => Ret (Some genID)
          | Some _ => allocate attempts prefix create
          end
      end
  end.

Definition maxIDAttempts : nat := 5.

(** ** handlers_deployment.go *)

Record submitDeploymentRequest := mkSubmit {
  sub_Name : string; sub_Namespace : string; sub_Labels : gmap string string;
  sub_Type : DeploymentType; sub_Image : string; sub_Command : string; sub_Args : list string;
  sub_Replicas : Z; sub_MaxRetries : Z; sub_RestartPolicy : RestartPolicy;
  sub_Resources : ResourceRequest }.

(** [if s == "" { s = d }] *)
Definition or_default (s d : string) : string := if String.eqb s EmptyString then d else s.

(** The deployment a request asks for, with the defaults filled in. *)
Definition requested_deployment (req : submitDeploymentRequest) (id : string) (now : Time) : Deployment :=
  mkDeployment id (sub_Name req) (or_default (sub_Namespace req) "default") (sub_Labels req)
    (or_default (sub_Type req) DeploymentBatch) (sub_Image req) (sub_Command req) (sub_Args req)
    (if (sub_Replicas req <=? 0)%Z then 1 else sub_Replicas req) (sub_MaxRetries req)
    (or_default (sub_RestartPolicy req) RestartOnFailure) (sub_Resources req)
    DeploymentPending now now.

Definition CreateDeployment (body : option submitDeploymentRequest) : prog CpE Response :=
  match body with
  | None => Ret (writeJSONError StatusBadRequest "invalid JSON body")
  | Some req =>
      if String.eqb (sub_Name req) EmptyString
         || (String.eqb (sub_Command req) EmptyString && String.eqb (sub_Image req) EmptyString) then
        Ret (writeJSONError StatusBadRequest "name and either command or image are required")
      else
        id ← allocate maxIDAttempts "deploy"
               (fun id now => OpCreateDeployment (requested_deployment req id now));
        match id with
        | None => Ret (writeJSONError StatusInternalServerError "failed to generate deployment id")
        | Some id =>
            if String.eqb id EmptyString then
              Ret (writeJSONError StatusInternalServerError "failed to allocate a unique deployment id")
            else
              _ ← metric DeploymentsTotal;
              d ← store (OpGetDeployment id);
              match d with
              | inr _ => Ret (writeJSONError StatusInternalServerError "deployment vanished after creation")
              | inl d => Ret (mkResponse StatusCreated (Some ("/api/v1/deployments/" +:+ id))
                                (BDeployment (Some d)))
              end
        end
  end.

Definition ListDeployments (ns : string) : prog CpE Response :=
  '(ds, err) ← (if negb (String.eqb ns EmptyString) then store (OpListDeploymentsByNamespace ns)
                else store OpListDeployments);
  match err with
  | Some e => Ret (writeStoreError StatusInternalServerError e)
  | None => Ret (writeJSON StatusOK (BDeployments ds (length ds)))
  end.

Definition GetDeployment (id : string) : prog CpE Response :=
  d ← store (OpGetDeployment id);
  match d with
  | inr _ => Ret (writeJSONError StatusNotFound "deployment not found")
  | inl d => Ret (writeJSON StatusOK (BDeployment (Some d)))
  end.

Definition CancelDeployment (id : string) : prog CpE Response :=
  d ← store (OpGetDeployment id);
  match d with
  | inr _ => Ret (writeJSONError StatusNotFound "deployment not found")
  | inl _ =>
      err ← store (OpTransitionDeployment id DeploymentCancelled);
      match err with
      | Some e =>
          if bool_decide (e = ErrInvalidTransition)
          then Ret (writeJSONError StatusConflict "deployment already cancelled")
          else Ret (writeStoreError StatusInternalServerError e)
      | None =>
          d ← store (OpGetDeployment id);
          Ret (writeJSON StatusOK (BDeployment (value_or_nil d)))
      end
  end.

Definition ListDeploymentPods (id : string) : prog CpE Response :=
  d ← store (OpGetDeployment id);
  match d with
  | inr _ => Ret (writeJSONError StatusNotFound "deployment not found")
  | inl _ =>
      '(ps, err) ← store (OpListPodsByDeployment id);
      match err with
      | Some e => Ret (writeStoreError StatusInternalServerError e)
      | None => Ret (writeJSON StatusOK (BPodList ps (length ps)))
      end
  end.

(** ** handlers_node.go *)

Record registerNodeRequest := mkRegister {
  reg_Hostname : string; reg_Address : string; reg_Capacity : ResourceCapacity; reg_MaxConcurrent : Z }.

Definition registered_node (req : registerNodeRequest) (id : string) (now : Time) : Node :=
  mkNode id (reg_Hostname req) (reg_Address req) ∅ NodeRegistering (reg_Capacity req)
    (reg_Capacity req) 0 (reg_MaxConcurrent req) now now.

Definition RegisterNode (body : option registerNodeRequest) : prog CpE Response :=
  match body with
  | None => Ret (writeJSONError StatusBadRequest "invalid JSON body")
  | Some req =>
      if String.eqb (reg_Address req) EmptyString then
        Ret (writeJSONError StatusBadRequest "address is required")
      else
        id ← allocate maxIDAttempts "node" (fun id now => OpRegisterNode (registered_node req id now));
        match id with
        | None => Ret (writeJSONError StatusInternalServerError "failed to generate node id")
        | Some id =>
            if String.eqb id EmptyString then
              Ret (writeJSONError StatusInternalServerError "failed to allocate a unique node id")
            else
              err ← store (OpTransitionNode id NodeHealthy);
              match err with
              | Some _ => Ret (writeJSONError StatusInternalServerError "failed to mark node healthy")
              | None =>
                  n ← store (OpGetNode id);
                  match n with
                  | inr _ => Ret (writeJSONError StatusInternalServerError "node vanished after registration")
                  | inl n => Ret (writeJSON StatusCreated (BNode (Some n)))
                  end
              end
        end
  end.

(** The body is optional and a decoding error is ignored: the request is what
    the decoder left in the zero value. *)
Record nodeHeartbeatRequest := mkHeartbeat { hb_RunningJobs : Z; hb_Available : ResourceCapacity }.

Definition heartbeat_node (req : nodeHeartbeatRequest) (now : Time) (n : Node) : Node :=
  node_set (Node_Status n)
    (if negb (capacity_eqb (hb_Available req) zeroCapacity) then hb_Available req else Node_Available n)
    (hb_RunningJobs req) now n.

Definition Heartbeat (id : string) (req : nodeHeartbeatRequest) : prog CpE Response :=
  n ← store (OpGetNode id);
  match n with
  | inr _ => Ret (writeJSONError StatusNotFound "node not found")
  | inl n =>
      now ← time_now;
      let n := heartbeat_node req now n in
      err ← store (OpUpdateNode n);
      match err with
      | Some e => Ret (writeStoreError StatusInternalServerError e)
      | None =>
          err ← (if bool_decide (Node_Status n = NodeUnhealthy)
                 then store (OpTransitionNode id NodeHealthy) else Ret None);
          match err with
          | Some e => Ret (writeStoreError StatusInternalServerError e)
          | None =>
              _ ← metric WorkerHeartbeats;
              Ret (writeJSON StatusOK (BStatus "ok"))
          end
      end
  end.

(** The first pod of the listing that awaits pickup. *)
Fixpoint first_scheduled (ps : list Pod) : option Pod :=
  match ps with
  | [] => None
  | p :: ps => if bool_decide (Pod_Status p = PodScheduled) then Some p else first_scheduled ps
  end.

Definition PollPods (id : string) : prog CpE Response :=
  n ← store (OpGetNode id);
  match n with
  | inr _ => Ret (writeJSONError StatusNotFound "node not found")
  | inl _ =>
      '(ps, err) ← store (OpListPodsByNode id);
      match err with
      | Some e => Ret (writeStoreError StatusInternalServerError e)
      | None => Ret (writeJSON StatusOK (BPodField (first_scheduled ps)))
      end
  end.

Record podStatusRequest := mkPodStatus {
  ps_Status : PodStatus; ps_ExitCode : option Z; ps_Error : string; ps_Output : string }.

Definition isPodTerminalish (s : PodStatus) : bool :=
  match s with PodSucceeded | PodFailed | PodCancelled => true | _ => false end.

(** [node.Available += resources], clamped at the capacity. *)
Definition give_back (res : ResourceRequest) (n : Node) : Node :=
  let cpu := fadd (Cap_CPU (Node_Available n)) (Req_CPU res) in
  let mem := Cap_MemoryMB (Node_Available n) +64 Req_MemoryMB res in
  let cpu := if flt (Cap_CPU (Node_Capacity n)) cpu then Cap_CPU (Node_Capacity n) else cpu in
  let mem := if (Cap_MemoryMB (Node_Capacity n) <? mem)%Z then Cap_MemoryMB (Node_Capacity n) else mem in
  node_with_usage (mkResourceCapacity cpu mem) (Node_RunningJobs n) n.

(** [if node.RunningJobs > 0 { node.RunningJobs-- }] *)
Definition one_job_less (n : Node) : Node :=
  node_with_usage (Node_Available n)
    (if (0 <? Node_RunningJobs n)%Z then Node_RunningJobs n -64 1 else Node_RunningJobs n) n.

Definition releaseNodeCapacity (nodeID deploymentID : string) : prog CpE unit :=
  n ← store (OpGetNode nodeID);
  match n with
  | inr _ => Ret tt
  | inl n =>
      let n := one_job_less n in
      d ← store (OpGetDeployment deploymentID);
      let n := match d with inl d => give_back (Deployment_Resources d) n | inr _ => n end in
      _ ← store (OpUpdateNode n);
      Ret tt
  end.

Definition UpdatePodStatus (nodeID podID : string) (body : option podStatusRequest) : prog CpE Response :=
  match body with
  | None => Ret (writeJSONError StatusBadRequest "invalid JSON body")
  | Some req =>
      p ← store (OpGetPod podID);
      match p with
      | inr _ => Ret (writeJSONError StatusNotFound "pod not found")
      | inl p =>
          let wasRunning := bool_decide (Pod_Status p = PodRunning) in
          let p := pod_with_result (ps_ExitCode req) (ps_Output req) p in
          err ← store (OpUpdatePod p);
          match err with
          | Some e => Ret (writeStoreError StatusInternalServerError e)
          | None =>
              err ← store (OpTransitionPod podID (ps_Status req) (ps_Error req));
              match err with
              | Some e =>
                  if bool_decide (e = ErrInvalidTransition)
                  then Ret (writeStoreError StatusConflict e)
                  else Ret (writeStoreError StatusInternalServerError e)
              | None =>
                  _ ← (if wasRunning && isPodTerminalish (ps_Status req) then
                         _ ← releaseNodeCapacity nodeID (Pod_DeploymentID p);
                         match ps_Status req with
                         | PodSucceeded => metric JobsSucceeded
                         | PodFailed => metric JobsFailed
                         | _ => Ret tt
                         end
                       else Ret tt);
                  updated ← store (OpGetPod podID);
                  Ret (writeJSON StatusOK (BPod (value_or_nil updated)))
              end
          end
      end
  end.

Definition ListNodes (labelVals : list string) : prog CpE Response :=
  '(ns, err) ← (if (0 <? length labelVals)%nat then store (OpListNodesByLabels (parseLabels labelVals))
                else store OpListNodes);
  match err with
  | Some e => Ret (writeStoreError StatusInternalServerError e)
  | None => Ret (writeJSON StatusOK (BNodes ns (length ns)))
  end.

Definition GetNode (id : string) : prog CpE Response :=
  n ← store (OpGetNode id);
  match n with
  | inr _ => Ret (writeJSONError StatusNotFound "node not found")
  | inl n => Ret (writeJSON StatusOK (BNode (Some n)))
  end.

Definition DrainNode (id : string) : prog CpE Response :=
  n ← store (OpGetNode id);
  match n with
  | inr _ => Ret (writeJSONError StatusNotFound "node not found")
  | inl _ =>
      err ← store (OpTransitionNode id NodeDraining);
      match err with
      | Some e =>
          if bool_decide (e = ErrInvalidTransition)
          then Ret (writeStoreError StatusConflict e)
          else Ret (writeStoreError StatusInternalServerError e)
      | None =>
          n ← store (OpGetNode id);
          Ret (writeJSON StatusOK (BNode (value_or_nil n)))
      end
  end.

(** ** service_resolve.go and handlers_proxy.go *)

(** The loop that keeps the healthy nodes and turns them into backends. *)
Fixpoint healthy_backends (ns : list Node) : list BackendSpec :=
  match ns with
  | [] => []
  | n :: ns =>
      if negb (bool_decide (Node_Status n = NodeHealthy)) then healthy_backends ns
      else mkBackendSpec (Node_ID n) (Node_Address n) 1 :: healthy_backends ns
  end.

Definition resolveServiceBackends (svc : Service) : prog CpE (list BackendSpec + Err) :=
  '(ns, err) ← store (OpListNodesByLabels (Service_Selector svc));
  match err with
  | Some e => Ret (inr e)
  | None => Ret (inl (healthy_backends ns))
  end.

Definition ListServices (ns : string) : prog CpE Response :=
  '(ss, err) ← store OpListServices;
  match err with
  | Some e => Ret (writeStoreError StatusInternalServerError e)
  | None =>
      let ss := if negb (String.eqb ns EmptyString)
                then filter (fun s => Service_Namespace s = ns) ss else ss in
      Ret (writeJSON StatusOK (BServices ss (Some (length ss))))
  end.

(** The service as [CreateService] stores it. *)
Definition service_with_defaults (id : string) (s : Service) : Service :=
  mkService id (Service_Name s) (or_default (Service_Namespace s) "default") (Service_PathPrefix s)
    (or_default (Service_Strategy s) StrategyRoundRobin) (Service_Selector s) (Service_RetryPolicy s)
    (Service_HealthCheck s) (Service_UpdatedAt s).

Definition CreateService (body : option Service) : prog CpE Response :=
  match body with
  | None => Ret (writeJSONError StatusBadRequest "invalid JSON body")
  | Some svc =>
      if String.eqb (Service_PathPrefix svc) EmptyString then
        Ret (writeJSONError StatusBadRequest "path_prefix is required")
      else
        id ← (if String.eqb (Service_ID svc) EmptyString then generateID "svc"
              else Ret (Some (Service_ID svc)));
        match id with
        | None => Ret (writeJSONError StatusInternalServerError "failed to generate service id")
        | Some id =>
            err ← store (OpUpsertService (service_with_defaults id svc));
            match err with
            | Some e => Ret (writeStoreError StatusInternalServerError e)
            | None =>
                created ← store (OpGetService id);
                Ret (mkResponse StatusCreated (Some ("/api/v1/services/" +:+ id))
                       (BService (value_or_nil created)))
            end
        end
  end.

Definition GetService (id : string) : prog CpE Response :=
  s ← store (OpGetService id);
  match s with
  | inr _ => Ret (writeJSONError StatusNotFound "service not found")
  | inl s => Ret (writeJSON StatusOK (BService (Some s)))
  end.

(** [svc.ID = id] *)
Definition service_with_id (id : string) (s : Service) : Service :=
  mkService id (Service_Name s) (Service_Namespace s) (Service_PathPrefix s) (Service_Strategy s)
    (Service_Selector s) (Service_RetryPolicy s) (Service_HealthCheck s) (Service_UpdatedAt s).

Definition UpdateService (id : string) (body : option Service) : prog CpE Response :=
  s ← store (OpGetService id);
  match s with
  | inr _ => Ret (writeJSONError StatusNotFound "service not found")
  | inl _ =>
      match body with
      | None => Ret (writeJSONError StatusBadRequest "invalid JSON body")
      | Some svc =>
          err ← store (OpUpsertService (service_with_id id svc));
          match err with
          | Some e => Ret (writeStoreError StatusInternalServerError e)
          | None =>
              updated ← store (OpGetService id);
              Ret (writeJSON StatusOK (BService (value_or_nil updated)))
          end
      end
  end.

Definition DeleteService (id : string) : prog CpE Response :=
  err ← store (OpDeleteService id);
  match err with
  | Some e =>
      if bool_decide (e = ErrNotFound) then Ret (writeJSONError StatusNotFound "service not found")
      else Ret (writeStoreError StatusInternalServerError e)
  | None => Ret (mkResponse StatusNoContent None BEmpty)
  end.

Definition GetServiceBackends (id : string) : prog CpE Response :=
  s ← store (OpGetService id);
  match s with
  | inr _ => Ret (writeJSONError StatusNotFound "service not found")
  | inl svc =>
      bs ← resolveServiceBackends svc;
      match bs with
      | inr e => Ret (writeStoreError StatusInternalServerError e)
      | inl bs => Ret (writeJSON StatusOK (BBackends bs (Some (length bs))))
      end
  end.

Definition ProxyConfig : prog CpE Response :=
  '(ss, err) ← store OpListServices;
  match err with
  | Some e => Ret (writeStoreError StatusInternalServerError e)
  | None => Ret (writeJSON StatusOK (BServices ss None))
  end.

Definition ProxyBackends (svcID : string) : prog CpE Response :=
  if negb (String.eqb svcID EmptyString) then
    s ← store (OpGetService svcID);
    match s with
    | inr _ => Ret (writeJSONError StatusNotFound "service not found")
    | inl svc =>
        bs ← resolveServiceBackends svc;
        match bs with
        | inr e => Ret (writeStoreError StatusInternalServerError e)
        | inl bs => Ret (writeJSON StatusOK (BBackends bs None))
        end
    end
  else
    '(ns, err) ← store OpListNodes;
    match err with
    | Some e => Ret (writeStoreError StatusInternalServerError e)
    | None => Ret (writeJSON StatusOK (BBackends (healthy_backends ns) None))
    end.

(** ** handlers_scheduler.go ([running]: the handlers were given a scheduler) *)

Definition SchedulerQueue : prog CpE Response :=
  '(pending, err) ← store (OpListPodsByStatus PodPending);
  match err with
  | Some e => Ret (writeStoreError StatusInternalServerError e)
  | None => Ret (writeJSON StatusOK (BQueue pending (length pending)))
  end.

Definition SchedulerStats (running : bool) : prog CpE Response :=
  if negb running then Ret (writeJSONError StatusServiceUnavailable "scheduler not running")
  else s ← call EGetStats; Ret (writeJSON StatusOK (BStats s)).

Definition SchedulerRebalance `{SliceSort} (running : bool) : prog CpE Response :=
  if negb running then Ret (writeJSONError StatusServiceUnavailable "scheduler not running")
  else
    _ ← Scheduler.Tick;
    s ← call EGetStats;
    Ret (writeJSON StatusAccepted (BStats s)).

(** ** routes.go *)

Definition Healthz : Response := writeJSON StatusOK (BStatus "ok").
Definition Readyz : Response := writeJSON StatusOK (BStatus "ready").

(** The requests the router dispatches, each with what its handler reads of it. *)
Inductive Request :=
| RCreateDeployment (body : option submitDeploymentRequest)
| RListDeployments (ns : string) | RGetDeployment (id : string)
| RCancelDeployment (id : string) | RListDeploymentPods (id : string)
| RRegisterNode (body : option registerNodeRequest)
| RHeartbeat (id : string) (req : nodeHeartbeatRequest)
| RPollPods (id : string) | RUpdatePodStatus (id pod_id : string) (body : option podStatusRequest)
| RListNodes (labels : list string) | RGetNode (id : string) | RDrainNode (id : string)
| RSchedulerQueue | RSchedulerStats | RSchedulerRebalance
| RListServices (ns : string) | RCreateService (body : option Service)
| RGetService (id : string) | RUpdateService (id : string) (body : option Service)
| RDeleteService (id : string) | RGetServiceBackends (id : string)
| RProxyConfig | RProxyBackends (svcID : string) | RHealthz | RReadyz.

Definition NewRouter `{SliceSort} (running : bool) (r : Request) : prog CpE Response :=
  match r with
  | RCreateDeployment b => CreateDeployment b
  | RListDeployments ns => ListDeployments ns
  | RGetDeployment id => GetDeployment id
  | RCancelDeployment id => CancelDeployment id
  | RListDeploymentPods id => ListDeploymentPods id
  | RRegisterNode b => RegisterNode b
  | RHeartbeat id req => Heartbeat id req
  | RPollPods id => PollPods id
  | RUpdatePodStatus id pid b => UpdatePodStatus id pid b
  | RListNodes ls => ListNodes ls
  | RGetNode id => GetNode id
  | RDrainNode id => DrainNode id
  | RSchedulerQueue => SchedulerQueue
  | RSchedulerStats => SchedulerStats running
  | RSchedulerRebalance => SchedulerRebalance running
  | RListServices ns => ListServices ns
  | RCreateService b => CreateService b
  | RGetService id => GetService id
  | RUpdateService id b => UpdateService id b
  | RDeleteService id => DeleteService id
  | RGetServiceBackends id => GetServiceBackends id
  | RProxyConfig => ProxyConfig
  | RProxyBackends id => ProxyBackends id
  | RHealthz => Ret Healthz
  | RReadyz => Ret Readyz
  end.
