(* ===== verification/ApiProperties.v ===== *)
(** * What the HTTP handlers do to the cluster and what they answer

    Functional specifications of the state-changing handlers on a reliable
    store, and of the lookups the reverse proxy and the agents rely on. *)

From S2P Require Import Prelude Model Store Runtime Fixtures Scheduler Api.
From Stdlib Require Import ZArith Lia Ascii.
From stdpp Require Import base gmap strings list.
Local Open Scope go_scope.

(** ** Allocation of identifiers *)

(** [create id now] stores a new entity under [id] or fails and changes
    nothing. *)
Definition creates (create : string -> Time -> StoreOp error)
    (ok : string -> Time -> Cluster -> Cluster -> Prop) : Prop :=
  forall fl id now t c r c', op_post fl (create id now) t c r c' ->
    match r with None => ok id now c c' | Some _ => c' = c end.

Lemma allocate_wp fl create ok n prefix w (Q : option string -> World -> Prop) :
  creates create ok ->
  (forall r w', r = None \/ r = Some EmptyString -> (w_clock w <= w_clock w')%Z ->
     w_cluster w' = w_cluster w -> Q r w') ->
  (forall id now w', id <> EmptyString -> (w_clock w <= now <= w_clock w')%Z ->
     ok id now (w_cluster w) (w_cluster w') -> Q (Some id) w') ->
  wp (cp_rel fl) (allocate n prefix create) Q w.
Proof.
  intros Hcr Hno Hyes.
  cut (forall w1, (w_clock w <= w_clock w1)%Z -> w_cluster w1 = w_cluster w ->
    wp (cp_rel fl) (allocate n prefix create) Q w1).
  { intros H. apply H; [lia|done]. }
  induction n as [|n IH]; intros w1 Hcl Hc; cbn [allocate].
  { apply Hno; [by right|done|done]. }
  apply wp_bind. apply wp_rand. intros r _. destruct r as [bs|]; cbn [wp].
  2:{ apply Hno; [by left|done|done]. }
  apply wp_now. intros now Hnow. apply wp_store. intros t r c' Ht Hop. cbn in Ht, Hop.
  apply Hcr in Hop. destruct r as [e|].
  - subst c'. apply IH; cbn; [lia|done].
  - apply (Hyes _ now); [by destruct prefix|cbn; lia|]. by rewrite <- Hc.
Qed.

Lemma create_deployment_creates req :
  creates (fun id now => OpCreateDeployment (requested_deployment req id now))
    (fun id now c c' => deployments c !! id = None /\
       c' = with_deployments (<[id := requested_deployment req id now]> (deployments c)) c).
Proof.
  intros fl id now t c r c' [(m & Hm & ->)|(_ & -> & ->)]; [|done].
  unfold create_post in Hm. cbn in Hm.
  destruct (deployments c !! id) eqn:E; destruct Hm as [-> ->]; [apply with_deployments_id|done].
Qed.

Lemma register_node_creates req :
  creates (fun id now => OpRegisterNode (registered_node req id now))
    (fun id now c c' => nodes c !! id = None /\
       c' = with_nodes (<[id := registered_node req id now]> (nodes c)) c).
Proof.
  intros fl id now t c r c' [(m & Hm & ->)|(_ & -> & ->)]; [|done].
  unfold create_post in Hm. cbn in Hm.
  destruct (nodes c !! id) eqn:E; destruct Hm as [-> ->]; [apply with_nodes_id|done].
Qed.

(** ** Deployments *)

Definition valid_submission (req : submitDeploymentRequest) : bool :=
  negb (String.eqb (sub_Name req) EmptyString)
  && (negb (String.eqb (sub_Command req) EmptyString) || negb (String.eqb (sub_Image req) EmptyString)).

(** What submitting a deployment does. *)
(** The deployment a request asks for, with the documented defaults. *)
Record completes (req : submitDeploymentRequest) (id : string) (now : Time) (d : Deployment) : Prop := {
  cd_id : Deployment_ID d = id;
  cd_name : Deployment_Name d = sub_Name req;
  cd_namespace : Deployment_Namespace d = sub_Namespace req \/
    sub_Namespace req = EmptyString /\ Deployment_Namespace d = "default";
  cd_type : Deployment_Type d = sub_Type req \/ sub_Type req = EmptyString /\ Deployment_Type d = "batch";
  cd_restart : Deployment_RestartPolicy d = sub_RestartPolicy req \/
    sub_RestartPolicy req = EmptyString /\ Deployment_RestartPolicy d = "on_failure";
  cd_replicas : Deployment_Replicas d = Z.max 1 (sub_Replicas req);
  cd_template : Deployment_Labels d = sub_Labels req /\ Deployment_Image d = sub_Image req /\
    Deployment_Command d = sub_Command req /\ Deployment_Args d = sub_Args req /\
    Deployment_Resources d = sub_Resources req /\ Deployment_MaxRetries d = sub_MaxRetries req;
  cd_status : Deployment_Status d = DeploymentPending;
  cd_times : Deployment_CreatedAt d = now /\ Deployment_UpdatedAt d = now }.

Lemma or_default_cases s d : or_default s d = s \/ s = EmptyString /\ or_default s d = d.
Proof. unfold or_default. destruct (String.eqb_spec s EmptyString) as [->|]; auto. Qed.

Lemma requested_completes req id now : completes req id now (requested_deployment req id now).
Proof.
  split; cbn; try done.
  1-3: apply or_default_cases.
  destruct (Z.leb_spec (sub_Replicas req) 0); lia.
Qed.

Inductive submitted (req : submitDeploymentRequest) (lo hi : Time) (c : Cluster)
  : Response -> Cluster -> Prop :=
| submitted_invalid msg : valid_submission req = false ->
    submitted req lo hi c (writeJSONError StatusBadRequest msg) c
| submitted_no_id msg : valid_submission req = true ->
    submitted req lo hi c (writeJSONError StatusInternalServerError msg) c
| submitted_ok id now d : valid_submission req = true -> (lo <= now <= hi)%Z ->
    deployments c !! id = None -> id <> EmptyString -> completes req id now d ->
    submitted req lo hi c
      (mkResponse StatusCreated (Some ("/api/v1/deployments/" +:+ id))
         (BDeployment (Some d)))
      (with_deployments (<[id := d]> (deployments c)) c).

(** Submitting a deployment is validated, completed with the documented
    defaults and stored once: a request without a name, or with neither command
    nor image, is refused and changes nothing; otherwise the answer is 201 with
    the stored deployment, which is PENDING under a new ID and wants at least one
    replica, or 500 and nothing changed when no free ID was found. *)
Theorem CreateDeployment_correct (req : submitDeploymentRequest) (w : World) :
  wp (cp_rel false) (CreateDeployment (Some req)) (fun r w' =>
    submitted req (w_clock w) (w_clock w') (w_cluster w) r (w_cluster w')) w.
Proof.
  unfold CreateDeployment.
  assert (Hv : valid_submission req = negb (String.eqb (sub_Name req) EmptyString
    || (String.eqb (sub_Command req) EmptyString && String.eqb (sub_Image req) EmptyString))).
  { unfold valid_submission. by rewrite negb_orb, negb_andb. }
  destruct (String.eqb (sub_Name req) EmptyString || _) eqn:E; cbn in Hv.
  { by apply submitted_invalid. }
  rewrite wp_bind. eapply allocate_wp; [apply create_deployment_creates| |].
  - intros r w' [->| ->] _ Hc; cbn; rewrite Hc; by apply submitted_no_id.
  - intros id now w' Hid Hnow [Hfree Hc].
    rewrite (proj2 (String.eqb_neq _ _) Hid). apply wp_metric. apply wp_get_deployment.
    intros t Ht. cbn in *. rewrite Hc. cbn. rewrite lookup_insert_eq.
    eapply submitted_ok; cbn; [done|split; [apply Hnow|lia]|done|done|apply requested_completes].
Qed.

(** The demo request asks for zero replicas and leaves the defaults open. *)
Definition demo_submission : submitDeploymentRequest :=
  mkSubmit "train" "" ∅ "" "" "sleep" ["1"] 0 3 "" zeroRequest.

Example demo_submitted :
  r_status (run (cp_handle (test_oracle 1000)) (CreateDeployment (Some demo_submission)) demo_machine).1
  = StatusCreated.
Proof. vm_compute. reflexivity. Qed.

(** Cancelling a deployment succeeds exactly when it exists and is not
    cancelled yet, and changes nothing but its status; cancelling twice is
    answered with 409, an unknown deployment with 404. *)
Theorem CancelDeployment_correct (id : string) (w : World) :
  (forall d, deployments (w_cluster w) !! id = Some d -> forall x, Deployment_Status d <> DeploymentStatusOther x) ->
  wp (cp_rel false) (CancelDeployment id) (fun r w' =>
    match deployments (w_cluster w) !! id with
    | None => r_status r = StatusNotFound /\ w_cluster w' = w_cluster w
    | Some d =>
        if bool_decide (Deployment_Status d = DeploymentCancelled)
        then r_status r = StatusConflict /\ w_cluster w' = w_cluster w
        else exists t, (w_clock w <= t <= w_clock w')%Z /\
          r = writeJSON StatusOK (BDeployment (Some (deployment_with_status DeploymentCancelled t d))) /\
          w_cluster w' = with_deployments
            (<[id := deployment_with_status DeploymentCancelled t d]> (deployments (w_cluster w))) (w_cluster w)
    end) w.
Proof.
  intros Hst. unfold CancelDeployment. apply wp_get_deployment. intros t0 Ht0.
  destruct (deployments (w_cluster w) !! id) as [d|] eqn:Hd; [|done].
  apply wp_store. intros t r c' Ht [(m & Hm & ->)|(? & _)]; [|done]. cbn in Hm.
  unfold transition_post in Hm. rewrite Hd in Hm. specialize (Hst d eq_refl).
  destruct (bool_decide (Deployment_Status d = DeploymentCancelled)) eqn:Hc.
  - apply bool_decide_eq_true in Hc. rewrite Hc in Hm. destruct Hm as [-> ->]. cbn.
    by rewrite with_deployments_id.
  - apply bool_decide_eq_false in Hc.
    assert (Hl : TransitionDeployment (Deployment_Status d) DeploymentCancelled = true)
      by (destruct (Deployment_Status d); try done; by destruct (Hst s)).
    rewrite Hl in Hm. destruct Hm as [-> ->]. apply wp_get_deployment. intros t2 Ht2. cbn in *.
    rewrite lookup_insert_eq. exists t. split; [lia|done].
Qed.

Lemma CancelDeployment_correct_witness :
  wp (cp_rel false) (CancelDeployment "deploy_1") (fun r w' => r_status r = StatusOK) demo_world.
Proof.
  eapply wp_mono; [|apply (CancelDeployment_correct "deploy_1" demo_world)].
  - intros r w' H. cbv beta in H.
    assert (Hd : deployments (w_cluster demo_world) !! "deploy_1" = Some demo_deployment) by reflexivity.
    rewrite Hd in H. destruct H as (t & _ & -> & _). reflexivity.
  - intros d Hd x. assert (Hd' : deployments (w_cluster demo_world) !! "deploy_1" = Some demo_deployment) by reflexivity.
    assert (d = demo_deployment) as -> by congruence. discriminate.
Defined.

(** ** Nodes *)

(** Registering a node stores it once, healthy, idle, unlabelled, with all
    its capacity available and its heartbeat and registration times equal; a
    request without an address, and a failure to find a free ID, change
    nothing. *)
Theorem RegisterNode_correct (req : registerNodeRequest) (w : World) :
  wp (cp_rel false) (RegisterNode (Some req)) (fun r w' =>
    (r_status r = StatusCreated /\
     exists id now, (w_clock w <= now <= w_clock w')%Z /\ nodes (w_cluster w) !! id = None /\
       let n := mkNode id (reg_Hostname req) (reg_Address req) ∅ NodeHealthy (reg_Capacity req)
                  (reg_Capacity req) 0 (reg_MaxConcurrent req) now now in
       r_body r = BNode (Some n) /\
       w_cluster w' = with_nodes (<[id := n]> (nodes (w_cluster w))) (w_cluster w)) \/
    (r_status r = (if String.eqb (reg_Address req) EmptyString then StatusBadRequest
                   else StatusInternalServerError) /\ w_cluster w' = w_cluster w)) w.
Proof.
  unfold RegisterNode. destruct (String.eqb (reg_Address req) EmptyString) eqn:Ea; [by right|].
  rewrite wp_bind. eapply allocate_wp; [apply register_node_creates| |].
  - intros r w' [->| ->] _ Hc; cbn; rewrite Hc; by right.
  - intros id now w' Hid Hnow [Hfree Hc]. rewrite (proj2 (String.eqb_neq _ _) Hid).
    eapply wp_transition_node; [rewrite Hc; apply lookup_insert_eq|done|]. intros t Ht.
    apply wp_get_node. intros t' Ht'. cbn [with_cluster w_cluster nodes with_nodes].
    rewrite lookup_insert_eq. cbn. left. split; [done|]. exists id, now. cbn in *.
    split_and!; [lia|lia|done|done|].
    rewrite Hc. cbn. by rewrite insert_insert_eq.
Qed.

(** The status a node has after a heartbeat. *)
Definition revived (st : NodeStatus) : NodeStatus :=
  match st with NodeUnhealthy => NodeHealthy | _ => st end.

(** A heartbeat refreshes the sender's heartbeat time, job count and, when
    reported, free capacity, and revives it if it was unhealthy; it never brings
    back a draining or removed node, and touches nothing else. *)
Theorem Heartbeat_correct (id : string) (req : nodeHeartbeatRequest) (w : World) :
  cluster_wf (w_cluster w) ->
  wp (cp_rel false) (Heartbeat id req) (fun r w' =>
    match nodes (w_cluster w) !! id with
    | None => r_status r = StatusNotFound /\ w_cluster w' = w_cluster w
    | Some n => r_status r = StatusOK /\
        exists now n', (w_clock w <= now <= w_clock w')%Z /\
          w_cluster w' = with_nodes (<[id := n']> (nodes (w_cluster w))) (w_cluster w) /\
          node_template n' = node_template n /\ Node_Status n' = revived (Node_Status n) /\
          Node_LastHeartbeatAt n' = now /\ Node_RunningJobs n' = hb_RunningJobs req /\
          Node_Available n' = (if capacity_eqb (hb_Available req) zeroCapacity
                               then Node_Available n else hb_Available req)
    end) w.
Proof.
  intros Hwf. unfold Heartbeat. apply wp_get_node. intros t0 Ht0.
  destruct (nodes (w_cluster w) !! id) as [n|] eqn:Hn; [|done].
  pose proof (wf_nodes _ Hwf _ _ Hn) as Hid. cbn in Hid.
  apply wp_now. intros now Hnow. eapply wp_update_node; [cbn; rewrite Hid; exact Hn|]. intros t Ht. cbn in *.
  case_bool_decide as Hu.
  - eapply wp_transition_node; [cbn; rewrite Hid; apply lookup_insert_eq|cbn; by rewrite Hu|].
    intros t2 Ht2. apply wp_metric. split; [done|]. exists now. eexists. cbn in *. split; [lia|].
    split; [by rewrite Hid, insert_insert_eq|]. cbn. rewrite Hu, if_negb. done.
  - apply wp_metric. split; [done|]. exists now. eexists. cbn in *. split; [lia|].
    split; [by rewrite Hid|]. cbn. rewrite if_negb. split_and!; try done. by destruct (Node_Status n).
Qed.

Lemma Heartbeat_correct_witness :
  wp (cp_rel false) (Heartbeat "node_2" (mkHeartbeat 0 zeroCapacity)) (fun r w' =>
    r_status r = StatusOK /\ Node_Status <$> (nodes (w_cluster w') !! "node_2") = Some NodeDraining) demo_world.
Proof.
  eapply wp_mono; [|apply (Heartbeat_correct "node_2" (mkHeartbeat 0 zeroCapacity) demo_world); exact demo_wf].
  intros r w' H. cbv beta in H.
  assert (Hn : nodes (w_cluster demo_world) !! "node_2" = Some (demo_node "node_2" NodeDraining 0 300)) by reflexivity.
  rewrite Hn in H. destruct H as (Hr & now & n' & _ & Hc & _ & Hst & _). split; [exact Hr|].
  rewrite Hc. cbn [nodes with_nodes]. rewrite lookup_insert_eq. cbn. by rewrite Hst.
Defined.

(** The agents' poll returns a pod that is scheduled on the polling node
    and awaits pickup, and reports none only when there is none. *)
Theorem PollPods_correct (id : string) (w : World) :
  is_Some (nodes (w_cluster w) !! id) ->
  wp (cp_rel false) (PollPods id) (fun r w' =>
    w_cluster w' = w_cluster w /\ r_status r = StatusOK /\
    exists o, r_body r = BPodField o /\
      match o with
      | Some p => (exists k, pods (w_cluster w) !! k = Some p) /\ Pod_NodeID p = id /\ Pod_Status p = PodScheduled
      | None => forall k p, pods (w_cluster w) !! k = Some p -> Pod_NodeID p = id -> Pod_Status p <> PodScheduled
      end) w.
Proof.
  intros [n Hn]. unfold PollPods. apply wp_get_node. intros t Ht. rewrite Hn.
  apply wp_store. intros t' [ps e] c' Ht' [[Hl ->]|(? & _)]; [|done].
  pose proof Hl as [He _]. cbn in He. subst e. cbn. split; [done|]. split; [done|].
  exists (first_scheduled ps). split; [done|].
  assert (Hel := fun p => list_post_elem _ _ _ _ p Hl). cbn in Hel.
  setoid_rewrite bool_decide_eq_true in Hel.
  assert (Hfs : match first_scheduled ps with
    | Some p => p ∈ ps /\ Pod_Status p = PodScheduled
    | None => forall p, p ∈ ps -> Pod_Status p <> PodScheduled end).
  { clear. induction ps as [|p ps IH]; cbn; [set_solver|]. case_bool_decide; [set_solver|].
    destruct (first_scheduled ps); set_solver. }
  destruct (first_scheduled ps) as [p|].
  - destruct Hfs as [Hin Hs]. apply Hel in Hin as [? ?]. done.
  - intros k p Hk Hnid. apply Hfs, Hel. eauto.
Qed.

Lemma PollPods_correct_witness :
  wp (cp_rel false) (PollPods "node_1") (fun r w' => r_status r = StatusOK) demo_world.
Proof.
  eapply wp_mono; [|apply (PollPods_correct "node_1" demo_world); vm_compute; eauto].
  intros r w' (_ & H & _). exact H.
Defined.

(** ** Reports of the agents *)

(** The node as [releaseNodeCapacity] leaves it. *)
Definition freed (c : Cluster) (deploymentID : string) (n : Node) : Node :=
  match deployments c !! deploymentID with
  | Some d => give_back (Deployment_Resources d) (one_job_less n)
  | None => one_job_less n
  end.

Definition release (nodeID deploymentID : string) (c : Cluster) : Cluster :=
  match nodes c !! nodeID with
  | Some n => with_nodes (<[nodeID := freed c deploymentID n]> (nodes c)) c
  | None => c
  end.

(** The cluster and the answer after an agent's report at time [t]. *)
Definition reported (nodeID podID : string) (req : podStatusRequest) (t : Time) (c : Cluster)
    : Response * Cluster :=
  match pods c !! podID with
  | None => (writeJSONError StatusNotFound "pod not found", c)
  | Some p =>
      let p1 := pod_with_result (ps_ExitCode req) (ps_Output req) p in
      if TransitionPod (Pod_Status p) (ps_Status req) then
        let p2 := apply_pod_transition (ps_Status req) (ps_Error req) t p1 in
        let c2 := with_pods (<[podID := p2]> (pods c)) c in
        (writeJSON StatusOK (BPod (Some p2)),
         if bool_decide (Pod_Status p = PodRunning) && isPodTerminalish (ps_Status req)
         then release nodeID (Pod_DeploymentID p) c2 else c2)
      else (writeStoreError StatusConflict ErrInvalidTransition,
            with_pods (<[podID := p1]> (pods c)) c)
  end.

Lemma releaseNodeCapacity_wp nodeID did w (Q : unit -> World -> Prop) :
  cluster_wf (w_cluster w) ->
  (forall w', (w_clock w <= w_clock w')%Z -> w_cluster w' = release nodeID did (w_cluster w) -> Q tt w') ->
  wp (cp_rel false) (releaseNodeCapacity nodeID did) Q w.
Proof.
  intros Hwf HQ. unfold releaseNodeCapacity, release in *. apply wp_get_node. intros t0 Ht0.
  destruct (nodes (w_cluster w) !! nodeID) as [n|] eqn:Hn; [|by apply HQ].
  pose proof (wf_nodes _ Hwf _ _ Hn) as Hid. cbn in Hid.
  apply wp_get_deployment. intros t1 Ht1. cbn in Ht1.
  assert (Hfid : Node_ID (freed (w_cluster w) did n) = nodeID).
  { unfold freed. by destruct (deployments _ !! _). }
  replace (match (match deployments (w_cluster (with_cluster (w_cluster w) t0 w)) !! did with
            | Some d => inl d | None => inr ErrNotFound end) with
           | inl d => give_back (Deployment_Resources d) (one_job_less n)
           | inr _ => one_job_less n end) with (freed (w_cluster w) did n)
    by (unfold freed; cbn; by destruct (deployments _ !! _)).
  eapply wp_update_node; [rewrite Hfid; exact Hn|]. intros t2 Ht2. cbn in *.
  apply HQ; cbn; [lia|]. by rewrite Hfid.
Qed.

Lemma release_pods nodeID did c : pods (release nodeID did c) = pods c.
Proof. unfold release. by destruct (nodes c !! nodeID). Qed.

Lemma update_status_wp nodeID podID req w :
  cluster_wf (w_cluster w) ->
  wp (cp_rel false) (UpdatePodStatus nodeID podID (Some req)) (fun r w' =>
    exists t, (w_clock w <= t <= w_clock w')%Z /\
      (r, w_cluster w') = reported nodeID podID req t (w_cluster w)) w.
Proof.
  intros Hwf. unfold UpdatePodStatus, reported. apply wp_get_pod. intros t0 Ht0.
  destruct (pods (w_cluster w) !! podID) as [p|] eqn:Hp; [|by exists t0].
  pose proof (wf_pods _ Hwf _ _ Hp) as Hid. cbn in Hid.
  eapply wp_update_pod; [cbn; rewrite Hid; exact Hp|]. intros t1 Ht1. cbn [w_cluster with_cluster].
  set (p1 := pod_with_result (ps_ExitCode req) (ps_Output req) p).
  replace (Pod_ID p1) with podID by done.
  apply wp_store. intros t2 r c' Ht2 [(m & Hm & ->)|(? & _)]; [|done].
  unfold transition_post in Hm. cbn in Hm. rewrite lookup_insert_eq in Hm. cbn in Hm.
  cbn in Ht1, Ht2. destruct (TransitionPod (Pod_Status p) (ps_Status req)) eqn:Hl; destruct Hm as [-> ->].
  2:{ exists t2. split; [cbn; lia|done]. }
  rewrite wp_bind. cbn [with_pods pods with_cluster w_cluster].
  set (p2 := apply_pod_transition (ps_Status req) (ps_Error req) t2 p1).
  rewrite insert_insert_eq. set (c2 := with_pods (<[podID := p2]> (pods (w_cluster w))) (w_cluster w)).
  match goal with |- wp _ ?prog ?Q ?w2 => cut (wp (cp_rel false) prog (fun _ w' =>
    (t2 <= w_clock w')%Z /\ w_cluster w' = (if bool_decide (Pod_Status p = PodRunning) && isPodTerminalish (ps_Status req)
         then release nodeID (Pod_DeploymentID p) c2 else c2)) w2) end.
  - intros H. eapply wp_mono; [|exact H]. cbv beta. intros [] w3 [Hcl Hc]. apply wp_get_pod. intros t3 Ht3.
    exists t2. cbn. split; [lia|]. f_equal; [|exact Hc].
    replace (pods (w_cluster w3)) with (pods c2).
    + cbn. by rewrite lookup_insert_eq.
    + rewrite Hc. case_one; by rewrite ?release_pods.
  - case_one; [|cbn; split; [lia|done]]. rewrite wp_bind. apply releaseNodeCapacity_wp.
    + destruct Hwf. split; cbn; try done. apply map_Forall_insert_2; done.
    + intros w3 Hcl Hc. cbn in Hcl. cut ((t2 <= w_clock w3)%Z /\ w_cluster w3 = release nodeID (Pod_DeploymentID p) c2).
      { intros H. destruct (ps_Status req); try exact H; intros [] w4 ->; exact H. }
      done.
Qed.

(** C31: An agent's report is applied as follows: an unknown pod is answered
    with 404 and an illegal transition with 409; a legal one is applied and
    answered with the updated pod; when the pod leaves RUNNING for SUCCEEDED,
    FAILED or CANCELLED the reporting node gets back one job slot and the
    deployment's request, capped at its capacity.  (The exit code and output are
    stored even when the transition is refused.) *)
Theorem UpdatePodStatus_correct (nodeID podID : string) (req : podStatusRequest) (w : World) :
  cluster_wf (w_cluster w) ->
  wp (cp_rel false) (UpdatePodStatus nodeID podID (Some req)) (fun r w' =>
    exists t, (w_clock w <= t <= w_clock w')%Z /\
      (r, w_cluster w') = reported nodeID podID req t (w_cluster w)) w.
Proof. apply update_status_wp. Qed.

Lemma UpdatePodStatus_correct_witness :
  wp (cp_rel false) (UpdatePodStatus "node_1" "pod_2" (Some (mkPodStatus PodSucceeded (Some 0%Z) "" "done")))
    (fun r w' => r_status r = StatusOK /\
       Node_RunningJobs <$> (nodes (w_cluster w') !! "node_1") = Some 0%Z) demo_world.
Proof.
  eapply wp_mono; [|apply (UpdatePodStatus_correct "node_1" "pod_2" _ demo_world); exact demo_wf].
  intros r w' (t & _ & H).
  assert (Hr : r = (reported "node_1" "pod_2" (mkPodStatus PodSucceeded (Some 0%Z) "" "done") t demo_cluster).1) by exact (f_equal fst H).
  assert (Hc : w_cluster w' = (reported "node_1" "pod_2" (mkPodStatus PodSucceeded (Some 0%Z) "" "done") t demo_cluster).2) by exact (f_equal snd H).
  split; [rewrite Hr; reflexivity|rewrite Hc; reflexivity].
Defined.

(** ** Releasing capacity *)

Lemma one_job_less_fits n : node_fits n -> node_fits (one_job_less n).
Proof.
  intros [Hm Hc Hx Hr Hj]. unfold in_int64, min_int64, max_int64 in *.
  split; cbn; unfold in_int64, min_int64, max_int64; try done; destruct (0 <? _)%Z eqn:E; try done;
    apply Z.ltb_lt in E; rewrite int64_wrap_id; unfold in_int64, min_int64, max_int64; lia.
Qed.

Lemma give_back_fits res n :
  node_fits n -> (0 <= Req_MemoryMB res)%Z ->
  (Cap_MemoryMB (Node_Capacity n) + Req_MemoryMB res <= max_int64)%Z -> node_fits (give_back res n).
Proof.
  intros [Hm Hc Hx Hr Hj] Hn Hov. unfold in_int64, min_int64, max_int64 in *.
  split; cbn; unfold in_int64, min_int64, max_int64; try done.
  rewrite int64_wrap_id by (unfold in_int64, min_int64, max_int64; lia).
  destruct (_ <? _)%Z eqn:E; [lia|]. apply Z.ltb_ge in E. lia.
Qed.

Lemma freed_fits c did n :
  node_fits n -> requests_nonneg c ->
  map_Forall (fun _ d => (Cap_MemoryMB (Node_Capacity n) + Req_MemoryMB (Deployment_Resources d) <= max_int64)%Z)
    (deployments c) ->
  node_fits (freed c did n).
Proof.
  intros Hf Hnn Hov. unfold freed. destruct (deployments c !! did) as [d|] eqn:E.
  - apply give_back_fits; [by apply one_job_less_fits|by apply (Hnn _ _ E)|by apply (Hov _ _ E)].
  - by apply one_job_less_fits.
Qed.

(** Reports keep every node within its limits: if requests are not negative
    and capacity plus request stays below [2^63], a report from any agent about
    any pod leaves each node with free memory between zero and its capacity and
    no more jobs than allowed. *)
Theorem UpdatePodStatus_capacity (nodeID podID : string) (req : podStatusRequest) (w : World) :
  cluster_wf (w_cluster w) -> requests_nonneg (w_cluster w) ->
  map_Forall (fun _ n => node_fits n) (nodes (w_cluster w)) ->
  (forall i n j d, nodes (w_cluster w) !! i = Some n -> deployments (w_cluster w) !! j = Some d ->
     (Cap_MemoryMB (Node_Capacity n) + Req_MemoryMB (Deployment_Resources d) <= max_int64)%Z) ->
  wp (cp_rel false) (UpdatePodStatus nodeID podID (Some req))
    (fun _ w' => map_Forall (fun _ n => node_fits n) (nodes (w_cluster w'))) w.
Proof.
  intros Hwf Hnn Hfit Hov. eapply wp_mono; [|by apply update_status_wp].
  intros r w' (t & _ & H). apply (f_equal snd) in H. cbn [snd] in H. rewrite H. clear H.
  unfold reported. destruct (pods _ !! podID) as [p|]; [|done]. destruct (TransitionPod _ _); [|done].
  cbn [snd]. case_one; [|done]. unfold release. cbn.
  destruct (nodes (w_cluster w) !! nodeID) as [n|] eqn:Hn; [|done]. cbn.
  apply map_Forall_insert_2; [|done]. apply freed_fits; [by apply (Hfit _ _ Hn)|done|].
  intros j d Hd. by eapply Hov.
Qed.

Lemma UpdatePodStatus_capacity_witness :
  wp (cp_rel false) (UpdatePodStatus "node_1" "pod_2" (Some (mkPodStatus PodFailed (Some 1%Z) "boom" "")))
    (fun _ w' => map_Forall (fun _ n => node_fits n) (nodes (w_cluster w'))) demo_world.
Proof.
  apply UpdatePodStatus_capacity.
  - exact demo_wf.
  - apply (bool_decide_unpack _). vm_compute. exact I.
  - exact demo_fits.
  - intros i n j d Hn Hd.
    assert (Hcap : map_Forall (fun _ n => Cap_MemoryMB (Node_Capacity n) = 2048%Z) (nodes demo_cluster))
      by (apply (bool_decide_unpack _); vm_compute; exact I).
    assert (Hreq : map_Forall (fun _ d => Req_MemoryMB (Deployment_Resources d) = 512%Z) (deployments demo_cluster))
      by (apply (bool_decide_unpack _); vm_compute; exact I).
    rewrite (Hcap _ _ Hn), (Hreq _ _ Hd). vm_compute. intros [=].
Defined.

(** ** Service discovery *)

Definition backend_of (n : Node) : BackendSpec := mkBackendSpec (Node_ID n) (Node_Address n) 1.

Lemma healthy_backends_filter ns :
  healthy_backends ns = backend_of <$> filter (fun n => Node_Status n = NodeHealthy) ns.
Proof.
  induction ns as [|n ns IH]; [done|]. cbn [healthy_backends]. rewrite filter_cons.
  case_bool_decide; case_decide; try done; cbn; by rewrite IH.
Qed.

(** The backends a service resolves to. *)
Definition service_backends (c : Cluster) (selector : gmap string string) (bs : list BackendSpec) : Prop :=
  NoDup (Spec_Name <$> bs) /\
  forall b, b ∈ bs <-> exists id n, nodes c !! id = Some n /\ Node_Status n = NodeHealthy /\
    (forall k v, selector !! k = Some v -> label_at (Node_Labels n) k = v) /\ b = backend_of n.

Lemma resolve_listed c selector P ns :
  cluster_wf c -> (forall n, P n = matchesSelector (Node_Labels n) selector) ->
  list_post P (nodes c) (ns, None) -> service_backends c selector (healthy_backends ns).
Proof.
  intros Hwf HP Hl. rewrite healthy_backends_filter. split.
  - rewrite <- list_fmap_compose. change (Spec_Name ∘ backend_of) with Node_ID.
    eapply sublist_NoDup, fmap_sublist, sublist_filter. eapply list_post_nodup, Hl. apply Hwf.
  - intros b. rewrite list_elem_of_fmap. setoid_rewrite list_elem_of_filter.
    setoid_rewrite (fun x => list_post_elem _ _ _ _ x Hl). setoid_rewrite HP.
    setoid_rewrite matchesSelector_spec. naive_solver.
Qed.

(** Discovery is exact: the backends reported for a service are the healthy
    nodes whose labels carry every pair of its selector, each once, with the
    node's own address and weight one; unhealthy, draining and removed nodes are
    never reported. *)
Theorem GetServiceBackends_correct (id : string) (svc : Service) (w : World) :
  cluster_wf (w_cluster w) -> services (w_cluster w) !! id = Some svc ->
  wp (cp_rel false) (GetServiceBackends id) (fun r w' =>
    w_cluster w' = w_cluster w /\ r_status r = StatusOK /\
    exists bs, r_body r = BBackends bs (Some (length bs)) /\
      service_backends (w_cluster w) (Service_Selector svc) bs) w.
Proof.
  intros Hwf Hs. unfold GetServiceBackends, resolveServiceBackends. apply wp_get_service. intros t Ht.
  rewrite Hs. rewrite wp_bind. apply wp_store. intros t' [ns e] c' Ht' [[Hl ->]|(? & _)]; [|done].
  pose proof Hl as [He _]. cbn in He. subst e. cbn [wp]. split; [done|]. split; [done|].
  eexists. split; [done|]. by eapply resolve_listed.
Qed.

Lemma GetServiceBackends_correct_witness :
  wp (cp_rel false) (GetServiceBackends "svc_1") (fun r w' => r_status r = StatusOK) demo_world.
Proof.
  eapply wp_mono; [|apply (GetServiceBackends_correct "svc_1" demo_service demo_world)].
  - intros r w' (_ & H & _). exact H.
  - exact demo_wf.
  - vm_compute. reflexivity.
Defined.

Example demo_backends :
  r_body (run (cp_handle (test_oracle 1000)) (GetServiceBackends "svc_1") demo_machine).1
  = BBackends [mkBackendSpec "node_1" "http://localhost:9100" 1] (Some 1).
Proof. vm_compute. reflexivity. Qed.

(** ** Label selectors of queries *)

Lemma cut_eq_spec v k val :
  cut_eq v = (k, val, true) <-> v = k +:+ "=" +:+ val /\ (forall a b, k <> a +:+ "=" +:+ b).
Proof.
  revert k val. induction v as [|ch v IH]; intros k val; cbn.
  { split; [done|]. intros [H _]. by destruct k. }
  destruct (Ascii.eqb_spec ch "="%char) as [->|Hne].
  - split.
    + intros [= <- <-]. split; [done|]. intros [|? a] b; done.
    + intros [H Hno]. destruct k as [|c k]; [cbn in H; by injection H as ->|]. cbn in H. injection H as <- H.
      exfalso. by apply (Hno EmptyString k).
  - destruct (cut_eq v) as [[k' val'] ok] eqn:E. split.
    + intros [= <- -> ->]. destruct (IH k' val) as [IH1 _]. destruct (IH1 eq_refl) as [-> Hno].
      split; [done|]. intros [|c a] b Hab; cbn in Hab; injection Hab as Hc Hab; [by subst|]. by eapply Hno.
    + intros [H Hno]. destruct k as [|c k]; cbn in H; injection H as -> H; [done|].
      destruct (IH k val) as [_ IH2].
      assert (Hcut : (k', val', ok) = (k, val, true)).
      { apply IH2. split; [done|]. intros a b ->. by apply (Hno (String c a) b). }
      by simplify_eq.
Qed.

Lemma parse_labels_into_snoc vals v m :
  parse_labels_into (vals ++ [v]) m =
  let '(k, val, ok) := cut_eq v in
  if ok then <[k := val]> (parse_labels_into vals m) else parse_labels_into vals m.
Proof.
  revert m. induction vals as [|x vals IH]; intros m; cbn.
  - by destruct (cut_eq v) as [[? ?] []].
  - destruct (cut_eq x) as [[? ?] ?]. apply IH.
Qed.

(** [parseLabels] reads exactly the [key=value] parameters, splitting each
    at its first equals sign; parameters without one are ignored and the last
    parameter for a key wins. *)
Theorem parseLabels_correct (vals : list string) (k x : string) :
  parseLabels vals !! k = Some x <->
  exists pre v post, vals = pre ++ v :: post /\ (v = k +:+ "=" +:+ x /\ forall a b, k <> a +:+ "=" +:+ b) /\
    forall u y, u ∈ post -> cut_eq u <> (k, y, true).
Proof.
  setoid_rewrite <- cut_eq_spec. unfold parseLabels.
  induction vals as [|v vals IH] using rev_ind.
  { split; [done|]. intros (pre & v & post & H & _). by destruct pre. }
  rewrite parse_labels_into_snoc.
  assert (Hskip : (forall y, cut_eq v <> (k, y, true)) ->
    parse_labels_into vals ∅ !! k = Some x <->
    exists pre v0 post, vals ++ [v] = pre ++ v0 :: post /\ cut_eq v0 = (k, x, true) /\
      forall u y, u ∈ post -> cut_eq u <> (k, y, true)).
  { intros Hv. rewrite IH. split.
    - intros (pre & v0 & post & -> & Hc & Hp). exists pre, v0, (post ++ [v]).
      rewrite <- app_assoc. split_and!; [done|done|]. intros u y [Hu|Hu]%elem_of_app; [by apply Hp|].
      apply list_elem_of_singleton in Hu. subst. apply Hv.
    - intros (pre & v0 & post & H & Hc & Hp). destruct post as [|z post _] using rev_ind.
      + apply app_inj_tail in H as [_ ->]. by edestruct Hv.
      + change (v0 :: post ++ [z]) with ((v0 :: post) ++ [z]) in H. rewrite app_assoc in H.
        apply app_inj_tail in H as [-> _]. exists pre, v0, post. split_and!; [done|done|].
        intros u y Hu. apply Hp. set_solver. }
  destruct (cut_eq v) as [[k' val] []] eqn:E; [|by apply Hskip].
  destruct (decide (k' = k)) as [->|Hne].
  - rewrite lookup_insert_eq. split.
    + intros [= ->]. exists vals, v, []. split_and!; [done|done|]. intros u y Hu. set_solver.
    + intros (pre & v0 & post & H & Hc & Hp). destruct post as [|z post _] using rev_ind.
      * apply app_inj_tail in H as [_ ->]. congruence.
      * change (v0 :: post ++ [z]) with ((v0 :: post) ++ [z]) in H. rewrite app_assoc in H.
        apply app_inj_tail in H as [_ ->]. exfalso. eapply (Hp z val); [set_solver|done].
  - rewrite lookup_insert_ne by done. apply Hskip. intros y [=]. done.
Qed.

Example parse_example : parseLabels ["zone=a"; "broken"; "k=v=w"; "zone=b"] = {[ "zone" := "b"; "k" := "v=w" ]}.
Proof. vm_compute. reflexivity. Qed.
