(* ===== verification/Concurrency.v ===== *)
(** * The control plane under concurrency

    cmd/control-plane runs the scheduler loop, the reconciler loop and one
    goroutine per HTTP request against one store.  Everything between two store
    calls can interleave.  Writing methods are atomic under the store's mutex and
    so are the bbolt store's transactions; a listing of the in-memory store takes
    no lock, it is a [sync.Map.Range] that visits one entry after the other while
    others write.  [cstep] is that system: any entry point may be started at any
    time, any thread may perform its next operation, and a listing may proceed
    entry by entry.  [guar] is what every operation of every entry point
    guarantees in whatever state the others have left the store; it is proved
    program by program with [rg], which lets the cluster change arbitrarily
    within [guar] before each operation. *)

From S2P Require Import Prelude Model Store Runtime Fixtures Scheduler Reconciler Replicas Api.
From Stdlib Require Import ZArith Lia.
From stdpp Require Import base gmap strings list.

(** ** The guarantee *)

(** The part of a deployment no operation of the control plane changes. *)
Definition deployment_spec (d : Deployment) : Deployment :=
  deployment_with_status DeploymentPending 0 d.

(** A pod created from [d]. *)
Definition instance_of (d : Deployment) (p : Pod) : Prop :=
  Pod_DeploymentID p = Deployment_ID d /\ Pod_Namespace p = Deployment_Namespace d /\
  Pod_Labels p = Deployment_Labels d /\ Pod_Image p = Deployment_Image d /\
  Pod_Command p = Deployment_Command d /\ Pod_Args p = Deployment_Args d /\
  Pod_Resources p = Deployment_Resources d.

(** Deployments are never deleted or edited and move along their life cycle;
    pods and nodes are never deleted and keep what they were created with; a new
    pod is an instance of a stored deployment. *)
Record guar (c c' : Cluster) : Prop := {
  g_wf : cluster_wf c -> cluster_wf c';
  g_deployments : forall id d, deployments c !! id = Some d ->
    exists d', deployments c' !! id = Some d' /\ deployment_spec d' = deployment_spec d /\
      deployment_path (Deployment_Status d) (Deployment_Status d');
  g_pods : forall id p, pods c !! id = Some p ->
    exists p', pods c' !! id = Some p' /\ pod_template p' = pod_template p;
  g_nodes : forall id n, nodes c !! id = Some n ->
    exists n', nodes c' !! id = Some n' /\ node_template n' = node_template n;
  g_new_pods : forall id p, pods c' !! id = Some p -> pods c !! id = None ->
    exists d, deployments c' !! Pod_DeploymentID p = Some d /\ instance_of d p }.

Lemma instance_of_template d p p' :
  pod_template p' = pod_template p -> instance_of d p -> instance_of d p'.
Proof. unfold instance_of. intros [=]; naive_solver congruence. Qed.

Lemma instance_of_spec d d' p :
  deployment_spec d' = deployment_spec d -> instance_of d p -> instance_of d' p.
Proof. unfold instance_of. intros [=]; naive_solver congruence. Qed.

#[global] Instance guar_preorder : PreOrder guar.
Proof.
  split.
  - intros c. split; try done; eauto.
    + intros id d Hd. exists d. split_and!; [done|done|]. apply rtc_refl.
    + intros id p H1 H2. congruence.
  - intros c1 c2 c3 G12 G23. split.
    + intros H. by apply G23, G12.
    + intros id d Hd. destruct (g_deployments _ _ G12 _ _ Hd) as (d2 & Hd2 & Hs2 & Hp2).
      destruct (g_deployments _ _ G23 _ _ Hd2) as (d3 & Hd3 & Hs3 & Hp3).
      exists d3. split_and!; [done|congruence|]. unfold deployment_path in *. by etrans.
    + intros id p Hp. destruct (g_pods _ _ G12 _ _ Hp) as (p2 & Hp2 & ?).
      destruct (g_pods _ _ G23 _ _ Hp2) as (p3 & ? & ?). exists p3. split; [done|congruence].
    + intros id n Hn. destruct (g_nodes _ _ G12 _ _ Hn) as (n2 & Hn2 & ?).
      destruct (g_nodes _ _ G23 _ _ Hn2) as (n3 & ? & ?). exists n3. split; [done|congruence].
    + intros id p Hp3 Hp1. destruct (pods c2 !! id) as [p2|] eqn:Hp2.
      * destruct (g_pods _ _ G23 _ _ Hp2) as (p3 & Hp3' & Htmpl).
        assert (p3 = p) as -> by congruence.
        destruct (g_new_pods _ _ G12 _ _ Hp2 Hp1) as (d & Hd & Hinst).
        destruct (g_deployments _ _ G23 _ _ Hd) as (d3 & Hd3 & Hs & _).
        assert (Hdid : Pod_DeploymentID p = Pod_DeploymentID p2) by exact (f_equal tmpl_DeploymentID Htmpl).
        exists d3. rewrite Hdid. split; [done|].
        eapply instance_of_spec; [exact Hs|]. by eapply instance_of_template.
      * by eapply (g_new_pods _ _ G23).
Qed.

Lemma guar_trans c1 c2 c3 : guar c1 c2 -> guar c2 c3 -> guar c1 c3.
Proof. intros. by etrans. Qed.

(** Chains the guarantees of consecutive operations. *)
Ltac chain := cbn; eauto 7 using guar_trans.

(** ** Knowledge that survives interference *)

Definition known_pod (c : Cluster) (p : Pod) : Prop :=
  exists p0, pods c !! Pod_ID p = Some p0 /\ pod_template p0 = pod_template p.
Definition known_node (c : Cluster) (n : Node) : Prop :=
  exists n0, nodes c !! Node_ID n = Some n0 /\ node_template n0 = node_template n.
Definition known_deployment (c : Cluster) (d : Deployment) : Prop :=
  exists d0, deployments c !! Deployment_ID d = Some d0 /\ deployment_spec d0 = deployment_spec d.

Lemma known_pod_guar c c' p : guar c c' -> known_pod c p -> known_pod c' p.
Proof.
  intros G (p0 & Hp & Ht). destruct (g_pods _ _ G _ _ Hp) as (p1 & ? & ?). exists p1. split; congruence.
Qed.
Lemma known_node_guar c c' n : guar c c' -> known_node c n -> known_node c' n.
Proof.
  intros G (n0 & Hn & Ht). destruct (g_nodes _ _ G _ _ Hn) as (n1 & ? & ?). exists n1. split; congruence.
Qed.
Lemma known_deployment_guar c c' d : guar c c' -> known_deployment c d -> known_deployment c' d.
Proof.
  intros G (d0 & Hd & Ht). destruct (g_deployments _ _ G _ _ Hd) as (d1 & ? & ? & ?).
  exists d1. split; congruence.
Qed.

Create HintDb known.
#[global] Hint Resolve known_pod_guar known_node_guar known_deployment_guar : known.

Lemma known_pod_lookup c id p : cluster_wf c -> pods c !! id = Some p -> known_pod c p.
Proof. intros Hwf Hp. exists p. by rewrite (wf_pods _ Hwf _ _ Hp). Qed.
Lemma known_node_lookup c id n : cluster_wf c -> nodes c !! id = Some n -> known_node c n.
Proof. intros Hwf Hn. exists n. by rewrite (wf_nodes _ Hwf _ _ Hn). Qed.
Lemma known_deployment_lookup c id d :
  cluster_wf c -> deployments c !! id = Some d -> known_deployment c d.
Proof. intros Hwf Hd. exists d. by rewrite (wf_deployments _ Hwf _ _ Hd). Qed.

(** ** What an operation may do *)

Definition allowed {X} (op : StoreOp X) (c : Cluster) : Prop :=
  match op with
  | OpUpdatePod p => known_pod c p
  | OpUpdateNode n => known_node c n
  | OpCreatePod p => exists d, deployments c !! Pod_DeploymentID p = Some d /\ instance_of d p
  | OpUpdateDeployment _ | OpDeleteDeployment _ => False
  | _ => True
  end.

(** What is known of a listing that was put together while others wrote: each
    entry was stored at some time during the call. *)
Definition pieced {X} (op : StoreOp X) (c : Cluster) : X -> Prop :=
  match op in StoreOp X return X -> Prop with
  | OpListDeployments | OpListDeploymentsByNamespace _ => fun r => r.2 = None /\ Forall (known_deployment c) r.1
  | OpListPodsByDeployment _ | OpListPodsByStatus _ | OpListPodsByNode _ | OpListPodsByLabels _ _ =>
      fun r => r.2 = None /\ Forall (known_pod c) r.1
  | OpListNodes | OpListNodesByLabels _ => fun r => r.2 = None /\ Forall (known_node c) r.1
  | OpListServices => fun r => r.2 = None
  | _ => fun _ => False
  end.

Lemma pieced_guar X (op : StoreOp X) c c' r : guar c c' -> pieced op c r -> pieced op c' r.
Proof.
  intros G. destruct op; cbn; try done; intros [He HF]; (split; [done|]);
    (eapply Forall_impl; [exact HF|]; cbn; eauto with known).
Qed.

(** *** A listing, entry by entry *)

(** [Range] visits a key: the entry stored there now is appended when it passes
    the filter. *)
Definition visit {A} (keep : A -> bool) (m : gmap string A) (id : string) (r : list A * error)
    : option (list A * error) :=
  x ← m !! id; Some (if keep x then (r.1 ++ [x], r.2) else r).

(** The nil slice every listing starts from. *)
Definition range_start {X} (op : StoreOp X) : option X :=
  match op in StoreOp X return option X with
  | OpListDeployments | OpListDeploymentsByNamespace _ => Some ([], None)
  | OpListPodsByDeployment _ | OpListPodsByStatus _ | OpListPodsByNode _ | OpListPodsByLabels _ _ => Some ([], None)
  | OpListNodes | OpListNodesByLabels _ => Some ([], None)
  | OpListServices => Some ([], None)
  | _ => None
  end.

Definition range_visit {X} (op : StoreOp X) (c : Cluster) (id : string) : X -> option X :=
  match op in StoreOp X return X -> option X with
  | OpListDeployments => visit (fun _ => true) (deployments c) id
  | OpListDeploymentsByNamespace ns => visit (fun d => bool_decide (Deployment_Namespace d = ns)) (deployments c) id
  | OpListPodsByDeployment did => visit (fun p => bool_decide (Pod_DeploymentID p = did)) (pods c) id
  | OpListPodsByStatus st => visit (fun p => bool_decide (Pod_Status p = st)) (pods c) id
  | OpListPodsByNode nid => visit (fun p => bool_decide (Pod_NodeID p = nid)) (pods c) id
  | OpListPodsByLabels ns sel =>
      visit (fun p => (String.eqb ns EmptyString || bool_decide (Pod_Namespace p = ns))
                      && matchesSelector (Pod_Labels p) sel) (pods c) id
  | OpListNodes => visit (fun _ => true) (nodes c) id
  | OpListNodesByLabels sel => visit (fun n => matchesSelector (Node_Labels n) sel) (nodes c) id
  | OpListServices => visit (fun _ => true) (services c) id
  | _ => fun _ => None
  end.

Lemma range_start_pieced X (op : StoreOp X) c r : range_start op = Some r -> pieced op c r.
Proof. destruct op; cbn; try done; intros [= <-]; try (split; [done|constructor]); done. Qed.

Lemma visit_forall {A} (keep : A -> bool) m id (P : A -> Prop) r r' :
  visit keep m id r = Some r' -> (forall x, m !! id = Some x -> P x) ->
  r.2 = None /\ Forall P r.1 -> r'.2 = None /\ Forall P r'.1.
Proof.
  unfold visit. intros (x & Hx & Hr)%bind_Some HP [He HF]. injection Hr as <-.
  destruct (keep x); [|done]. cbn. split; [done|]. apply Forall_app. split; [done|].
  constructor; [by apply HP|constructor].
Qed.

Lemma range_visit_pieced X (op : StoreOp X) c id r r' :
  cluster_wf c -> pieced op c r -> range_visit op c id r = Some r' -> pieced op c r'.
Proof.
  intros Hwf. destruct op; cbn [pieced range_visit]; try done; intros Hp Hv.
  all: try (eapply visit_forall; [exact Hv| |exact Hp]; intros x Hx;
    eauto using known_pod_lookup, known_node_lookup, known_deployment_lookup).
  apply (visit_forall _ _ _ (fun _ => True) _ _ Hv); [done|]. split; [done|]. by apply Forall_true.
Qed.

(** What a write keeps of the entries of a map ([f] is the template). *)
Definition keeps {A T} (f : A -> T) (m m' : gmap string A) : Prop :=
  forall id x, m !! id = Some x -> exists x', m' !! id = Some x' /\ f x' = f x.

Definition no_new {A} (m m' : gmap string A) : Prop :=
  forall id x, m' !! id = Some x -> m !! id <> None.

Section Keeps.
Context {A T : Type} (f : A -> T) (k : string) (m m' : gmap string A) (r : error).

Lemma create_keeps x : create_post k x m r m' -> keeps f m m'.
Proof.
  unfold create_post. intros H id y Hy. exists y. split; [|done].
  destruct (m !! k) eqn:E; destruct H as [_ ->]; [done|]. rewrite lookup_insert_ne; congruence.
Qed.

Lemma update_keeps x y : m !! k = Some y -> f y = f x -> update_post k x m r m' -> keeps f m m' /\ no_new m m'.
Proof.
  unfold update_post. intros Hy Hf H. rewrite Hy in H. destruct H as [_ ->]. split.
  - intros id z Hz. destruct (decide (k = id)) as [<-|Hne].
    + rewrite lookup_insert_eq. exists x. split; congruence.
    + rewrite lookup_insert_ne by done. eauto.
  - intros id z [[<- _]|[_ ?]]%lookup_insert_Some; congruence.
Qed.

Lemma transition_keeps legal g :
  (forall x, f (g x) = f x) -> transition_post k legal g m r m' -> keeps f m m' /\ no_new m m'.
Proof.
  unfold transition_post. intros Hg H.
  assert (Hsame : keeps f m m /\ no_new m m) by (split; [intros id x; eauto|intros id x Hx; congruence]).
  destruct (m !! k) as [y|] eqn:E; [|by destruct H as [_ ->]].
  destruct (legal y); destruct H as [_ ->]; [|done]. split.
  - intros id z Hz. destruct (decide (k = id)) as [<-|Hne].
    + rewrite lookup_insert_eq. exists (g y). split; [done|]. rewrite Hg. congruence.
    + rewrite lookup_insert_ne by done. eauto.
  - intros id z [[<- _]|[_ ?]]%lookup_insert_Some; congruence.
Qed.
End Keeps.

Section Writes.
Context (c : Cluster) (r : error).

Lemma guar_deployments m id to now :
  transition_post id (fun d => TransitionDeployment (Deployment_Status d) to)
    (deployment_with_status to now) (deployments c) r m -> guar c (with_deployments m c).
Proof.
  intros Hm. split; cbn.
  - intros [? ? ? ?]. split; cbn; try done. eapply transition_post_wf; done.
  - intros id' d Hd. unfold transition_post in Hm.
    destruct (deployments c !! id) as [d0|] eqn:E; [|destruct Hm as [_ ->]; exists d; split_and!; [done|done|apply rtc_refl]].
    destruct (TransitionDeployment (Deployment_Status d0) to) eqn:Hl; destruct Hm as [_ ->].
    2:{ exists d. split_and!; [done|done|apply rtc_refl]. }
    destruct (decide (id = id')) as [<-|Hne].
    + rewrite lookup_insert_eq. rewrite E in Hd. injection Hd as ->. eexists. split; [done|].
      split; [done|]. by apply rtc_once.
    + rewrite lookup_insert_ne by done. exists d. split_and!; [done|done|apply rtc_refl].
  - eauto.
  - eauto.
  - intros; congruence.
Qed.

Lemma guar_create_deployment m d :
  create_post (Deployment_ID d) d (deployments c) r m -> guar c (with_deployments m c).
Proof.
  intros Hm. split; cbn.
  - intros [? ? ? ?]. split; cbn; try done. eapply create_post_wf; done.
  - intros id' d' Hd. exists d'. split_and!; [|done|apply rtc_refl]. unfold create_post in Hm.
    destruct (deployments c !! Deployment_ID d) eqn:E; destruct Hm as [_ ->]; [done|].
    rewrite lookup_insert_ne; [done|]. congruence.
  - eauto.
  - eauto.
  - intros; congruence.
Qed.

(** A write to the pods that keeps templates and adds only instances. *)
Lemma guar_pods m :
  (cluster_wf c -> map_Forall (fun k p => Pod_ID p = k) m) ->
  keeps pod_template (pods c) m ->
  (forall id p, m !! id = Some p -> pods c !! id = None ->
     exists d, deployments c !! Pod_DeploymentID p = Some d /\ instance_of d p) ->
  guar c (with_pods m c).
Proof.
  intros Hwf Hold Hnew. split; cbn; try done; eauto.
  - intros H. destruct H eqn:E. split; cbn; try done. by apply Hwf.
  - intros id d Hd. exists d. split_and!; [done|done|apply rtc_refl].
Qed.

Lemma guar_nodes m :
  (cluster_wf c -> map_Forall (fun k n => Node_ID n = k) m) ->
  keeps node_template (nodes c) m ->
  guar c (with_nodes m c).
Proof.
  intros Hwf Hold. split; cbn; try done; eauto.
  - intros H. destruct H eqn:E. split; cbn; try done. by apply Hwf.
  - intros id d Hd. exists d. split_and!; [done|done|apply rtc_refl].
  - intros; congruence.
Qed.
End Writes.


Lemma allowed_guar fl X (op : StoreOp X) now c r c' :
  allowed op c -> op_post fl op now c r c' -> guar c c'.
Proof.
  intros Hal [Hok|(_ & _ & ->)]; [|reflexivity].
  destruct op; cbn in Hal, Hok; unfold known_pod, known_node in Hal; split_and_all; subst; try done; try reflexivity.
  - by eapply guar_create_deployment.
  - by eapply guar_deployments.
  - apply guar_pods; [intros Hwf; eapply create_post_wf; [apply Hwf|done|done]|by eapply create_keeps|].
    intros id q Hq Hn. unfold create_post in *.
    destruct (pods c !! Pod_ID p) eqn:E; split_and_all; subst; [congruence|].
    apply lookup_insert_Some in Hq as [[<- <-]|[_ ?]]; [eauto|congruence].
  - edestruct (update_keeps pod_template) as [Hk Hn]; [done|done|done|].
    apply guar_pods; [intros Hwf; eapply update_post_wf; [apply Hwf|done|done]|done|].
    intros id q Hq Hno. by destruct (Hn _ _ Hq).
  - edestruct (transition_keeps pod_template) as [Hk Hn]; [|done|]; [done|].
    apply guar_pods; [intros Hwf; eapply transition_post_wf; [apply Hwf|done|done]|done|].
    intros id' q Hq Hno. by destruct (Hn _ _ Hq).
  - apply guar_nodes; [intros Hwf; eapply create_post_wf; [apply Hwf|done|done]|by eapply create_keeps].
  - edestruct (update_keeps node_template) as [Hk Hn]; [done|done|done|].
    apply guar_nodes; [intros Hwf; eapply update_post_wf; [apply Hwf|done|done]|done].
  - edestruct (transition_keeps node_template) as [Hk Hn]; [|done|]; [done|].
    apply guar_nodes; [intros Hwf; eapply transition_post_wf; [apply Hwf|done|done]|done].
  - split; cbn; eauto; try (intros; congruence).
    + intros [? ? ? ?]. split; cbn; try done. by apply map_Forall_insert_2.
    + intros id d Hd. exists d. split_and!; [done|done|apply rtc_refl].
  - split; cbn; eauto; try (intros; congruence).
    + intros [? ? ? ?]. split; cbn; try done. eapply delete_post_wf; done.
    + intros id' d Hd. exists d. split_and!; [done|done|apply rtc_refl].
Qed.

(** ** Programs under interference *)

Section Rg.
Variable fl : bool.

(** A call that is atomic, or a listing that is not. *)
Definition outcome {X} (op : StoreOp X) (now : Time) (c : Cluster) (r : X) (c' : Cluster) : Prop :=
  op_post fl op now c r c' \/ (pieced op c r /\ c' = c).

(** Before each store operation the cluster may have changed within [guar];
    the operation must be allowed there.  [c] is the cluster the thread saw
    last. *)
Fixpoint rg {A} (p : prog CpE A) (Q : A -> Cluster -> Prop) (c : Cluster) : Prop :=
  match p with
  | Ret a => Q a c
  | @Vis _ _ X e k =>
      match e in CpE X return (X -> Cluster -> Prop) -> Prop with
      | EStore op => fun F => forall c1, guar c c1 -> cluster_wf c1 ->
          allowed op c1 /\ forall now r c2, outcome op now c1 r c2 -> F r c2
      | _ => fun F => forall x, F x c
      end (fun x c' => rg (k x) Q c')
  end.

Lemma rg_mono {A} (p : prog CpE A) (Q Q' : A -> Cluster -> Prop) c :
  (forall a c', Q a c' -> Q' a c') -> rg p Q c -> rg p Q' c.
Proof using Type.
  intros HQ. revert c. induction p as [a|X e k IH]; intros c; cbn; [by apply HQ|].
  destruct e; try (intros H x; by apply IH).
  intros H c1 G W. destruct (H c1 G W) as [Hal Hk]. split; [done|]. intros now r c2 Hp.
  by eapply IH, Hk.
Qed.

Lemma rg_bind {A B} (p : prog CpE A) (f : A -> prog CpE B) Q c :
  rg p (fun a c' => rg (f a) Q c') c -> rg (p ≫= f) Q c.
Proof using Type.
  revert c. induction p as [a|X e k IH]; intros c; cbn; [done|].
  destruct e; try (intros H x; by apply IH).
  intros H c1 G W. destruct (H c1 G W) as [Hal Hk]. split; [done|]. intros now r c2 Hp.
  by eapply IH, Hk.
Qed.

Lemma rg_seq {A B} (p : prog CpE A) (f : A -> prog CpE B) (P : A -> Cluster -> Prop) Q c :
  rg p P c -> (forall a c', P a c' -> rg (f a) Q c') -> rg (p ≫= f) Q c.
Proof using Type. intros Hp Hf. apply rg_bind. eapply rg_mono; [|exact Hp]. auto. Qed.

(** The rule for a store call: everything known of [c] that [guar] keeps is
    still known afterwards. *)
Lemma rg_store {A X} (op : StoreOp X) (k : X -> prog CpE A) Q c :
  (forall c1, guar c c1 -> allowed op c1) ->
  (forall c1 now r c2, guar c c1 -> cluster_wf c1 -> outcome op now c1 r c2 -> guar c c2 -> cluster_wf c2 ->
     rg (k r) Q c2) ->
  rg (store op ≫= k) Q c.
Proof using Type.
  intros Hal Hk c1 G W. split; [by apply Hal|]. intros now r c2 Hp.
  assert (G2 : guar c1 c2).
  { destruct Hp as [Hp|[_ ->]]; [eapply allowed_guar; [by apply Hal|exact Hp]|reflexivity]. }
  eapply (Hk c1 now r c2); [done|done|done|by etrans|by apply G2].
Qed.

Lemma rg_store1 {X} (op : StoreOp X) (Q : X -> Cluster -> Prop) c :
  (forall c1, guar c c1 -> allowed op c1) -> (forall r c2, Q r c2) -> rg (store op) Q c.
Proof using Type. intros Hal HQ c1 G W. split; [by apply Hal|]. intros. apply HQ. Qed.

Lemma rg_now {A} (k : Time -> prog CpE A) Q c : (forall t, rg (k t) Q c) -> rg (time_now ≫= k) Q c.
Proof using Type. done. Qed.
Lemma rg_metric {A} m (k : unit -> prog CpE A) Q c : rg (k tt) Q c -> rg (metric m ≫= k) Q c.
Proof using Type. by intros H []. Qed.
Lemma rg_rand {A} n (k : option (list byte) -> prog CpE A) Q c :
  (forall r, rg (k r) Q c) -> rg (call (ERandRead n) ≫= k) Q c.
Proof using Type. done. Qed.

Lemma rg_for_each {A S} (I : S -> Cluster -> Prop) (f : A -> S -> prog CpE S) l s c :
  I s c -> (forall x s c, x ∈ l -> I s c -> rg (f x s) I c) -> rg (for_each l s f) I c.
Proof using Type.
  revert s c. induction l as [|x l IH]; intros s c HI Hf; cbn; [done|].
  eapply rg_seq; [apply Hf; [set_solver|done]|]. intros s' c' HI'. apply IH; [done|].
  intros y s1 c1 Hy. apply Hf. set_solver.
Qed.
End Rg.

(** ** What a listing or a lookup tells *)

Section Read.
Context (fl : bool) (now : Time) (c c' : Cluster).
Hypothesis Hwf : cluster_wf c.

Lemma listed_pods_known P ps e :
  ((list_post P (pods c) (ps, e) /\ c' = c) \/ (fl = true /\ e = Some ErrEncoding /\ c' = c)) \/
  ((e = None /\ Forall (known_pod c) ps) /\ c' = c) ->
  e = None -> forall p, p ∈ ps -> known_pod c' p.
Proof using Hwf.
  intros [[[Hl ->]|(_ & -> & _)]|[[_ HF] ->]] He p Hp; [|done|by eapply Forall_forall].
  apply (list_post_elem _ _ _ _ p Hl) in Hp as [[k Hk] _]. by eapply known_pod_lookup.
Qed.

Lemma listed_nodes_known P ns e :
  ((list_post P (nodes c) (ns, e) /\ c' = c) \/ (fl = true /\ e = Some ErrEncoding /\ c' = c)) \/
  ((e = None /\ Forall (known_node c) ns) /\ c' = c) ->
  e = None -> forall n, n ∈ ns -> known_node c' n.
Proof using Hwf.
  intros [[[Hl ->]|(_ & -> & _)]|[[_ HF] ->]] He n Hn; [|done|by eapply Forall_forall].
  apply (list_post_elem _ _ _ _ n Hl) in Hn as [[k Hk] _]. by eapply known_node_lookup.
Qed.

Lemma listed_deployments_known P ds e :
  ((list_post P (deployments c) (ds, e) /\ c' = c) \/ (fl = true /\ e = Some ErrEncoding /\ c' = c)) \/
  ((e = None /\ Forall (known_deployment c) ds) /\ c' = c) ->
  e = None -> forall d, d ∈ ds -> known_deployment c' d.
Proof using Hwf.
  intros [[[Hl ->]|(_ & -> & _)]|[[_ HF] ->]] He d Hd; [|done|by eapply Forall_forall].
  apply (list_post_elem _ _ _ _ d Hl) in Hd as [[k Hk] _]. by eapply known_deployment_lookup.
Qed.

Lemma got_pod_known id p : outcome fl (OpGetPod id) now c (inl p) c' -> known_pod c' p.
Proof using Hwf.
  intros [[[H ->]|(_ & H & _)]|[[] _]]; [|discriminate H]. unfold get_post in H.
  destruct (pods c !! id) eqn:E; [|done]. injection H as <-. by eapply known_pod_lookup.
Qed.

Lemma got_node_known id n : outcome fl (OpGetNode id) now c (inl n) c' -> known_node c' n.
Proof using Hwf.
  intros [[[H ->]|(_ & H & _)]|[[] _]]; [|discriminate H]. unfold get_post in H.
  destruct (nodes c !! id) eqn:E; [|done]. injection H as <-. by eapply known_node_lookup.
Qed.
End Read.

(** Knowledge is about templates. *)
Lemma known_pod_template c p q : pod_template q = pod_template p -> known_pod c p -> known_pod c q.
Proof.
  intros Ht (p0 & Hp & Ht0). exists p0. replace (Pod_ID q) with (Pod_ID p); [split; congruence|].
  by injection Ht.
Qed.

Lemma known_node_template c n m : node_template m = node_template n -> known_node c n -> known_node c m.
Proof.
  intros Ht (n0 & Hn & Ht0). exists n0. replace (Node_ID m) with (Node_ID n); [split; congruence|].
  by injection Ht.
Qed.

(** Steps through a program whose writes need no knowledge. *)
Ltac rg_call := apply rg_store; [done|]; intros ?c1 ?now ?r ?c2 _ ?W _ _ ?W.
Ltac rg_auto := repeat first
  [ exact I
  | progress cbn [negb]
  | rg_call
  | apply rg_now; intros ?t
  | apply rg_metric
  | apply rg_rand; intros ?r
  | match goal with
    | |- rg _ (match ?x with _ => _ end) _ _ => destruct x
    | |- rg _ (_ ≫= _) _ _ => apply rg_bind
    | |- rg _ (Ret _) _ _ => cbn [rg]
    | |- rg _ (store _) _ _ => apply rg_store1; [done|]; intros ?r ?c2
    end ].

Section Entries.
Context `{SliceSort} (fl : bool).
Local Abbreviation ok p := (forall c, rg fl p (fun _ _ => True) c).

Lemma allocate_rg n prefix create :
  (forall id t c, allowed (create id t) c) -> ok (allocate n prefix create).
Proof using Type.
  intros Hal. induction n as [|n IH]; intros c; cbn [allocate]; [done|].
  apply rg_bind. apply rg_rand. intros [bs|]; [|done]. apply rg_now. intros t.
  apply rg_store; [intros; apply Hal|]. intros c1 now r c2 _ _ _ _ _. by destruct r.
Qed.

Lemma schedule_pod_rg now pod ns k c :
  known_pod c pod -> (forall n, n ∈ ns -> known_node c n) ->
  rg fl (schedule_pod now pod (ns, k))
    (fun s c' => guar c c' /\ forall n, n ∈ s.1 -> known_node c' n) c.
Proof using Type.
  intros Hp Hns. unfold schedule_pod. case_one; [split; [reflexivity|done]|].
  apply rg_store; [done|]. intros c1 t d c2 G1 _ _ G2 _.
  generalize (match d with inl d => Deployment_Resources d | inr _ => zeroRequest end) as req.
  intros req. unfold place_pod. destruct (SelectNode ns req) as [[i node]|] eqn:Es.
  2:{ split; [done|]. cbn. eauto with known. }
  apply selected_elem in Es as (Hi & Hin & _).
  apply rg_store.
  { intros c3 G3. eapply (known_pod_template _ pod); [done|]. eauto with known. }
  intros c3 t3 e3 c4 G3 _ _ G4 _. destruct e3.
  { split; [by etrans|]. cbn. eauto with known. }
  apply rg_store; [done|]. intros c5 t5 e5 c6 G5 _ _ G6 _. destruct e5.
  { split; [by do 2 etrans|]. cbn. eauto with known. }
  assert (G26 : guar c c6) by (etrans; [|exact G6]; by etrans).
  apply rg_store.
  { intros c7 G7. eapply (known_node_template _ node); [done|]. eauto 6 with known. }
  intros c7 t7 e7 c8 _ _ _ G8 _. apply rg_now. intros t9. apply rg_metric.
  assert (G : guar c c8) by (by etrans). split; [done|]. cbn. intros n Hn.
  apply list_elem_of_lookup in Hn as [j Hj].
  apply list_lookup_insert_Some in Hj as [(_ & <- & _)|[_ Hj]].
  - eapply (known_node_template _ node); [done|]. eauto with known.
  - eapply known_node_guar; [exact G|]. by eapply Hns, list_elem_of_lookup_2.
Qed.

Lemma scheduler_tick_rg : ok Scheduler.Tick.
Proof using Type.
  intros c. unfold Scheduler.Tick.
  apply rg_store; [done|]. intros c1 t1 [ps e1] c2 _ W1 Hop1 _ W2.
  destruct e1 as [|]; [done|].
  assert (Hps : forall p, p ∈ ps -> known_pod c2 p)
    by (eapply listed_pods_known; [exact W1|exact Hop1|done]).
  apply rg_store; [done|]. intros c3 t3 [ns e3] c4 _ W3 Hop3 G4 W4. destruct e3 as [|]; [done|].
  assert (Hns : forall n, n ∈ ns -> known_node c4 n)
    by (eapply listed_nodes_known; [exact W3|exact Hop3|done]).
  apply rg_now. intros now.
  eapply (rg_seq _ _ _ (fun _ _ => True)).
  - eapply rg_mono; [|apply (rg_for_each _ (fun s c' => guar c4 c' /\ forall n, n ∈ s.1 -> known_node c' n))].
    + done.
    + split; [reflexivity|done].
    + intros p [ns' k] c' Hp [G Hns']. rewrite sort_slice_perm in Hp. eapply rg_mono; [|apply schedule_pod_rg].
      * cbn. intros s c'' [G' Hs]. split; [by etrans|done].
      * eauto with known.
      * done.
  - intros [ns' k] c' _. apply rg_metric. apply rg_now. intros t. by intros [].
Qed.

(** *** The reconciler *)

Lemma create_replica_rg d c :
  known_deployment c d -> rg fl (create_replica d) (fun _ c' => guar c c') c.
Proof using Type.
  intros Hd. unfold create_replica. apply rg_bind. apply rg_rand. intros [bs|]; [|by cbn].
  apply rg_now. intros t. apply rg_store.
  - intros c1 G1. destruct (known_deployment_guar _ _ _ G1 Hd) as (d0 & Hd0 & Hs). exists d0.
    split; [exact Hd0|]. eapply instance_of_spec; [exact Hs|]. by split_and!.
  - intros c1 now r c2 _ _ _ G _. destruct r; [exact G|intros []; exact G].
Qed.

Lemma scale_rg d ps c :
  known_deployment c d -> rg fl (scale d ps) (fun _ c' => guar c c') c.
Proof using Type.
  intros Hd. unfold scale. case_one; [|case_one]; [| |by cbn].
  - apply rg_for_each; [reflexivity|]. intros x [] c' _ G. eapply rg_mono; [|apply create_replica_rg].
    + intros [] c'' G'. chain.
    + eauto with known.
  - apply rg_for_each; [reflexivity|]. intros x [] c' _ G. apply rg_store; [done|].
    intros c1 now r c2 _ _ _ G2 _. chain.
Qed.

Lemma reconcile_pods_rg d st c :
  known_deployment c d -> rg fl (reconcile_pods d st) (fun _ c' => guar c c') c.
Proof using Type.
  intros Hd. unfold reconcile_pods. apply rg_store; [done|]. intros c1 now [ps e] c2 _ _ _ G2 _.
  destruct e; [done|]. eapply rg_seq; [apply scale_rg; eauto with known|]. intros [] c3 G3.
  unfold mark_degraded. case_one; [|case_one]; [| |chain];
    (apply rg_store; [done|]; intros c4 t r c5 _ _ _ G5 _; chain).
Qed.

Lemma reconcileDeployments_rg : ok reconcileDeployments.
Proof using Type.
  intros c. unfold reconcileDeployments. apply rg_store; [done|].
  intros c1 now [ds e] c2 _ W1 Hop _ _. destruct e as [|]; [done|].
  assert (Hds : forall d, d ∈ ds -> known_deployment c2 d)
    by (eapply listed_deployments_known; [exact W1|exact Hop|done]).
  eapply rg_mono; [|apply (rg_for_each _ (fun _ c' => guar c2 c'))]; [done|reflexivity|].
  intros d [] c' Hd G. assert (Hk : known_deployment c' d) by eauto with known.
  assert (Hpods : forall st c'', guar c2 c'' -> known_deployment c'' d ->
    rg fl (reconcile_pods d st) (fun _ c3 => guar c2 c3) c'').
  { intros st c'' G' Hk'. eapply rg_mono; [|by apply reconcile_pods_rg]. intros [] c3 ?. chain. }
  unfold reconcile_deployment. destruct (Deployment_Status d); try (by apply Hpods); [|done].
  apply rg_store; [done|]. intros c3 t r c4 _ _ _ G4 _. destruct r; [chain|].
  apply Hpods; [chain|]. eauto with known.
Qed.

Lemma reschedule_pod_rg conv p c :
  known_pod c p -> rg fl (reschedule_pod conv p) (fun _ c' => guar c c') c.
Proof using Type.
  intros Hp. unfold reschedule_pod.
  assert (Hup : forall q c', guar c c' -> pod_template q = pod_template p -> known_pod c' q).
  { intros q c' G Ht. eapply known_pod_template; [exact Ht|]. eauto with known. }
  destruct (Pod_Status p); try by cbn.
  - unfold requeue_scheduled. apply rg_store; [intros; by apply Hup|].
    intros c1 t r c2 _ _ _ G2 _. destruct r; [done|]. apply rg_store; [done|].
    intros c3 t3 r3 c4 _ _ _ G4 _. chain.
  - unfold retry_running. apply rg_store; [done|]. intros c1 t d c2 _ _ _ G2 _.
    generalize (match d with inl d => Deployment_MaxRetries d | inr _ => 0%Z end) as mx. intros mx.
    case_one; [apply rg_now; intros tn|];
      (apply rg_store; [intros c3 G3; apply Hup; [chain|done]|]);
      intros c3 t3 r3 c4 _ _ _ G4 _; (destruct r3; [chain|]);
      (apply rg_store; [done|]; intros c5 t5 r5 c6 _ _ _ G6 _);
      (destruct r5; [chain|]);
      (apply rg_store; [done|]; intros c7 t7 r7 c8 _ _ _ G8 _).
    + apply rg_store; [done|]. intros c9 t9 r9 c10 _ _ _ G10 _. intros []. chain.
    + apply rg_metric. intros []. chain.
Qed.

Lemma reschedulePodsFor_rg conv nid c : rg fl (reschedulePodsFor conv nid) (fun _ c' => guar c c') c.
Proof using Type.
  unfold reschedulePodsFor. apply rg_store; [done|]. intros c1 t [ps e] c2 _ W1 Hop G2 _.
  destruct e; [done|].
  assert (Hps : forall p, p ∈ ps -> known_pod c2 p)
    by (eapply listed_pods_known; [exact W1|exact Hop|done]).
  eapply rg_mono; [|apply (rg_for_each _ (fun _ c' => guar c2 c'))]; [|reflexivity|].
  - intros [] c' G'. chain.
  - intros p [] c' Hp G. eapply rg_mono; [|apply reschedule_pod_rg; eauto with known].
    intros [] c'' ?. chain.
Qed.

Lemma reconciler_tick_rg conv hto : ok (Reconciler.Tick conv hto).
Proof using Type.
  intros c. unfold Reconciler.Tick. eapply rg_seq; [apply reconcileDeployments_rg|].
  intros [] c1 _. eapply (rg_seq _ _ _ (fun _ _ => True)); [|by intros [] c2 _ []].
  unfold detectUnhealthyNodes. apply rg_store; [done|]. intros c2 t [ns e] c3 _ _ _ _ _.
  destruct e; [done|]. apply rg_now. intros now.
  eapply (rg_seq _ _ _ (fun _ _ => True)); [|by intros k c4 _ []].
  apply rg_for_each; [done|]. intros n k c4 _ _. unfold detect_node.
  case_one; [|case_one]; [| |done];
    (apply rg_store; [done|]; intros c5 t5 r5 c6 _ _ _ _ _; (destruct r5; [done|]);
     eapply rg_seq; [apply reschedulePodsFor_rg|done]).
Qed.

(** *** The handlers *)

Lemma heartbeat_rg id req : ok (Heartbeat id req).
Proof using Type.
  intros c. unfold Heartbeat. apply rg_store; [done|]. intros c1 t r c2 _ W1 Hop _ _.
  destruct r as [n|e]; [|done]. apply rg_now. intros now.
  assert (Hn : known_node c2 n) by (eapply got_node_known; [exact W1|exact Hop]).
  apply rg_store.
  { intros c3 G3. eapply known_node_template; [|by eapply known_node_guar]. done. }
  intros c3 t3 r3 c4 _ _ _ _ _. rg_auto.
Qed.

Lemma releaseNodeCapacity_rg nid did : ok (releaseNodeCapacity nid did).
Proof using Type.
  intros c. unfold releaseNodeCapacity. apply rg_store; [done|]. intros c1 t r c2 _ W1 Hop _ _.
  destruct r as [n|e]; [|done].
  assert (Hn : known_node c2 n) by (eapply got_node_known; [exact W1|exact Hop]).
  apply rg_store; [done|]. intros c3 t3 d c4 _ _ _ G4 _. apply rg_store; [|done].
  intros c5 G5. eapply (known_node_template _ n); [by destruct d|]. eauto with known.
Qed.

Lemma update_status_rg nid pid body : ok (UpdatePodStatus nid pid body).
Proof using Type.
  intros c. unfold UpdatePodStatus. destruct body as [req|]; [|done].
  apply rg_store; [done|]. intros c1 t r c2 _ W1 Hop _ _. destruct r as [p|e]; [|done].
  assert (Hp : known_pod c2 p) by (eapply got_pod_known; [exact W1|exact Hop]).
  apply rg_store.
  { intros c3 G3. eapply known_pod_template; [|by eapply known_pod_guar]. done. }
  intros c3 t3 r3 c4 _ _ _ _ _. destruct r3; [done|]. apply rg_store; [done|].
  intros c5 t5 r5 c6 _ _ _ _ _. destruct r5; [by case_one|].
  eapply (rg_seq _ _ _ (fun _ _ => True)).
  - case_one; [|done]. eapply rg_seq; [apply releaseNodeCapacity_rg|]. intros [] c7 _.
    by destruct (ps_Status req); try done; intros [].
  - intros [] c7 _. by rg_auto.
Qed.

Lemma resolve_rg svc : ok (resolveServiceBackends svc).
Proof using Type. intros c. unfold resolveServiceBackends. rg_auto. Qed.

Lemma router_rg running req : ok (NewRouter running req).
Proof using Type.
  intros c. destruct req; cbn [NewRouter]; try done;
    try (apply heartbeat_rg); try (apply update_status_rg).
  - unfold CreateDeployment. destruct body; [|done]. case_one; [done|].
    eapply rg_seq; [by apply allocate_rg|]. intros id c1 _. rg_auto.
  - unfold ListDeployments. rg_auto.
  - unfold GetDeployment. rg_auto.
  - unfold CancelDeployment. rg_auto.
  - unfold ListDeploymentPods. rg_auto.
  - unfold RegisterNode. destruct body; [|done]. case_one; [done|].
    eapply rg_seq; [by apply allocate_rg|]. intros id c1 _. rg_auto.
  - unfold PollPods. rg_auto.
  - unfold ListNodes. rg_auto.
  - unfold GetNode. rg_auto.
  - unfold DrainNode. rg_auto.
  - unfold SchedulerQueue. rg_auto.
  - unfold SchedulerStats. by destruct running.
  - unfold SchedulerRebalance. case_one; [done|].
    eapply rg_seq; [apply scheduler_tick_rg|]. by intros [] c1 _ st.
  - unfold ListServices. rg_auto.
  - unfold CreateService, generateID. rg_auto.
  - unfold GetService. rg_auto.
  - unfold UpdateService. rg_auto.
  - unfold DeleteService. rg_auto.
  - unfold GetServiceBackends. rg_call. destruct r; [|done].
    eapply rg_seq; [apply resolve_rg|]. by intros [] ? _.
  - unfold ProxyConfig. rg_auto.
  - unfold ProxyBackends. case_one; [|rg_auto]. rg_call. destruct r; [|done].
    eapply rg_seq; [apply resolve_rg|]. by intros [] ? _.
Qed.
End Entries.

(** ** The system *)

Section System.
Context `{SliceSort} (fl : bool) (conv : Z -> Z) (heartbeatTimeout : Duration) (running : bool).

(** What cmd/control-plane starts: ticks of the two loops and requests. *)
Inductive entry : prog CpE unit -> Prop :=
| entry_scheduler : entry Scheduler.Tick
| entry_reconciler : entry (Reconciler.Tick conv heartbeatTimeout)
| entry_request req : entry (_ ← NewRouter running req; Ret tt).

(** A thread between two operations, or inside a listing: it has visited the
    keys [seen] and collected [r], which it passes on to [k]. *)
Inductive Thread : Type :=
| Running (p : prog CpE unit)
| Ranging {X} (op : StoreOp X) (seen : gset string) (r : X) (k : X -> prog CpE unit).

(** The threads and the world they share. *)
Abbreviation Config := (list Thread * World)%type.

(** A listing returns when its [Range] has visited what it visits; which of the
    entries that come and go meanwhile it visits is left open, so it may stop
    at any time here. *)
Inductive cstep : Config -> Config -> Prop :=
| cs_start p ts w : entry p -> cstep (ts, w) (ts ++ [Running p], w)
| cs_step ts1 X (e : CpE X) k ts2 w x w' : cp_rel fl X e w x w' ->
    cstep (ts1 ++ Running (Vis e k) :: ts2, w) (ts1 ++ Running (k x) :: ts2, w')
| cs_range ts1 X (op : StoreOp X) k ts2 w r : range_start op = Some r ->
    cstep (ts1 ++ Running (Vis (EStore op) k) :: ts2, w) (ts1 ++ Ranging op ∅ r k :: ts2, w)
| cs_visit ts1 X (op : StoreOp X) seen r k ts2 w id r' :
    id ∉ seen -> range_visit op (w_cluster w) id r = Some r' ->
    cstep (ts1 ++ Ranging op seen r k :: ts2, w) (ts1 ++ Ranging op ({[id]} ∪ seen) r' k :: ts2, w)
| cs_return ts1 X (op : StoreOp X) seen r k ts2 w :
    cstep (ts1 ++ Ranging op seen r k :: ts2, w) (ts1 ++ Running (k r) :: ts2, w).

Definition csteps : Config -> Config -> Prop := rtc cstep.

Lemma entry_rg p c : entry p -> rg fl p (fun _ _ => True) c.
Proof using Type.
  intros [| |req]; [apply scheduler_tick_rg|apply reconciler_tick_rg|].
  eapply rg_seq; [apply router_rg|]. done.
Qed.

(** A thread is at a point from which it keeps the guarantee, whatever the
    others do within it. *)
Definition thread_ok (c : Cluster) (t : Thread) : Prop :=
  match t with
  | Running p => exists c0, guar c0 c /\ rg fl p (fun _ _ => True) c0
  | Ranging op _ r k => pieced op c r /\
      forall c1 r1, guar c c1 -> cluster_wf c1 -> pieced op c1 r1 -> rg fl (k r1) (fun _ _ => True) c1
  end.

Definition threads_ok (cfg : Config) : Prop := Forall (thread_ok (w_cluster cfg.2)) cfg.1.

Lemma thread_ok_guar c c' t : guar c c' -> thread_ok c t -> thread_ok c' t.
Proof using Type.
  intros G. destruct t as [p|X op seen r k]; cbn.
  - intros (c0 & G0 & Hrg). exists c0. split; [by etrans|done].
  - intros [Hp Hk]. split; [by eapply pieced_guar|]. intros c1 r1 G1. apply Hk. by etrans.
Qed.

(** One thread moves, the others see the world it leaves. *)
Lemma threads_ok_middle ts1 t t' ts2 w w' :
  threads_ok (ts1 ++ t :: ts2, w) ->
  guar (w_cluster w) (w_cluster w') -> thread_ok (w_cluster w') t' ->
  threads_ok (ts1 ++ t' :: ts2, w').
Proof using Type.
  unfold threads_ok. cbn. intros (H1 & _ & H2)%Forall_middle G Ht'. apply Forall_app. split.
  - eapply Forall_impl; [exact H1|]. intros. by eapply thread_ok_guar.
  - constructor; [done|]. eapply Forall_impl; [exact H2|]. intros. by eapply thread_ok_guar.
Qed.

Lemma thread_step_ok X (e : CpE X) k w x w' :
  cluster_wf (w_cluster w) -> thread_ok (w_cluster w) (Running (Vis e k)) -> cp_rel fl X e w x w' ->
  guar (w_cluster w) (w_cluster w') /\ thread_ok (w_cluster w') (Running (k x)).
Proof using Type.
  intros Hwf (c & G & Hrg) HR. destruct e; cbn in HR, Hrg; split_and_all; subst; cbn;
    try (split; [reflexivity|]; exists c; split; [done|apply Hrg]).
  destruct (Hrg _ G Hwf) as [Hal Hk]. split; [by eapply allowed_guar|].
  eexists. split; [reflexivity|]. eapply Hk. by left.
Qed.

Lemma range_start_ok X (op : StoreOp X) k w r :
  thread_ok (w_cluster w) (Running (Vis (EStore op) k)) -> range_start op = Some r ->
  thread_ok (w_cluster w) (Ranging op ∅ r k).
Proof using Type.
  intros (c & G & Hrg) Hr. split; [by apply range_start_pieced|]. intros c1 r1 G1 W Hp.
  destruct (Hrg c1) as [_ Hk]; [by etrans|done|]. apply (Hk 0%Z). by right.
Qed.

Lemma cstep_ok cfg cfg' :
  cluster_wf (w_cluster cfg.2) -> threads_ok cfg -> cstep cfg cfg' ->
  guar (w_cluster cfg.2) (w_cluster cfg'.2) /\ threads_ok cfg'.
Proof using Type.
  intros Hwf Hok Hstep.
  destruct Hstep as [p ts w He|ts1 X e k ts2 w x w' HR|ts1 X op k ts2 w r Hr
    |ts1 X op seen r k ts2 w id r' _ Hv|ts1 X op seen r k ts2 w]; cbn in Hwf |- *.
  { split; [reflexivity|]. apply Forall_app. split; [exact Hok|]. constructor; [|constructor].
    exists (w_cluster w). split; [reflexivity|]. by apply entry_rg. }
  all: pose proof (proj1 (Forall_middle _ _ _ _) Hok) as (_ & Ht & _); cbn [snd] in Ht.
  - destruct (thread_step_ok _ _ _ _ _ _ Hwf Ht HR) as [G Ht']. split; [done|].
    by eapply threads_ok_middle.
  - split; [reflexivity|]. eapply threads_ok_middle; [exact Hok|reflexivity|]. by apply range_start_ok.
  - split; [reflexivity|]. eapply threads_ok_middle; [exact Hok|reflexivity|].
    destruct Ht as [Hp Hk]. split; [by eapply range_visit_pieced|done].
  - split; [reflexivity|]. eapply threads_ok_middle; [exact Hok|reflexivity|].
    destruct Ht as [Hp Hk]. exists (w_cluster w). split; [reflexivity|]. by apply Hk.
Qed.

Lemma csteps_ok cfg cfg' :
  cluster_wf (w_cluster cfg.2) -> threads_ok cfg -> csteps cfg cfg' ->
  guar (w_cluster cfg.2) (w_cluster cfg'.2) /\ cluster_wf (w_cluster cfg'.2) /\ threads_ok cfg'.
Proof using Type.
  intros Hwf Hok Hs. revert Hwf Hok. induction Hs as [cfg|a b d Hab _ IH]; intros Hwf Hok.
  { by split; [reflexivity|]. }
  destruct (cstep_ok _ _ Hwf Hok Hab) as [G Hok'].
  destruct IH as (G' & ? & ?); [by apply G|done|]. split; [by etrans|done].
Qed.

Lemma threads_ok_nil w : threads_ok ([], w).
Proof using Type. constructor. Qed.
End System.

(** ** Running an interleaving *)

Section Interleave.
Context {S : Type} `{!StoreImpl S} (o : Oracle).

(** Thread [i] performs its next operation. *)
Definition thread_step (i : nat) (cfg : list (prog CpE unit) * Machine S) : list (prog CpE unit) * Machine S :=
  match cfg.1 !! i with
  | Some (Vis e k) => let '(x, m') := cp_handle o _ e cfg.2 in (<[i := k x]> cfg.1, m')
  | _ => cfg
  end.

Definition interleave (sched : list nat) (cfg : list (prog CpE unit) * Machine S)
    : list (prog CpE unit) * Machine S :=
  foldl (fun cfg i => thread_step i cfg) cfg sched.

Lemma interleave_sound `{SliceSort} conv hto running sched ts m w :
  machine_abs o m w ->
  exists w', csteps store_faults conv hto running (Running <$> ts, w)
      (Running <$> (interleave sched (ts, m)).1, w') /\
    machine_abs o (interleave sched (ts, m)).2 w'.
Proof.
  revert ts m w. induction sched as [|i sched IH]; intros ts m w Ha; cbn.
  { exists w. split; [apply rtc_refl|done]. }
  unfold thread_step at 2. cbn. unfold thread_step at 3. cbn.
  destruct (ts !! i) as [[a|X e k]|] eqn:Hi; try (by apply IH).
  destruct (cp_handle_implements o X e m w Ha) as (w1 & HR & Ha1).
  destruct (cp_handle o X e m) as [x m1]. cbn in *.
  destruct (IH (<[i := k x]> ts) m1 w1 Ha1) as (w' & Hs & Ha').
  exists w'. split; [|done]. eapply rtc_l; [|exact Hs].
  apply list_elem_of_split_length in Hi as (l1 & l2 & -> & ->).
  rewrite insert_middle, !fmap_app, !fmap_cons. by apply cs_step.
Qed.
End Interleave.

(** ** Properties *)

Section Properties.
Context `{SliceSort}.


(** C30: Cancellation is permanent: once a deployment is CANCELLED, no
    interleaving of threads, those already under way included, revives it. *)
Theorem cancellation_permanent (fl : bool) (conv : Z -> Z) (heartbeatTimeout : Duration) (running : bool)
    (w w1 w2 : World) (ts1 ts2 : list Thread) (id : string) (d : Deployment) :
  cluster_wf (w_cluster w) ->
  csteps fl conv heartbeatTimeout running ([], w) (ts1, w1) ->
  deployments (w_cluster w1) !! id = Some d -> Deployment_Status d = DeploymentCancelled ->
  csteps fl conv heartbeatTimeout running (ts1, w1) (ts2, w2) ->
  exists d', deployments (w_cluster w2) !! id = Some d' /\ Deployment_Status d' = DeploymentCancelled /\
    deployment_spec d' = deployment_spec d.
Proof.
  intros Hwf Hs1 Hd Hc Hs2.
  destruct (csteps_ok fl conv heartbeatTimeout running ([], w) (ts1, w1) Hwf (threads_ok_nil _ _) Hs1) as (_ & Hwf1 & Hok1).
  destruct (csteps_ok fl conv heartbeatTimeout running (ts1, w1) (ts2, w2) Hwf1 Hok1 Hs2) as (G & _ & _).
  destruct (g_deployments _ _ G _ _ Hd) as (d' & Hd' & Hspec & Hp). exists d'. split_and!; [done| |done].
  rewrite Hc in Hp. inversion Hp as [|? st ? Hbad _]; [done|]. discriminate Hbad.
Qed.

(** Starting from an empty store, every pod that ever exists carries the
    namespace, labels, image, command, arguments and resource request of the
    deployment it names, and that deployment exists. *)
Theorem pods_are_instances (fl : bool) (conv : Z -> Z) (heartbeatTimeout : Duration) (running : bool)
    (w w' : World) (ts : list Thread) :
  w_cluster w = empty_cluster ->
  csteps fl conv heartbeatTimeout running ([], w) (ts, w') ->
  map_Forall (fun _ p => exists d, deployments (w_cluster w') !! Pod_DeploymentID p = Some d /\ instance_of d p)
    (pods (w_cluster w')).
Proof.
  intros He Hs. assert (Hwf : cluster_wf (w_cluster w)) by (rewrite He; split; apply map_Forall_empty).
  destruct (csteps_ok fl conv heartbeatTimeout running ([], w) (ts, w') Hwf (threads_ok_nil _ _) Hs) as (G & _ & _).
  intros id p Hp. apply (g_new_pods _ _ G id p Hp). cbn [snd]. by rewrite He.
Qed.
End Properties.

(** *** A lost update *)

(** A scheduler pass and an agent's cancellation of the pending pod. *)
Definition race_threads : list (prog CpE unit) :=
  [Scheduler.Tick;
   (_ ← NewRouter true (RUpdatePodStatus "node_1" "pod_1" (Some (mkPodStatus PodCancelled None "" ""))); Ret tt)].

(** The scheduler has listed the pod and read its deployment when the pod is
    cancelled; then it writes back its copy. *)
Definition race_before : list nat := [0; 0; 0; 0; 1; 1; 1].
Definition race_after : list nat := [0; 0].

Definition race_1 := interleave (test_oracle 1000) race_before (race_threads, demo_machine).
Definition race_2 := interleave (test_oracle 1000) race_after race_1.

Lemma race_statuses :
  Pod_Status <$> (MemoryStore.m_pods (mc_store race_1.2) !! "pod_1") = Some PodCancelled /\
  Pod_Status <$> (MemoryStore.m_pods (mc_store race_2.2) !! "pod_1") = Some PodScheduled.
Proof. split; vm_compute; reflexivity. Qed.

Lemma race_start : csteps false (fun _ => 0%Z) 0 true ([], demo_world) (Running <$> race_threads, demo_world).
Proof.
  eapply rtc_l; [apply cs_start, entry_scheduler|].
  apply rtc_once. apply (cs_start _ _ _ _ _ [Running Scheduler.Tick]), entry_request.
Qed.

Lemma race_first :
  exists w1, csteps false (fun _ => 0%Z) 0 true (Running <$> race_threads, demo_world) (Running <$> race_1.1, w1) /\
    machine_abs (test_oracle 1000) race_1.2 w1.
Proof. exact (interleave_sound _ _ _ _ race_before race_threads _ _ demo_machine_abs). Qed.

Lemma race_second w1 :
  machine_abs (test_oracle 1000) race_1.2 w1 ->
  exists w2, csteps false (fun _ => 0%Z) 0 true (Running <$> race_1.1, w1) (Running <$> race_2.1, w2) /\
    machine_abs (test_oracle 1000) race_2.2 w2.
Proof.
  intros Ha. unfold race_2. rewrite (surjective_pairing race_1).
  exact (interleave_sound _ _ _ _ race_after race_1.1 race_1.2 w1 Ha).
Qed.

(** The pod life cycle is not enforced across threads: the scheduler's
    read-modify-write of a pod is not atomic, so a pod that was cancelled
    between its read and its write is written back as pending and scheduled. *)
Theorem cancelled_pod_resurrected :
  exists w ts1 w1 ts2 w2 p1 p2,
    csteps false (fun _ => 0%Z) 0 true ([], w) (ts1, w1) /\
    csteps false (fun _ => 0%Z) 0 true (ts1, w1) (ts2, w2) /\
    pods (w_cluster w1) !! "pod_1" = Some p1 /\ Pod_Status p1 = PodCancelled /\
    pods (w_cluster w2) !! "pod_1" = Some p2 /\ Pod_Status p2 = PodScheduled.
Proof.
  destruct race_first as (w1 & Hs1 & Ha1). destruct (race_second w1 Ha1) as (w2 & Hs2 & Ha2).
  destruct race_statuses as [H1 H2]. apply fmap_Some in H1 as (p1 & Hp1 & Hst1), H2 as (p2 & Hp2 & Hst2).
  exists demo_world, (Running <$> race_1.1), w1, (Running <$> race_2.1), w2, p1, p2.
  split_and!; [|exact Hs2| |done| |done].
  - etransitivity; [exact race_start|exact Hs1].
  - by rewrite <- (ma_store _ _ _ Ha1).
  - by rewrite <- (ma_store _ _ _ Ha2).
Qed.


(** The demo deployment, cancelled. *)
Definition cancelled_cluster : Cluster :=
  with_deployments {[ "deploy_1" := deployment_with_status DeploymentCancelled 0 demo_deployment ]} demo_cluster.
Definition cancelled_world : World := mkWorld cancelled_cluster 1000 [] zeroStats.

Lemma cancellation_permanent_witness :
  exists d', deployments (w_cluster cancelled_world) !! "deploy_1" = Some d' /\
    Deployment_Status d' = DeploymentCancelled.
Proof.
  destruct (cancellation_permanent true (fun _ => 0%Z) 0 true cancelled_world cancelled_world cancelled_world
    [] [Running (Reconciler.Tick (fun _ => 0%Z) 0)] "deploy_1" (deployment_with_status DeploymentCancelled 0 demo_deployment))
    as (d' & H1 & H2 & _).
  - apply (bool_decide_unpack _). vm_compute. exact I.
  - apply rtc_refl.
  - reflexivity.
  - reflexivity.
  - apply rtc_once. apply (cs_start _ _ _ _ _ []), entry_reconciler.
  - exists d'. split; [exact H1|exact H2].
Defined.

(** A deployment is submitted to an empty control plane and reconciled. *)
Definition submit_thread : prog CpE unit :=
  _ ← NewRouter true (RCreateDeployment (Some (mkSubmit "train" "" ∅ "" "" "sleep" [] 2 0 "" zeroRequest))); Ret tt.

Definition fresh_machine : Machine MemoryStore.MemoryStore := mkMachine MemoryStore.NewMemoryStore 0 [] zeroStats.
Definition fresh_world : World := mkWorld empty_cluster 0 [] zeroStats.
Definition fresh_threads := [submit_thread; Reconciler.Tick (fun _ => 0%Z) 0].
Definition fresh_schedule : list nat := replicate 5 0 ++ replicate 20 1.
Definition fresh_run := interleave (test_oracle 1000) fresh_schedule (fresh_threads, fresh_machine).

Lemma fresh_machine_abs : machine_abs (test_oracle 1000) fresh_machine fresh_world.
Proof. split; [reflexivity|vm_compute; intros [=]|reflexivity|reflexivity]. Qed.

Lemma fresh_reached :
  exists w, csteps false (fun _ => 0%Z) 0 true ([], fresh_world) (Running <$> fresh_run.1, w) /\
    machine_abs (test_oracle 1000) fresh_run.2 w.
Proof.
  destruct (interleave_sound (test_oracle 1000) (fun _ => 0%Z) 0 true fresh_schedule fresh_threads fresh_machine
    fresh_world fresh_machine_abs) as (w & Hs & Ha).
  exists w. split; [|exact Ha]. eapply rtc_l; [apply cs_start, entry_request|].
  eapply rtc_l; [|exact Hs]. apply (cs_start _ _ _ _ (Reconciler.Tick (fun _ => 0%Z) 0) [Running submit_thread]), entry_reconciler.
Qed.

Example fresh_pods : size (MemoryStore.m_pods (mc_store fresh_run.2)) = 2.
Proof. vm_compute. reflexivity. Qed.

Lemma pods_are_instances_witness :
  exists w, size (pods (w_cluster w)) = 2 /\
    map_Forall (fun _ p => exists d, deployments (w_cluster w) !! Pod_DeploymentID p = Some d /\ instance_of d p)
      (pods (w_cluster w)).
Proof.
  destruct fresh_reached as (w & Hs & Ha). exists w. split.
  - rewrite <- (ma_store _ _ _ Ha). exact fresh_pods.
  - exact (pods_are_instances false (fun _ => 0%Z) 0 true fresh_world w (Running <$> fresh_run.1) eq_refl Hs).
Defined.
