(* ===== verification/Proxy.v ===== *)
(** * reverse-proxy-load-balancer: backends, the pool, discovery, balancers and
    health checks

    A [*Backend] is a location of a heap, so that a backend shared by two pools
    (the one before and the one after a refresh) is one object with one set of
    counters.  The atomic fields are plain fields of the heap object: every
    atomic operation is one step on the heap. *)

From S2P Require Import Prelude.
From Stdlib Require Import ZArith Lia.
From stdpp Require Import base gmap strings list.
Local Open Scope go_scope.

(** What is used of net/url: parsing, printing and three fields. *)
Class UrlLib := {
  URL : Type;
  url_Parse : string -> option URL;
  url_String : URL -> string;
  url_Scheme : URL -> string;
  url_Host : URL -> string;
  url_Path : URL -> string }.

(** ** backend.go *)

Section Backends.
Context `{UrlLib}.

Record Backend := mkBackend {
  b_Name : string;
  b_URL : URL;
  b_Weight : Z;
  b_alive : bool;
  b_activeConns : Z;
  b_totalReqs : Z;
  b_totalErrs : Z }.

Definition New (name rawURL : string) (weight : Z) : option Backend :=
  match url_Parse rawURL with
  | None => None
  | Some u => Some (mkBackend name u (if (weight <=? 0)%Z then 1 else weight) true 0 0 0)
  end.

Definition SetAlive (alive : bool) (b : Backend) : Backend :=
  mkBackend (b_Name b) (b_URL b) (b_Weight b) alive (b_activeConns b) (b_totalReqs b) (b_totalErrs b).

Definition add_conns (d : Z) (b : Backend) : Backend :=
  mkBackend (b_Name b) (b_URL b) (b_Weight b) (b_alive b) (b_activeConns b +64 d) (b_totalReqs b) (b_totalErrs b).
Definition IncConnections : Backend -> Backend := add_conns 1.
Definition DecConnections : Backend -> Backend := add_conns (-1).

Definition IncRequests (b : Backend) : Backend :=
  mkBackend (b_Name b) (b_URL b) (b_Weight b) (b_alive b) (b_activeConns b) (b_totalReqs b +64 1) (b_totalErrs b).
Definition IncErrors (b : Backend) : Backend :=
  mkBackend (b_Name b) (b_URL b) (b_Weight b) (b_alive b) (b_activeConns b) (b_totalReqs b) (b_totalErrs b +64 1).

(** ** pool.go *)

Abbreviation loc := nat (only parsing).
Abbreviation Heap := (gmap nat Backend) (only parsing).

Definition IsAlive (h : Heap) (l : loc) : bool :=
  match h !! l with Some b => b_alive b | None => false end.
Definition ActiveConnections (h : Heap) (l : loc) : Z :=
  match h !! l with Some b => b_activeConns b | None => 0 end.
Definition weight_at (h : Heap) (l : loc) : Z :=
  match h !! l with Some b => b_Weight b | None => 0 end.

(** The pool is the list of locations its atomic pointer leads to. *)
Fixpoint Healthy (h : Heap) (backends : list loc) : list loc :=
  match backends with
  | [] => []
  | b :: bs => if IsAlive h b then b :: Healthy h bs else Healthy h bs
  end.

(** ** config_provider.go *)

Record backendSpec := mkSpec { bs_Name : string; bs_URL : string; bs_Weight : Z }.

(** The heap, the pool and the provider's [known] map; [next_loc] is where the
    next backend is allocated. *)
Record Provider := mkProvider {
  pv_heap : Heap;
  pv_next : loc;
  pv_pool : list loc;
  pv_known : gmap string loc }.

(** [existing, ok := c.known[spec.Name]; ok && existing.URL.String() == spec.URL
    && existing.Weight == spec.Weight] *)
Definition reusable (h : Heap) (known : gmap string loc) (spec : backendSpec) : option loc :=
  match known !! bs_Name spec with
  | Some l =>
      match h !! l with
      | Some b => if String.eqb (url_String (b_URL b)) (bs_URL spec) && (b_Weight b =? bs_Weight spec)%Z
                  then Some l else None
      | None => None
      end
  | None => None
  end.

(** The loop over the parsed specs: heap, allocation pointer, [next], [backends]. *)
Fixpoint refresh_loop (known : gmap string loc) (specs : list backendSpec)
    (h : Heap) (nl : loc) (next : gmap string loc) (backends : list loc)
    : Heap * loc * gmap string loc * list loc :=
  match specs with
  | [] => (h, nl, next, backends)
  | spec :: specs =>
      match reusable h known spec with
      | Some l => refresh_loop known specs h nl (<[bs_Name spec := l]> next) (backends ++ [l])
      | None =>
          match New (bs_Name spec) (bs_URL spec) (bs_Weight spec) with
          | None => refresh_loop known specs h nl next backends
          | Some b => refresh_loop known specs (<[nl := b]> h) (S nl) (<[bs_Name spec := nl]> next) (backends ++ [nl])
          end
      end
  end.

(** [fetched] is the decoded answer; [None] when the request could not be built
    or sent, the status was not 200 or the body did not decode. *)
Definition refresh (fetched : option (list backendSpec)) (p : Provider) : Provider :=
  match fetched with
  | None => p
  | Some specs =>
      let '(h, nl, next, backends) := refresh_loop (pv_known p) specs (pv_heap p) (pv_next p) ∅ [] in
      mkProvider h nl backends next
  end.

(** ** balancer *)

(** [counter.Add(1) - 1] on an [atomic.Uint64]: the index and the new counter. *)
Definition counter_next (counter : Z) : Z * Z :=
  let c := uint64_wrap (counter + 1) in (uint64_wrap (c - 1), c).

(** [healthy[idx % uint64(len(healthy))]] *)
Definition at_index (idx : Z) (healthy : list loc) : option loc :=
  healthy !! Z.to_nat (idx mod Z.of_nat (length healthy)).

Definition RoundRobin_Next (h : Heap) (pool : list loc) (counter : Z) : option loc * Z :=
  let healthy := Healthy h pool in
  match healthy with
  | [] => (None, counter)
  | _ => let '(idx, counter') := counter_next counter in (at_index idx healthy, counter')
  end.

Definition total_weight (h : Heap) (healthy : list loc) : Z :=
  foldl (fun acc l => acc +64 weight_at h l) 0%Z healthy.

(** The loop over the cumulative weights. *)
Fixpoint weighted_pick (h : Heap) (pos cumulative : Z) (healthy : list loc) : option loc :=
  match healthy with
  | [] => None
  | b :: bs =>
      let cumulative := cumulative +64 weight_at h b in
      if (pos <? uint64_wrap cumulative)%Z then Some b else weighted_pick h pos cumulative bs
  end.

Definition Weighted_Next (h : Heap) (pool : list loc) (counter : Z) : option loc * Z :=
  let healthy := Healthy h pool in
  match healthy with
  | [] => (None, counter)
  | _ =>
      let totalWeight := total_weight h healthy in
      let '(idx, counter') := counter_next counter in
      if (totalWeight <=? 0)%Z then (at_index idx healthy, counter')
      else
        match weighted_pick h (idx mod uint64_wrap totalWeight) 0 healthy with
        | Some b => (Some b, counter')
        | None => (last healthy, counter')
        end
  end.

Definition least_of (h : Heap) (best : loc) (healthy : list loc) : loc :=
  foldl (fun best b => if (ActiveConnections h b <? ActiveConnections h best)%Z then b else best) best healthy.

Definition LeastConn_Next (h : Heap) (pool : list loc) (s : unit) : option loc * unit :=
  match Healthy h pool with
  | [] => (None, s)
  | best :: rest => (Some (least_of h best rest), s)
  end.

(** The balancers [balancer.New] constructs, with their state. *)
Inductive AnyBalancer :=
| RoundRobin (counter : Z) | LeastConn | WeightedRoundRobin (counter : Z).

Definition NewBalancer (strategy : string) : option AnyBalancer :=
  if String.eqb strategy EmptyString || String.eqb strategy "round_robin" then Some (RoundRobin 0)
  else if String.eqb strategy "least_conn" then Some LeastConn
  else if String.eqb strategy "weighted_round_robin" then Some (WeightedRoundRobin 0)
  else None.

Definition AnyBalancer_Next (h : Heap) (pool : list loc) (b : AnyBalancer) : option loc * AnyBalancer :=
  match b with
  | RoundRobin c => let '(r, c') := RoundRobin_Next h pool c in (r, RoundRobin c')
  | LeastConn => let '(r, _) := LeastConn_Next h pool tt in (r, LeastConn)
  | WeightedRoundRobin c => let '(r, c') := Weighted_Next h pool c in (r, WeightedRoundRobin c')
  end.

(** What the proxy handler relies on: [Next] returns a healthy backend of the
    pool, and fails only when there is none. *)
Class Balancer (S : Type) := {
  balancer_next : Heap -> list loc -> S -> option loc * S;
  balancer_healthy : forall h pool s,
    match (balancer_next h pool s).1 with
    | Some l => l ∈ Healthy h pool
    | None => Healthy h pool = []
    end }.

(** ** health/checker.go *)

(** The thresholds of a [Checker]; its pool, counters and probes' results are
    arguments below, and its path, interval, timeout and client only matter for
    sending probes. *)
Record Checker := mkChecker { unhealthyThreshold : Z; healthyThreshold : Z }.

(** The thresholds [health.New] installs. *)
Definition NewChecker (unhealthy healthy : Z) : Checker :=
  mkChecker (if (unhealthy <=? 0)%Z then 1 else unhealthy) (if (healthy <=? 0)%Z then 1 else healthy).

Definition count_at (counts : gmap string Z) (name : string) : Z := default 0%Z (counts !! name).

(** The counters and the backend after the check, and the arguments of the
    [onStatusChange] callback. *)
Definition recordSuccess (c : Checker) (counts : gmap string Z) (b : Backend)
    : gmap string Z * Backend * (string * bool) :=
  let n := count_at counts (b_Name b) in
  let n := (if (n <? 0)%Z then 0%Z else n) +64 1 in
  let counts := <[b_Name b := n]> counts in
  let b := if (healthyThreshold c <=? n)%Z then SetAlive true b else b in
  (counts, b, (b_Name b, b_alive b)).

Definition recordFailure (c : Checker) (counts : gmap string Z) (b : Backend)
    : gmap string Z * Backend * (string * bool) :=
  let n := count_at counts (b_Name b) in
  let n := (if (0 <? n)%Z then 0%Z else n) -64 1 in
  let counts := <[b_Name b := n]> counts in
  let consecutive := int64_wrap (- n) in
  let b := if (unhealthyThreshold c <=? consecutive)%Z then SetAlive false b else b in
  (counts, b, (b_Name b, b_alive b)).

(** The outcome of one probe: no answer, or an answer with a status code. *)
Definition check (c : Checker) (answer : option Z) (counts : gmap string Z) (b : Backend)
    : gmap string Z * Backend * (string * bool) :=
  match answer with
  | None => recordFailure c counts b
  | Some status => if ((200 <=? status) && (status <? 300))%Z then recordSuccess c counts b
                   else recordFailure c counts b
  end.
(** A check of the backend at [l]: the counters and the heap after it. *)
Definition check_at (c : Checker) (st : gmap string Z * Heap) (probe : loc * option Z)
    : gmap string Z * Heap :=
  let '(counts, h) := st in
  let '(l, answer) := probe in
  match h !! l with
  | None => st
  | Some b => let '(counts, b, _) := check c answer counts b in (counts, <[l := b]> h)
  end.

(** One round of checks: [completions] are the backends of the pool with their
    answers, in the order in which their goroutines record them. *)
Definition checkAll (c : Checker) (completions : list (loc * option Z)) (st : gmap string Z * Heap)
    : gmap string Z * Heap :=
  foldl (check_at c) st completions.
End Backends.
