(* ===== verification/ProxyProperties.v ===== *)
(** * Fairness of the balancers, debouncing of health checks, stability of
    discovery *)

From S2P Require Import Prelude Proxy.
From Stdlib Require Import ZArith Lia.
From stdpp Require Import base gmap strings list.
Local Open Scope go_scope.

(** ** Cyclic access *)

(** Reading a list cyclically, once around, from any start. *)
Definition around {A} (l : list A) (c : Z) : list (option A) :=
  (fun i => l !! Z.to_nat ((c + Z.of_nat i) mod Z.of_nat (length l))) <$> seq 0 (length l).

Lemma around_rotation {A} (l : list A) c :
  l <> [] -> around l c = Some <$> (drop (Z.to_nat (c mod Z.of_nat (length l))) l ++
                                    take (Z.to_nat (c mod Z.of_nat (length l))) l).
Proof.
  intros Hl. set (n := Z.of_nat (length l)). set (r := Z.to_nat (c mod n)).
  assert (Hn : (0 < n)%Z) by (destruct l; [done|unfold n; cbn; lia]).
  pose proof (Z.mod_pos_bound c n Hn) as Hr.
  assert (Hrz : Z.of_nat r = (c mod n)%Z) by (unfold r; lia).
  apply list_eq. intros i. unfold around. rewrite !list_lookup_fmap. fold n.
  destruct (decide (i < length l)) as [Hi|Hi].
  - rewrite lookup_seq_lt by done. cbn [option_fmap option_map fmap].
    assert (Hm : ((c + Z.of_nat i) mod n = if decide (i < length l - r)%nat then Z.of_nat (r + i) else Z.of_nat (r + i) - n)%Z).
    { rewrite Z.add_mod, (Z.mod_small (Z.of_nat i)) by (unfold n; lia). rewrite <- Hrz.
      case_decide.
      - rewrite Z.mod_small; unfold n in *; lia.
      - replace (Z.of_nat r + Z.of_nat i)%Z with ((Z.of_nat (r + i) - n) + 1 * n)%Z by lia.
        rewrite Z.mod_add by lia. apply Z.mod_small. unfold n in *. lia. }
    cbn [Nat.add]. rewrite Hm. case_decide.
    + rewrite Nat2Z.id, lookup_app_l by (rewrite length_drop; lia).
      rewrite lookup_drop. destruct (l !! (r + i)) eqn:E; [done|].
      apply lookup_ge_None in E. unfold n in *. lia.
    + rewrite lookup_app_r, length_drop by (rewrite length_drop; lia).
      replace (Z.to_nat (Z.of_nat (r + i) - n)) with (i - (length l - r)) by (unfold n; lia).
      rewrite lookup_take_lt by (unfold n in *; lia).
      destruct (l !! (i - (length l - r))) eqn:E; [done|]. apply lookup_ge_None in E. lia.
  - rewrite (proj2 (lookup_ge_None _ _)) by (rewrite length_seq; lia).
    rewrite (proj2 (lookup_ge_None _ _)); [done|]. rewrite length_app, length_drop, length_take. lia.
Qed.

Lemma around_perm {A} (l : list A) c : l <> [] -> around l c ≡ₚ (Some <$> l).
Proof.
  intros Hl. rewrite around_rotation by done. apply fmap_Permutation.
  set (r := Z.to_nat _). rewrite <- (take_drop r l) at 3. apply Permutation_app_comm.
Qed.

Lemma counter_next_spec c :
  (0 <= c < 2 ^ 64)%Z -> counter_next c = (c, uint64_wrap (c + 1)).
Proof.
  intros Hc. unfold counter_next. f_equal. unfold uint64_wrap.
  rewrite Zminus_mod_idemp_l. replace (c + 1 - 1)%Z with c by lia. by apply Z.mod_small.
Qed.

(** The results of [k] consecutive calls. *)
Fixpoint calls {S R} (next : S -> R * S) (k : nat) (s : S) : list R :=
  match k with
  | O => []
  | Datatypes.S k => (next s).1 :: calls next k (next s).2
  end.

(** Calls of a step that returns [f c] and moves the counter on. *)
Lemma calls_counter {R} (next : Z -> R * Z) (f : Z -> R) k c :
  (forall c, (0 <= c < 2 ^ 64)%Z -> next c = (f c, uint64_wrap (c + 1))) ->
  (0 <= c)%Z -> (c + Z.of_nat k <= 2 ^ 64)%Z ->
  calls next k c = (fun i => f (c + Z.of_nat i)%Z) <$> seq 0 k.
Proof.
  intros Hnext Hc. revert c Hc. induction k as [|k IH]; intros c Hc Hk; [done|].
  cbn [calls]. rewrite Hnext by lia. cbn [fst snd]. cbn [seq]. rewrite fmap_cons, Z.add_0_r. f_equal.
  destruct k as [|k]; [done|]. rewrite uint64_wrap_id by lia. rewrite IH by lia.
  rewrite <- fmap_S_seq, <- list_fmap_compose. apply list_fmap_ext. intros i x _. cbn. f_equal. lia.
Qed.

Section Balancers.
Context `{UrlLib}.

Lemma Healthy_filter (h : gmap nat Backend) pool : Healthy h pool = filter (fun l => IsAlive h l = true) pool.
Proof.
  induction pool as [|l pool IH]; [done|]. cbn [Healthy]. rewrite filter_cons, IH.
  by destruct (IsAlive h l).
Qed.

Lemma RoundRobin_step h pool c :
  Healthy h pool <> [] -> (0 <= c < 2 ^ 64)%Z ->
  RoundRobin_Next h pool c = (at_index c (Healthy h pool), uint64_wrap (c + 1)).
Proof.
  intros Hh Hc. unfold RoundRobin_Next. rewrite counter_next_spec by done.
  by destruct (Healthy h pool).
Qed.

(** *** Weighted *)

(** Every backend as often as its weight says. *)
Definition expanded (h : gmap nat Backend) (healthy : list nat) : list nat :=
  healthy ≫= (fun l => replicate (Z.to_nat (weight_at h l)) l).

Definition weight_sum (h : gmap nat Backend) (healthy : list nat) : Z :=
  foldr (fun l acc => weight_at h l + acc)%Z 0%Z healthy.

Lemma weight_sum_nonneg h healthy :
  Forall (fun l => 0 < weight_at h l)%Z healthy -> (0 <= weight_sum h healthy)%Z.
Proof. unfold weight_sum. induction 1; cbn [foldr]; lia. Qed.

Lemma expanded_length h healthy :
  Forall (fun l => 0 < weight_at h l)%Z healthy ->
  Z.of_nat (length (expanded h healthy)) = weight_sum h healthy.
Proof.
  induction 1 as [|l ls Hl _ IH]; [done|]. unfold expanded in *.
  rewrite bind_cons, length_app, length_replicate. cbn [weight_sum foldr]. fold (weight_sum h ls). lia.
Qed.

Lemma total_weight_sum h healthy :
  Forall (fun l => 0 < weight_at h l)%Z healthy -> (weight_sum h healthy <= max_int64)%Z ->
  total_weight h healthy = weight_sum h healthy.
Proof.
  intros Hpos Hmax. unfold total_weight.
  cut (forall acc, (0 <= acc)%Z -> (acc + weight_sum h healthy <= max_int64)%Z ->
    foldl (fun acc l => acc +64 weight_at h l) acc healthy = (acc + weight_sum h healthy)%Z).
  { intros Hc. rewrite Hc; lia. }
  clear Hmax. induction Hpos as [|l ls Hl Hls IH]; intros acc Ha Hm; cbn [foldl weight_sum foldr] in *; [lia|].
  pose proof (weight_sum_nonneg h ls Hls). fold (weight_sum h ls) in *.
  rewrite int64_wrap_id by (unfold in_int64, min_int64; lia). rewrite IH; lia.
Qed.

Lemma weighted_pick_spec h healthy pos cum :
  Forall (fun l => 0 < weight_at h l)%Z healthy ->
  (0 <= cum <= pos)%Z -> (cum + weight_sum h healthy <= max_int64)%Z ->
  weighted_pick h pos cum healthy = expanded h healthy !! Z.to_nat (pos - cum).
Proof.
  intros Hpos. revert cum. induction Hpos as [|l ls Hl Hls IH]; intros cum Hc Hm; [done|].
  cbn [weighted_pick]. pose proof (weight_sum_nonneg h ls Hls). cbn [weight_sum foldr] in Hm.
  fold (weight_sum h ls) in Hm. unfold max_int64 in *.
  rewrite int64_wrap_id by (unfold in_int64, min_int64, max_int64; lia).
  rewrite uint64_wrap_id by lia. unfold expanded. rewrite bind_cons.
  destruct (Z.ltb_spec pos (cum + weight_at h l)) as [Hlt|Hge].
  - rewrite lookup_app_l by (rewrite length_replicate; lia).
    rewrite lookup_replicate_2; [done|lia].
  - rewrite lookup_app_r, length_replicate by (rewrite length_replicate; lia).
    rewrite IH by lia. unfold expanded. f_equal. lia.
Qed.

Lemma Weighted_step h pool c :
  Healthy h pool <> [] -> Forall (fun l => 0 < weight_at h l)%Z (Healthy h pool) ->
  (weight_sum h (Healthy h pool) <= max_int64)%Z -> (0 <= c < 2 ^ 64)%Z ->
  Weighted_Next h pool c =
    (expanded h (Healthy h pool) !!
       Z.to_nat (c mod Z.of_nat (length (expanded h (Healthy h pool)))), uint64_wrap (c + 1)).
Proof.
  intros Hh Hpos Hmax Hc. unfold Weighted_Next. rewrite counter_next_spec by done.
  rewrite expanded_length, total_weight_sum by done.
  assert (Hs : (0 < weight_sum h (Healthy h pool))%Z).
  { destruct Hpos as [|l ls Hl Hls]; [done|]. pose proof (weight_sum_nonneg h ls Hls).
    cbn [weight_sum foldr]. fold (weight_sum h ls). lia. }
  destruct (Healthy h pool) as [|l ls] eqn:E; [done|]. rewrite <- E in *.
  destruct (Z.leb_spec (weight_sum h (Healthy h pool)) 0) as [|_]; [lia|].
  unfold max_int64 in *. rewrite uint64_wrap_id by lia.
  pose proof (Z.mod_pos_bound c (weight_sum h (Healthy h pool)) Hs).
  rewrite weighted_pick_spec by (unfold max_int64; try done; lia). rewrite Z.sub_0_r.
  destruct (expanded h (Healthy h pool) !! _) eqn:El; [done|].
  apply lookup_ge_None in El. pose proof (expanded_length h _ Hpos). lia.
Qed.

(** *** Least connections *)

Lemma least_of_spec h best rest :
  exists i, (best :: rest) !! i = Some (least_of h best rest) /\
    forall j l, (best :: rest) !! j = Some l ->
      (ActiveConnections h (least_of h best rest) <= ActiveConnections h l)%Z /\
      (j < i -> (ActiveConnections h (least_of h best rest) < ActiveConnections h l)%Z).
Proof.
  unfold least_of. induction rest as [|b rest IH] using rev_ind.
  { exists 0. split; [done|]. intros [|j] l Hl; [|done]. injection Hl as <-. split; [apply Z.le_refl|intros Hlt; lia]. }
  rewrite foldl_app. cbn [foldl]. destruct IH as (i & Hi & Hall).
  set (m := foldl _ best rest) in *.
  destruct (Z.ltb_spec (ActiveConnections h b) (ActiveConnections h m)) as [Hlt|Hge].
  - exists (length (best :: rest)). rewrite app_comm_cons. split; [by apply list_lookup_middle|].
    intros j l Hl. apply lookup_app_Some in Hl as [Hl|[Hge Hl]].
    + destruct (Hall j l Hl). split; [lia|]. intros _. lia.
    + apply list_lookup_singleton_Some in Hl as [Hj <-]. split; [lia|]. intros. lia.
  - exists i. rewrite app_comm_cons. split; [by apply lookup_app_l_Some|].
    intros j l Hl. apply lookup_app_Some in Hl as [Hl|[Hge' Hl]]; [by apply Hall|].
    apply list_lookup_singleton_Some in Hl as [Hj <-]. split; [done|].
    intros Hji. apply lookup_lt_Some in Hi. lia.
Qed.

(** *** The interface *)

Lemma at_index_elem idx (l : list nat) : l <> [] -> exists x, at_index idx l = Some x /\ x ∈ l.
Proof.
  intros Hl. unfold at_index.
  destruct (lookup_lt_is_Some_2 l (Z.to_nat (idx mod Z.of_nat (length l)))) as [x Hx].
  { destruct l; [done|]. pose proof (Z.mod_pos_bound idx (Z.of_nat (length (n :: l)))) as Hm.
    cbn [length] in *. lia. }
  exists x. split; [done|]. by eapply list_elem_of_lookup_2.
Qed.

Lemma weighted_pick_elem h pos cum ls x : weighted_pick h pos cum ls = Some x -> x ∈ ls.
Proof.
  revert cum. induction ls as [|l ls IH]; intros cum; [done|]. cbn [weighted_pick].
  case_one; [intros [= <-]; left|]. intros Hx. right. by eapply IH.
Qed.

Lemma RoundRobin_healthy h pool c :
  match (RoundRobin_Next h pool c).1 with Some l => l ∈ Healthy h pool | None => Healthy h pool = [] end.
Proof.
  unfold RoundRobin_Next. destruct (Healthy h pool) as [|l ls] eqn:E; [done|].
  destruct (counter_next c) as [idx c']. cbn [fst].
  destruct (at_index_elem idx (l :: ls)) as (x & -> & Hx); done.
Qed.

Lemma Weighted_healthy h pool c :
  match (Weighted_Next h pool c).1 with Some l => l ∈ Healthy h pool | None => Healthy h pool = [] end.
Proof.
  unfold Weighted_Next. destruct (Healthy h pool) as [|l ls] eqn:E; [done|].
  destruct (counter_next c) as [idx c']. case_one.
  - cbn [fst]. destruct (at_index_elem idx (l :: ls)) as (x & -> & Hx); done.
  - destruct (weighted_pick _ _ _ _) as [x|] eqn:Ew; cbn [fst]; [by eapply weighted_pick_elem|].
    destruct (last (l :: ls)) as [x|] eqn:El; [by apply last_Some_elem_of|]. by apply last_None in El.
Qed.

Lemma LeastConn_healthy h pool s :
  match (LeastConn_Next h pool s).1 with Some l => l ∈ Healthy h pool | None => Healthy h pool = [] end.
Proof.
  unfold LeastConn_Next. destruct (Healthy h pool) as [|best rest] eqn:E; [done|]. cbn [fst].
  destruct (least_of_spec h best rest) as (i & Hi & _). by eapply list_elem_of_lookup_2.
Qed.

#[global] Program Instance any_balancer : Balancer AnyBalancer := {| balancer_next := AnyBalancer_Next |}.
Next Obligation.
  intros h pool [c| |c]; unfold AnyBalancer_Next.
  - pose proof (RoundRobin_healthy h pool c). by destruct (RoundRobin_Next h pool c).
  - pose proof (LeastConn_healthy h pool tt). by destruct (LeastConn_Next h pool tt).
  - pose proof (Weighted_healthy h pool c). by destruct (Weighted_Next h pool c).
Qed.
End Balancers.

(** ** Health checks *)

Section Health.
Context `{UrlLib}.

(** Whether the checker counts a probe as a success. *)
Definition succeeded (answer : option Z) : bool :=
  match answer with Some status => ((200 <=? status) && (status <? 300))%Z | None => false end.

Lemma check_cases c answer counts b :
  check c answer counts b = if succeeded answer then recordSuccess c counts b else recordFailure c counts b.
Proof. destruct answer as [s|]; [|done]. unfold check, succeeded. by destruct (_ && _). Qed.

(** The length of the run of outcomes [o] at the end of a history (the most
    recent answer comes first). *)
Fixpoint trailing (o : bool) (recent : list (option Z)) : nat :=
  match recent with
  | [] => 0
  | a :: recent => if Bool.eqb (succeeded a) o then S (trailing o recent) else 0
  end.

Lemma trailing_le o recent : trailing o recent <= length recent.
Proof. induction recent as [|a recent IH]; cbn; [done|]. destruct (Bool.eqb (succeeded a) o); lia. Qed.

(** A backend checked from the start, most recent answer first. *)
Fixpoint probed (c : Checker) (recent : list (option Z)) (b : Backend) : gmap string Z * Backend :=
  match recent with
  | [] => (∅, b)
  | answer :: recent => (check c answer (probed c recent b).1 (probed c recent b).2).1
  end.

Lemma probed_name c recent b : b_Name (probed c recent b).2 = b_Name b.
Proof.
  induction recent as [|a recent IH]; [done|]. cbn [probed]. rewrite check_cases.
  unfold recordSuccess, recordFailure. destruct (succeeded a); cbn [fst snd]; repeat case_one; exact IH.
Qed.

Lemma probed_count c recent b :
  (Z.of_nat (length recent) <= max_int64)%Z ->
  count_at (probed c recent b).1 (b_Name b) =
    (Z.of_nat (trailing true recent) - Z.of_nat (trailing false recent))%Z.
Proof.
  unfold max_int64. induction recent as [|a recent IH]; intros Hlen; [done|].
  cbn [length] in *. specialize (IH ltac:(lia)).
  pose proof (probed_name c recent b) as Hn. pose proof (trailing_le true recent).
  pose proof (trailing_le false recent).
  assert (Hex : trailing true recent = 0 \/ trailing false recent = 0).
  { destruct recent as [|a' ?]; cbn; [auto|]. destruct (succeeded a'); cbn; auto. }
  cbn [probed trailing] in *. rewrite check_cases in *. unfold recordSuccess, recordFailure in *.
  destruct (succeeded a); cbn [fst snd Bool.eqb] in *; rewrite Hn; unfold count_at at 1; rewrite lookup_insert_eq;
    cbn [default id]; rewrite IH; case_one;
    rewrite int64_wrap_id by (unfold in_int64, min_int64, max_int64; lia);
    (apply Z.ltb_lt in Heqb0 || apply Z.ltb_ge in Heqb0); lia.
Qed.

Lemma probed_alive c a recent b :
  (Z.of_nat (length recent) < max_int64)%Z ->
  b_alive (probed c (a :: recent) b).2 =
    if succeeded a
    then b_alive (probed c recent b).2 || (healthyThreshold c <=? Z.of_nat (trailing true (a :: recent)))%Z
    else b_alive (probed c recent b).2 && negb (unhealthyThreshold c <=? Z.of_nat (trailing false (a :: recent)))%Z.
Proof.
  intros Hlen. pose proof (probed_count c (a :: recent) b ltac:(cbn [length]; lia)) as Hc.
    pose proof (trailing_le true recent). pose proof (trailing_le false recent).
  cbn [probed trailing] in *. rewrite check_cases in *. unfold recordSuccess, recordFailure in *.
  rewrite (probed_name c recent) in *.
  destruct (succeeded a); cbn [fst snd Bool.eqb] in *; unfold count_at at 1 in Hc;
    rewrite lookup_insert_eq in Hc; cbn [default id] in Hc; change (Z.of_nat 0) with 0%Z in Hc; rewrite Hc;
    unfold max_int64 in *.
  - rewrite Z.sub_0_r. case_one; [by rewrite orb_true_r|by rewrite orb_false_r].
  - replace (- (0 - Z.of_nat (S (trailing false recent))))%Z with (Z.of_nat (S (trailing false recent))) by lia.
    rewrite int64_wrap_id by (unfold in_int64, min_int64, max_int64; lia).
    case_one; [by rewrite andb_false_r|by rewrite andb_true_r].
Qed.
End Health.

(** ** Discovery *)

Section Discovery.
Context `{UrlLib}.

(** Locations are allocated below [pv_next] and the known backends exist. *)
Record provider_wf (p : Provider) : Prop := {
  pw_heap : forall l, is_Some (pv_heap p !! l) -> l < pv_next p;
  pw_known : forall name l, pv_known p !! name = Some l ->
    exists b, pv_heap p !! l = Some b /\ b_Name b = name }.

(** How a spec is served: by the backend known under its name when URL and
    weight are unchanged, otherwise by a new one. *)
Definition serves (p : Provider) (h' : gmap nat Backend) (spec : backendSpec) (l : nat) : Prop :=
  match reusable (pv_heap p) (pv_known p) spec with
  | Some l0 => l = l0
  | None => pv_next p <= l /\ exists b, New (bs_Name spec) (bs_URL spec) (bs_Weight spec) = Some b /\ h' !! l = Some b
  end.

(** The specs that yield a backend. *)
Definition accepted (p : Provider) (spec : backendSpec) : bool :=
  match reusable (pv_heap p) (pv_known p) spec with
  | Some _ => true
  | None => match New (bs_Name spec) (bs_URL spec) (bs_Weight spec) with Some _ => true | None => false end
  end.

Lemma reusable_old p h' nl spec :
  provider_wf p -> pv_next p <= nl -> (forall l, l < pv_next p -> h' !! l = pv_heap p !! l) ->
  reusable h' (pv_known p) spec = reusable (pv_heap p) (pv_known p) spec.
Proof.
  intros Hwf Hnl Hold. unfold reusable. destruct (pv_known p !! bs_Name spec) as [l|] eqn:E; [|done].
  destruct (pw_known _ Hwf _ _ E) as (b & Hb & _). rewrite Hold; [done|]. apply (pw_heap _ Hwf). by rewrite Hb.
Qed.

(** State of the loop: nothing old was touched, and the backends serve the
    accepted specs in order. *)
Record refreshing (p : Provider) (specs : list backendSpec) (h : gmap nat Backend) (nl : nat)
    (next : gmap string nat) (bs : list nat) : Prop := {
  rf_nl : pv_next p <= nl;
  rf_old : forall l, l < pv_next p -> h !! l = pv_heap p !! l;
  rf_bound : forall l, is_Some (h !! l) -> l < nl;
  rf_next : forall name l, next !! name = Some l -> exists b, h !! l = Some b /\ b_Name b = name;
  rf_serve : Forall2 (serves p h) (filter (fun s => accepted p s = true) specs) bs }.

Lemma serves_grow p h nl b spec l :
  nl ∉ dom h -> serves p h spec l -> serves p (<[nl := b]> h) spec l.
Proof.
  intros Hnl. unfold serves. destruct (reusable _ _ spec); [done|].
  intros (Hle & b0 & Hb0 & Hl). split; [done|]. exists b0. split; [done|].
  rewrite lookup_insert_ne; [done|]. intros ->. apply Hnl, elem_of_dom. eauto.
Qed.

Lemma refresh_loop_spec p specs done_ h nl next bs h' nl' next' bs' :
  provider_wf p -> refreshing p done_ h nl next bs ->
  refresh_loop (pv_known p) specs h nl next bs = (h', nl', next', bs') ->
  refreshing p (done_ ++ specs) h' nl' next' bs'.
Proof.
  intros Hwf. revert done_ h nl next bs. induction specs as [|spec specs IH]; intros done_ h nl next bs HI Hl.
  { cbn in Hl. injection Hl as <- <- <- <-. by rewrite app_nil_r. }
  cbn [refresh_loop] in Hl. rewrite cons_middle, app_assoc.
  destruct HI as [Hnl Hold Hbd Hnext Hserve].
  rewrite (reusable_old p h nl spec Hwf Hnl Hold) in Hl.
  destruct (reusable (pv_heap p) (pv_known p) spec) as [l|] eqn:Er.
  - eapply IH, Hl. split; try done.
    + intros name l' [[<- <-]|[_ ?]]%lookup_insert_Some; [|by apply Hnext].
      revert Er. unfold reusable. destruct (pv_known p !! bs_Name spec) as [l0|] eqn:Ek; [|done].
      destruct (pw_known _ Hwf _ _ Ek) as (b & Hb & Hn). rewrite Hb. case_one; [|done]. intros [= <-].
      exists b. rewrite Hold; [done|]. apply (pw_heap _ Hwf). by rewrite Hb.
    + assert (Hacc : accepted p spec = true) by (unfold accepted; by rewrite Er).
      rewrite filter_app, filter_cons, filter_nil, decide_True by done. apply Forall2_app; [done|]. constructor; [|done]. unfold serves. by rewrite Er.
  - destruct (New (bs_Name spec) (bs_URL spec) (bs_Weight spec)) as [b|] eqn:En.
    + assert (Hfresh : nl ∉ dom h) by (intros Hd%elem_of_dom; apply Hbd in Hd; lia).
      eapply IH, Hl. split.
      * lia.
      * intros l Hlt. rewrite lookup_insert_ne by lia. by apply Hold.
      * intros l [x [[<- _]|[_ Hx]]%lookup_insert_Some]; [lia|]. apply Nat.lt_lt_succ_r, Hbd. eauto.
      * intros name l [[<- <-]|[_ Hnm]]%lookup_insert_Some.
        -- exists b. rewrite lookup_insert_eq. split; [done|]. unfold New in En.
           destruct (url_Parse _); [|done]. by injection En as <-.
        -- destruct (Hnext _ _ Hnm) as (b0 & Hb0 & ?). exists b0. split; [|done].
           rewrite lookup_insert_ne; [done|]. intros ->. apply Hfresh, elem_of_dom. eauto.
      * assert (Hacc : accepted p spec = true) by (unfold accepted; by rewrite Er, En).
        rewrite filter_app, filter_cons, filter_nil, decide_True by done. apply Forall2_app.
        -- eapply Forall2_impl; [exact Hserve|]. intros. by apply serves_grow.
        -- constructor; [|done]. unfold serves. rewrite Er. split; [done|]. exists b. by rewrite lookup_insert_eq.
    + eapply IH, Hl. split; try done.
      assert (Hacc : accepted p spec <> true) by (unfold accepted; by rewrite Er, En).
      rewrite filter_app, filter_cons, filter_nil, decide_False by done. by rewrite app_nil_r.
Qed.

Lemma refresh_spec p specs :
  provider_wf p ->
  let p' := refresh (Some specs) p in
  refreshing p specs (pv_heap p') (pv_next p') (pv_known p') (pv_pool p').
Proof.
  intros Hwf. cbn. destruct (refresh_loop (pv_known p) specs (pv_heap p) (pv_next p) ∅ []) as [[[h nl] next] bs] eqn:E.
  cbn. eapply (refresh_loop_spec p specs []); [done| |exact E]. split; try done.
  apply (pw_heap _ Hwf).
Qed.
End Discovery.

(** ** Properties *)

Section Properties.
Context `{UrlLib}.

(** Round robin is exactly fair: in any window of as many calls as there are
    healthy backends, starting anywhere, each healthy backend is returned exactly
    once (as long as the counter does not wrap inside the window). *)
Theorem RoundRobin_fair (h : gmap nat Backend) (pool : list nat) (counter : Z) :
  let healthy := Healthy h pool in
  healthy <> [] -> (0 <= counter)%Z -> (counter + Z.of_nat (length healthy) <= 2 ^ 64)%Z ->
  calls (RoundRobin_Next h pool) (length healthy) counter ≡ₚ (Some <$> healthy).
Proof.
  intros healthy Hh Hc Hw. subst healthy.
  rewrite (calls_counter _ (fun c => at_index c (Healthy h pool))); [|by intros; apply RoundRobin_step|done|done].
  by apply around_perm.
Qed.

(** C32: Weighted round robin is exactly proportional: in any window of as many
    calls as the healthy weights add up to, each healthy backend is returned
    exactly as often as its weight says. *)
Theorem Weighted_fair (h : gmap nat Backend) (pool : list nat) (counter : Z) :
  let healthy := Healthy h pool in
  healthy <> [] -> Forall (fun l => 0 < weight_at h l)%Z healthy ->
  (weight_sum h healthy <= max_int64)%Z ->
  (0 <= counter)%Z -> (counter + weight_sum h healthy <= 2 ^ 64)%Z ->
  calls (Weighted_Next h pool) (Z.to_nat (weight_sum h healthy)) counter ≡ₚ
    (Some <$> (healthy ≫= fun l => replicate (Z.to_nat (weight_at h l)) l)).
Proof.
  intros healthy Hh Hpos Hmax Hc Hw. subst healthy.
  pose proof (expanded_length h _ Hpos) as Hlen. fold (expanded h (Healthy h pool)).
  rewrite (calls_counter _ (fun c => expanded h (Healthy h pool) !!
    Z.to_nat (c mod Z.of_nat (length (expanded h (Healthy h pool)))))); [|by intros; apply Weighted_step|done|lia].
  rewrite <- Hlen, Nat2Z.id. apply around_perm. intros He. rewrite He in Hlen. cbn in Hlen.
  destruct Hpos as [|l ls Hl Hls]; [done|]. pose proof (weight_sum_nonneg h ls Hls).
  cbn [weight_sum foldr] in Hlen. fold (weight_sum h ls) in Hlen. lia.
Qed.

(** Least connections returns the first of the healthy backends with the
    fewest requests in flight, and fails only when no backend is healthy. *)
Theorem LeastConn_correct (h : gmap nat Backend) (pool : list nat) :
  match (LeastConn_Next h pool tt).1 with
  | None => Healthy h pool = []
  | Some b => exists i, Healthy h pool !! i = Some b /\
      forall j l, Healthy h pool !! j = Some l ->
        (ActiveConnections h b <= ActiveConnections h l)%Z /\
        (j < i -> (ActiveConnections h b < ActiveConnections h l)%Z)
  end.
Proof.
  unfold LeastConn_Next. destruct (Healthy h pool) as [|best rest]; [done|]. apply least_of_spec.
Qed.

(** Health checks are debounced: an answer in the 200s makes a backend
    healthy exactly when it was healthy or the run of successes it ends has
    reached the healthy threshold; anything else leaves it healthy exactly when
    it was and the run of failures it ends is still below the unhealthy
    threshold.  The callback is told the backend's state after the check. *)
Theorem checker_debounced (c : Checker) (answer : option Z) (recent : list (option Z)) (b : Backend) :
  (Z.of_nat (length recent) < max_int64)%Z ->
  let before := b_alive (probed c recent b).2 in
  let '(_, b', callback) := check c answer (probed c recent b).1 (probed c recent b).2 in
  (succeeded answer = true ->
     b_alive b' = true <-> before = true \/ (healthyThreshold c <= Z.of_nat (trailing true (answer :: recent)))%Z) /\
  (succeeded answer = false ->
     b_alive b' = true <-> before = true /\ (Z.of_nat (trailing false (answer :: recent)) < unhealthyThreshold c)%Z) /\
  callback = (b_Name b, b_alive b').
Proof.
  intros Hlen before. pose proof (probed_alive c answer recent b Hlen) as Ha.
  pose proof (probed_name c (answer :: recent) b) as Hn. cbn [probed] in Ha, Hn.
  assert (Hcb : (check c answer (probed c recent b).1 (probed c recent b).2).2 =
    let b' := (check c answer (probed c recent b).1 (probed c recent b).2).1.2 in (b_Name b', b_alive b')).
  { rewrite check_cases. by destruct (succeeded answer). }
  destruct (check c answer _ _) as [[counts b'] callback]. cbn [fst snd] in *. subst before. rewrite Ha.
  split_and!; [intros -> .. |by rewrite Hcb, Hn, Ha].
  - rewrite orb_true_iff, Z.leb_le. done.
  - rewrite andb_true_iff, negb_true_iff, Z.leb_gt. done.
Qed.

(** A refresh installs exactly the backends of the fetched list, in order: a
    backend whose name, URL and weight are unchanged is the same object, with its
    health and counters, every other accepted entry is a new healthy one;
    no existing backend is modified, and a failed fetch changes nothing. *)
Theorem refresh_correct (p : Provider) (fetched : option (list backendSpec)) :
  provider_wf p ->
  provider_wf (refresh fetched p) /\
  (forall l b, pv_heap p !! l = Some b -> pv_heap (refresh fetched p) !! l = Some b) /\
  match fetched with
  | None => refresh fetched p = p
  | Some specs => Forall2 (serves p (pv_heap (refresh fetched p)))
      (filter (fun s => accepted p s = true) specs) (pv_pool (refresh fetched p))
  end.
Proof.
  intros Hwf. destruct fetched as [specs|]; [|done].
  destruct (refresh_spec p specs Hwf) as [Hnl Hold Hbd Hnext Hserve]. split_and!.
  - split; [exact Hbd|exact Hnext].
  - intros l b Hl. rewrite Hold; [done|]. apply (pw_heap _ Hwf). by rewrite Hl.
  - done.
Qed.
End Properties.

(** ** A small pool *)

Module ToyUrl.
(** URLs that are their own text; the empty text does not parse. *)
#[global] Instance toy_url : UrlLib := {|
  URL := string;
  url_Parse s := if String.eqb s EmptyString then None else Some s;
  url_String u := u;
  url_Scheme _ := "http";
  url_Host u := u;
  url_Path _ := EmptyString |}.

Definition toy_backend (name : string) (weight : Z) (alive : bool) (conns : Z) : Backend :=
  mkBackend name (name : URL) weight alive conns 0 0.

(** Three backends, the middle one down. *)
Definition toy_heap : gmap nat Backend :=
  {[ 0 := toy_backend "a" 3 true 5; 1 := toy_backend "b" 1 false 0; 2 := toy_backend "c" 1 true 2 ]}.

Definition toy_provider : Provider := mkProvider toy_heap 3 [0; 1; 2] {[ "a" := 0; "c" := 2 ]}.
End ToyUrl.
Import ToyUrl.

Lemma RoundRobin_fair_witness : calls (RoundRobin_Next toy_heap [0; 1; 2]) 2 7%Z ≡ₚ [Some 0; Some 2].
Proof. apply (RoundRobin_fair toy_heap [0; 1; 2] 7%Z); vm_compute; intros [=]. Defined.

Lemma Weighted_fair_witness :
  calls (Weighted_Next toy_heap [0; 1; 2]) 4 7%Z ≡ₚ [Some 0; Some 0; Some 0; Some 2].
Proof.
  apply (Weighted_fair toy_heap [0; 1; 2] 7%Z); [| |vm_compute; intros [=] ..].
  - vm_compute. intros [=].
  - repeat constructor.
Defined.

Example LeastConn_example : (LeastConn_Next toy_heap [0; 1; 2] tt).1 = Some 2.
Proof. vm_compute. reflexivity. Qed.

Lemma checker_debounced_witness :
  let '(_, b', _) := check (NewChecker 2 2) (Some 503%Z) (probed (NewChecker 2 2) [None] (toy_backend "a" 1 true 0)).1
    (probed (NewChecker 2 2) [None] (toy_backend "a" 1 true 0)).2 in b_alive b' = false.
Proof.
  assert (Hlen : (Z.of_nat (length [@None Z]) < max_int64)%Z) by reflexivity.
  pose proof (checker_debounced (NewChecker 2 2) (Some 503%Z) [None] (toy_backend "a" 1 true 0) Hlen) as H.
  destruct (check _ _ _ _) as [[counts b'] cb]. destruct H as (_ & Hf & _). specialize (Hf eq_refl).
  destruct (b_alive b'); [|reflexivity]. destruct (proj1 Hf eq_refl) as [_ Hbad]. cbn in Hbad. lia.
Defined.

Lemma toy_provider_wf : provider_wf toy_provider.
Proof.
  split.
  - intros l [b Hb]. cbn in *. unfold toy_heap in Hb.
    repeat (apply lookup_insert_Some in Hb as [[<- _]|[_ Hb]]; [lia|]). apply lookup_singleton_Some in Hb. lia.
  - intros name l Hl. cbn in *. apply lookup_insert_Some in Hl as [[<- <-]|[_ Hl]]; [eexists; split; reflexivity|].
    apply lookup_singleton_Some in Hl as [<- <-]. eexists; split; reflexivity.
Qed.

(** [a] keeps its object, [c] changes its weight, [d] is new, one entry is bad. *)
Definition toy_specs : list backendSpec :=
  [mkSpec "a" "a" 3; mkSpec "c" "c" 2; mkSpec "bad" "" 1; mkSpec "d" "d" 1].

Lemma refresh_correct_witness :
  pv_pool (refresh (Some toy_specs) toy_provider) = [0; 3; 4] /\
  provider_wf (refresh (Some toy_specs) toy_provider).
Proof.
  split; [vm_compute; reflexivity|].
  apply (refresh_correct toy_provider (Some toy_specs)). exact toy_provider_wf.
Defined.
