(* ===== verification/ProxyHandler.v ===== *)
(** * reverse-proxy-load-balancer/internal/proxy: forwarding and failover

    director.go as pure functions on requests; handler.go as programs over the
    atomic operations [PxE]: picking a backend, the counters of a backend, the
    round trip to it, the response writer and the metrics. *)

From S2P Require Import Prelude Proxy.
From Stdlib Require Import ZArith Lia Ascii.
From stdpp Require Import base gmap strings list.
Local Open Scope go_scope.

(** ** Strings and headers *)

(** [strings.IndexByte] and [strings.LastIndexByte]. *)
Fixpoint IndexByte (s : string) (c : ascii) : option nat :=
  match s with
  | EmptyString => None
  | String ch rest => if Ascii.eqb ch c then Some 0 else S <$> IndexByte rest c
  end.

Fixpoint LastIndexByte (s : string) (c : ascii) : option nat :=
  match s with
  | EmptyString => None
  | String ch rest =>
      match LastIndexByte rest c with
      | Some i => Some (S i)
      | None => if Ascii.eqb ch c then Some 0 else None
      end
  end.

(** [s[i:]] and [s[i:j]]. *)
Definition from (i : nat) (s : string) : string := String.substring i (String.length s - i) s.
Definition slice (i j : nat) (s : string) : string := String.substring i (j - i) s.

(** [net.SplitHostPort]: the host and the port of [host:port] or [[host]:port]. *)
Definition SplitHostPort (hostport : string) : option (string * string) :=
  match LastIndexByte hostport ":" with
  | None => None
  | Some i =>
      let parts :=
        if bool_decide (String.get 0 hostport = Some "["%char) then
          match IndexByte hostport "]" with
          | None => None
          | Some end_ => if bool_decide (end_ + 1 = i) then Some (slice 1 end_ hostport, 1, end_ + 1) else None
          end
        else
          let host := slice 0 i hostport in
          match IndexByte host ":" with Some _ => None | None => Some (host, 0, 0) end in
      match parts with
      | None => None
      | Some (host, j, k) =>
          match IndexByte (from j hostport) "[", IndexByte (from k hostport) "]" with
          | None, None => Some (host, from (i + 1) hostport)
          | _, _ => None
          end
      end
  end.

(** [http.Header], by canonical key. *)
Abbreviation Header := (gmap string (list string)) (only parsing).
Definition header_Get (h : Header) (key : string) : string :=
  match h !! key with Some (v :: _) => v | _ => EmptyString end.
Definition header_Set (h : Header) (key value : string) : Header := <[key := [value]]> h.

(** ** director.go *)

(** The parts of [http.Request] that are read or rewritten; [URL.RawQuery] and
    the like stay in [rq_rest]. *)
Record Request := mkRequest {
  rq_Method : string;
  rq_URL_Scheme : string; rq_URL_Host : string; rq_URL_Path : string; rq_rest : string;
  rq_Host : string; rq_RequestURI : string;
  rq_Header : Header;
  rq_RemoteAddr : string; rq_TLS : bool }.

(** [strings.HasSuffix(s, "/")] and [strings.HasPrefix(s, "/")]. *)
Fixpoint has_suffix_slash (s : string) : bool :=
  match s with
  | EmptyString => false
  | String ch EmptyString => Ascii.eqb ch "/"
  | String _ rest => has_suffix_slash rest
  end.
Definition has_prefix_slash (s : string) : bool :=
  match s with String ch _ => Ascii.eqb ch "/" | EmptyString => false end.

Definition singleJoiningSlash (a b : string) : string :=
  let aSlash := has_suffix_slash a in
  let bSlash := has_prefix_slash b in
  if aSlash && bSlash then a +:+ from 1 b
  else if negb aSlash && negb bSlash then a +:+ "/" +:+ b
  else a +:+ b.

(** The headers [applyForwardingHeaders] leaves on the outbound request. *)
Definition applyForwardingHeaders (header : Header) (original : Request) : Header :=
  let header :=
    match SplitHostPort (rq_RemoteAddr original) with
    | Some (clientIP, _) =>
        let prior := header_Get header "X-Forwarded-For" in
        if negb (String.eqb prior EmptyString)
        then header_Set header "X-Forwarded-For" (prior +:+ ", " +:+ clientIP)
        else header_Set header "X-Forwarded-For" clientIP
    | None => header
    end in
  let header :=
    if String.eqb (header_Get header "X-Forwarded-Host") EmptyString
    then header_Set header "X-Forwarded-Host" (rq_Host original) else header in
  header_Set header "X-Forwarded-Proto" (if rq_TLS original then "https" else "http").

Section Director.
Context `{UrlLib}.

(** A backend as the handler holds it: the object and its immutable fields. *)
Record Target := mkTarget { t_loc : nat; t_Name : string; t_URL : URL }.

(** The error result of the source is always nil. *)
Definition newOutboundRequest (r : Request) (b : Target) : option Request :=
  Some (mkRequest (rq_Method r) (url_Scheme (t_URL b)) (url_Host (t_URL b))
    (singleJoiningSlash (url_Path (t_URL b)) (rq_URL_Path r)) (rq_rest r)
    (url_Host (t_URL b)) EmptyString (applyForwardingHeaders (rq_Header r) r)
    (rq_RemoteAddr r) (rq_TLS r)).

(** ** handler.go *)

(** The result of [client.Do]. *)
Inductive Answer :=
| Responded (status : Z) (headers : list (string * list string)) (body : string)
| Failed (timeout : bool).

Inductive PxMetric :=
| ObserveRequest (d : Duration) | IncRetries | IncBackendRequests (name : string)
| IncBackendErrors (name : string) | SetBackendActiveConnections (name : string) (n : Z).

Inductive PxE : Type -> Type :=
| ENext : PxE (option Target)                     (* h.balancer.Next(h.pool) *)
| EIncConnections (l : nat) : PxE unit
| EDecConnections (l : nat) : PxE unit
| EIncRequests (l : nat) : PxE unit
| EIncErrors (l : nat) : PxE unit
| EActiveConnections (l : nat) : PxE Z
| EDo (l : nat) (req : Request) : PxE Answer
| EHeaderAdd (key value : string) : PxE unit
| EWriteHeader (status : Z) : PxE unit
| ECopy (body : string) : PxE bool
| EHttpError (msg : string) (status : Z) : PxE unit
| EPxMetric (m : PxMetric) : PxE unit
| EPxNow : PxE Time.

Definition idempotentMethods (method : string) : bool :=
  String.eqb method "GET" || String.eqb method "HEAD" || String.eqb method "OPTIONS".

(** [http.StatusText] of the codes the handler passes on. *)
Definition StatusText (code : Z) : string :=
  if Z.eqb code StatusInternalServerError then "Internal Server Error"
  else if Z.eqb code StatusBadGateway then "Bad Gateway"
  else if Z.eqb code StatusGatewayTimeout then "Gateway Timeout" else EmptyString.

(** The status and whether the error is nil. *)
Definition proxyOnce (r : Request) (b : Target) : prog PxE (Z * bool) :=
  match newOutboundRequest r b with
  | None => Ret (StatusInternalServerError, false)
  | Some outReq =>
      _ ← call (EIncConnections (t_loc b));
      _ ← call (EIncRequests (t_loc b));
      _ ← call (EPxMetric (IncBackendRequests (t_Name b)));
      n ← call (EActiveConnections (t_loc b));
      _ ← call (EPxMetric (SetBackendActiveConnections (t_Name b) n));
      resp ← call (EDo (t_loc b) outReq);
      res ← match resp with
            | Failed timeout =>
                _ ← call (EIncErrors (t_loc b));
                _ ← call (EPxMetric (IncBackendErrors (t_Name b)));
                Ret (if timeout : bool then StatusGatewayTimeout else StatusBadGateway, false)
            | Responded status headers body =>
                _ ← for_each headers tt (fun '(key, values) _ =>
                      for_each values tt (fun v _ => call (EHeaderAdd key v)));
                _ ← call (EWriteHeader status);
                _ ← call (ECopy body);
                Ret (status, true)
            end;
      _ ← call (EDecConnections (t_loc b));
      n ← call (EActiveConnections (t_loc b));
      _ ← call (EPxMetric (SetBackendActiveConnections (t_Name b) n));
      Ret res
  end.

(** The loop, [k] iterations before [attempts]; [None]: a response was written,
    [Some s]: all attempts failed and [s] is [lastStatus]. *)
Fixpoint serve_loop (r : Request) (canRetry : bool) (k : nat) (attempt attempts lastStatus : Z)
    : prog PxE (option Z) :=
  match k with
  | O => Ret (Some lastStatus)
  | S k =>
      b ← call ENext;
      match b with
      | None =>
          _ ← call (EHttpError "503 Service Unavailable" StatusServiceUnavailable);
          Ret None
      | Some b =>
          '(status, ok) ← proxyOnce r b;
          if ok : bool then Ret None
          else if negb canRetry || (attempt =? attempts - 1)%Z then Ret (Some status)
          else
            _ ← call (EPxMetric IncRetries);
            serve_loop r canRetry k (attempt + 1) attempts status
      end
  end.

Definition ServeHTTP (maxRetries : Z) (r : Request) : prog PxE unit :=
  start ← call EPxNow;
  let attempts := maxRetries +64 1 in
  last ← serve_loop r (idempotentMethods (rq_Method r)) (Z.to_nat attempts) 0 attempts 0;
  _ ← match last with
      | None => Ret tt
      | Some lastStatus =>
          if negb (lastStatus =? 0)%Z then call (EHttpError (StatusText lastStatus) lastStatus)
          else call (EHttpError "502 Bad Gateway" StatusBadGateway)
      end;
  finish ← call EPxNow;
  call (EPxMetric (ObserveRequest (Sub finish start))).
End Director.
