(* ===== verification/ProxyHandlerProperties.v ===== *)
(** * reverse-proxy-load-balancer: properties of the proxy handler

    [hist] proves facts about everything a request does, in every environment:
    the operations' results are arbitrary.  On top of it, the accounting of open
    connections in a proxy that serves many requests at once while backends are
    health-checked and the pool is refreshed. *)

From S2P Require Import Prelude Proxy ProxyProperties ProxyHandler.
From Stdlib Require Import ZArith Lia Ascii.
From stdpp Require Import base gmap strings list.
Local Open Scope go_scope.

(** ** director.go *)

Definition trim_suffix_slash (s : string) : string :=
  if has_suffix_slash s then String.substring 0 (String.length s - 1) s else s.
Definition trim_prefix_slash (s : string) : string :=
  match s with String ch rest => if Ascii.eqb ch "/" then rest else s | EmptyString => s end.

Lemma substring_all s : String.substring 0 (String.length s) s = s.
Proof. induction s as [|ch s IH]; cbn; [done|by rewrite IH]. Qed.

Lemma append_assoc s1 s2 s3 : (s1 +:+ s2) +:+ s3 = s1 +:+ s2 +:+ s3.
Proof. induction s1 as [|ch s1 IH]; [done|]. exact (f_equal (String ch) IH). Qed.

Lemma has_suffix_slash_trim s : has_suffix_slash s = true -> s = trim_suffix_slash s +:+ "/".
Proof.
  intros Hs. unfold trim_suffix_slash. rewrite Hs. induction s as [|ch s IH]; [done|].
  destruct s as [|ch' s].
  - cbn in Hs |- *. apply Ascii.eqb_eq in Hs. by subst.
  - specialize (IH Hs). cbn [String.length] in *. rewrite Nat.sub_1_r in *. cbn [Nat.pred] in *.
    change (String.substring 0 (S (String.length s)) (String ch (String ch' s)))
      with (String ch (String.substring 0 (String.length s) (String ch' s))).
    exact (f_equal (String ch) IH).
Qed.

Lemma from_1 ch s : from 1 (String ch s) = s.
Proof. unfold from. cbn. rewrite Nat.sub_0_r. apply substring_all. Qed.

(** Exactly one slash at the joint. *)
Lemma singleJoiningSlash_spec a b :
  singleJoiningSlash a b = trim_suffix_slash a +:+ "/" +:+ trim_prefix_slash b.
Proof.
  unfold singleJoiningSlash. destruct (has_suffix_slash a) eqn:Ha; destruct b as [|ch b]; cbn [has_prefix_slash].
  - cbn. rewrite (has_suffix_slash_trim a Ha) at 1. by rewrite append_assoc.
  - destruct (Ascii.eqb ch "/") eqn:Hb; cbn [andb negb trim_prefix_slash]; rewrite Hb.
    + rewrite from_1, (has_suffix_slash_trim a Ha) at 1. by rewrite append_assoc.
    + rewrite (has_suffix_slash_trim a Ha) at 1. by rewrite append_assoc.
  - unfold trim_suffix_slash. by rewrite Ha.
  - unfold trim_suffix_slash. rewrite Ha. destruct (Ascii.eqb ch "/") eqn:Hb; cbn [andb negb trim_prefix_slash]; rewrite Hb; [|done].
    apply Ascii.eqb_eq in Hb. by subst.
Qed.

(** ** Histories *)

Section Histories.
Context `{UrlLib}.

Inductive Obs := Ob (X : Type) (e : PxE X) (x : X).
Arguments Ob {X} e x.

(** Facts about the whole history of a program: [pre] holds before each
    operation and [Q] at the end, whatever the operations return. *)
Fixpoint hist (pre : forall X, PxE X -> list Obs -> Prop) {A} (p : prog PxE A) (Q : A -> list Obs -> Prop)
    (h : list Obs) : Prop :=
  match p with
  | Ret a => Q a h
  | Vis e k => pre _ e h /\ forall x, hist pre (k x) Q (h ++ [Ob e x])
  end.

(** One attempt: no backend was available, or one was tried. *)
Inductive Round := NoBackend | Tried (l : nat) (a : Answer).

Definition ob_rounds (o : Obs) : list Round :=
  match o with
  | Ob e x => match e in PxE X return X -> list Round with
              | ENext => fun x => match x with None => [NoBackend] | Some _ => [] end
              | EDo l _ => fun a => [Tried l a]
              | _ => fun _ => []
              end x
  end.

(** The status lines written to the client. *)
Definition ob_writes (o : Obs) : list Z :=
  match o with
  | Ob (EWriteHeader s) _ => [s]
  | Ob (EHttpError _ s) _ => [s]
  | _ => []
  end.

(** The locations picked by the balancer. *)
Definition ob_picks (o : Obs) : list nat :=
  match o with
  | Ob e x => match e in PxE X return X -> list nat with
              | ENext => fun x => match x with Some b => [t_loc b] | None => [] end
              | _ => fun _ => []
              end x
  end.

(** Connections opened minus closed. *)
Definition ob_conns (l : nat) (o : Obs) : Z :=
  match o with
  | Ob (EIncConnections l') _ => if decide (l = l') then 1 else 0
  | Ob (EDecConnections l') _ => if decide (l = l') then -1 else 0
  | _ => 0
  end.

Definition ob_retries (o : Obs) : nat :=
  match o with Ob (EPxMetric IncRetries) _ => 1 | _ => 0 end.

Definition rounds (h : list Obs) : list Round := h ≫= ob_rounds.
Definition writes (h : list Obs) : list Z := h ≫= ob_writes.
Definition picks (h : list Obs) : list nat := h ≫= ob_picks.
Definition conns (l : nat) (h : list Obs) : Z := foldr (fun o n => ob_conns l o + n)%Z 0%Z h.
Definition retries (h : list Obs) : nat := foldr (fun o n => ob_retries o + n) 0 h.

Lemma rounds_app h1 h2 : rounds (h1 ++ h2) = rounds h1 ++ rounds h2.
Proof using Type. apply bind_app. Qed.
Lemma writes_app h1 h2 : writes (h1 ++ h2) = writes h1 ++ writes h2.
Proof using Type. apply bind_app. Qed.
Lemma picks_app h1 h2 : picks (h1 ++ h2) = picks h1 ++ picks h2.
Proof using Type. apply bind_app. Qed.
Lemma conns_app l h1 h2 : conns l (h1 ++ h2) = (conns l h1 + conns l h2)%Z.
Proof using Type.
  induction h1 as [|o h1 IH]; [done|]. change (ob_conns l o + conns l (h1 ++ h2) = ob_conns l o + conns l h1 + conns l h2)%Z.
  rewrite IH. lia.
Qed.
Lemma retries_app h1 h2 : retries (h1 ++ h2) = retries h1 + retries h2.
Proof using Type.
  induction h1 as [|o h1 IH]; [done|]. change (ob_retries o + retries (h1 ++ h2) = ob_retries o + retries h1 + retries h2).
  rewrite IH. lia.
Qed.

(** A program uses the connection counter of a backend it was given only. *)
Definition targeted X (e : PxE X) (h : list Obs) : Prop :=
  match e with
  | EIncConnections l | EDecConnections l => l ∈ picks h
  | _ => True
  end.

Lemma hist_mono {A} pre (p : prog PxE A) (Q Q' : A -> list Obs -> Prop) h :
  (forall a h', Q a h' -> Q' a h') -> hist pre p Q h -> hist pre p Q' h.
Proof using Type. intros HQ. revert h. induction p as [a|X e k IH]; intros h; cbn; [auto|]. intros [? ?]; split; auto. Qed.

Lemma hist_bind {A B} pre (p : prog PxE A) (f : A -> prog PxE B) Q h :
  hist pre p (fun a h' => hist pre (f a) Q h') h -> hist pre (p ≫= f) Q h.
Proof using Type.
  revert h. induction p as [a|X e k IH]; intros h; cbn; [done|].
  intros [? Hk]; split; [done|]. intros x. apply IH, Hk.
Qed.

Lemma hist_call {A X} pre (e : PxE X) (k : X -> prog PxE A) Q h :
  pre X e h -> (forall x, hist pre (k x) Q (h ++ [Ob e x])) -> hist pre (call e ≫= k) Q h.
Proof using Type. done. Qed.

(** What a stretch of the history adds. *)
Record adds (h h' : list Obs) (rs : list Round) (ws : list Z) (n : nat) : Prop := {
  ad_rounds : rounds h' = rounds h ++ rs;
  ad_writes : writes h' = writes h ++ ws;
  ad_picks : picks h ⊆ picks h';
  ad_conns : forall l, conns l h' = conns l h;
  ad_retries : retries h' = retries h + n }.

Lemma adds_nil h : adds h h [] [] 0.
Proof using Type. split; rewrite ?app_nil_r; done. Qed.

Lemma adds_trans h1 h2 h3 r1 r2 w1 w2 n1 n2 :
  adds h1 h2 r1 w1 n1 -> adds h2 h3 r2 w2 n2 -> adds h1 h3 (r1 ++ r2) (w1 ++ w2) (n1 + n2).
Proof using Type.
  intros [R1 W1 P1 C1 T1] [R2 W2 P2 C2 T2]. split.
  - by rewrite R2, R1, app_assoc.
  - by rewrite W2, W1, app_assoc.
  - set_solver.
  - intros l. by rewrite C2, C1.
  - rewrite T2, T1. lia.
Qed.

(** Steps that only read or report. *)
Definition plain X (e : PxE X) : bool :=
  match e with
  | ENext | EIncConnections _ | EDecConnections _ | EDo _ _ | EWriteHeader _ | EHttpError _ _ => false
  | EPxMetric IncRetries => false
  | _ => true
  end.

Lemma adds_plain h X (e : PxE X) (x : X) : plain X e = true -> adds h (h ++ [Ob e x]) [] [] 0.
Proof using Type.
  intros Hp. assert (rounds [Ob e x] = [] /\ writes [Ob e x] = [] /\ picks [Ob e x] = [] /\
    (forall l, conns l [Ob e x] = 0%Z) /\ retries [Ob e x] = 0) as (Hr & Hw & Hk & Hc & Ht).
  { destruct e; try done. by destruct m. }
  split.
  - by rewrite rounds_app, Hr.
  - by rewrite writes_app, Hw.
  - rewrite picks_app. set_solver.
  - intros l. rewrite conns_app, Hc. lia.
  - rewrite retries_app, Ht. done.
Qed.

(** A program that adds nothing, then the rest. *)
Definition silent {A} (p : prog PxE A) : Prop := forall h, hist targeted p (fun _ h' => adds h h' [] [] 0) h.

Lemma plain_targeted X (e : PxE X) h : plain X e = true -> targeted X e h.
Proof using Type. by destruct e. Qed.

Lemma silent_call X (e : PxE X) : plain X e = true -> silent (call e).
Proof using Type. intros Hp h. split; [by apply plain_targeted|]. intros x. by apply adds_plain. Qed.

Lemma silent_bind {A B} (p : prog PxE A) (f : A -> prog PxE B) :
  silent p -> (forall a, silent (f a)) -> silent (p ≫= f).
Proof using Type.
  intros Hp Hf h. apply hist_bind. eapply hist_mono; [|apply Hp]. cbn. intros a h1 H1.
  eapply hist_mono; [|apply Hf]. cbn. intros b h2 H2. by apply (adds_trans _ _ _ _ _ _ _ _ _ H1 H2).
Qed.

Lemma silent_ret {A} (a : A) : silent (Ret a).
Proof using Type. intros h. apply adds_nil. Qed.

Lemma silent_for_each {A} (f : A -> unit -> prog PxE unit) l :
  (forall x, silent (f x tt)) -> silent (for_each l tt f).
Proof using Type.
  intros Hf. induction l as [|x l IH]; [apply silent_ret|]. apply silent_bind; [apply Hf|]. by intros [].
Qed.

Lemma hist_silent {A B} (p : prog PxE A) (f : A -> prog PxE B) Q h0 h rs ws n :
  adds h0 h rs ws n -> silent p -> (forall a h', adds h0 h' rs ws n -> hist targeted (f a) Q h') ->
  hist targeted (p ≫= f) Q h.
Proof using Type.
  intros H0 Hp Hf. apply hist_bind. eapply hist_mono; [|apply Hp]. cbn. intros a h' Ha. apply Hf.
  pose proof (adds_trans _ _ _ _ _ _ _ _ _ H0 Ha) as Hall. by rewrite !app_nil_r, Nat.add_0_r in Hall.
Qed.

(** What an attempt reports to the loop, and writes to the client. *)
Definition attempt_result (a : Answer) : Z * bool :=
  match a with
  | Responded s _ _ => (s, true)
  | Failed timeout => (if timeout : bool then StatusGatewayTimeout else StatusBadGateway, false)
  end.
Definition attempt_writes (a : Answer) : list Z := match a with Responded s _ _ => [s] | Failed _ => [] end.

Lemma adds_app h o rs ws n :
  rounds [o] = rs -> writes [o] = ws -> (forall l, conns l [o] = 0%Z) -> retries [o] = n ->
  adds h (h ++ [o]) rs ws n.
Proof using Type.
  intros <- <- Hc <-. split.
  - apply rounds_app.
  - apply writes_app.
  - rewrite picks_app. set_solver.
  - intros l. rewrite conns_app, Hc. lia.
  - apply retries_app.
Qed.

(** The next step of a stretch. *)
Lemma adds_step h0 h o rs ws n rs' ws' n' :
  adds h0 h rs ws n -> (forall l, conns l [o] = 0%Z) ->
  rs' = rs ++ rounds [o] -> ws' = ws ++ writes [o] -> n' = n + retries [o] -> adds h0 (h ++ [o]) rs' ws' n'.
Proof using Type. intros H0 Hc -> -> ->. eapply adds_trans; [exact H0|by apply adds_app]. Qed.

(** A stretch between opening and closing a connection. *)
Lemma adds_enclosed h h' l rs ws n :
  adds (h ++ [Ob (EIncConnections l) tt]) h' rs ws n -> adds h (h' ++ [Ob (EDecConnections l) tt]) rs ws n.
Proof using Type.
  intros [Hr Hw Hp Hc Ht]. rewrite rounds_app in Hr. rewrite writes_app in Hw. rewrite picks_app in Hp.
  rewrite retries_app in Ht. cbn in *. split.
  - rewrite rounds_app, Hr. cbn. by rewrite !app_nil_r.
  - rewrite writes_app, Hw. cbn. by rewrite !app_nil_r.
  - rewrite picks_app. set_solver.
  - intros k. rewrite conns_app, Hc, conns_app. cbn. case_decide; lia.
  - rewrite retries_app, Ht. cbn. lia.
Qed.

Lemma proxyOnce_hist r b (Q : Z * bool -> list Obs -> Prop) h :
  t_loc b ∈ picks h ->
  (forall a h', adds h h' [Tried (t_loc b) a] (attempt_writes a) 0 -> Q (attempt_result a) h') ->
  hist targeted (proxyOnce r b) Q h.
Proof using Type.
  intros Hb HQ. unfold proxyOnce. destruct (newOutboundRequest r b) as [outReq|] eqn:Hout; [|done].
  apply hist_call; [done|]. intros []. set (h1 := h ++ [Ob (EIncConnections (t_loc b)) tt]).
  eapply hist_silent; [apply (adds_nil h1)|by apply silent_call|]. intros _ h2 H2.
  eapply hist_silent; [exact H2|by apply silent_call|]. intros _ h3 H3.
  eapply hist_silent; [exact H3|by apply silent_call|]. intros n h4 H4.
  eapply hist_silent; [exact H4|by apply silent_call|]. intros _ h5 H5.
  apply hist_call; [done|]. intros a.
  assert (H6 : adds h1 (h5 ++ [Ob (EDo (t_loc b) outReq) a]) [Tried (t_loc b) a] [] 0).
  { by eapply adds_step. }
  set (h6 := h5 ++ _) in *. apply hist_bind.
  assert (Hfin : forall h7, adds h1 h7 [Tried (t_loc b) a] (attempt_writes a) 0 ->
    hist targeted (_ ← call (EDecConnections (t_loc b)); n ← call (EActiveConnections (t_loc b));
       _ ← call (EPxMetric (SetBackendActiveConnections (t_Name b) n)); Ret (attempt_result a)) Q h7).
  { intros h7 H7. apply hist_call.
    { apply (ad_picks _ _ _ _ _ H7). unfold h1. rewrite picks_app. set_solver. }
    intros []. apply adds_enclosed in H7. eapply hist_silent; [exact H7|by apply silent_call|].
    intros m h8 H8. eapply hist_silent; [exact H8|by apply silent_call|]. intros _ h9 H9. by apply HQ. }
  destruct a as [status headers body|timeout].
  - eapply hist_silent; [exact H6| |].
    { apply silent_for_each. intros [key values]. apply silent_for_each. intros v. by apply silent_call. }
    intros _ h7 H7. apply hist_call; [done|]. intros [].
    assert (H8 : adds h1 (h7 ++ [Ob (EWriteHeader status) tt]) [Tried (t_loc b) (Responded status headers body)] [status] 0).
    { by eapply adds_step. }
    eapply hist_silent; [exact H8|by apply silent_call|]. intros _ h9 H9. by apply (Hfin h9).
  - eapply hist_silent; [exact H6|by apply silent_call|]. intros _ h7 H7.
    eapply hist_silent; [exact H7|by apply silent_call|]. intros _ h8 H8. by apply (Hfin h8).
Qed.

(** ** The loop *)

Definition failed_round (x : Round) : Prop := exists l timeout, x = Tried l (Failed timeout).

(** The status the client gets for the attempts made. *)
Definition verdict (rs : list Round) : Z :=
  match last rs with
  | None => StatusBadGateway
  | Some NoBackend => StatusServiceUnavailable
  | Some (Tried _ a) => (attempt_result a).1
  end.

(** The attempts a request may make: all but the last failed, at most [n], one
    if it must not be repeated; it gives up only then. *)
Record disciplined (canRetry : bool) (n : nat) (rs : list Round) : Prop := {
  ds_failed : forall i x, rs !! i = Some x -> S i < length rs -> failed_round x;
  ds_bound : length rs <= n;
  ds_once : canRetry = false -> length rs <= 1;
  ds_persist : forall x, last rs = Some x -> failed_round x -> canRetry = false \/ length rs = n }.

Lemma verdict_snoc rs x : verdict (rs ++ [x]) = match x with NoBackend => StatusServiceUnavailable | Tried _ a => (attempt_result a).1 end.
Proof using Type. unfold verdict. rewrite last_snoc. by destruct x. Qed.

Lemma disciplined_snoc canRetry n done_ x :
  Forall failed_round done_ -> (canRetry = false -> done_ = []) -> length done_ < n ->
  (failed_round x -> canRetry = false \/ S (length done_) = n) -> disciplined canRetry n (done_ ++ [x]).
Proof using Type.
  intros Hf Hc Hlen Hx. split.
  - intros i y Hy Hi. rewrite length_app in Hi. cbn in Hi. rewrite lookup_app_l in Hy by lia.
    rewrite Forall_lookup in Hf. by eapply Hf.
  - rewrite length_app. cbn. lia.
  - intros Hn. rewrite (Hc Hn). cbn. lia.
  - intros y. rewrite last_snoc. intros [= <-] Hy. rewrite length_app. cbn.
    destruct (Hx Hy); [by left|right; lia].
Qed.

(** What the loop leaves, when the attempts [done_] failed before it. *)
Lemma serve_loop_hist r canRetry k : forall lastStatus h0 h done_,
  adds h0 h done_ [] (length done_) ->
  Forall failed_round done_ -> (canRetry = false -> done_ = []) -> (k = 0 -> done_ = []) ->
  lastStatus = (if decide (done_ = []) then 0%Z else verdict done_) ->
  hist targeted (serve_loop r canRetry k (Z.of_nat (length done_)) (Z.of_nat (length done_ + k)) lastStatus)
    (fun res h' => exists rs,
      adds h0 h' rs (match res with None => [verdict rs] | Some _ => [] end) (length rs - 1) /\
      disciplined canRetry (length done_ + k) rs /\
      match res with
      | Some s => s = (if decide (rs = []) then 0%Z else verdict rs) /\ Forall failed_round rs
      | None => True
      end) h.
Proof using Type.
  induction k as [|k IH]; intros lastStatus h0 h done_ Hadds Hfail Honce Hk Hlast; cbn [serve_loop].
  { specialize (Hk eq_refl). subst done_. exists []. split_and!; [exact Hadds| |done|done].
    split; cbn; try done; lia. }
  apply hist_call; [done|]. intros [b|].
  2:{ apply hist_call; [done|]. intros []. exists (done_ ++ [NoBackend]).
      split_and!; [|apply disciplined_snoc; [done|done|lia|by intros (?&?&?)]|done].
      rewrite verdict_snoc, length_app. eapply adds_step; [by eapply adds_step|done|by rewrite app_nil_r|done|cbn; lia]. }
  set (h1 := h ++ [Ob ENext (Some b)]).
  assert (H1 : adds h0 h1 done_ [] (length done_)).
  { eapply adds_step; [exact Hadds|done|by rewrite app_nil_r|done|cbn; lia]. }
  apply hist_bind. apply proxyOnce_hist.
  { unfold h1. rewrite picks_app. set_solver. }
  intros a h2 H2. pose proof (adds_trans _ _ _ _ _ _ _ _ _ H1 H2) as H12. cbn [app] in H12.
  rewrite Nat.add_0_r in H12. destruct a as [status headers body|timeout]; cbn [attempt_result attempt_writes] in *.
  - exists (done_ ++ [Tried (t_loc b) (Responded status headers body)]).
    split_and!; [|apply disciplined_snoc; [done|done|lia|by intros (?&?&?)]|done].
    rewrite verdict_snoc, length_app. cbn. by replace (length done_ + 1 - 1) with (length done_) by lia.
  - set (x := Tried (t_loc b) (Failed timeout)) in *.
    assert (Hx : failed_round x) by (unfold x, failed_round; eauto).
    destruct (negb canRetry || _) eqn:Hstop.
    + exists (done_ ++ [x]). split_and!.
      * rewrite length_app. cbn. by replace (length done_ + 1 - 1) with (length done_) by lia.
      * apply disciplined_snoc; [done|done|lia|]. intros _. apply orb_true_iff in Hstop as [Hn|Hn].
        -- left. by destruct canRetry.
        -- right. apply Z.eqb_eq in Hn. lia.
      * by rewrite decide_False, verdict_snoc by (by destruct done_).
      * apply Forall_app. by split; [|constructor].
    + apply orb_false_iff in Hstop as [Hn Ha]. apply Z.eqb_neq in Ha.
      apply hist_call; [done|]. intros [].
      replace (Z.of_nat (length done_) + 1)%Z with (Z.of_nat (length (done_ ++ [x]))) by (rewrite length_app; cbn; lia).
      replace (length done_ + S k) with (length (done_ ++ [x]) + k) by (rewrite length_app; cbn; lia).
      apply IH.
      * rewrite length_app. eapply adds_step; [exact H12|done|by rewrite app_nil_r|done|done].
      * apply Forall_app. by split; [|constructor].
      * intros Hf. by rewrite Hf in Hn.
      * intros ->. lia.
      * by rewrite decide_False, verdict_snoc by (by destruct done_).
Qed.

Lemma failed_verdict rs : Forall failed_round rs -> rs <> [] -> verdict rs <> 0%Z.
Proof using Type.
  intros Hf Hne. destruct rs as [|x rs] using rev_ind; [done|]. rewrite verdict_snoc.
  apply Forall_app in Hf as [_ Hx]. apply Forall_singleton in Hx as (l & t & ->). by destruct t.
Qed.

Lemma ServeHTTP_hist maxRetries r :
  hist targeted (ServeHTTP maxRetries r) (fun _ h => exists rs,
    adds [] h rs [verdict rs] (length rs - 1) /\
    disciplined (idempotentMethods (rq_Method r)) (Z.to_nat (maxRetries +64 1)) rs) [].
Proof using Type.
  unfold ServeHTTP. set (attempts := maxRetries +64 1).
  eapply hist_silent; [apply adds_nil|by apply silent_call|]. intros start h1 H1.
  apply hist_bind.
  assert (Hloop : hist targeted (serve_loop r (idempotentMethods (rq_Method r)) (Z.to_nat attempts) 0 attempts 0)
    (fun res h' => exists rs,
      adds [] h' rs (match res with None => [verdict rs] | Some _ => [] end) (length rs - 1) /\
      disciplined (idempotentMethods (rq_Method r)) (Z.to_nat attempts) rs /\
      match res with
      | Some s => s = (if decide (rs = []) then 0%Z else verdict rs) /\ Forall failed_round rs
      | None => True
      end) h1).
  { destruct (Z.leb_spec attempts 0).
    - replace (Z.to_nat attempts) with 0 by lia. exists []. split_and!; [exact H1| |done|done]. split; cbn; try done; lia.
    - pose proof (serve_loop_hist r (idempotentMethods (rq_Method r)) (Z.to_nat attempts) 0 [] h1 []) as Hs.
      cbn [length] in Hs. rewrite Nat.add_0_l, Z2Nat.id in Hs by lia. apply Hs; try done. }
  eapply hist_mono; [|exact Hloop]. cbn. intros res h2 (rs & H2 & Hd & Hres).
  assert (Hend : forall h3, adds [] h3 rs [verdict rs] (length rs - 1) ->
    hist targeted (finish ← call EPxNow; call (EPxMetric (ObserveRequest (Sub finish start))))
      (fun _ h => exists rs, adds [] h rs [verdict rs] (length rs - 1) /\
         disciplined (idempotentMethods (rq_Method r)) (Z.to_nat attempts) rs) h3).
  { intros h3 H3. eapply hist_silent; [exact H3|by apply silent_call|]. intros finish h4 H4.
    split; [done|]. intros []. exists rs. split; [|done].
    eapply adds_step; [exact H4|done|by rewrite app_nil_r|done|cbn; lia]. }
  destruct res as [st|]; [|by apply Hend].
  destruct Hres as [-> Hf]. case_decide as Hnil; cbn [Z.eqb negb].
  - apply hist_call; [done|]. intros []. apply Hend. subst rs. by eapply adds_step.
  - destruct (Z.eqb_spec (verdict rs) 0) as [Hz|_]; [by apply failed_verdict in Hz|].
    apply hist_call; [done|]. intros []. apply Hend. eapply adds_step; [exact H2|done|by rewrite app_nil_r|done|cbn; lia].
Qed.

(** C10: A request is answered exactly once and retried with discipline, in every
    environment: it makes at most [maxRetries + 1] attempts, at most one unless
    the method is idempotent; every attempt but the last failed; it gives up on
    a failure only when it may not be repeated or the attempts are used up; the
    client gets the last backend's own status, 504 for a timeout, 502 for other
    failures (or when no attempt is allowed at all), 503 when no backend is
    healthy; retries are counted; and every connection counted as opened is
    closed again. *)
Theorem ServeHTTP_discipline (maxRetries : Z) (r : Request) :
  hist targeted (ServeHTTP maxRetries r) (fun _ h =>
    writes h = [verdict (rounds h)] /\
    disciplined (idempotentMethods (rq_Method r)) (Z.to_nat (maxRetries +64 1)) (rounds h) /\
    retries h = length (rounds h) - 1 /\
    forall l, conns l h = 0%Z) [].
Proof using Type.
  eapply hist_mono; [|apply ServeHTTP_hist]. cbn. intros _ h (rs & [Hr Hw _ Hc Ht] & Hd).
  cbn in *. rewrite Hr. by split_and!.
Qed.
End Histories.
Arguments Ob {_ _} _ _.

(** ** The running proxy *)

Lemma int64_wrap_add x d : (int64_wrap x +64 d) = int64_wrap (x + d).
Proof.
  unfold int64_wrap. replace ((x + 2 ^ 63) mod 2 ^ 64 - 2 ^ 63 + d + 2 ^ 63)%Z
    with ((x + 2 ^ 63) mod 2 ^ 64 + d)%Z by lia.
  rewrite Z.add_mod_idemp_l by lia. do 2 f_equal. lia.
Qed.

Section System.
Context `{UrlLib} {S : Type} `{!Balancer S}.

(** The backends, the pool and discovery, the balancer's own state and the
    counters of the health checker. *)
Record PxWorld := mkPxWorld { px_prov : Provider; px_bal : S; px_counts : gmap string Z }.

Definition with_heap (h : gmap nat Backend) (counts : gmap string Z) (w : PxWorld) : PxWorld :=
  let p := px_prov w in
  mkPxWorld (mkProvider h (pv_next p) (pv_pool p) (pv_known p)) (px_bal w) counts.

Definition on_backend (f : Backend -> Backend) (l : nat) (w : PxWorld) : PxWorld :=
  with_heap (alter f l (pv_heap (px_prov w))) (px_counts w) w.

Definition target_of (h : gmap nat Backend) (l : nat) : option Target :=
  match h !! l with Some b => Some (mkTarget l (b_Name b) (b_URL b)) | None => None end.

(** Results of round trips, writes and the clock are up to the environment. *)
Definition px_rel X (e : PxE X) : PxWorld -> X -> PxWorld -> Prop :=
  match e in PxE X return PxWorld -> X -> PxWorld -> Prop with
  | ENext => fun w x w' =>
      let next := balancer_next (pv_heap (px_prov w)) (pv_pool (px_prov w)) (px_bal w) in
      x = (next.1 ≫= target_of (pv_heap (px_prov w))) /\ w' = mkPxWorld (px_prov w) next.2 (px_counts w)
  | EIncConnections l => fun w _ w' => w' = on_backend IncConnections l w
  | EDecConnections l => fun w _ w' => w' = on_backend DecConnections l w
  | EIncRequests l => fun w _ w' => w' = on_backend IncRequests l w
  | EIncErrors l => fun w _ w' => w' = on_backend IncErrors l w
  | EActiveConnections l => fun w x w' => x = ActiveConnections (pv_heap (px_prov w)) l /\ w' = w
  | _ => fun w _ w' => w' = w
  end.

(** A request being served, with what it has done so far. *)
Abbreviation PxThread := (prog PxE unit * list Obs)%type (only parsing).
Abbreviation PxConfig := (list PxThread * PxWorld)%type (only parsing).

(** Requests arrive and proceed, probes of backends are answered (every check of
    a round is a step of its own), and discovery refreshes the pool, in any
    order. *)
Inductive pstep (checker : Checker) (maxRetries : Z) : PxConfig -> PxConfig -> Prop :=
| ps_request r ts w : pstep checker maxRetries (ts, w) (ts ++ [(ServeHTTP maxRetries r, [])], w)
| ps_op i X (e : PxE X) k h ts w x w' : ts !! i = Some (Vis e k, h) -> px_rel X e w x w' ->
    pstep checker maxRetries (ts, w) (<[i := (k x, h ++ [Ob e x])]> ts, w')
| ps_check probe ts w :
    let st := check_at checker (px_counts w, pv_heap (px_prov w)) probe in
    pstep checker maxRetries (ts, w) (ts, with_heap st.2 st.1 w)
| ps_refresh fetched ts w :
    pstep checker maxRetries (ts, w) (ts, mkPxWorld (refresh fetched (px_prov w)) (px_bal w) (px_counts w)).

Definition psteps (checker : Checker) (maxRetries : Z) : PxConfig -> PxConfig -> Prop := rtc (pstep checker maxRetries).

(** Requests in flight to the backend at [l]. *)
Definition in_flight_to (l : nat) (ts : list PxThread) : Z := foldr (fun t n => conns l t.2 + n)%Z 0%Z ts.

Lemma in_flight_cons l t ts : in_flight_to l (t :: ts) = (conns l t.2 + in_flight_to l ts)%Z.
Proof using Type. done. Qed.

Lemma in_flight_app l ts1 ts2 : in_flight_to l (ts1 ++ ts2) = (in_flight_to l ts1 + in_flight_to l ts2)%Z.
Proof using Type.
  induction ts1 as [|t ts1 IH]; [done|]. rewrite <- app_comm_cons, !in_flight_cons, IH. lia.
Qed.

Lemma in_flight_insert l i p h p' h' ts :
  ts !! i = Some (p, h) -> in_flight_to l (<[i := (p', h')]> ts) = (in_flight_to l ts - conns l h + conns l h')%Z.
Proof using Type.
  intros Hi. rewrite <- (take_drop_middle _ _ _ Hi) at 2. rewrite insert_take_drop by (by eapply lookup_lt_Some).
  rewrite !in_flight_app, !in_flight_cons. cbn [snd]. lia.
Qed.

Lemma in_flight_none l ts : (forall t, t ∈ ts -> conns l t.2 = 0%Z) -> in_flight_to l ts = 0%Z.
Proof using Type.
  induction ts as [|t ts IH]; intros Ht; [done|].
  rewrite in_flight_cons, IH, Ht; [lia| |]; set_solver.
Qed.

Record balanced (cfg : PxConfig) : Prop := {
  bl_wf : provider_wf (px_prov cfg.2);
  bl_threads : forall t, t ∈ cfg.1 -> hist targeted t.1 (fun _ h => forall l, conns l h = 0%Z) t.2;
  bl_picks : forall t l, t ∈ cfg.1 -> l ∈ picks t.2 -> is_Some (pv_heap (px_prov cfg.2) !! l);
  bl_none : forall t l, t ∈ cfg.1 -> pv_heap (px_prov cfg.2) !! l = None -> conns l t.2 = 0%Z;
  bl_count : forall l b, pv_heap (px_prov cfg.2) !! l = Some b ->
    b_activeConns b = int64_wrap (in_flight_to l cfg.1) }.

(** Fields a step on a backend keeps. *)
Lemma on_backend_wf f l w :
  (forall b, b_Name (f b) = b_Name b) -> provider_wf (px_prov w) -> provider_wf (px_prov (on_backend f l w)).
Proof using Type.
  intros Hf [Hh Hk]. split; cbn.
  - intros k [b Hb]. apply Hh. apply lookup_alter_Some in Hb as [(-> & b0 & -> & _)|[_ ->]]; eauto.
  - intros name k Hn. destruct (Hk _ _ Hn) as (b & Hb & Hname). destruct (decide (k = l)) as [->|].
    + exists (f b). by rewrite lookup_alter_eq, Hb, Hf.
    + exists b. by rewrite lookup_alter_ne.
Qed.

Lemma on_backend_dom f l w k :
  is_Some (pv_heap (px_prov (on_backend f l w)) !! k) <-> is_Some (pv_heap (px_prov w) !! k).
Proof using Type.
  cbn. destruct (decide (k = l)) as [->|]; [rewrite lookup_alter_eq|by rewrite lookup_alter_ne].
  by rewrite fmap_is_Some.
Qed.

Lemma alter_insert_lookup (f : Backend -> Backend) (l : nat) (b : Backend) (h : gmap nat Backend) :
  h !! l = Some b -> alter f l h = <[l := f b]> h.
Proof using Type.
  intros Hl. apply map_eq. intros k. destruct (decide (k = l)) as [->|].
  - by rewrite lookup_alter_eq, lookup_insert_eq, Hl.
  - by rewrite lookup_alter_ne, lookup_insert_ne.
Qed.

(** New backends start without connections. *)
Lemma refresh_loop_new known specs h nl next bs h' nl' next' bs' :
  refresh_loop known specs h nl next bs = (h', nl', next', bs') ->
  forall l b, h' !! l = Some b -> h !! l = Some b \/ b_activeConns b = 0%Z.
Proof using Type.
  revert h nl next bs. induction specs as [|spec specs IH]; intros h nl next bs Hl l b Hb.
  { cbn in Hl. simplify_eq. by left. }
  cbn [refresh_loop] in Hl. destruct (reusable h known spec); [by eapply IH|].
  destruct (New (bs_Name spec) (bs_URL spec) (bs_Weight spec)) as [b0|] eqn:Hnew; [|by eapply IH].
  destruct (IH _ _ _ _ Hl l b Hb) as [Hl'|]; [|by right].
  apply lookup_insert_Some in Hl' as [[_ <-]|[_ ?]]; [right|by left].
  unfold New in Hnew. destruct (url_Parse _); [|done]. by injection Hnew as <-.
Qed.

(** A step on a backend that leaves its connection count alone. *)
Lemma balanced_on_backend ts w f l :
  (forall b, b_Name (f b) = b_Name b /\ b_activeConns (f b) = b_activeConns b) ->
  balanced (ts, w) -> balanced (ts, on_backend f l w).
Proof using Type.
  intros Hf [Hwf Hth Hp Hn Hc]. split; cbn [fst snd] in *; [| done | | |].
  - apply on_backend_wf; [apply Hf|done].
  - intros t k Ht Hk. apply on_backend_dom. by eapply Hp.
  - intros t k Ht Hk. apply (Hn t k Ht). apply eq_None_not_Some. intros Hs.
    apply (on_backend_dom f l) in Hs. rewrite Hk in Hs. by destruct Hs.
  - intros k b Hb. cbn in Hb. apply lookup_alter_Some in Hb as [(-> & b0 & Hb0 & ->)|[_ Hb]]; [|by apply Hc].
    destruct (Hf b0) as [_ ->]. by apply Hc.
Qed.

(** The thread's own step, for the rest of the invariant. *)
Lemma balanced_thread ts w i X (e : PxE X) k h x w' :
  balanced (ts, w) -> ts !! i = Some (Vis e k, h) ->
  provider_wf (px_prov w') ->
  (forall l, is_Some (pv_heap (px_prov w') !! l) <-> is_Some (pv_heap (px_prov w) !! l)) ->
  (forall l, l ∈ picks [Ob e x] -> is_Some (pv_heap (px_prov w) !! l)) ->
  (forall l b', pv_heap (px_prov w') !! l = Some b' -> exists b, pv_heap (px_prov w) !! l = Some b /\
     b_activeConns b' = (b_activeConns b +64 conns l [Ob e x])) ->
  (forall l, conns l [Ob e x] <> 0%Z -> is_Some (pv_heap (px_prov w) !! l)) ->
  balanced (<[i := (k x, h ++ [Ob e x])]> ts, w').
Proof using Type.
  intros [Hwf Hth Hp Hn Hc] Hi Hwf' Hdom Hpk Hcount Hdec. cbn [fst snd] in *.
  assert (Hin : (Vis e k, h) ∈ ts) by (by eapply list_elem_of_lookup_2).
  assert (Hel : forall t, t ∈ <[i := (k x, h ++ [Ob e x])]> ts -> t = (k x, h ++ [Ob e x]) \/ t ∈ ts).
  { intros t [j Hj]%list_elem_of_lookup. destruct (decide (j = i)) as [->|].
    - rewrite list_lookup_insert_eq in Hj by (by eapply lookup_lt_Some). left. congruence.
    - rewrite list_lookup_insert_ne in Hj by done. right. by eapply list_elem_of_lookup_2. }
  split; cbn [fst snd]; [done| | | |].
  - intros t [->|Ht]%Hel; [|by apply Hth]. by apply (Hth _ Hin).
  - intros t l [->|Ht]%Hel Hl; apply Hdom; [|by eapply Hp]. cbn [snd] in Hl.
    rewrite picks_app in Hl. apply elem_of_app in Hl as [Hl|Hl]; [exact (Hp _ _ Hin Hl)|by apply Hpk].
  - intros t l Ht Hl. assert (Hl0 : pv_heap (px_prov w) !! l = None).
    { apply eq_None_not_Some. intros Hs%Hdom. rewrite Hl in Hs. by destruct Hs. }
    apply Hel in Ht as [->|Ht]; [|by eapply Hn].
    pose proof (Hn _ _ Hin Hl0) as Hz. cbn [snd] in *. rewrite conns_app, Hz.
    destruct (decide (conns l [Ob e x] = 0%Z)) as [->|Hne]; [done|].
    apply Hdec in Hne. rewrite Hl0 in Hne. by destruct Hne.
  - intros l b' Hb'. destruct (Hcount _ _ Hb') as (b & Hb & ->).
    rewrite (in_flight_insert _ _ _ _ _ _ _ Hi), conns_app, (Hc _ _ Hb), int64_wrap_add. f_equal. lia.
Qed.

(** Operations that change no backend's connection count. *)
Lemma balanced_neutral ts w i X (e : PxE X) k h x w' :
  balanced (ts, w) -> ts !! i = Some (Vis e k, h) ->
  px_prov w' = px_prov w -> (forall l, conns l [Ob e x] = 0%Z) ->
  (forall l, l ∈ picks [Ob e x] -> is_Some (pv_heap (px_prov w) !! l)) ->
  balanced (<[i := (k x, h ++ [Ob e x])]> ts, w').
Proof using Type.
  intros Hb Hi Hp Hc Hpk. eapply balanced_thread; [done|done|rewrite Hp; apply Hb|by intros; rewrite Hp|done| |].
  - intros l b Hl. rewrite Hp in Hl. exists b. split; [done|]. rewrite Hc, (bl_count _ Hb _ _ Hl), int64_wrap_add.
    f_equal. lia.
  - intros l Hne. by rewrite Hc in Hne.
Qed.

(** Operations on the counters of one backend. *)
Lemma balanced_counter ts w i X (e : PxE X) k h x f l :
  balanced (ts, w) -> ts !! i = Some (Vis e k, h) ->
  (forall b, b_Name (f b) = b_Name b /\ b_activeConns (f b) = (b_activeConns b +64 conns l [Ob e x])) ->
  (forall k, k <> l -> conns k [Ob e x] = 0%Z) -> picks [Ob e x] = [] ->
  (conns l [Ob e x] <> 0%Z -> l ∈ picks h) ->
  balanced (<[i := (k x, h ++ [Ob e x])]> ts, on_backend f l w).
Proof using Type.
  intros Hb Hi Hf Hc Hpk Hl. eapply balanced_thread; [done|done| | | | |].
  - apply on_backend_wf; [apply Hf|apply Hb].
  - intros j. apply on_backend_dom.
  - intros j. rewrite Hpk. by intros Hj%not_elem_of_nil.
  - intros j b' Hj. cbn in Hj. apply lookup_alter_Some in Hj as [(-> & b & Hb0 & ->)|[Hne Hj]].
    + exists b. split; [done|]. apply Hf.
    + exists b'. split; [done|]. rewrite Hc by done. rewrite (bl_count _ Hb _ _ Hj), int64_wrap_add. f_equal. lia.
  - intros j Hne. destruct (decide (j = l)) as [->|Hjl]; [|by rewrite Hc in Hne].
    eapply (bl_picks _ Hb); [by eapply list_elem_of_lookup_2|]. by apply Hl.
Qed.

(** A check changes the counters of the checker and whether a backend is alive. *)
Lemma check_keeps c answer counts b :
  let b' := (check c answer counts b).1.2 in b_Name b' = b_Name b /\ b_activeConns b' = b_activeConns b.
Proof using Type.
  cbn. rewrite check_cases. unfold recordSuccess, recordFailure. destruct (succeeded answer); cbn; by repeat case_one.
Qed.

Lemma balanced_check ts w checker probe :
  let st := check_at checker (px_counts w, pv_heap (px_prov w)) probe in
  balanced (ts, w) -> balanced (ts, with_heap st.2 st.1 w).
Proof using Type.
  intros st Hb.
  assert (Hon : exists f l, (forall b, b_Name (f b) = b_Name b /\ b_activeConns (f b) = b_activeConns b) /\
    px_prov (with_heap st.2 st.1 w) = px_prov (on_backend f l w)).
  { subst st. destruct probe as [l answer]. cbn. destruct (pv_heap (px_prov w) !! l) as [b|] eqn:Hl.
    - exists (fun b => (check checker answer (px_counts w) b).1.2), l. split; [intros; apply check_keeps|].
      unfold on_backend. cbn. rewrite (alter_insert_lookup _ _ _ _ Hl). by destruct (check _ _ _ _) as [[counts b'] cb].
    - exists (fun b => b), l. split; [done|]. cbn. by rewrite alter_id. }
  destruct Hon as (f & l & Hf & Heq). destruct (balanced_on_backend ts w f l Hf Hb) as [H1 H2 H3 H4 H5].
  cbn [fst snd] in *. rewrite <- Heq in *. by split.
Qed.

(** A refresh keeps the counters of the backends it keeps. *)
Lemma balanced_refresh ts w fetched :
  balanced (ts, w) -> balanced (ts, mkPxWorld (refresh fetched (px_prov w)) (px_bal w) (px_counts w)).
Proof using Type.
  intros [Hwf Hth Hp Hn Hc]. cbn [fst snd] in *. destruct fetched as [specs|]; [|by split].
  destruct (refresh_spec (px_prov w) specs Hwf) as [_ Hold Hbd Hnext _].
  assert (Hkeep : forall l b, pv_heap (px_prov w) !! l = Some b -> pv_heap (refresh (Some specs) (px_prov w)) !! l = Some b).
  { intros l b Hl. rewrite Hold; [done|]. apply (pw_heap _ Hwf). by rewrite Hl. }
  split; cbn [fst snd px_prov].
  - split; [exact Hbd|exact Hnext].
  - done.
  - intros t l Ht Hl. destruct (Hp t l Ht Hl) as [b Hb]. apply Hkeep in Hb. eauto.
  - intros t l Ht Hl. apply (Hn t l Ht). destruct (pv_heap (px_prov w) !! l) eqn:E; [|done].
    apply Hkeep in E. congruence.
  - intros l b Hl. destruct (pv_heap (px_prov w) !! l) as [b0|] eqn:E.
    + apply Hc. pose proof (Hkeep _ _ E). congruence.
    + rewrite in_flight_none by (intros t Ht; by apply (Hn t l Ht)).
      unfold refresh in Hl. destruct (refresh_loop _ _ _ _ _ _) as [[[h' nl'] next'] bs'] eqn:El.
      destruct (refresh_loop_new _ _ _ _ _ _ _ _ _ _ El l b Hl) as [?|Hz]; [congruence|by rewrite Hz].
Qed.

Lemma pstep_balanced checker maxRetries cfg cfg' :
  balanced cfg -> pstep checker maxRetries cfg cfg' -> balanced cfg'.
Proof using Type.
  intros Hb Hs. revert Hb. destruct Hs as [r ts w|i X e k h ts w x w' Hi HR|probe ts w st|fetched ts w]; intros Hb.
  - destruct Hb as [Hwf Hth Hp Hn Hc]. split; cbn [fst snd] in *; [done| | | |].
    + intros t [Ht| ->%list_elem_of_singleton]%elem_of_app; [by apply Hth|]. cbn [fst snd].
      eapply hist_mono; [|apply ServeHTTP_hist]. cbn. by intros _ h (rs & [_ _ _ Hcn _] & _).
    + intros t l [Ht| ->%list_elem_of_singleton]%elem_of_app Hl; [by eapply Hp|]. by apply not_elem_of_nil in Hl.
    + intros t l [Ht| ->%list_elem_of_singleton]%elem_of_app Hl; [by eapply Hn|done].
    + intros l b Hl. rewrite in_flight_app. replace (in_flight_to l [(ServeHTTP maxRetries r, [])]) with 0%Z by done.
      rewrite Z.add_0_r. by apply Hc.
  - pose proof (bl_threads _ Hb _ (list_elem_of_lookup_2 _ _ _ Hi)) as [Hpre _]. cbn [snd] in Hpre.
    destruct e as [|l|l|l|l|l|l req|key v|st|body|msg st|m|]; cbn [px_rel] in HR.
    + destruct HR as [-> ->]. eapply balanced_neutral; [done|done|done|done|]. intros l Hl.
      unfold target_of in Hl. destruct ((balancer_next _ _ _).1) as [l0|]; [|by apply not_elem_of_nil in Hl].
      cbn [mbind option_bind] in Hl. destruct (pv_heap (px_prov w) !! l0) eqn:Hl0; cbn in Hl;
        [apply list_elem_of_singleton in Hl; subst; eauto|by apply not_elem_of_nil in Hl].
    + subst w'. apply balanced_counter; [done|done| | |done|intros _; exact Hpre].
      * intros b. split; [done|]. cbn. by rewrite decide_True.
      * intros j Hj. cbn. by rewrite decide_False.
    + subst w'. apply balanced_counter; [done|done| | |done|intros _; exact Hpre].
      * intros b. split; [done|]. cbn. by rewrite decide_True.
      * intros j Hj. cbn. by rewrite decide_False.
    + subst w'. eapply (balanced_neutral ts (on_backend IncRequests l w)); [by apply balanced_on_backend|done|done|done|].
      intros j Hj. by apply not_elem_of_nil in Hj.
    + subst w'. eapply (balanced_neutral ts (on_backend IncErrors l w)); [by apply balanced_on_backend|done|done|done|].
      intros j Hj. by apply not_elem_of_nil in Hj.
    + destruct HR as [_ ->]. eapply balanced_neutral; [done..|]. intros j Hj. by apply not_elem_of_nil in Hj.
    + subst w'. eapply balanced_neutral; [done..|]. intros j Hj. by apply not_elem_of_nil in Hj.
    + subst w'. eapply balanced_neutral; [done..|]. intros j Hj. by apply not_elem_of_nil in Hj.
    + subst w'. eapply balanced_neutral; [done..|]. intros j Hj. by apply not_elem_of_nil in Hj.
    + subst w'. eapply balanced_neutral; [done..|]. intros j Hj. by apply not_elem_of_nil in Hj.
    + subst w'. eapply balanced_neutral; [done..|]. intros j Hj. by apply not_elem_of_nil in Hj.
    + subst w'. eapply balanced_neutral; [done..|]. intros j Hj. by apply not_elem_of_nil in Hj.
    + subst w'. eapply balanced_neutral; [done..|]. intros j Hj. by apply not_elem_of_nil in Hj.
  - by apply balanced_check.
  - by apply balanced_refresh.
Qed.

Lemma psteps_balanced checker maxRetries cfg cfg' :
  balanced cfg -> psteps checker maxRetries cfg cfg' -> balanced cfg'.
Proof using Type. intros Hb Hs. induction Hs; [done|]. eauto using pstep_balanced. Qed.

(** C9: The connection counts are exact.  However requests, health checks and
    pool refreshes interleave, for every balancer, each backend's
    [ActiveConnections] equals the number of requests in flight to it (modulo
    2^64, as an [int64]); when all requests are done it is zero: no path through
    the handler leaks a connection, not even across refreshes. *)
Theorem connections_accounted (checker : Checker) (maxRetries : Z) (w w' : PxWorld) (ts : list PxThread) :
  provider_wf (px_prov w) ->
  map_Forall (fun _ b => b_activeConns b = 0%Z) (pv_heap (px_prov w)) ->
  psteps checker maxRetries ([], w) (ts, w') ->
  forall l b, pv_heap (px_prov w') !! l = Some b ->
    b_activeConns b = int64_wrap (in_flight_to l ts) /\
    ((forall t, t ∈ ts -> t.1 = Ret tt) -> b_activeConns b = 0%Z).
Proof using Type.
  intros Hwf Hz Hs l b Hl.
  assert (H0 : balanced ([], w)).
  { split; cbn [fst snd]; [done|intros t Ht|intros t k Ht|intros t k Ht|].
    1-3: by apply not_elem_of_nil in Ht.
    intros k b0 Hk. by rewrite (Hz _ _ Hk). }
  pose proof (psteps_balanced _ _ _ _ H0 Hs) as Hb.
  pose proof (bl_count _ Hb _ _ Hl) as Hc. split; [exact Hc|]. intros Hdone. rewrite Hc.
  cbn [fst]. rewrite in_flight_none; [done|]. intros t Ht.
  pose proof (bl_threads _ Hb t Ht) as Hh. rewrite (Hdone t Ht) in Hh. apply Hh.
Qed.
End System.

(** ** The outbound request *)

Lemma header_Get_Set h k v k' : header_Get (header_Set h k v) k' = if decide (k' = k) then v else header_Get h k'.
Proof.
  unfold header_Get, header_Set. case_decide as Hk; [subst; by rewrite lookup_insert_eq|].
  by rewrite lookup_insert_ne.
Qed.

(** What is sent to a backend: the method, query and body of the request
    under the backend's scheme and host, with the two paths joined by exactly
    one slash; the client's address appended to X-Forwarded-For, X-Forwarded-Host
    kept or set to the host asked for, X-Forwarded-Proto set; every other header
    as received. *)
Theorem newOutboundRequest_correct `{UrlLib} (r : Request) (b : Target) :
  exists out, newOutboundRequest r b = Some out /\
    rq_Method out = rq_Method r /\ rq_rest out = rq_rest r /\
    rq_URL_Scheme out = url_Scheme (t_URL b) /\ rq_URL_Host out = url_Host (t_URL b) /\
    rq_Host out = url_Host (t_URL b) /\
    rq_URL_Path out = trim_suffix_slash (url_Path (t_URL b)) +:+ "/" +:+ trim_prefix_slash (rq_URL_Path r) /\
    header_Get (rq_Header out) "X-Forwarded-For" =
      (let prior := header_Get (rq_Header r) "X-Forwarded-For" in
       match SplitHostPort (rq_RemoteAddr r) with
       | Some (ip, _) => if decide (prior = EmptyString) then ip else prior +:+ ", " +:+ ip
       | None => prior
       end) /\
    header_Get (rq_Header out) "X-Forwarded-Host" =
      (let given := header_Get (rq_Header r) "X-Forwarded-Host" in
       if decide (given = EmptyString) then rq_Host r else given) /\
    header_Get (rq_Header out) "X-Forwarded-Proto" = (if rq_TLS r then "https" else "http") /\
    forall k, k ∉ ["X-Forwarded-For"; "X-Forwarded-Host"; "X-Forwarded-Proto"] ->
      rq_Header out !! k = rq_Header r !! k.
Proof.
  eexists. split; [reflexivity|]. cbn [rq_Method rq_rest rq_URL_Scheme rq_URL_Host rq_Host rq_URL_Path rq_Header].
  split_and!; [done..|apply singleJoiningSlash_spec| | | |].
  all: unfold applyForwardingHeaders.
  1-3: destruct (SplitHostPort (rq_RemoteAddr r)) as [[ip port]|];
    destruct (String.eqb_spec (header_Get (rq_Header r) "X-Forwarded-For") EmptyString) as [Hp|Hp]; cbn [negb];
    rewrite !header_Get_Set; rewrite ?decide_False by done;
    destruct (String.eqb_spec (header_Get (rq_Header r) "X-Forwarded-Host") EmptyString) as [Hh|Hh];
    rewrite ?header_Get_Set; repeat case_decide; try done; congruence.
  intros k Hk. rewrite !not_elem_of_cons in Hk. destruct Hk as (H1 & H2 & H3 & _).
  unfold header_Set. repeat case_one; rewrite ?lookup_insert_ne by done; done.
Qed.

Example split_ipv6 : SplitHostPort "[::1]:8080" = Some ("::1", "8080").
Proof. reflexivity. Qed.

(** ** A small proxy *)

Import ToyUrl.

Definition toy_request : Request :=
  mkRequest "GET" "" "" "/users" "" "example.com" "/users" ∅ "10.0.0.7:5123" false.

(** One idle backend behind a round-robin balancer. *)
Definition toy_proxy : PxWorld (S := AnyBalancer) :=
  mkPxWorld (mkProvider {[ 0 := toy_backend "a" 1 true 0 ]} 1 [0] ∅) (RoundRobin 0) ∅.

Definition toy_checker : Checker := NewChecker 2 2.

(** The request has opened its connection. *)
Definition toy_history : list Obs :=
  [Ob EPxNow 0%Z; Ob ENext (Some (mkTarget 0 "a" ("a" : URL))); Ob (EIncConnections 0) tt].

Lemma toy_steps : exists p w', psteps toy_checker 2 ([], toy_proxy) ([(p, toy_history)], w') /\
  pv_heap (px_prov w') !! 0 = Some (IncConnections (toy_backend "a" 1 true 0)).
Proof.
  eexists _, _. split.
  - eapply rtc_l; [apply (ps_request toy_checker 2 toy_request)|].
    eapply rtc_l; [eapply (ps_op _ _ 0 _ _ _ _ _ _ 0%Z); [reflexivity|reflexivity]|].
    eapply rtc_l; [eapply (ps_op _ _ 0); [reflexivity|split; reflexivity]|].
    eapply rtc_l; [eapply (ps_op _ _ 0 _ _ _ _ _ _ tt); [reflexivity|reflexivity]|].
    apply rtc_refl.
  - reflexivity.
Qed.

Lemma connections_accounted_witness :
  exists p w', psteps toy_checker 2 ([], toy_proxy) ([(p, toy_history)], w') /\
    int64_wrap (in_flight_to 0 [(p, toy_history)]) = 1%Z.
Proof.
  destruct toy_steps as (p & w' & Hs & Hb). exists p, w'. split; [exact Hs|].
  assert (Hwf : provider_wf (px_prov toy_proxy)).
  { split; cbn.
    - intros l [b Hl]. apply lookup_singleton_Some in Hl. lia.
    - intros name l Hl. by rewrite lookup_empty in Hl. }
  assert (Hz : map_Forall (fun _ b => b_activeConns b = 0%Z) (pv_heap (px_prov toy_proxy)))
    by (by apply map_Forall_singleton).
  destruct (connections_accounted toy_checker 2 toy_proxy w' [(p, toy_history)] Hwf Hz Hs 0 _ Hb) as [Hc _].
  rewrite <- Hc. reflexivity.
Defined.
