(* ===== verification/Jobs.v ===== *)
(** * ml-job-orchestrator: jobs, their store and retries

    model/job.go, store/store.go and retry/retry.go.  The store is a [sync.Map]
    whose writers hold a mutex, so every method but the listings is one atomic
    step on a finite map. *)

From S2P Require Import Prelude.
From Stdlib Require Import ZArith Lia Sorted.
From stdpp Require Import base gmap strings list.
Local Open Scope go_scope.

(** ** model/job.go *)

Inductive State :=
| StatePending | StateQueued | StateRunning | StateCompleted | StateFailed
| StateExhausted | StateCancelled.

#[global] Instance State_eq_dec : EqDecision State.
Proof. solve_decision. Defined.

(** The string constants of [State]. *)
Definition State_string (s : State) : string :=
  match s with
  | StatePending => "PENDING" | StateQueued => "QUEUED" | StateRunning => "RUNNING"
  | StateCompleted => "COMPLETED" | StateFailed => "FAILED"
  | StateExhausted => "EXHAUSTED" | StateCancelled => "CANCELLED"
  end.

Definition allowedTransitions (from : State) : list State :=
  match from with
  | StatePending => [StateQueued; StateCancelled]
  | StateQueued => [StateRunning; StateCancelled; StatePending]
  | StateRunning => [StateCompleted; StateFailed; StateCancelled]
  | StateFailed => [StatePending; StateExhausted]
  | StateCompleted => []
  | StateExhausted => []
  | StateCancelled => []
  end.

Definition Transition (from to : State) : bool := bool_decide (to ∈ allowedTransitions from).

Record Job := mkJob {
  Job_ID : string;
  Job_Name : string;
  Job_Type : string;
  Job_Command : string;
  Job_Args : list string;
  Job_State : State;
  Job_Priority : Z;
  Job_MaxRetries : Z;
  Job_RetryCount : Z;
  Job_TimeoutSeconds : Z;
  Job_RunAfter : Time;
  Job_CreatedAt : Time;
  Job_StartedAt : option Time;
  Job_FinishedAt : option Time;
  Job_Output : string;
  Job_ErrorMessage : string }.

(** The fields the store and the executor assign, the others kept. *)
Definition job_set (st : State) (retries : Z) (runAfter : Time) (started finished : option Time)
    (output err : string) (j : Job) : Job :=
  mkJob (Job_ID j) (Job_Name j) (Job_Type j) (Job_Command j) (Job_Args j) st (Job_Priority j)
    (Job_MaxRetries j) retries (Job_TimeoutSeconds j) runAfter (Job_CreatedAt j) started finished output err.

(** What is fixed when a job is submitted. *)
Record JobTemplate := mkJobTemplate {
  jt_ID : string; jt_Name : string; jt_Type : string; jt_Command : string; jt_Args : list string;
  jt_Priority : Z; jt_MaxRetries : Z; jt_TimeoutSeconds : Z; jt_CreatedAt : Time }.
Definition job_template (j : Job) : JobTemplate :=
  mkJobTemplate (Job_ID j) (Job_Name j) (Job_Type j) (Job_Command j) (Job_Args j) (Job_Priority j)
    (Job_MaxRetries j) (Job_TimeoutSeconds j) (Job_CreatedAt j).

(** ** retry/retry.go *)

Definition maxBackoff : Duration := 60 * Second.

(** [now] is the clock reading of [time.Now()]; [conv] is the conversion of a
    float no [int64] can hold. *)
Definition ScheduleRetry (conv : Z -> Z) (now : Time) (job : Job) : Job :=
  let retries := Job_RetryCount job +64 1 in
  let pow := if (retries <? 0)%Z then 0%Z else (2 ^ retries)%Z in
  let backoff := float_to_int64 conv pow *64 Second in
  let backoff := if (maxBackoff <? backoff)%Z then maxBackoff else backoff in
  job_set StatePending retries (Prelude.Add now backoff) None None (Job_Output job) (Job_ErrorMessage job) job.

(** ** store/store.go *)

Inductive JErr := ErrNotFound | ErrAlreadyExists | ErrInvalidTransition.
#[global] Instance JErr_eq_dec : EqDecision JErr.
Proof. solve_decision. Defined.

Abbreviation JStore := (gmap string Job) (only parsing).

Definition Create (job : Job) (s : JStore) : option JErr * JStore :=
  match s !! Job_ID job with
  | Some _ => (Some ErrAlreadyExists, s)
  | None => (None, <[Job_ID job := job]> s)
  end.

Definition Get (id : string) (s : JStore) : Job + JErr :=
  match s !! id with
  | None => inr ErrNotFound
  | Some j => inl j
  end.

Definition Update (job : Job) (s : JStore) : option JErr * JStore :=
  match s !! Job_ID job with
  | None => (Some ErrNotFound, s)
  | Some _ => (None, <[Job_ID job := job]> s)
  end.

Definition isTerminal (s : State) : bool :=
  match s with
  | StateCompleted | StateFailed | StateExhausted | StateCancelled => true
  | _ => false
  end.

(** [if t == nil { t = &now }] *)
Definition stamp (now : Time) (t : option Time) : option Time :=
  match t with None => Some now | Some _ => t end.

Definition job_moved (now : Time) (to : State) (errMsg : string) (job : Job) : Job :=
  job_set to (Job_RetryCount job) (Job_RunAfter job)
    (if bool_decide (to = StateRunning) then stamp now (Job_StartedAt job) else Job_StartedAt job)
    (if isTerminal to then stamp now (Job_FinishedAt job) else Job_FinishedAt job)
    (Job_Output job)
    (if String.eqb errMsg EmptyString then Job_ErrorMessage job else errMsg) job.

Definition TransitionJob (now : Time) (id : string) (to : State) (errMsg : string) (s : JStore)
    : option JErr * JStore :=
  match s !! id with
  | None => (Some ErrNotFound, s)
  | Some job =>
      if negb (Transition (Job_State job) to) then (Some ErrInvalidTransition, s)
      else (None, <[id := job_moved now to errMsg job]> s)
  end.

Definition job_with_output (output : string) (job : Job) : Job :=
  job_set (Job_State job) (Job_RetryCount job) (Job_RunAfter job) (Job_StartedAt job)
    (Job_FinishedAt job) output (Job_ErrorMessage job) job.

Definition SetOutput (id output : string) (s : JStore) : option JErr * JStore :=
  match s !! id with
  | None => (Some ErrNotFound, s)
  | Some job => (None, <[id := job_with_output output job]> s)
  end.

Definition Delete (id : string) (s : JStore) : JStore := delete id s.

(** The callbacks of [s.m.Range] append the jobs they keep; [n] picks the
    iteration order. *)
Definition ListByState `{MapRange} (n : nat) (state : State) (s : JStore) : list Job :=
  filter (fun j => Job_State j = state) (map_range n s).

Record ListFilter := mkListFilter { lf_State : string; lf_Type : string; lf_Limit : Z }.

Definition matches (f : ListFilter) (job : Job) : bool :=
  (String.eqb (lf_State f) EmptyString || String.eqb (State_string (Job_State job)) (lf_State f))
  && (String.eqb (lf_Type f) EmptyString || String.eqb (Job_Type job) (lf_Type f)).

Definition List `{MapRange} `{SliceSort} (n : nat) (f : ListFilter) (s : JStore) : list Job * Z :=
  let matched := filter (fun j => matches f j = true) (map_range n s) in
  let matched := sort_slice (fun i j => After (Job_CreatedAt i) (Job_CreatedAt j)) matched in
  let total := Z.of_nat (length matched) in
  if ((0 <? lf_Limit f) && (lf_Limit f <? total))%Z
  then (take (Z.to_nat (lf_Limit f)) matched, total)
  else (matched, total).

(** ** Lemmas *)

Lemma Transition_spec from to : Transition from to = true <-> to ∈ allowedTransitions from.
Proof. unfold Transition. apply bool_decide_eq_true. Qed.

Lemma job_moved_template now to msg j : job_template (job_moved now to msg j) = job_template j.
Proof. done. Qed.
Lemma ScheduleRetry_template conv now j : job_template (ScheduleRetry conv now j) = job_template j.
Proof. done. Qed.

#[global] Instance newest_first_order :
  WeakOrder (fun i j => After (Job_CreatedAt i) (Job_CreatedAt j)).
Proof.
  split; unfold After; intros *; rewrite !Z.ltb_ge; lia.
Qed.

Lemma TransitionJob_legal now id to msg s j :
  s !! id = Some j -> Transition (Job_State j) to = true ->
  TransitionJob now id to msg s = (None, <[id := job_moved now to msg j]> s).
Proof. intros Hj Htr. unfold TransitionJob. by rewrite Hj, Htr. Qed.
