(* ===== verification/Orchestrator.v ===== *)
(** * ml-job-orchestrator: scheduler, workers, executor and API

    Programs over the atomic operations [JobE]: methods of the job store, the
    buffered queue channel, the map of cancel functions shared by the executor
    and the API, contexts, subprocesses, the clock and the Prometheus
    collectors.  [job_rel] says what one operation may do to the [OWorld]. *)

From S2P Require Import Prelude GoText Jobs.
From Stdlib Require Import ZArith Lia Ascii.
From stdpp Require Import base gmap strings list.
Local Open Scope go_scope.

(** ** Operations *)

(** The reason a context is done. *)
Inductive CtxErr := Canceled | DeadlineExceeded.
#[global] Instance CtxErr_eq_dec : EqDecision CtxErr.
Proof. solve_decision. Defined.

(** [case job, ok := <-q] of a select with a default. *)
Inductive Recv := RecvJob (j : Job) | RecvClosed | RecvEmpty.
(** The blocking select on the queue, [stopCh] and [ctx.Done()]. *)
Inductive Wake := WakeJob (j : Job) | WakeClosed | WakeStop | WakeDone.

Inductive JobMetric :=
| JobsSubmitted (jobType : string) | JobsCompleted (jobType : string) | JobsFailed (jobType : string)
| JobsDuration (jobType : string) (s : State) (d : Duration) | QueueDepth (n : Z).

Inductive JobE : Type -> Type :=
| ECreate (j : Job) : JobE (option JErr)
| EGet (id : string) : JobE (Job + JErr)
| EUpdate (j : Job) : JobE (option JErr)
| ETransition (id : string) (to : State) (errMsg : string) : JobE (option JErr)
| ESetOutput (id output : string) : JobE (option JErr)
| EListByState (s : State) : JobE (list Job)
| EList (f : ListFilter) : JobE (list Job * Z)
| ESend (j : Job) : JobE bool
| EQueueLen : JobE Z
| ETryReceive : JobE Recv
| EWait : JobE Wake
| ENow : JobE Time
| ESleep (d : Duration) : JobE unit
| ERandRead (n : nat) : JobE (option (list byte))
| ENewContext (timeout : option Duration) : JobE nat
| ECtxErr (ctx : nat) : JobE (option CtxErr)
| ECancel (ctx : nat) : JobE unit
| EStoreCancel (id : string) (ctx : nat) : JobE unit
| ELoadCancel (id : string) : JobE (option nat)
| EDeleteCancel (id : string) : JobE unit
| EExec (ctx : nat) (command : string) (args : list string) : JobE (string * option string)
| EMetric (m : JobMetric) : JobE unit.

(** ** scheduler/scheduler.go *)

(** [RunAfter.IsZero() || RunAfter.Before(now)] *)
Definition is_ready (now : Time) (j : Job) : bool := IsZero (Job_RunAfter j) || Before (Job_RunAfter j) now.

Definition sooner (i k : Job) : bool :=
  if negb (Job_Priority i =? Job_Priority k)%Z then (Job_Priority k <? Job_Priority i)%Z
  else Before (Job_CreatedAt i) (Job_CreatedAt k).

(** The body of the dispatch loop. *)
Definition dispatch (j : Job) : prog JobE unit :=
  err ← call (ETransition (Job_ID j) StateQueued EmptyString);
  match err with
  | Some _ => Ret tt
  | None =>
      sent ← call (ESend j);
      if sent : bool then Ret tt
      else _ ← call (ETransition (Job_ID j) StatePending EmptyString); Ret tt
  end.

Definition scheduleReady `{SliceSort} : prog JobE unit :=
  pending ← call (EListByState StatePending);
  now ← call ENow;
  let ready := filter (fun j => is_ready now j = true) pending in
  _ ← for_each (sort_slice sooner ready) tt (fun j _ => dispatch j);
  n ← call EQueueLen;
  call (EMetric (QueueDepth n)).

(** ** executor/executor.go *)

Definition recordTerminal (jobType : string) (state : State) (duration : Duration) (success : bool)
    : prog JobE unit :=
  _ ← call (EMetric (if success then JobsCompleted jobType else JobsFailed jobType));
  call (EMetric (JobsDuration jobType state duration)).

Section Executor.
Variable conv : Z -> Z.

Definition failOrRetry (job : Job) (errMsg : string) (duration : Duration) : prog JobE unit :=
  err ← call (ETransition (Job_ID job) StateFailed errMsg);
  match err with
  | Some _ => Ret tt
  | None =>
      _ ← recordTerminal (Job_Type job) StateFailed duration false;
      current ← call (EGet (Job_ID job));
      match current with
      | inr _ => Ret tt
      | inl current =>
          if (Job_RetryCount current <? Job_MaxRetries current)%Z then
            now ← call ENow;
            _ ← call (EUpdate (ScheduleRetry conv now current)); Ret tt
          else
            _ ← call (ETransition (Job_ID job) StateExhausted EmptyString); Ret tt
      end
  end.

(** The switch on how the run ended. *)
Definition settle (job : Job) (ctx : nat) (runErr : option string) (duration : Duration) : prog JobE unit :=
  e1 ← call (ECtxErr ctx);
  if bool_decide (e1 = Some Canceled) then
    _ ← call (ETransition (Job_ID job) StateCancelled "cancelled by user");
    recordTerminal (Job_Type job) StateCancelled duration false
  else
    e2 ← call (ECtxErr ctx);
    if bool_decide (e2 = Some DeadlineExceeded) then failOrRetry job "timeout" duration
    else
      match runErr with
      | Some msg => failOrRetry job msg duration
      | None =>
          _ ← call (ETransition (Job_ID job) StateCompleted EmptyString);
          recordTerminal (Job_Type job) StateCompleted duration true
      end.

Definition Run (job : Job) : prog JobE unit :=
  err ← call (ETransition (Job_ID job) StateRunning EmptyString);
  match err with
  | Some _ => Ret tt
  | None =>
      ctx ← call (ENewContext (if (0 <? Job_TimeoutSeconds job)%Z
                               then Some (Job_TimeoutSeconds job *64 Second) else None));
      _ ← call (EStoreCancel (Job_ID job) ctx);
      start ← call ENow;
      '(output, runErr) ← call (EExec ctx (Job_Command job) (Job_Args job));
      _ ← call (ESetOutput (Job_ID job) output);
      finish ← call ENow;
      _ ← settle job ctx runErr (Sub finish start);
      _ ← call (EDeleteCancel (Job_ID job));
      call (ECancel ctx)
  end.

(** ** worker/pool.go *)

(** One iteration of a worker goroutine; the result says whether it goes on. *)
Definition worker_iteration : prog JobE bool :=
  r ← call ETryReceive;
  match r with
  | RecvClosed => Ret false
  | RecvJob job => _ ← Run job; Ret true
  | RecvEmpty =>
      w ← call EWait;
      match w with
      | WakeJob job => _ ← Run job; Ret true
      | WakeClosed | WakeStop | WakeDone => Ret false
      end
  end.
End Executor.

(** ** api/handlers.go *)

Inductive JBody :=
| JBError (msg : string)
| JBStoreError (e : JErr)
| JBTerminal (s : State)                        (* "job already in terminal state ..." *)
| JBSubmitted (id : string) (s : State) (created : Time)
| JBJob (j : Job)
| JBJobs (js : list Job) (total : Z)
| JBState (id s : string)
| JBStatus (s : string).

Record JResponse := mkJResponse { jr_status : Z; jr_location : option string; jr_body : JBody }.

Definition writeJSON (status : Z) (b : JBody) : JResponse := mkJResponse status None b.
Definition writeJSONError (status : Z) (msg : string) : JResponse := writeJSON status (JBError msg).

Record submitJobRequest := mkSubmitJob {
  sj_Name : string; sj_Type : string; sj_Command : string; sj_Args : list string;
  sj_TimeoutSeconds : Z; sj_MaxRetries : Z; sj_Priority : Z }.

Definition generateID : prog JobE (option string) :=
  r ← call (ERandRead 3);
  Ret (match r with None => None | Some b => Some ("job_" +:+ EncodeToString b) end).

Definition submitted_job (req : submitJobRequest) (id : string) (now : Time) : Job :=
  mkJob id (sj_Name req) (sj_Type req) (sj_Command req) (sj_Args req) StatePending (sj_Priority req)
    (sj_MaxRetries req) 0 (sj_TimeoutSeconds req) 0 now None None EmptyString EmptyString.

(** The ID loop: [None] when crypto/rand fails, [Some ""] when no ID was free. *)
Fixpoint allocate_job (attempts : nat) (req : submitJobRequest) : prog JobE (option string) :=
  match attempts with
  | O => Ret (Some EmptyString)
  | S attempts =>
      genID ← generateID;
      match genID with
      | None => Ret None
      | Some genID =>
          now ← call ENow;
          err ← call (ECreate (submitted_job req genID now));
          match err with
          | None => Ret (Some genID)
          | Some _ => allocate_job attempts req
          end
      end
  end.

Definition SubmitJob (body : option submitJobRequest) : prog JobE JResponse :=
  match body with
  | None => Ret (writeJSONError StatusBadRequest "invalid JSON body")
  | Some req =>
      if String.eqb (sj_Name req) EmptyString || String.eqb (sj_Command req) EmptyString then
        Ret (writeJSONError StatusBadRequest "name and command are required")
      else
        id ← allocate_job 5 req;
        match id with
        | None => Ret (writeJSONError StatusInternalServerError "failed to generate job id")
        | Some id =>
            if String.eqb id EmptyString then
              Ret (writeJSONError StatusInternalServerError "failed to allocate a unique job id")
            else
              _ ← call (EMetric (JobsSubmitted (sj_Type req)));
              job ← call (EGet id);
              match job with
              | inr _ => Ret (writeJSONError StatusInternalServerError "job vanished after creation")
              | inl job =>
                  Ret (mkJResponse StatusCreated (Some ("/jobs/" +:+ id))
                         (JBSubmitted (Job_ID job) (Job_State job) (Job_CreatedAt job)))
              end
        end
  end.

Definition GetJob (id : string) : prog JobE JResponse :=
  job ← call (EGet id);
  match job with
  | inr _ => Ret (writeJSONError StatusNotFound "job not found")
  | inl job => Ret (writeJSON StatusOK (JBJob job))
  end.

(** The query values [state], [type] and [limit], empty when absent. *)
Definition ListJobs (state type limit : string) : prog JobE JResponse :=
  let n := if String.eqb limit EmptyString then 0%Z else default 0%Z (Atoi limit) in
  '(jobs, total) ← call (EList (mkListFilter state type n));
  Ret (writeJSON StatusOK (JBJobs jobs total)).

(** The loop that waits for the executor; [None]: the iterations given were not
    enough. *)
Fixpoint await_cancelled (fuel : nat) (id : string) (deadline : Time) (job : Job)
    : prog JobE (option Job) :=
  match fuel with
  | O => Ret None
  | S fuel =>
      now ← call ENow;
      if Before now deadline then
        current ← call (EGet id);
        match current with
        | inl current =>
            if bool_decide (Job_State current = StateCancelled) then Ret (Some current)
            else _ ← call (ESleep (20 * Millisecond)); await_cancelled fuel id deadline job
        | inr _ => _ ← call (ESleep (20 * Millisecond)); await_cancelled fuel id deadline job
        end
      else Ret (Some job)
  end.

(** Two seconds in steps of at least 20 ms, and the check that ends the loop. *)
Definition cancel_polls : nat := 101.

Definition CancelJob (id : string) : prog JobE (option JResponse) :=
  job ← call (EGet id);
  match job with
  | inr _ => Ret (Some (writeJSONError StatusNotFound "job not found"))
  | inl job =>
      match Job_State job with
      | StateCompleted | StateFailed | StateExhausted | StateCancelled =>
          Ret (Some (writeJSON StatusConflict (JBTerminal (Job_State job))))
      | StateRunning =>
          cancel ← call (ELoadCancel id);
          _ ← match cancel with Some ctx => call (ECancel ctx) | None => Ret tt end;
          now ← call ENow;
          r ← await_cancelled cancel_polls id (Prelude.Add now (2 * Second)) job;
          match r with
          | None => Ret None
          | Some job => Ret (Some (writeJSON StatusOK (JBState (Job_ID job) (State_string (Job_State job)))))
          end
      | StatePending | StateQueued =>
          err ← call (ETransition id StateCancelled "cancelled by user");
          match err with
          | Some e => Ret (Some (writeJSON StatusConflict (JBStoreError e)))
          | None =>
              job ← call (EGet id);
              match job with
              | inl job => Ret (Some (writeJSON StatusOK (JBState (Job_ID job) (State_string (Job_State job)))))
              | inr _ => Ret (Some (writeJSON StatusOK (JBState EmptyString EmptyString)))
              end
          end
      end
  end.

Definition Healthz : JResponse := writeJSON StatusOK (JBStatus "ok").

(** ** What one operation does *)

Record OWorld := mkOWorld {
  ow_jobs : gmap string Job;
  ow_queue : list Job;             (* the buffered channel, oldest first *)
  ow_cancels : gmap string nat;    (* job ID -> context to cancel *)
  ow_contexts : nat;               (* contexts created so far *)
  ow_cancelled : gset nat;         (* contexts whose cancel function was called *)
  ow_clock : Time;
  ow_metrics : list JobMetric }.

Definition with_jobs (m : gmap string Job) (t : Time) (w : OWorld) : OWorld :=
  mkOWorld m (ow_queue w) (ow_cancels w) (ow_contexts w) (ow_cancelled w) t (ow_metrics w).
Definition with_queue (q : list Job) (w : OWorld) : OWorld :=
  mkOWorld (ow_jobs w) q (ow_cancels w) (ow_contexts w) (ow_cancelled w) (ow_clock w) (ow_metrics w).
Definition with_cancels (m : gmap string nat) (n : nat) (s : gset nat) (w : OWorld) : OWorld :=
  mkOWorld (ow_jobs w) (ow_queue w) m n s (ow_clock w) (ow_metrics w).

Section Semantics.
Context `{MapRange} `{SliceSort}.
(** The capacity of the channel (buffered: a send to a full channel does not
    wait for a receiver).  [exact]: nothing else runs, so that a listing
    shows the store as it is; otherwise [sync.Map.Range] visits the entries
    while others change them and nothing is assumed of what it returns. *)
Variables (cap : nat) (exact : bool).

(** The readings of the clock do not go back, and [time.Sleep(d)] takes at
    least [d].  The result of a subprocess, and a parent context or deadline
    that ends a context, are up to the environment. *)
Definition job_rel X (e : JobE X) : OWorld -> X -> OWorld -> Prop :=
  match e in JobE X return OWorld -> X -> OWorld -> Prop with
  | ECreate j => fun w r w' =>
      r = (Create j (ow_jobs w)).1 /\ w' = with_jobs (Create j (ow_jobs w)).2 (ow_clock w) w
  | EGet id => fun w r w' => r = Get id (ow_jobs w) /\ w' = w
  | EUpdate j => fun w r w' =>
      r = (Update j (ow_jobs w)).1 /\ w' = with_jobs (Update j (ow_jobs w)).2 (ow_clock w) w
  | ETransition id to msg => fun w r w' => exists now, (ow_clock w <= now)%Z /\
      r = (TransitionJob now id to msg (ow_jobs w)).1 /\
      w' = with_jobs (TransitionJob now id to msg (ow_jobs w)).2 now w
  | ESetOutput id out => fun w r w' =>
      r = (SetOutput id out (ow_jobs w)).1 /\ w' = with_jobs (SetOutput id out (ow_jobs w)).2 (ow_clock w) w
  | EListByState s => fun w r w' => w' = w /\ (exact = true -> exists n, r = ListByState n s (ow_jobs w))
  | EList f => fun w r w' => w' = w /\ (exact = true -> exists n, r = List n f (ow_jobs w))
  | ESend j => fun w r w' =>
      if decide (length (ow_queue w) < cap) then r = true /\ w' = with_queue (ow_queue w ++ [j]) w
      else r = false /\ w' = w
  | EQueueLen => fun w r w' => r = Z.of_nat (length (ow_queue w)) /\ w' = w
  | ETryReceive => fun w r w' =>
      match ow_queue w with
      | j :: q => r = RecvJob j /\ w' = with_queue q w
      | [] => r = RecvEmpty /\ w' = w
      end
  | EWait => fun w r w' =>
      (exists j q, ow_queue w = j :: q /\ r = WakeJob j /\ w' = with_queue q w) \/
      ((r = WakeStop \/ r = WakeDone) /\ w' = w)
  | ENow => fun w t w' => (ow_clock w <= t)%Z /\ w' = with_jobs (ow_jobs w) t w
  | ESleep d => fun w _ w' => exists t, (ow_clock w + d <= t)%Z /\ (ow_clock w <= t)%Z /\ w' = with_jobs (ow_jobs w) t w
  | ERandRead n => fun w r w' => w' = w /\ (forall bs, r = Some bs -> length bs = n)
  | ENewContext _ => fun w r w' => r = ow_contexts w /\
      w' = with_cancels (ow_cancels w) (S (ow_contexts w)) (ow_cancelled w) w
  | ECtxErr ctx => fun w r w' => w' = w /\ (ctx ∈ ow_cancelled w -> r <> None)
  | ECancel ctx => fun w _ w' =>
      w' = with_cancels (ow_cancels w) (ow_contexts w) ({[ctx]} ∪ ow_cancelled w) w
  | EStoreCancel id ctx => fun w _ w' =>
      w' = with_cancels (<[id := ctx]> (ow_cancels w)) (ow_contexts w) (ow_cancelled w) w
  | ELoadCancel id => fun w r w' => r = ow_cancels w !! id /\ w' = w
  | EDeleteCancel id => fun w _ w' =>
      w' = with_cancels (delete id (ow_cancels w)) (ow_contexts w) (ow_cancelled w) w
  | EExec _ _ _ => fun w _ w' => w' = w
  | EMetric m => fun w _ w' =>
      w' = mkOWorld (ow_jobs w) (ow_queue w) (ow_cancels w) (ow_contexts w) (ow_cancelled w) (ow_clock w)
             (ow_metrics w ++ [m])
  end.
End Semantics.
