(* ===== verification/JobCustody.v ===== *)
(** * ml-job-orchestrator: who is responsible for a job

    The scheduler, the workers and the API run concurrently against one store.
    A job that is QUEUED, RUNNING or FAILED must always be somebody's: in the
    channel, or in the hands of one thread.  [custody] assigns it; the operations
    move it ([handover]), and [cg] proves program by program, under interference
    of the other threads, that it is respected and that a thread that ends is
    responsible for nothing. *)

From S2P Require Import Prelude Jobs Orchestrator.
From Stdlib Require Import ZArith Lia.
From stdpp Require Import base gmap strings list.
Local Open Scope go_scope.

(** ** The state the argument is about *)

Inductive Holder := InQueue | Held (t : nat).
#[global] Instance Holder_eq_dec : EqDecision Holder.
Proof. solve_decision. Defined.

Record View := mkView {
  v_jobs : gmap string Job;
  v_queue : list Job;
  v_custody : gmap string Holder }.

Definition state_of (v : View) (id : string) : option State := Job_State <$> v_jobs v !! id.

Definition in_flight (s : State) : bool :=
  match s with StateQueued | StateRunning | StateFailed => true | _ => false end.

(** How often a job is in the channel. *)
Definition queued_times (id : string) (q : list Job) : nat := length (filter (fun j => Job_ID j = id) q).

Definition custody_ok (st : option State) (times : nat) (h : option Holder) : Prop :=
  match h with
  | Some InQueue => st = Some StateQueued /\ times = 1
  | Some (Held _) => (exists s, st = Some s /\ in_flight s = true) /\ times = 0
  | None => (forall s, st = Some s -> in_flight s = false) /\ (times = 0 \/ st = Some StateCancelled)
  end.

(** The retries made are within the budget. *)
Definition in_budget (j : Job) : Prop :=
  (0 <= Job_RetryCount j)%Z /\ (Job_RetryCount j <= Z.max 0 (Job_MaxRetries j))%Z /\ in_int64 (Job_MaxRetries j).

Record inv (v : View) : Prop := {
  inv_ids : map_Forall (fun k j => Job_ID j = k) (v_jobs v);
  inv_budget : map_Forall (fun _ j => in_budget j) (v_jobs v);
  inv_custody : forall id, custody_ok (state_of v id) (queued_times id (v_queue v)) (v_custody v !! id) }.

(** The life cycle. *)
Definition job_path : State -> State -> Prop := rtc (fun a b => Transition a b = true).

Definition persists (m m' : gmap string Job) : Prop :=
  forall id j, m !! id = Some j ->
    exists j', m' !! id = Some j' /\ job_template j' = job_template j /\ job_path (Job_State j) (Job_State j').

(** What thread [t] can rely on while others run: jobs persist along their life
    cycle; a job in the hands of [t] is left alone, except that it may be
    cancelled (not when it is FAILED); nothing is handed to [t]. *)
Record rely (t : nat) (v v' : View) : Prop := {
  rl_persists : persists (v_jobs v) (v_jobs v');
  rl_held : forall id, v_custody v !! id = Some (Held t) ->
    (v_custody v' !! id = Some (Held t) /\ v_jobs v' !! id = v_jobs v !! id) \/
    (state_of v' id = Some StateCancelled /\ state_of v id <> Some StateFailed);
  rl_back : forall id, v_custody v' !! id = Some (Held t) -> v_custody v !! id = Some (Held t) }.

Lemma job_path_cancelled s : job_path StateCancelled s -> s = StateCancelled.
Proof. intros Hp. inversion Hp as [|? ? ? Hbad _]; [done|]. discriminate Hbad. Qed.

Lemma state_of_Some v id s : state_of v id = Some s <-> exists j, v_jobs v !! id = Some j /\ Job_State j = s.
Proof. unfold state_of. rewrite fmap_Some. naive_solver. Qed.

#[global] Instance persists_preorder : PreOrder persists.
Proof.
  split.
  - intros m id j Hj. exists j. split_and!; [done|done|apply rtc_refl].
  - intros m1 m2 m3 H12 H23 id j Hj. destruct (H12 _ _ Hj) as (j2 & Hj2 & Ht2 & Hp2).
    destruct (H23 _ _ Hj2) as (j3 & Hj3 & Ht3 & Hp3). exists j3.
    split_and!; [done|congruence|]. unfold job_path in *. by etrans.
Qed.

Lemma persists_cancelled v v' id :
  persists (v_jobs v) (v_jobs v') -> state_of v id = Some StateCancelled -> state_of v' id = Some StateCancelled.
Proof.
  rewrite !state_of_Some. intros Hp (j & Hj & Hs). destruct (Hp _ _ Hj) as (j' & Hj' & _ & Hpath).
  exists j'. split; [done|]. rewrite Hs in Hpath. by apply job_path_cancelled.
Qed.

#[global] Instance rely_preorder t : PreOrder (rely t).
Proof.
  split.
  - intros v. split; [reflexivity|auto|auto].
  - intros v1 v2 v3 [P12 H12 B12] [P23 H23 B23]. split; [by etrans| |auto].
    intros id Hid. destruct (H12 _ Hid) as [[Hc Hj]|[Hc Hf]].
    + destruct (H23 _ Hc) as [[Hc' Hj']|[Hc' Hf']]; [left; split; congruence|].
      right. split; [done|]. unfold state_of in *. by rewrite <- Hj.
    + right. split; [|done]. by eapply persists_cancelled.
Qed.

(** ** What the operations do to custody *)

Definition taken (t : nat) (j : Job) (m : gmap string Holder) : gmap string Holder :=
  if decide (m !! Job_ID j = Some InQueue) then <[Job_ID j := Held t]> m else m.

Definition moved_to (t : nat) (id : string) (to : State) (m : gmap string Holder) : gmap string Holder :=
  if in_flight to then <[id := Held t]> m else delete id m.

Definition handover (t : nat) X (e : JobE X) : X -> gmap string Holder -> gmap string Holder :=
  match e in JobE X return X -> gmap string Holder -> gmap string Holder with
  | ETransition id to _ => fun r m => match r with None => moved_to t id to m | Some _ => m end
  | EUpdate j => fun r m => match r with None => moved_to t (Job_ID j) (Job_State j) m | Some _ => m end
  | ESend j => fun r m =>
      if r : bool then (if decide (m !! Job_ID j = Some (Held t)) then <[Job_ID j := InQueue]> m else m) else m
  | ETryReceive => fun r m => match r with RecvJob j => taken t j m | _ => m end
  | EWait => fun r m => match r with WakeJob j => taken t j m | _ => m end
  | _ => fun _ m => m
  end.

Definition view (w : OWorld) (m : gmap string Holder) : View := mkView (ow_jobs w) (ow_queue w) m.

(** Thread [t] may go from [v] to [v']: the invariant holds and the other
    threads' reliance is respected. *)
Definition respects (t : nat) (v v' : View) : Prop :=
  inv v' /\ forall u, u <> t -> rely u v v'.

Lemma respects_refl t v : inv v -> respects t v v.
Proof. intros Hi. split; [done|]. intros u _. reflexivity. Qed.

(** Writing one job. *)
Lemma write_respects t v id j j' m' :
  inv v -> v_jobs v !! id = Some j ->
  job_template j' = job_template j -> job_path (Job_State j) (Job_State j') -> in_budget j' ->
  (forall k, k <> id -> m' !! k = v_custody v !! k) ->
  custody_ok (Some (Job_State j')) (queued_times id (v_queue v)) (m' !! id) ->
  (forall u, u <> t -> v_custody v !! id = Some (Held u) ->
     Job_State j' = StateCancelled /\ Job_State j <> StateFailed) ->
  (forall u, u <> t -> m' !! id <> Some (Held u)) ->
  respects t v (mkView (<[id := j']> (v_jobs v)) (v_queue v) m').
Proof.
  intros [Hids Hbud Hcus] Hj Htmpl Hpath Hb Hm Hok Hother Hmine. split.
  - split; cbn.
    + apply map_Forall_insert_2; [|done]. rewrite <- (Hids _ _ Hj). exact (f_equal jt_ID Htmpl).
    + by apply map_Forall_insert_2.
    + intros k. unfold state_of. cbn. destruct (decide (k = id)) as [->|Hk].
      * by rewrite lookup_insert_eq.
      * rewrite lookup_insert_ne, Hm by done. apply Hcus.
  - intros u Hu. split; cbn.
    + intros k i Hi. destruct (decide (k = id)) as [->|Hk].
      * rewrite lookup_insert_eq. exists j'. assert (i = j) as -> by congruence. done.
      * rewrite lookup_insert_ne by done. exists i. split_and!; [done|done|apply rtc_refl].
    + intros k Hk. unfold state_of. cbn. destruct (decide (k = id)) as [->|Hne].
      * right. rewrite lookup_insert_eq, Hj. cbn. destruct (Hother u Hu Hk) as [-> ?]. naive_solver.
      * left. rewrite lookup_insert_ne, Hm by done. done.
    + intros k Hk. destruct (decide (k = id)) as [->|Hne]; [by apply Hmine in Hk|by rewrite <- Hm].
Qed.

Lemma moved_to_ne t id to m k : k <> id -> moved_to t id to m !! k = m !! k.
Proof.
  intros. unfold moved_to. destruct (in_flight to); [apply lookup_insert_ne|apply lookup_delete_ne]; done.
Qed.
Lemma moved_to_eq t id to m : moved_to t id to m !! id = (if in_flight to then Some (Held t) else None).
Proof. unfold moved_to. destruct (in_flight to); [apply lookup_insert_eq|apply lookup_delete_eq]. Qed.

(** A job that moves in one step, and who may move it: its holder; anybody who
    takes it up while it is PENDING; anybody who cancels it. *)
Lemma move_respects t v id j j' :
  inv v -> v_jobs v !! id = Some j -> job_template j' = job_template j ->
  Transition (Job_State j) (Job_State j') = true -> in_budget j' ->
  (v_custody v !! id = Some (Held t) \/ Job_State j = StatePending \/ Job_State j' = StateCancelled) ->
  respects t v (mkView (<[id := j']> (v_jobs v)) (v_queue v) (moved_to t id (Job_State j') (v_custody v))).
Proof.
  intros Hi Hj Htmpl Htr Hb Hwho. pose proof (inv_custody _ Hi id) as Hc.
  unfold state_of in Hc. rewrite Hj in Hc. cbn in Hc.
  eapply write_respects; [done|done|done|by apply rtc_once|done|intros; by apply moved_to_ne| | |].
  - rewrite moved_to_eq. unfold custody_ok in *.
    destruct (v_custody v !! id) as [[|u]|]; destruct (Job_State j), (Job_State j'); try discriminate Htr;
      cbn in *; split_and_all; simplify_eq/=; naive_solver.
  - intros u Hu Hh. rewrite Hh in Hc. cbn in Hc. destruct Hc as [(s & [= <-] & Hs) _].
    destruct Hwho as [?|[Hw|Hw]]; [congruence|by rewrite Hw in Hs|].
    split; [done|]. intros Hf. by rewrite Hf, Hw in Htr.
  - intros u Hu. rewrite moved_to_eq. destruct (in_flight _); congruence.
Qed.

(** ** Programs under interference *)

Section Cg.
Context `{MapRange} `{SliceSort} (cap : nat) (t : nat).

Definition vstep X (e : JobE X) (v : View) (x : X) (v' : View) : Prop :=
  exists w w', v_jobs v = ow_jobs w /\ v_queue v = ow_queue w /\ job_rel cap false X e w x w' /\
    v' = view w' (handover t X e x (v_custody v)).

(** Before each operation, and at the end, the others may have run. *)
Fixpoint cg {A} (p : prog JobE A) (Q : A -> View -> Prop) (v : View) : Prop :=
  match p with
  | Ret a => forall v1, rely t v v1 -> inv v1 -> Q a v1
  | Vis e k => forall v1, rely t v v1 -> inv v1 -> forall x v2, vstep _ e v1 x v2 ->
      respects t v1 v2 /\ cg (k x) Q v2
  end.

Lemma cg_rely {A} (p : prog JobE A) Q v v1 : cg p Q v -> rely t v v1 -> cg p Q v1.
Proof using Type. destruct p; cbn; intros Hp Hr v2 Hr2; apply Hp; by etrans. Qed.

Lemma cg_mono {A} (p : prog JobE A) (Q Q' : A -> View -> Prop) v :
  (forall a v', Q a v' -> Q' a v') -> cg p Q v -> cg p Q' v.
Proof using Type.
  intros HQ. revert v. induction p as [a|X e k IH]; intros v Hp; cbn; [by eauto|].
  intros v1 Hr Hi x v2 Hs. destruct (Hp v1 Hr Hi x v2 Hs) as [? ?]. eauto.
Qed.

Lemma cg_bind {A B} (p : prog JobE A) (f : A -> prog JobE B) Q v :
  inv v -> cg p (fun a v' => inv v' -> cg (f a) Q v') v -> cg (p ≫= f) Q v.
Proof using Type.
  revert v. induction p as [a|X e k IH]; intros v Hi Hp; cbn.
  - apply (Hp v); [reflexivity|done|done].
  - intros v1 Hr Hi1 x v2 Hs. destruct (Hp v1 Hr Hi1 x v2 Hs) as [Hresp Hk]. split; [done|].
    apply IH; [apply Hresp|done].
Qed.

Lemma cg_seq {A B} (p : prog JobE A) (f : A -> prog JobE B) P Q v :
  inv v -> cg p P v -> (forall a v', P a v' -> inv v' -> cg (f a) Q v') -> cg (p ≫= f) Q v.
Proof using Type. intros Hi Hp Hf. apply cg_bind; [done|]. eapply cg_mono; [|exact Hp]. auto. Qed.

(** Operations that touch neither jobs nor queue. *)
Definition quiet X (e : JobE X) : bool :=
  match e with
  | ECreate _ | EUpdate _ | ETransition _ _ _ | ESetOutput _ _ | ESend _ | ETryReceive | EWait => false
  | _ => true
  end.

Lemma vstep_quiet X (e : JobE X) v x v' : quiet X e = true -> vstep X e v x v' -> v' = v.
Proof using Type.
  intros Hq (w & w' & Hj & Hqu & HR & ->). destruct v as [jobs q m]. cbn in *. subst.
  destruct e; try discriminate Hq; cbn in *; split_and_all; subst; done.
Qed.

Lemma cg_quiet {A X} (e : JobE X) (k : X -> prog JobE A) Q v :
  quiet X e = true -> (forall x, cg (k x) Q v) -> cg (call e ≫= k) Q v.
Proof using Type.
  intros Hq Hk v1 Hr Hi x v2 Hs. apply vstep_quiet in Hs as ->; [|done].
  split; [by apply respects_refl|]. eapply cg_rely; [apply Hk|done].
Qed.

(** The last operation of a program. *)
Lemma cg_quiet1 {X} (e : JobE X) (Q : X -> View -> Prop) v :
  quiet X e = true -> (forall x v', rely t v v' -> inv v' -> Q x v') -> cg (call e) Q v.
Proof using Type.
  intros Hq HQ v1 Hr Hi x v2 Hs. apply vstep_quiet in Hs as ->; [|done].
  split; [by apply respects_refl|]. intros v2 Hr2 Hi2. apply HQ; [by etrans|done].
Qed.

Lemma cg_get {A} id (k : Job + JErr -> prog JobE A) Q v :
  (forall v1, rely t v v1 -> inv v1 -> cg (k (Get id (v_jobs v1))) Q v1) -> cg (call (EGet id) ≫= k) Q v.
Proof using Type.
  intros Hk v1 Hr Hi x v2 Hs. assert (v2 = v1) as -> by (by apply (vstep_quiet _ (EGet id) v1 x v2)).
  destruct Hs as (w & w' & Hj & _ & [-> _] & _). split; [by apply respects_refl|].
  rewrite <- Hj. by apply Hk.
Qed.

(** ** What a thread knows of its custody *)

(** It is responsible for nothing, or for at most [id]. *)
Definition idle (v : View) : Prop := forall id, v_custody v !! id <> Some (Held t).
Definition at_most (id : string) (v : View) : Prop := forall k, v_custody v !! k = Some (Held t) -> k = id.

(** [id] is in its hands and in state [st], unless it has been cancelled. *)
Definition custody (id : string) (st : State) (v : View) : Prop :=
  at_most id v /\
  (v_custody v !! id = Some (Held t) /\ state_of v id = Some st \/ state_of v id = Some StateCancelled).

(** [j] is in its hands and FAILED: nobody else touches it. *)
Definition failed (id : string) (j : Job) (v : View) : Prop :=
  at_most id v /\ v_custody v !! id = Some (Held t) /\ v_jobs v !! id = Some j /\ Job_State j = StateFailed.

Lemma idle_rely v v1 : idle v -> rely t v v1 -> idle v1.
Proof using Type. intros Hid Hr id Hc. by apply (Hid id), (rl_back _ _ _ Hr). Qed.
Lemma at_most_rely id v v1 : at_most id v -> rely t v v1 -> at_most id v1.
Proof using Type. intros Ha Hr k Hk. by apply Ha, (rl_back _ _ _ Hr). Qed.

Lemma custody_rely id st v v1 : custody id st v -> rely t v v1 -> custody id st v1.
Proof using Type.
  intros [Ha Hc] Hr. split; [by eapply at_most_rely|]. destruct Hc as [[Hc Hs]|Hs].
  - destruct (rl_held _ _ _ Hr _ Hc) as [[? Hj]|[? _]]; [left|by right].
    split; [done|]. unfold state_of in *. by rewrite Hj.
  - right. eapply persists_cancelled; [apply Hr|done].
Qed.

Lemma failed_rely id j v v1 : failed id j v -> rely t v v1 -> failed id j v1.
Proof using Type.
  intros (Ha & Hc & Hj & Hs) Hr. split; [by eapply at_most_rely|].
  destruct (rl_held _ _ _ Hr _ Hc) as [[? Hj']|[_ Hf]].
  - split_and!; [done|congruence|done].
  - exfalso. apply Hf. unfold state_of. rewrite Hj. cbn. by rewrite Hs.
Qed.

(** A cancelled job is nobody's. *)
Lemma cancelled_idle id v : inv v -> at_most id v -> state_of v id = Some StateCancelled -> idle v.
Proof using Type.
  intros Hi Ha Hs k Hk. assert (k = id) as -> by (by apply Ha).
  pose proof (inv_custody _ Hi id) as Hc. rewrite Hk, Hs in Hc. cbn in Hc.
  destruct Hc as [(s & [= <-] & Hbad) _]. done.
Qed.

(** ** The operations that change something *)

(** A transition of a job in the thread's custody. *)
Lemma cg_transition {A} id st to msg (k : option JErr -> prog JobE A) Q v :
  custody id st v -> Transition st to = true ->
  (forall v2, idle v2 -> inv v2 -> cg (k (Some ErrInvalidTransition)) Q v2) ->
  (forall v2, inv v2 ->
     (if in_flight to then exists j, at_most id v2 /\ v_custody v2 !! id = Some (Held t) /\
        v_jobs v2 !! id = Some j /\ Job_State j = to
      else idle v2) ->
     cg (k None) Q v2) ->
  cg (call (ETransition id to msg) ≫= k) Q v.
Proof using Type.
  intros Hc Htr Hno Hyes v1 Hr Hi x v2 (w & w' & Hj & Hq & (now & _ & -> & ->) & ->).
  apply (custody_rely _ _ _ v1) in Hc; [|done]. destruct Hc as [Ha Hc].
  unfold view, TransitionJob. cbn [ow_jobs ow_queue with_jobs handover]. rewrite <- Hj, <- Hq.
  destruct Hc as [[Hh Hst]|Hst]; apply state_of_Some in Hst as (j & Hid & Hs); rewrite Hid.
  - rewrite Hs, Htr. cbn [negb fst snd handover].
    assert (Hresp : respects t v1 (mkView (<[id := job_moved now to msg j]> (v_jobs v1)) (v_queue v1)
      (moved_to t id to (v_custody v1)))).
    { apply (move_respects t v1 id j (job_moved now to msg j)); [done|done|done| | |by left].
      - cbn. by rewrite Hs.
      - exact (inv_budget _ Hi _ _ Hid). }
    split; [exact Hresp|]. apply Hyes; [apply Hresp|]. destruct (in_flight to) eqn:Hf; cbn.
    + exists (job_moved now to msg j). rewrite lookup_insert_eq, moved_to_eq, Hf. split_and!; try done.
      intros i Hk. destruct (decide (i = id)) as [|Hne]; [done|].
      cbn [v_custody] in Hk. rewrite moved_to_ne in Hk by done. by apply Ha.
    + intros i Hk. cbn [v_custody] in Hk. destruct (decide (i = id)) as [->|Hne].
      * rewrite moved_to_eq, Hf in Hk. done.
      * rewrite moved_to_ne in Hk by done. by apply Ha in Hk.
  - rewrite Hs. assert (Transition StateCancelled to = false) as -> by (by destruct to). cbn.
    assert (mkView (v_jobs v1) (v_queue v1) (v_custody v1) = v1) as -> by (by destruct v1).
    split; [by apply respects_refl|]. apply Hno; [|done]. eapply cancelled_idle; [done|done|].
    apply state_of_Some. eauto.
Qed.

(** Storing output of a job in custody. *)
Lemma cg_set_output {A} id st out (k : option JErr -> prog JobE A) Q v :
  custody id st v -> st <> StatePending ->
  (forall r v2, custody id st v2 -> inv v2 -> cg (k r) Q v2) ->
  cg (call (ESetOutput id out) ≫= k) Q v.
Proof using Type.
  intros Hc Hnp Hk v1 Hr Hi x v2 (w & w' & Hj & Hq & (-> & ->) & ->).
  apply (custody_rely _ _ _ v1) in Hc; [|done].
  unfold view, SetOutput. cbn [ow_jobs ow_queue with_jobs handover]. rewrite <- Hj, <- Hq.
  assert (exists j, v_jobs v1 !! id = Some j) as (j & Hid).
  { destruct Hc as [_ [[_ Hs]|Hs]]; apply state_of_Some in Hs as (j & ? & _); eauto. }
  rewrite Hid. cbn [fst snd].
  assert (Hresp : respects t v1 (mkView (<[id := job_with_output out j]> (v_jobs v1)) (v_queue v1) (v_custody v1))).
  { pose proof (inv_custody _ Hi id) as Hcu. unfold state_of in Hcu. rewrite Hid in Hcu.
    assert (Hmine : forall u, u <> t -> v_custody v1 !! id <> Some (Held u)).
    { intros u Hu Hh. destruct Hc as [Ha [[Hc _]|Hs]]; [congruence|].
      rewrite Hh in Hcu. unfold state_of in Hs. rewrite Hid in Hs. destruct Hcu as [(s & Heq & Hbad) _].
      cbn in *. simplify_eq/=. by rewrite Hs in Hbad. }
    eapply write_respects; [done|done|done|apply rtc_refl|exact (inv_budget _ Hi _ _ Hid)|done|done| |done].
    intros u Hu Hh. by destruct (Hmine u Hu). }
  split; [exact Hresp|]. apply Hk; [|apply Hresp]. destruct Hc as [Ha Hc]. split; [exact Ha|].
  revert Hc. unfold state_of. cbn. rewrite lookup_insert_eq, Hid. done.
Qed.

(** Writing back a failed job that will be retried. *)
Lemma cg_requeue {A} id j j' (k : option JErr -> prog JobE A) Q v :
  failed id j v -> job_template j' = job_template j -> Job_State j' = StatePending -> in_budget j' ->
  (forall r v2, idle v2 -> inv v2 -> cg (k r) Q v2) ->
  cg (call (EUpdate j') ≫= k) Q v.
Proof using Type.
  intros Hf Htmpl Hs Hb Hk v1 Hr Hi x v2 (w & w' & Hj & Hq & (-> & ->) & ->).
  apply (failed_rely _ _ _ v1) in Hf; [|done]. destruct Hf as (Ha & Hh & Hid & Hfs).
  assert (Hkey : Job_ID j' = id).
  { rewrite <- (inv_ids _ Hi _ _ Hid). exact (f_equal jt_ID Htmpl). }
  unfold view, Update. cbn [ow_jobs ow_queue with_jobs handover]. rewrite <- Hj, <- Hq, Hkey, Hid.
  cbn [fst snd].
  assert (Hresp : respects t v1 (mkView (<[id := j']> (v_jobs v1)) (v_queue v1)
    (moved_to t id (Job_State j') (v_custody v1)))).
  { eapply move_respects; [done|done|done|by rewrite Hfs, Hs|done|by left]. }
  rewrite Hs in *. split; [exact Hresp|]. apply Hk; [|apply Hresp]. intros i Hi'. cbn in Hi'.
  destruct (decide (i = id)) as [->|Hne]; [by rewrite lookup_delete_eq in Hi'|].
  rewrite lookup_delete_ne in Hi' by done. by apply Ha in Hi'.
Qed.

(** A transition by a thread that is responsible for nothing: it takes a PENDING
    job up, or cancels one. *)
Lemma cg_idle_transition {A} id to msg (k : option JErr -> prog JobE A) Q v :
  idle v -> to = StateQueued \/ to = StateCancelled ->
  (forall e v2, idle v2 -> inv v2 -> cg (k (Some e)) Q v2) ->
  (forall v2, inv v2 -> (if decide (to = StateQueued) then custody id StateQueued v2 else idle v2) ->
     cg (k None) Q v2) ->
  cg (call (ETransition id to msg) ≫= k) Q v.
Proof using Type.
  intros Hidle Hto Hno Hyes v1 Hr Hi x v2 (w & w' & Hj & Hq & (now & _ & -> & ->) & ->).
  apply (idle_rely v v1) in Hidle; [|done].
  unfold view, TransitionJob. cbn [ow_jobs ow_queue with_jobs handover]. rewrite <- Hj, <- Hq.
  assert (Hv1 : mkView (v_jobs v1) (v_queue v1) (v_custody v1) = v1) by (by destruct v1).
  destruct (v_jobs v1 !! id) as [j|] eqn:Hid.
  2:{ cbn. rewrite Hv1. split; [by apply respects_refl|by apply Hno]. }
  destruct (Transition (Job_State j) to) eqn:Htr; cbn [negb fst snd].
  2:{ rewrite Hv1. split; [by apply respects_refl|by apply Hno]. }
  assert (Hresp : respects t v1 (mkView (<[id := job_moved now to msg j]> (v_jobs v1)) (v_queue v1)
    (moved_to t id to (v_custody v1)))).
  { apply (move_respects t v1 id j (job_moved now to msg j)); [done|done|done|done| |].
    - exact (inv_budget _ Hi _ _ Hid).
    - right. destruct Hto as [->| ->]; [left|by right]. by destruct (Job_State j). }
  split; [exact Hresp|]. apply Hyes; [apply Hresp|]. destruct Hto as [->| ->]; cbn.
  - split.
    + intros i Hk. cbn in Hk. destruct (decide (i = id)) as [|Hne]; [done|].
      rewrite lookup_insert_ne in Hk by done. by apply Hidle in Hk.
    + left. unfold state_of. cbn. by rewrite !lookup_insert_eq.
  - intros i Hk. cbn in Hk. destruct (decide (i = id)) as [->|Hne]; [by rewrite lookup_delete_eq in Hk|].
    rewrite lookup_delete_ne in Hk by done. by apply Hidle in Hk.
Qed.

(** Submitting a job. *)
Lemma cg_create {A} j (k : option JErr -> prog JobE A) Q v :
  idle v -> Job_State j = StatePending -> in_budget j ->
  (forall r v2, idle v2 -> inv v2 -> cg (k r) Q v2) ->
  cg (call (ECreate j) ≫= k) Q v.
Proof using Type.
  intros Hidle Hs Hb Hk v1 Hr Hi x v2 (w & w' & Hj & Hq & (-> & ->) & ->).
  apply (idle_rely v v1) in Hidle; [|done].
  unfold view, Create. cbn [ow_jobs ow_queue with_jobs handover]. rewrite <- Hj, <- Hq.
  assert (Hv1 : mkView (v_jobs v1) (v_queue v1) (v_custody v1) = v1) by (by destruct v1).
  destruct (v_jobs v1 !! Job_ID j) as [i|] eqn:Hid; cbn [fst snd].
  { rewrite Hv1. split; [by apply respects_refl|by apply Hk]. }
  assert (Hi2 : inv (mkView (<[Job_ID j := j]> (v_jobs v1)) (v_queue v1) (v_custody v1))).
  { destruct Hi as [Hids Hbud Hcus]. split; cbn.
    - by apply map_Forall_insert_2.
    - by apply map_Forall_insert_2.
    - intros i. specialize (Hcus i). unfold state_of in *. cbn. destruct (decide (i = Job_ID j)) as [->|Hne].
      + rewrite Hid in Hcus. rewrite lookup_insert_eq. cbn.
        destruct (v_custody v1 !! Job_ID j) as [[|u]|]; cbn in *; split_and_all; try done.
        split; [|naive_solver]. intros s [= <-]. by rewrite Hs.
      + by rewrite lookup_insert_ne. }
  split; [split; [exact Hi2|]|apply Hk; [exact Hidle|exact Hi2]].
  intros u Hu. split; cbn; [| |done].
  - intros i i' Hi'. exists i'. split_and!; [|done|apply rtc_refl].
    rewrite lookup_insert_ne; [done|]. congruence.
  - intros i Hh. left. split; [done|]. rewrite lookup_insert_ne; [done|]. intros <-.
    pose proof (inv_custody _ Hi (Job_ID j)) as Hc. unfold state_of in Hc. rewrite Hid, Hh in Hc.
    cbn in Hc. naive_solver.
Qed.

Lemma queued_times_app id q j :
  queued_times id (q ++ [j]) = queued_times id q + (if decide (Job_ID j = id) then 1 else 0).
Proof using Type. unfold queued_times. rewrite filter_app, length_app. cbn. by case_decide. Qed.

Lemma queued_times_cons id q j :
  queued_times id (j :: q) = (if decide (Job_ID j = id) then 1 else 0) + queued_times id q.
Proof using Type. unfold queued_times. rewrite filter_cons. by case_decide. Qed.

(** The channel changes hands; the jobs stay as they are. *)
Lemma queue_respects v q m' id :
  inv v -> (forall k, k <> id -> queued_times k q = queued_times k (v_queue v) /\ m' !! k = v_custody v !! k) ->
  custody_ok (state_of v id) (queued_times id q) (m' !! id) ->
  (forall u, u <> t -> v_custody v !! id = Some (Held u) <-> m' !! id = Some (Held u)) ->
  respects t v (mkView (v_jobs v) q m').
Proof using Type.
  intros [Hids Hbud Hcus] Hne Hok Hu. split.
  - split; [done|done|]. intros k. change (custody_ok (state_of v k) (queued_times k q) (m' !! k)).
    destruct (decide (k = id)) as [->|Hk]; [done|].
    destruct (Hne k Hk) as [-> ->]. apply Hcus.
  - intros u Hut. split; cbn; [reflexivity| |].
    + intros k Hk. left. split; [|done]. destruct (decide (k = id)) as [->|Hkn]; [by apply Hu|].
      destruct (Hne k Hkn) as [_ ->]. done.
    + intros k Hk. destruct (decide (k = id)) as [->|Hkn]; [by apply Hu|].
      destruct (Hne k Hkn) as [_ Heq]. by rewrite <- Heq.
Qed.

(** Sending a job just taken up. *)
Lemma cg_send {A} j (k : bool -> prog JobE A) Q v :
  custody (Job_ID j) StateQueued v ->
  (forall v2, idle v2 -> inv v2 -> cg (k true) Q v2) ->
  (forall v2, custody (Job_ID j) StateQueued v2 -> inv v2 -> cg (k false) Q v2) ->
  cg (call (ESend j) ≫= k) Q v.
Proof using Type.
  intros Hc Hyes Hno v1 Hr Hi x v2 (w & w' & Hj & Hq & HR & ->).
  apply (custody_rely _ _ _ v1) in Hc; [|done]. cbn in HR. case_decide as Hcap.
  2:{ destruct HR as [-> ->]. unfold view. cbn. rewrite <- Hj, <- Hq.
      assert (mkView (v_jobs v1) (v_queue v1) (v_custody v1) = v1) as -> by (by destruct v1).
      split; [by apply respects_refl|by apply Hno]. }
  destruct HR as [-> ->]. unfold view. cbn [ow_jobs ow_queue with_queue handover]. rewrite <- Hj, <- Hq.
  pose proof (inv_custody _ Hi (Job_ID j)) as Hok. destruct Hc as [Ha Hc].
  assert (Hresp : respects t v1 (mkView (v_jobs v1) (v_queue v1 ++ [j])
    (if decide (v_custody v1 !! Job_ID j = Some (Held t)) then <[Job_ID j := InQueue]> (v_custody v1) else v_custody v1))).
  { apply (queue_respects v1 _ _ (Job_ID j)); [done| | |].
    - intros i Hne. rewrite queued_times_app, decide_False by done. split; [lia|].
      case_decide; [by apply lookup_insert_ne|done].
    - rewrite queued_times_app, decide_True by done. case_decide as Hh.
      + rewrite Hh in Hok. destruct Hok as [_ ->]. rewrite lookup_insert_eq.
        destruct Hc as [[_ Hc]|Hc]; [by rewrite Hc|].
        by destruct (cancelled_idle _ _ Hi Ha Hc (Job_ID j)).
      + destruct Hc as [[? _]|Hc]; [done|]. rewrite Hc in *.
        destruct (v_custody v1 !! Job_ID j) as [[|u]|]; cbn in *; naive_solver.
    - intros u Hu. case_decide as Hh; [|done]. rewrite Hh, lookup_insert_eq. naive_solver. }
  split; [exact Hresp|]. apply Hyes; [|apply Hresp]. intros i Hk. cbn in Hk. case_decide as Hh.
  - destruct (decide (i = Job_ID j)) as [->|Hne]; [by rewrite lookup_insert_eq in Hk|].
    rewrite lookup_insert_ne in Hk by done. by apply Ha in Hk.
  - assert (i = Job_ID j) as -> by (by apply Ha). done.
Qed.

(** Receiving: what comes out of the channel is in the receiver's custody. *)
Lemma receive_respects v j q :
  inv v -> idle v -> v_queue v = j :: q ->
  respects t v (mkView (v_jobs v) q (taken t j (v_custody v))) /\
  custody (Job_ID j) StateQueued (mkView (v_jobs v) q (taken t j (v_custody v))).
Proof using Type.
  intros Hi Hidle Hq. pose proof (inv_custody _ Hi (Job_ID j)) as Hok.
  rewrite Hq, queued_times_cons, decide_True in Hok by done. unfold taken. split.
  - apply (queue_respects v _ _ (Job_ID j)); [done| | |].
    + intros i Hne. rewrite Hq, queued_times_cons, decide_False by done. split; [done|].
      case_decide; [by apply lookup_insert_ne|done].
    + case_decide as Hh.
      * rewrite Hh in Hok. destruct Hok as [-> ?]. rewrite lookup_insert_eq. cbn. split; [eauto|lia].
      * destruct (v_custody v !! Job_ID j) as [[|u]|]; [done|destruct Hok; lia|].
        destruct Hok as [? [?|?]]; [lia|]. by split; [|right].
    + intros u Hu. case_decide as Hh; [|done]. rewrite Hh, lookup_insert_eq. naive_solver.
  - split.
    + intros i Hk. cbn in Hk. case_decide; [|by apply Hidle in Hk].
      destruct (decide (i = Job_ID j)) as [|Hne]; [done|]. rewrite lookup_insert_ne in Hk by done. by apply Hidle in Hk.
    + cbn. case_decide as Hh.
      * left. rewrite Hh in Hok. rewrite lookup_insert_eq. by destruct Hok.
      * right. destruct (v_custody v !! Job_ID j) as [[|u]|]; [done|destruct Hok; lia|].
        destruct Hok as [? [?|?]]; [lia|done].
Qed.
End Cg.

(** ** The programs *)

Section Programs.
Context `{MapRange} `{SliceSort} (cap : nat) (conv : Z -> Z) (t : nat).
Local Abbreviation cg := (cg cap t).
Local Abbreviation idle := (idle t).
Local Abbreviation custody := (custody t).
Local Abbreviation ok p := (forall v, inv v -> idle v -> cg p (fun _ v' => idle v') v).

Lemma cg_ret {A} (a : A) v : idle v -> cg (Ret a) (fun _ v' => idle v') v.
Proof using Type. intros Hid v1 Hr _. by eapply idle_rely. Qed.

Lemma cg_for_each {A} (f : A -> unit -> prog JobE unit) l :
  (forall x, ok (f x tt)) -> ok (for_each l tt f).
Proof using Type.
  intros Hf. induction l as [|x l IH]; intros v Hi Hid; cbn; [by apply (cg_ret tt)|].
  eapply cg_seq; [done|by apply Hf|]. intros [] v' Hid' Hi'. by apply IH.
Qed.

Lemma dispatch_ok j : ok (dispatch j).
Proof using Type.
  intros v Hi Hid. unfold dispatch. apply cg_idle_transition; [done|by left| |].
  { intros e v2 Hid2 _. by apply (cg_ret tt). }
  intros v2 Hi2 Hc. apply cg_send; [done| |].
  { intros v3 Hid3 _. by apply (cg_ret tt). }
  intros v3 Hc3 Hi3. eapply cg_transition; [done|done| |].
  - intros v4 Hid4 _. by apply (cg_ret tt).
  - intros v4 _ Hid4. by apply (cg_ret tt).
Qed.

Lemma scheduleReady_ok : ok scheduleReady.
Proof using Type.
  intros v Hi Hid. unfold scheduleReady. apply cg_quiet; [done|]. intros pending.
  apply cg_quiet; [done|]. intros now.
  eapply cg_seq; [done|apply (cg_for_each (fun j _ => dispatch j)); [apply dispatch_ok|done|done]|].
  intros [] v2 Hid2 Hi2. apply cg_quiet; [done|]. intros n.
  apply cg_quiet1; [done|]. intros _ v3 Hr _. by eapply idle_rely.
Qed.

Lemma recordTerminal_cg jt s d b (Q : unit -> View -> Prop) v :
  (forall v', rely t v v' -> inv v' -> Q tt v') -> cg (recordTerminal jt s d b) Q v.
Proof using Type.
  intros HQ. unfold recordTerminal. apply cg_quiet; [done|]. intros []. apply cg_quiet1; [done|].
  intros []. apply HQ.
Qed.

Lemma recordTerminal_ok jt s d b : ok (recordTerminal jt s d b).
Proof using Type. intros v Hi Hid. apply recordTerminal_cg. intros v' Hr _. by eapply idle_rely. Qed.

(** The next attempt is within the budget. *)
Lemma ScheduleRetry_budget now j :
  in_budget j -> (Job_RetryCount j < Job_MaxRetries j)%Z -> in_budget (ScheduleRetry conv now j).
Proof using Type.
  intros (H1 & H2 & H3) Hlt. unfold in_budget, in_int64, min_int64, max_int64 in *. cbn.
  rewrite int64_wrap_id; unfold in_int64, min_int64, max_int64; lia.
Qed.

Lemma failOrRetry_ok job msg d v :
  inv v -> custody (Job_ID job) StateRunning v ->
  cg (failOrRetry conv job msg d) (fun _ v' => idle v') v.
Proof using Type.
  intros Hi Hc. unfold failOrRetry. eapply cg_transition; [done|done| |].
  { intros v2 Hid _. by apply (cg_ret tt). }
  intros v2 Hi2 (j & Ha & Hh & Hj & Hs).
  assert (Hf : failed t (Job_ID job) j v2) by done.
  eapply (cg_seq _ _ _ _ (fun _ v' => failed t (Job_ID job) j v')); [done| |].
  { apply recordTerminal_cg. intros v' Hr _. by eapply failed_rely. }
  intros [] v3 Hf3 Hi3. apply cg_get. intros v4 Hr4 Hi4.
  apply (failed_rely _ _ _ _ v4) in Hf3; [|done]. destruct Hf3 as (Ha4 & Hh4 & Hj4 & Hs4).
  unfold Get. rewrite Hj4. destruct (Z.ltb_spec (Job_RetryCount j) (Job_MaxRetries j)) as [Hlt|Hge].
  - apply cg_quiet; [done|]. intros now. eapply cg_requeue; [by split_and!|done|done| |].
    + apply ScheduleRetry_budget; [|done]. exact (inv_budget _ Hi4 _ _ Hj4).
    + intros r v5 Hid5 _. by apply (cg_ret tt).
  - eapply (cg_transition _ _ _ StateFailed); [|done| |].
    + split; [done|]. left. split; [done|]. apply state_of_Some. eauto.
    + intros v5 Hid _. by apply (cg_ret tt).
    + intros v5 _ Hid. by apply (cg_ret tt).
Qed.

Lemma settle_ok job ctx runErr d v :
  inv v -> custody (Job_ID job) StateRunning v ->
  cg (settle conv job ctx runErr d) (fun _ v' => idle v') v.
Proof using Type.
  intros Hi Hc. unfold settle. apply cg_quiet; [done|]. intros e1. case_bool_decide.
  { eapply cg_transition; [done|done| |]; intros; by apply recordTerminal_ok. }
  apply cg_quiet; [done|]. intros e2. case_bool_decide; [by apply failOrRetry_ok|].
  destruct runErr; [by apply failOrRetry_ok|].
  eapply cg_transition; [done|done| |]; intros; by apply recordTerminal_ok.
Qed.

Lemma Run_ok job v :
  inv v -> custody (Job_ID job) StateQueued v -> cg (Run conv job) (fun _ v' => idle v') v.
Proof using Type.
  intros Hi Hc. unfold Run. eapply cg_transition; [done|done| |].
  { intros v2 Hid _. by apply (cg_ret tt). }
  intros v2 Hi2 (j & Ha & Hh & Hj & Hs).
  assert (Hc2 : custody (Job_ID job) StateRunning v2).
  { split; [done|]. left. split; [done|]. apply state_of_Some. eauto. }
  apply cg_quiet; [done|]. intros ctx. apply cg_quiet; [done|]. intros [].
  apply cg_quiet; [done|]. intros start. apply cg_quiet; [done|]. intros [out runErr].
  eapply cg_set_output; [done|done|]. intros _ v3 Hc3 Hi3. apply cg_quiet; [done|]. intros fin.
  eapply cg_seq; [done|by apply settle_ok|]. intros [] v4 Hid4 Hi4.
  apply cg_quiet; [done|]. intros []. apply cg_quiet1; [done|]. intros _ v5 Hr _. by eapply idle_rely.
Qed.

Lemma worker_ok : ok (worker_iteration conv).
Proof using Type.
  assert (Hrun : forall job v, inv v -> custody (Job_ID job) StateQueued v ->
    cg (_ ← Run conv job; Ret true) (fun _ v' => idle v') v).
  { intros job v Hi Hc. eapply cg_seq; [done|by apply Run_ok|]. intros [] v2 Hid _. by apply (cg_ret true). }
  intros v Hi Hid. unfold worker_iteration.
  intros v1 Hr Hi1 x v2 (w & w' & Hj & Hq & HR & ->). apply (idle_rely t v v1) in Hid; [|done].
  assert (Hv1 : mkView (v_jobs v1) (v_queue v1) (v_custody v1) = v1) by (by destruct v1).
  cbn in HR. destruct (ow_queue w) as [|j q] eqn:Hw; destruct HR as [-> ->].
  - unfold view. cbn. rewrite <- Hj, Hw, <- Hq, Hv1. split; [by apply respects_refl|].
    clear w Hj Hq Hw Hr. intros v2 Hr Hi2 x v3 (w & w' & Hj & Hq & HR & ->).
    apply (idle_rely t v1 v2) in Hid; [|done].
    assert (Hv2 : mkView (v_jobs v2) (v_queue v2) (v_custody v2) = v2) by (by destruct v2).
    destruct HR as [(j & q & Hw & -> & ->)|[Hx ->]].
    + rewrite Hw in Hq. unfold view. cbn. rewrite <- Hj.
      destruct (receive_respects t v2 j q Hi2 Hid Hq) as [Hresp Hc]. split; [exact Hresp|].
      apply Hrun; [apply Hresp|done].
    + unfold view. rewrite <- Hj, <- Hq.
      destruct Hx as [->| ->]; cbn; rewrite Hv2; (split; [by apply respects_refl|]); by apply (cg_ret false).
  - unfold view. cbn. rewrite <- Hj.
    destruct (receive_respects t v1 j q Hi1 Hid Hq) as [Hresp Hc]. split; [exact Hresp|].
    apply Hrun; [apply Hresp|done].
Qed.

(** Steps through the parts that neither write jobs nor use the channel. *)
Ltac cg_auto := repeat first
  [ progress cbn beta
  | match goal with
    | |- JobCustody.cg _ _ (Ret _) _ _ => apply cg_ret; assumption
    | |- JobCustody.cg _ _ (match ?x with _ => _ end) _ _ => destruct x
    | |- JobCustody.cg _ _ (call _ ≫= _) _ _ => apply cg_quiet; [reflexivity|]; intros ?x
    end ].

Lemma allocate_job_ok n req : in_int64 (sj_MaxRetries req) -> ok (allocate_job n req).
Proof using Type.
  intros Hb. induction n as [|n IH]; intros v Hi Hid; cbn [allocate_job]; [by apply (cg_ret (Some ""))|].
  apply cg_bind; [done|]. apply cg_quiet; [done|]. intros r. intros v1 Hr Hi1 _.
  apply (idle_rely t v v1) in Hid; [|done]. destruct r as [bs|]; [|by apply cg_ret].
  apply cg_quiet; [done|]. intros now. apply cg_create; [done|done| |].
  { split_and!; cbn; [lia|lia|done]. }
  intros [e|] v2 Hid2 Hi2; [by apply IH|by apply cg_ret].
Qed.

Lemma SubmitJob_ok body :
  (forall req, body = Some req -> in_int64 (sj_MaxRetries req)) -> ok (SubmitJob body).
Proof using Type.
  intros Hb v Hi Hid. unfold SubmitJob. destruct body as [req|]; [|by apply cg_ret].
  destruct (_ || _); [by apply cg_ret|].
  eapply cg_seq; [done|apply allocate_job_ok; [by apply Hb|done|done]|].
  intros r v2 Hid2 Hi2. cg_auto.
Qed.

Lemma GetJob_ok id : ok (GetJob id).
Proof using Type. intros v Hi Hid. unfold GetJob. cg_auto. Qed.

Lemma ListJobs_ok st ty lim : ok (ListJobs st ty lim).
Proof using Type. intros v Hi Hid. unfold ListJobs. cg_auto. Qed.

Lemma await_cancelled_ok n id dl job : ok (await_cancelled n id dl job).
Proof using Type.
  induction n as [|n IH]; intros v Hi Hid; cbn [await_cancelled]; cg_auto; by apply IH.
Qed.

Lemma CancelJob_ok id : ok (CancelJob id).
Proof using Type.
  intros v Hi Hid. unfold CancelJob. apply cg_quiet; [done|]. intros [job|e]; [|by apply cg_ret].
  assert (Hdirect : forall k : option JErr -> prog JobE (option JResponse),
    (forall r v2, inv v2 -> idle v2 -> cg (k r) (fun _ v' => idle v') v2) ->
    cg (call (ETransition id StateCancelled "cancelled by user") ≫= k) (fun _ v' => idle v') v).
  { intros k Hk. apply cg_idle_transition; [done|by right| |]; eauto. }
  destruct (Job_State job); try (by apply cg_ret).
  - apply Hdirect. intros r v2 Hi2 Hid2. cg_auto.
  - apply Hdirect. intros r v2 Hi2 Hid2. cg_auto.
  - apply cg_quiet; [done|]. intros c.
    eapply (cg_seq _ _ _ _ (fun _ v' => idle v')); [done| |].
    { destruct c; [|by apply cg_ret]. apply cg_quiet1; [done|]. intros _ v' Hr _. by eapply idle_rely. }
    intros [] v2 Hid2 Hi2. apply cg_quiet; [done|]. intros now.
    eapply cg_seq; [done|by apply await_cancelled_ok|]. intros r v3 Hid3 Hi3. cg_auto.
Qed.
End Programs.

(** ** The running system *)

Section System.
Context `{MapRange} `{SliceSort} (cap : nat) (conv : Z -> Z).

(** What cmd/orchestrator runs: scheduler ticks, worker iterations and requests,
    any number of them at any time.  JSON integers fit an [int]. *)
Inductive jentry : prog JobE unit -> Prop :=
| je_scheduler : jentry scheduleReady
| je_worker : jentry (_ ← worker_iteration conv; Ret tt)
| je_submit body : (forall req, body = Some req -> in_int64 (sj_MaxRetries req)) ->
    jentry (_ ← SubmitJob body; Ret tt)
| je_get id : jentry (_ ← GetJob id; Ret tt)
| je_list st ty lim : jentry (_ ← ListJobs st ty lim; Ret tt)
| je_cancel id : jentry (_ ← CancelJob id; Ret tt).

Abbreviation JConfig := (list (prog JobE unit) * OWorld)%type (only parsing).

Inductive jstep : JConfig -> JConfig -> Prop :=
| js_start p ts w : jentry p -> jstep (ts, w) (ts ++ [p], w)
| js_step i X (e : JobE X) k ts w x w' : ts !! i = Some (Vis e k) -> job_rel cap false X e w x w' ->
    jstep (ts, w) (<[i := k x]> ts, w').

Definition jsteps : JConfig -> JConfig -> Prop := rtc jstep.

Lemma jentry_ok t p v : jentry p -> inv v -> idle t v -> cg cap t p (fun _ v' => idle t v') v.
Proof using Type.
  intros He Hi Hid.
  assert (Hthen : forall A (q : prog JobE A), cg cap t q (fun _ v' => idle t v') v ->
    cg cap t (_ ← q; Ret tt) (fun _ v' => idle t v') v).
  { intros A q Hq. eapply cg_seq; [done|exact Hq|]. intros a v' Hid' _. by apply (cg_ret cap t tt). }
  destruct He; try apply Hthen.
  - by apply scheduleReady_ok.
  - by apply worker_ok.
  - by apply SubmitJob_ok.
  - by apply GetJob_ok.
  - by apply ListJobs_ok.
  - by apply CancelJob_ok.
Qed.

(** Some assignment of custody satisfies the invariant, every thread respects
    it from here on, and only threads of the system hold jobs. *)
Definition accounted (cfg : JConfig) (m : gmap string Holder) : Prop :=
  inv (view cfg.2 m) /\
  (forall t p, cfg.1 !! t = Some p -> cg cap t p (fun _ v' => idle t v') (view cfg.2 m)) /\
  (forall id t, m !! id = Some (Held t) -> t < length cfg.1).

Lemma handover_bound t X (e : JobE X) x m id u :
  handover t X e x m !! id = Some (Held u) -> u = t \/ m !! id = Some (Held u).
Proof using Type.
  assert (Hm : forall i to, moved_to t i to m !! id = Some (Held u) -> u = t \/ m !! id = Some (Held u)).
  { intros i to Hu. destruct (decide (id = i)) as [->|].
    - rewrite moved_to_eq in Hu. destruct (in_flight to); simplify_eq. by left.
    - rewrite moved_to_ne in Hu by done. by right. }
  assert (Ht : forall j, taken t j m !! id = Some (Held u) -> u = t \/ m !! id = Some (Held u)).
  { intros j. unfold taken. case_decide; [|by right]. intros [[_ [= <-]]|[_ ?]]%lookup_insert_Some; auto. }
  destruct e; cbn; intros Hu; auto; repeat case_match; eauto.
  apply lookup_insert_Some in Hu as [[_ ?]|[_ ?]]; [done|auto].
Qed.

Lemma jstep_accounted cfg cfg' m :
  accounted cfg m -> jstep cfg cfg' ->
  exists m', accounted cfg' m' /\ persists (ow_jobs cfg.2) (ow_jobs cfg'.2).
Proof using Type.
  intros Ha Hst. revert Ha. destruct Hst as [p ts w He|t X e k ts w x w' Ht HR];
    intros (Hi & Hth & Hb); cbn in *.
  - exists m. split; [|reflexivity]. split_and!; cbn; [done| |].
    + intros t q Hq. apply lookup_app_Some in Hq as [Hq|[Hlen Hq]]; [by apply Hth|].
      apply list_lookup_singleton_Some in Hq as [Ht0 <-]. apply jentry_ok; [done|done|].
      intros id Hid. apply Hb in Hid. lia.
    + intros id t Hid. rewrite length_app. apply Hb in Hid. lia.
  - exists (handover t X e x m).
    destruct (Hth t _ Ht (view w m)) with (x := x) (v2 := view w' (handover t X e x m)) as [[Hi' Hr] Hk];
      [reflexivity|done|by exists w, w'|].
    split; [split_and!; cbn; [done| |]|].
    + intros u q Hq. destruct (decide (u = t)) as [->|Hne].
      * rewrite list_lookup_insert_eq in Hq by (by eapply lookup_lt_Some). injection Hq as <-. exact Hk.
      * rewrite list_lookup_insert_ne in Hq by done. eapply cg_rely; [by apply Hth|by apply Hr].
    + intros id u Hu. rewrite length_insert. apply handover_bound in Hu as [->|Hu]; [by eapply lookup_lt_Some|by eapply Hb].
    + exact (rl_persists _ _ _ (Hr (S t) ltac:(lia))).
Qed.

Lemma jsteps_accounted cfg cfg' m :
  accounted cfg m -> jsteps cfg cfg' ->
  exists m', accounted cfg' m' /\ persists (ow_jobs cfg.2) (ow_jobs cfg'.2).
Proof using Type.
  intros Ha Hs. revert m Ha. induction Hs as [cfg|a b c Hab _ IH]; intros m Ha.
  - exists m. split; [done|reflexivity].
  - destruct (jstep_accounted _ _ _ Ha Hab) as (m' & Ha' & Hp).
    destruct (IH _ Ha') as (m2 & Ha2 & Hp2). exists m2. split; [done|by etrans].
Qed.

(** At the start: no job is in flight and the channel is empty. *)
Definition fresh_start (w : OWorld) : Prop :=
  ow_queue w = [] /\
  map_Forall (fun k j => Job_ID j = k /\ in_budget j /\ in_flight (Job_State j) = false) (ow_jobs w).

Lemma fresh_accounted w : fresh_start w -> accounted ([], w) ∅.
Proof using Type.
  intros [Hq Hj]. split_and!; [|done|done]. split; cbn.
  - intros k j Hk. by apply (Hj k j).
  - intros k j Hk. by apply (Hj k j).
  - intros id. rewrite Hq, lookup_empty. split; [|by left]. intros s Hs.
    apply state_of_Some in Hs as (j & Hid & <-). by apply (Hj id j).
Qed.
End System.
