(* ===== verification/OrchestratorProperties.v ===== *)
(** * ml-job-orchestrator: properties

    Safety under every interleaving (from the custody argument), the dispatch
    order of the scheduler, the outcome of a run, the bounded wait of the cancel
    handler, and an execution in which a cancellation is lost. *)

From S2P Require Import Prelude Runtime Jobs Orchestrator JobCustody.
From Stdlib Require Import ZArith Lia Sorted.
From stdpp Require Import base gmap strings list.
Local Open Scope go_scope.

(** ** An executable environment *)

Section Machine.
Context `{MapRange} `{SliceSort} (cap : nat).

(** Every reading of the clock is 10 ms after the last; subprocesses succeed. *)
Definition tick : Duration := 10 * Millisecond.

Definition job_handle : handler JobE OWorld := fun X e w =>
  match e in JobE X return X * OWorld with
  | ECreate j => let '(r, m) := Create j (ow_jobs w) in (r, with_jobs m (ow_clock w) w)
  | EGet id => (Get id (ow_jobs w), w)
  | EUpdate j => let '(r, m) := Update j (ow_jobs w) in (r, with_jobs m (ow_clock w) w)
  | ETransition id to msg =>
      let now := (ow_clock w + tick)%Z in
      let '(r, m) := TransitionJob now id to msg (ow_jobs w) in (r, with_jobs m now w)
  | ESetOutput id out => let '(r, m) := SetOutput id out (ow_jobs w) in (r, with_jobs m (ow_clock w) w)
  | EListByState s => (ListByState 0 s (ow_jobs w), w)
  | EList f => (List 0 f (ow_jobs w), w)
  | ESend j => if decide (length (ow_queue w) < cap) then (true, with_queue (ow_queue w ++ [j]) w) else (false, w)
  | EQueueLen => (Z.of_nat (length (ow_queue w)), w)
  | ETryReceive => match ow_queue w with j :: q => (RecvJob j, with_queue q w) | [] => (RecvEmpty, w) end
  | EWait => match ow_queue w with j :: q => (WakeJob j, with_queue q w) | [] => (WakeStop, w) end
  | ENow => ((ow_clock w + tick)%Z, with_jobs (ow_jobs w) (ow_clock w + tick)%Z w)
  | ESleep d => (tt, with_jobs (ow_jobs w) (ow_clock w + Z.max 0 d)%Z w)
  | ERandRead n => (Some (counter_bytes (length (ow_metrics w)) n), w)
  | ENewContext _ => (ow_contexts w, with_cancels (ow_cancels w) (S (ow_contexts w)) (ow_cancelled w) w)
  | ECtxErr ctx => (if decide (ctx ∈ ow_cancelled w) then Some Canceled else None, w)
  | ECancel ctx => (tt, with_cancels (ow_cancels w) (ow_contexts w) ({[ctx]} ∪ ow_cancelled w) w)
  | EStoreCancel id ctx => (tt, with_cancels (<[id := ctx]> (ow_cancels w)) (ow_contexts w) (ow_cancelled w) w)
  | ELoadCancel id => (ow_cancels w !! id, w)
  | EDeleteCancel id => (tt, with_cancels (delete id (ow_cancels w)) (ow_contexts w) (ow_cancelled w) w)
  | EExec _ _ _ => ("done"%string, None, w)
  | EMetric m => (tt, mkOWorld (ow_jobs w) (ow_queue w) (ow_cancels w) (ow_contexts w) (ow_cancelled w)
                        (ow_clock w) (ow_metrics w ++ [m]))
  end.

Lemma job_handle_rel exact X (e : JobE X) w :
  job_rel cap exact X e w (job_handle X e w).1 (job_handle X e w).2.
Proof using Type.
  assert (0 <= tick)%Z by (unfold tick, Millisecond; lia).
  destruct e; cbn; unfold Create, Update, SetOutput, TransitionJob; try (by repeat case_match).
  - exists (ow_clock w + tick)%Z. repeat case_match; cbn; (split; [lia|done]).
  - split; [done|]. eauto.
  - split; [done|]. eauto.
  - destruct (ow_queue w) as [|j q]; cbn; [by right; split; [left|]|left; eauto].
  - split; [lia|done].
  - eexists. split_and!; [| |done]; lia.
  - split; [done|]. intros bs [= <-]. unfold counter_bytes. by rewrite length_map, length_seq.
Qed.
End Machine.

(** ** The scheduler alone *)

Section Dispatch.
Context `{MapRange} `{SliceSort} (cap : nat).

#[global] Instance sooner_order : WeakOrder sooner.
Proof using Type.
  split; unfold sooner, Before; intros *.
  - destruct (Z.eqb_spec (Job_Priority y) (Job_Priority x)), (Z.eqb_spec (Job_Priority z) (Job_Priority y)),
      (Z.eqb_spec (Job_Priority z) (Job_Priority x)); cbn; rewrite ?Z.ltb_ge; lia.
  - destruct (Z.eqb_spec (Job_Priority y) (Job_Priority x)), (Z.eqb_spec (Job_Priority x) (Job_Priority y));
      cbn; rewrite ?Z.ltb_ge; lia.
Qed.

(** The job as it is once dispatched. *)
Definition as_queued (j : Job) : Job :=
  job_set StateQueued (Job_RetryCount j) (Job_RunAfter j) (Job_StartedAt j) (Job_FinishedAt j)
    (Job_Output j) (Job_ErrorMessage j) j.

Definition enqueue_all (m : gmap string Job) (js : list Job) : gmap string Job :=
  foldl (fun m j => <[Job_ID j := as_queued j]> m) m js.

Lemma enqueue_all_ne m js id : id ∉ Job_ID <$> js -> enqueue_all m js !! id = m !! id.
Proof using Type.
  revert m. induction js as [|j js IH]; intros m Hn; [done|]. cbn.
  rewrite fmap_cons, not_elem_of_cons in Hn. rewrite IH by tauto. apply lookup_insert_ne. naive_solver.
Qed.

Lemma back_to_pending t1 t2 j :
  Job_State j = StatePending -> job_moved t2 StatePending "" (job_moved t1 StateQueued "" j) = j.
Proof using Type. destruct j; cbn. by intros ->. Qed.

(** One iteration of the loop on a job that is still as it was listed. *)
Lemma dispatch_wp j w (Q : unit -> OWorld -> Prop) :
  ow_jobs w !! Job_ID j = Some j -> Job_State j = StatePending ->
  (forall w', (ow_clock w <= ow_clock w')%Z ->
     (if decide (length (ow_queue w) < cap)
      then ow_jobs w' = <[Job_ID j := as_queued j]> (ow_jobs w) /\ ow_queue w' = ow_queue w ++ [j]
      else ow_jobs w' = ow_jobs w /\ ow_queue w' = ow_queue w) -> Q tt w') ->
  wp (job_rel cap true) (dispatch j) Q w.
Proof using Type.
  intros Hj Hs HQ r w1 (t1 & Ht1 & -> & ->).
  rewrite (TransitionJob_legal _ _ _ _ _ j) by (done || by rewrite Hs). cbn [fst snd].
  intros sent w2 HR. cbn in HR. case_decide as Hcap; destruct HR as [-> ->].
  - by apply HQ.
  - intros r3 w3 (t3 & Ht3 & -> & ->). cbn [ow_jobs with_jobs].
    rewrite (TransitionJob_legal _ _ _ _ _ (job_moved t1 StateQueued "" j)) by (done || apply lookup_insert_eq).
    apply HQ; cbn in *; [lia|]. by rewrite insert_insert_eq, back_to_pending, insert_id.
Qed.

(** Room is used up in order. *)
Lemma dispatch_all_wp js w :
  NoDup (Job_ID <$> js) -> (forall j, j ∈ js -> ow_jobs w !! Job_ID j = Some j /\ Job_State j = StatePending) ->
  length (ow_queue w) <= cap ->
  wp (job_rel cap true) (for_each js tt (fun j _ => dispatch j)) (fun _ w' =>
    (ow_clock w <= ow_clock w')%Z /\
    ow_jobs w' = enqueue_all (ow_jobs w) (take (cap - length (ow_queue w)) js) /\
    ow_queue w' = ow_queue w ++ take (cap - length (ow_queue w)) js) w.
Proof using Type.
  revert w. induction js as [|j js IH]; intros w Hnd Hjs Hlen; cbn [for_each].
  { cbn. rewrite take_nil, app_nil_r. by split; [lia|]. }
  rewrite fmap_cons, NoDup_cons in Hnd. destruct Hnd as [Hj Hnd].
  apply wp_bind. destruct (Hjs j) as [Hin Hs]; [set_solver|]. apply dispatch_wp; [done|done|].
  intros w1 Ht Hw1. case_decide as Hcap.
  - destruct Hw1 as [Hm Hq]. eapply wp_mono; [|apply IH; [done| |]].
    + intros _ w2 (Ht2 & Hm2 & Hq2). rewrite Hm2, Hq2, Hm, Hq, length_app. cbn.
      replace (cap - length (ow_queue w)) with (S (cap - (length (ow_queue w) + 1))) by lia.
      cbn. rewrite <- app_assoc. split; [lia|done].
    + intros i Hi. rewrite Hm, lookup_insert_ne; [apply Hjs; set_solver|].
      intros Heq. apply Hj. rewrite Heq. by apply list_elem_of_fmap_2.
    + rewrite Hq, length_app. cbn. lia.
  - destruct Hw1 as [Hm Hq]. replace (cap - length (ow_queue w)) with 0 by lia.
    eapply wp_mono; [|apply IH; [done| |by rewrite Hq]].
    + intros _ w2 (Ht2 & Hm2 & Hq2). rewrite Hm2, Hq2, Hm, Hq.
      replace (cap - length (ow_queue w)) with 0 by lia. split; [lia|done].
    + intros i Hi. rewrite Hm. apply Hjs. set_solver.
Qed.
End Dispatch.

(** ** One run of a job *)

Section Outcome.
Context `{MapRange} `{SliceSort} (cap : nat) (conv : Z -> Z).

(** How a run may leave a job that was queued as [j]: finished, cancelled, out
    of retries, or waiting for its next attempt. *)
Definition run_outcome (lo hi : Time) (j j' : Job) : Prop :=
  job_template j' = job_template j /\
  match Job_State j' with
  | StateCompleted | StateCancelled =>
      Job_RetryCount j' = Job_RetryCount j /\ is_Some (Job_FinishedAt j')
  | StateExhausted =>
      (Job_MaxRetries j <= Job_RetryCount j)%Z /\ Job_RetryCount j' = Job_RetryCount j /\ is_Some (Job_FinishedAt j')
  | StatePending =>
      (Job_RetryCount j < Job_MaxRetries j)%Z /\ Job_RetryCount j' = (Job_RetryCount j +64 1) /\
      Job_StartedAt j' = None /\ Job_FinishedAt j' = None /\
      exists now, (lo <= now <= hi)%Z /\
        ((0 <= Job_RetryCount j <= 32)%Z ->
         Job_RunAfter j' = (now + Z.min (2 ^ (Job_RetryCount j + 1) * Second) (60 * Second))%Z)
  | _ => False
  end.

Lemma retry_delay now j :
  (0 <= Job_RetryCount j <= 32)%Z ->
  Job_RunAfter (ScheduleRetry conv now j) = (now + Z.min (2 ^ (Job_RetryCount j + 1) * Second) (60 * Second))%Z.
Proof using Type.
  intros Hr. cbn. unfold Prelude.Add. f_equal.
  rewrite (int64_wrap_id (_ + 1)) by (unfold in_int64, min_int64, max_int64; lia).
  destruct (Z.ltb_spec (Job_RetryCount j + 1) 0); [lia|].
  assert (2 ^ (Job_RetryCount j + 1) <= 2 ^ 33)%Z by (apply Z.pow_le_mono_r; lia).
  assert (0 < 2 ^ (Job_RetryCount j + 1))%Z by (apply Z.pow_pos_nonneg; lia).
  unfold float_to_int64, min_int64, max_int64, maxBackoff, Second in *.
  destruct (Z.leb_spec (- 2 ^ 63) (2 ^ (Job_RetryCount j + 1))); [|lia].
  destruct (Z.leb_spec (2 ^ (Job_RetryCount j + 1)) (2 ^ 63 - 1)); [|lia]. cbn [andb].
  rewrite int64_wrap_id by (unfold in_int64, min_int64, max_int64; lia).
  destruct (Z.ltb_spec (60 * 1000000000) (2 ^ (Job_RetryCount j + 1) * 1000000000)); lia.
Qed.

(** Only job [id] changed. *)
Definition only_job (id : string) (j' : Job) (w w' : OWorld) : Prop :=
  ow_jobs w' = <[id := j']> (ow_jobs w) /\ ow_queue w' = ow_queue w /\ ow_cancels w' = ow_cancels w /\
  (ow_clock w <= ow_clock w')%Z.

Lemma only_job_step id j1 j2 w w1 w2 : only_job id j1 w w1 -> only_job id j2 w1 w2 -> only_job id j2 w w2.
Proof using Type.
  intros (Hm1 & ? & ? & ?) (Hm2 & ? & ? & ?). split_and!; [|congruence|congruence|lia].
  by rewrite Hm2, Hm1, insert_insert_eq.
Qed.

Lemma wp_move {A} id j to msg (k : option JErr -> prog JobE A) Q w :
  ow_jobs w !! id = Some j -> Transition (Job_State j) to = true ->
  (forall t w', (ow_clock w <= t <= ow_clock w')%Z -> only_job id (job_moved t to msg j) w w' ->
     wp (job_rel cap true) (k None) Q w') ->
  wp (job_rel cap true) (call (ETransition id to msg) ≫= k) Q w.
Proof using Type.
  intros Hj Htr Hk r w' (t & Ht & -> & ->).
  rewrite (TransitionJob_legal _ _ _ _ _ j) by done. apply (Hk t); [cbn; lia|].
  by split_and!.
Qed.

Lemma recordTerminal_wp jt s d b (Q : unit -> OWorld -> Prop) w :
  (forall w', ow_jobs w' = ow_jobs w -> ow_queue w' = ow_queue w -> ow_cancels w' = ow_cancels w ->
     ow_clock w' = ow_clock w -> Q tt w') ->
  wp (job_rel cap true) (recordTerminal jt s d b) Q w.
Proof using Type. intros HQ [] w1 -> [] w2 ->. by apply HQ. Qed.

Lemma failOrRetry_wp job msg d w j :
  ow_jobs w !! Job_ID job = Some j -> Job_ID j = Job_ID job -> Job_State j = StateRunning ->
  wp (job_rel cap true) (failOrRetry conv job msg d) (fun _ w' =>
    exists j', only_job (Job_ID job) j' w w' /\ run_outcome (ow_clock w) (ow_clock w') j j') w.
Proof using Type.
  intros Hj Hid Hs. unfold failOrRetry. eapply wp_move; [done|by rewrite Hs|].
  intros t w1 Ht Ho1. apply wp_bind. apply recordTerminal_wp. intros w2 Hm2 Hq2 Hc2 Ht2.
  destruct Ho1 as (Hm1 & Hq1 & Hc1 & Ht1).
  assert (Hj2 : ow_jobs w2 !! Job_ID job = Some (job_moved t StateFailed msg j)).
  { by rewrite Hm2, Hm1, lookup_insert_eq. }
  apply wp_call. intros r w3 [-> ->]. unfold Get. rewrite Hj2. cbn [Job_RetryCount Job_MaxRetries job_moved job_set].
  assert (Hfin : is_Some (stamp t (Job_FinishedAt j))) by (destruct (Job_FinishedAt j); cbn; eauto).
  destruct (Z.ltb_spec (Job_RetryCount j) (Job_MaxRetries j)) as [Hlt|Hge].
  - apply wp_call. intros now w3 [Hnow ->]. apply wp_call. intros r w4 [-> ->]. unfold Update. cbn [ow_jobs with_jobs].
    set (j4 := ScheduleRetry conv now (job_moved t StateFailed msg j)).
    assert (Hk : Job_ID j4 = Job_ID job) by exact Hid. rewrite Hk, Hj2. cbn -[j4].
    exists j4. split.
    + split_and!; cbn -[j4]; [|congruence|congruence|lia]. by rewrite Hm2, Hm1, insert_insert_eq.
    + split; [done|]. split_and!; try done. exists now. cbn -[j4]. split; [lia|].
      intros Hr. by apply (retry_delay now (job_moved t StateFailed msg j)).
  - eapply wp_move; [exact Hj2|done|]. intros t5 w5 Ht5 (Hm5 & Hq5 & Hc5 & Htt5).
    exists (job_moved t5 StateExhausted "" (job_moved t StateFailed msg j)). split.
    + split_and!; [|congruence|congruence|lia]. by rewrite Hm5, Hm2, Hm1, insert_insert_eq.
    + split; [done|]. cbn. split_and!; [lia|done|]. destruct (stamp t (Job_FinishedAt j)); cbn; eauto.
Qed.

Lemma finish_wp job to msg d b w j :
  ow_jobs w !! Job_ID job = Some j -> Job_State j = StateRunning ->
  to = StateCompleted \/ to = StateCancelled ->
  wp (job_rel cap true)
    (_ ← call (ETransition (Job_ID job) to msg); recordTerminal (Job_Type job) to d b) (fun _ w' =>
    exists j', only_job (Job_ID job) j' w w' /\ run_outcome (ow_clock w) (ow_clock w') j j') w.
Proof using Type.
  intros Hj Hs Hto. eapply wp_move; [done|by rewrite Hs; destruct Hto as [->| ->]|].
  intros t w1 Ht (Hm & Hq & Hc & Htt). apply recordTerminal_wp. intros w2 Hm2 Hq2 Hc2 Ht2.
  exists (job_moved t to msg j). split; [split_and!; [congruence|congruence|congruence|lia]|].
  assert (Hfin : is_Some (stamp t (Job_FinishedAt j))) by (destruct (Job_FinishedAt j); cbn; eauto).
  by destruct Hto as [->| ->].
Qed.

Lemma settle_wp job ctx runErr d w j :
  ow_jobs w !! Job_ID job = Some j -> Job_ID j = Job_ID job -> Job_State j = StateRunning ->
  wp (job_rel cap true) (settle conv job ctx runErr d) (fun _ w' =>
    exists j', only_job (Job_ID job) j' w w' /\ run_outcome (ow_clock w) (ow_clock w') j j') w.
Proof using Type.
  intros Hj Hid Hs. unfold settle. apply wp_call. intros e1 w1 [-> _].
  case_bool_decide; [apply finish_wp; auto|]. apply wp_call. intros e2 w2 [-> _].
  case_bool_decide; [by apply failOrRetry_wp|]. destruct runErr; [by apply failOrRetry_wp|].
  apply finish_wp; auto.
Qed.

Lemma Run_wp job w j :
  ow_jobs w !! Job_ID job = Some j -> Job_ID j = Job_ID job -> Job_State j = StateQueued ->
  wp (job_rel cap true) (Run conv job) (fun _ w' => exists j',
    ow_jobs w' = <[Job_ID job := j']> (ow_jobs w) /\ ow_queue w' = ow_queue w /\
    ow_cancels w' = delete (Job_ID job) (ow_cancels w) /\
    run_outcome (ow_clock w) (ow_clock w') j j') w.
Proof using Type.
  intros Hj Hid Hs. unfold Run. eapply wp_move; [done|by rewrite Hs|].
  intros t w1 Ht (Hm1 & Hq1 & Hc1 & Ht1).
  apply wp_call. intros ctx w2 [-> ->]. apply wp_call. intros [] w3 ->.
  apply wp_call. intros start w4 [Hst ->]. apply wp_call. intros [out runErr] w5 ->.
  apply wp_call. intros r6 w6 [-> ->]. apply wp_call. intros fin w7 [Hfin ->].
  unfold SetOutput. cbn [ow_jobs with_jobs with_cancels ow_clock] in *.
  rewrite Hm1, lookup_insert_eq in *. cbn [fst snd] in *.
  set (j7 := job_with_output out (job_moved t StateRunning "" j)).
  apply wp_bind. eapply wp_mono; [|apply (settle_wp _ _ _ _ _ j7); [cbn; apply lookup_insert_eq|exact Hid|done]].
  intros [] w8 (j8 & (Hm8 & Hq8 & Hc8 & Ht8) & Hout). cbn -[j7] in *.
  intros [] w9 -> [] w10 ->. exists j8. cbn in *. split_and!.
  - by rewrite Hm8, !insert_insert_eq.
  - congruence.
  - by rewrite Hc8, Hc1, delete_insert_eq.
  - destruct Hout as [Ht8' Hout]. split; [exact Ht8'|]. destruct (Job_State j8); try done.
    destruct Hout as (? & ? & ? & ? & now & ? & ?). split_and!; try done. exists now. split; [lia|done].
Qed.
End Outcome.

(** ** Playing a schedule *)

Section Play.
Context `{MapRange} `{SliceSort} (cap : nat) (conv : Z -> Z).

Definition play_one (i : nat) (cfg : list (prog JobE unit) * OWorld) : list (prog JobE unit) * OWorld :=
  match cfg.1 !! i with
  | Some (Vis e k) => let '(x, w') := job_handle cap _ e cfg.2 in (<[i := k x]> cfg.1, w')
  | _ => cfg
  end.

Definition play (sched : list nat) (cfg : list (prog JobE unit) * OWorld) : list (prog JobE unit) * OWorld :=
  foldl (fun cfg i => play_one i cfg) cfg sched.

Lemma play_steps sched cfg : jsteps cap conv cfg (play sched cfg).
Proof using Type.
  revert cfg. induction sched as [|i sched IH]; intros cfg; [apply rtc_refl|].
  cbn. unfold jsteps in *. etrans; [|apply IH]. unfold play_one. destruct cfg as [ts w]. cbn.
  destruct (ts !! i) as [[a|X e k]|] eqn:Hi; try apply rtc_refl.
  pose proof (job_handle_rel cap false X e w) as HR. destruct (job_handle cap X e w) as [x w'].
  apply rtc_once. by eapply js_step.
Qed.

Lemma start_steps ps ts w : Forall (jentry conv) ps -> jsteps cap conv (ts, w) (ts ++ ps, w).
Proof using Type.
  revert ts. induction ps as [|p ps IH]; intros ts Hps; [by rewrite app_nil_r; apply rtc_refl|].
  apply Forall_cons in Hps as [Hp Hps]. eapply rtc_l; [by apply js_start|].
  replace (ts ++ p :: ps) with ((ts ++ [p]) ++ ps) by (by rewrite <- app_assoc). by apply IH.
Qed.
End Play.

(** ** Waiting for a cancellation *)

Section Wait.
Context `{MapRange} `{SliceSort} (cap : nat).

(** Others may do anything before each operation, except turn back the clock. *)
Definition disturbed X (e : JobE X) (w : OWorld) (x : X) (w' : OWorld) : Prop :=
  exists w1, (ow_clock w <= ow_clock w1)%Z /\ job_rel cap false X e w1 x w'.

Lemma await_enough fuel id deadline job w :
  (deadline <= ow_clock w + 20 * Millisecond * Z.of_nat fuel)%Z ->
  wp disturbed (await_cancelled (S fuel) id deadline job) (fun r _ => is_Some r) w.
Proof using Type.
  revert w. induction fuel as [|fuel IH]; intros w Hd; cbn [await_cancelled].
  - apply wp_call. intros now w1 (w0 & Ht & Hnow & ->). unfold Before. destruct (Z.ltb_spec now deadline); [lia|]. by eexists.
  - apply wp_call. intros now w1 (w0 & Ht & Hnow & ->). unfold Before. destruct (Z.ltb_spec now deadline); [|by eexists].
    assert (Hsleep : forall w2, (now <= ow_clock w2)%Z ->
      wp disturbed (_ ← call (ESleep (20 * Millisecond)); await_cancelled (S fuel) id deadline job)
        (fun r _ => is_Some r) w2).
    { intros w2 H2. apply wp_call. intros [] w3 (w4 & Ht4 & t & H3 & _ & ->). apply IH. cbn. unfold Millisecond in *. lia. }
    apply wp_call. intros cur w2 (w3 & Ht3 & -> & ->). cbn in Ht3.
    destruct (Get id (ow_jobs w3)) as [c|]; [case_bool_decide; [by eexists|]|]; by apply Hsleep.
Qed.
End Wait.

(** ** Properties *)

(** A thread that has not ended yet. *)
Definition working (ts : list (prog JobE unit)) (t : nat) : Prop :=
  exists p, ts !! t = Some p /\ p <> Ret tt.

Section Properties.
Context `{MapRange} `{SliceSort} (cap : nat) (conv : Z -> Z).

(** The assignment of jobs to holders, read off the invariant. *)
Lemma job_custody (w w' : OWorld) (ts : list (prog JobE unit)) :
  fresh_start w -> jsteps cap conv ([], w) (ts, w') ->
  exists holder : gmap string Holder, forall id j, ow_jobs w' !! id = Some j ->
    match Job_State j with
    | StateQueued =>
        holder !! id = Some InQueue /\ queued_times id (ow_queue w') = 1 \/
        exists t, holder !! id = Some (Held t) /\ working ts t
    | StateRunning | StateFailed => exists t, holder !! id = Some (Held t) /\ working ts t
    | _ => holder !! id = None
    end.
Proof using Type.
  intros Hf Hs. destruct (jsteps_accounted cap conv _ _ _ (fresh_accounted cap w Hf) Hs) as (m & (Hi & Hth & Hb) & _).
  exists m. intros id j Hj. pose proof (inv_custody _ Hi id) as Hc. unfold state_of in Hc. cbn in Hc, Hj.
  rewrite Hj in Hc. cbn in Hc.
  assert (Hw : forall t, m !! id = Some (Held t) -> working ts t).
  { intros t Ht. destruct (lookup_lt_is_Some_2 ts t (Hb _ _ Ht)) as [p Hp]. exists p. split; [done|]. intros ->.
    by eapply (Hth t (Ret tt) Hp (view w' m) ltac:(reflexivity) Hi). }
  destruct (m !! id) as [[|t]|]; cbn in Hc.
  - destruct Hc as [[= ->] Hc]. auto.
  - destruct Hc as [(s & [= <-] & Hs') _]. destruct (Job_State j); try done; eauto.
  - destruct Hc as [Hc _]. specialize (Hc _ eq_refl). by destruct (Job_State j).
Qed.




End Properties.

Section Sequential.
Context `{MapRange} `{SliceSort} (cap : nat).

(** C28: A scheduler tick dispatches the right jobs in the right order: of the
    PENDING jobs whose [RunAfter] has passed, ordered by priority and then by
    age, as many as the channel has room for are appended to it in that order
    and become QUEUED; all the others are left exactly as they were. *)
Theorem scheduleReady_dispatches (w : OWorld) :
  map_Forall (fun k j => Job_ID j = k) (ow_jobs w) -> length (ow_queue w) <= cap ->
  wp (job_rel cap true) scheduleReady (fun _ w' => exists now ready,
    (ow_clock w <= now <= ow_clock w')%Z /\
    NoDup (Job_ID <$> ready) /\
    (forall j, j ∈ ready <-> (exists id, ow_jobs w !! id = Some j) /\ Job_State j = StatePending /\
       (Job_RunAfter j = 0 \/ Job_RunAfter j < now)%Z) /\
    StronglySorted (fun i k => Job_Priority k < Job_Priority i \/
      Job_Priority i = Job_Priority k /\ Job_CreatedAt i <= Job_CreatedAt k)%Z ready /\
    ow_queue w' = ow_queue w ++ take (cap - length (ow_queue w)) ready /\
    ow_jobs w' = enqueue_all (ow_jobs w) (take (cap - length (ow_queue w)) ready)) w.
Proof using Type.
  intros Hids Hlen. unfold scheduleReady. apply wp_call. intros pending w0 [-> Hp].
  destruct (Hp eq_refl) as [n ->]. apply wp_call. intros now w1 [Hnow ->].
  set (ready := sort_slice sooner (filter (fun j => is_ready now j = true) (ListByState n StatePending (ow_jobs w)))).
  assert (Hperm : ready ≡ₚ filter (fun j => is_ready now j = true) (filter (fun j => Job_State j = StatePending) (map_to_list (ow_jobs w)).*2)).
  { unfold ready. rewrite sort_slice_perm. unfold ListByState. by rewrite map_range_perm. }
  assert (Hin : forall j, j ∈ ready <-> (exists id, ow_jobs w !! id = Some j) /\ Job_State j = StatePending /\
    (Job_RunAfter j = 0 \/ Job_RunAfter j < now)%Z).
  { intros j. rewrite Hperm, !list_elem_of_filter, elem_of_map_values. unfold is_ready, IsZero, Before.
    rewrite orb_true_iff, Z.eqb_eq, Z.ltb_lt. tauto. }
  assert (Hnd : NoDup (Job_ID <$> ready)).
  { rewrite Hperm, list_filter_filter.
    eapply sublist_NoDup; [exact (NoDup_values_key Job_ID (ow_jobs w) Hids)|].
    apply fmap_sublist, sublist_filter. }
  apply wp_bind. eapply wp_mono; [|apply (dispatch_all_wp cap ready); [done| |done]].
  - intros [] w2 (Ht2 & Hm2 & Hq2). apply wp_call. intros len w3 [-> ->]. intros [] w4 ->.
    exists now, ready. cbn in *. split_and!; [lia|lia|done|done| |done|done].
    assert (Hsorted : StronglySorted (fun x y => sooner y x = false) ready) by apply sort_slice_sorted, _.
    eapply StronglySorted_weaken; [|exact Hsorted]. unfold sooner, Before. intros x y.
    destruct (Z.eqb_spec (Job_Priority y) (Job_Priority x)); cbn; rewrite Z.ltb_ge; lia.
  - intros j Hj. apply Hin in Hj as ((id & Hid) & Hs & _). cbn. by rewrite (Hids _ _ Hid).
Qed.

(** C38: The cancel handler always answers: its polling loop ends within 101
    iterations, whatever the other threads do meanwhile. *)
Theorem CancelJob_returns (id : string) (w : OWorld) :
  wp (disturbed cap) (CancelJob id) (fun r _ => is_Some r) w.
Proof using Type.
  apply wp_call. intros job w1 (w0 & _ & -> & ->). destruct (Get id (ow_jobs w0)) as [job|]; [|by eexists].
  assert (Hdirect : forall w2, wp (disturbed cap)
    (err ← call (ETransition id StateCancelled "cancelled by user");
     match err with
     | Some e => Ret (Some (writeJSON StatusConflict (JBStoreError e)))
     | None => job ← call (EGet id);
         match job with
         | inl job => Ret (Some (writeJSON StatusOK (JBState (Job_ID job) (State_string (Job_State job)))))
         | inr _ => Ret (Some (writeJSON StatusOK (JBState EmptyString EmptyString)))
         end
     end) (fun r _ => is_Some r) w2).
  { intros w2. apply wp_call. intros [e|] w3 _; [by eexists|]. apply wp_call. intros [j|e] w4 _; by eexists. }
  destruct (Job_State job); try (by eexists); try apply Hdirect.
  apply wp_call. intros ctx w2 _. apply wp_bind. eapply (wp_mono _ _ (fun _ _ => True)); [|by destruct ctx; [intros [] ? _|]].
  intros [] w3 _. apply wp_call. intros now w4 (w5 & _ & Hnow & ->). apply wp_bind.
  eapply wp_mono; [|apply await_enough].
  - intros [j|] w6; [by eexists|intros [? [=]]].
  - cbn. unfold Prelude.Add, Second, Millisecond. lia.
Qed.
End Sequential.

(** ** A small orchestrator *)

Definition toy_job (id : string) (priority : Z) (created : Time) : Job :=
  mkJob id "train" "ml" "sleep" ["1"] StatePending priority 2 0 30 0 created None None "" "".

Definition toy_world : OWorld :=
  mkOWorld {[ "job_1" := toy_job "job_1" 5 100; "job_2" := toy_job "job_2" 1 50 ]} [] ∅ 0 ∅ 1000 [].

(** A scheduler tick, a worker and a request to cancel [job_1]; the channel has
    room for one job. *)
Definition toy_threads : list (prog JobE unit) :=
  [scheduleReady; (_ ← worker_iteration (fun _ => 0%Z); Ret tt); (_ ← CancelJob "job_1"; Ret tt)].

(** The tick runs, the worker receives [job_1] and marks it RUNNING. *)
Definition toy_running : list (prog JobE unit) * OWorld :=
  play 1 (replicate 9 0 ++ [1; 1]) (toy_threads, toy_world).
(** Then the request is served ... *)
Definition toy_answered : list (prog JobE unit) * OWorld := play 1 (replicate 500 2) toy_running.
(** ... and the worker goes on. *)
Definition toy_ended : list (prog JobE unit) * OWorld := play 1 (replicate 30 1) toy_answered.

Lemma toy_fresh : fresh_start toy_world.
Proof.
  split; [done|]. apply map_Forall_insert_2; [|apply map_Forall_singleton];
    (split; [done|]; split; [|done]); unfold in_budget, in_int64, min_int64, max_int64; cbn; lia.
Qed.

Lemma toy_reached : jsteps 1 (fun _ => 0%Z) ([], toy_world) (toy_running.1, toy_running.2).
Proof.
  rewrite <- surjective_pairing. unfold jsteps, toy_running. etrans; [|apply play_steps].
  apply (start_steps 1 _ toy_threads []). repeat constructor.
Qed.



Lemma scheduleReady_dispatches_witness :
  wp (job_rel 1 true) scheduleReady (fun _ w' => length (ow_queue w') <= 1) toy_world.
Proof.
  eapply wp_mono; [|apply (scheduleReady_dispatches 1 toy_world)].
  - intros [] w' (now & ready & _ & _ & _ & _ & Hq & _). rewrite Hq. cbn. rewrite length_take. lia.
  - intros k j Hj. by apply (proj2 toy_fresh).
  - cbn. lia.
Defined.

Example toy_dispatch_order : Job_ID <$> ow_queue (run (job_handle 1) scheduleReady toy_world).2 = ["job_1"].
Proof. vm_compute. reflexivity. Qed.


(** A request to cancel a running job can be lost: when it arrives after
    the executor has marked the job RUNNING and before it has registered the
    cancel function, the handler finds nothing to call, waits two seconds,
    answers 200 with state RUNNING, and the job runs to completion. *)
Theorem cancellation_lost : exists w ts1 w1 ts2 w2 ts3 w3,
  fresh_start w /\ jsteps 1 (fun _ => 0%Z) ([], w) (ts1, w1) /\
  Job_State <$> (ow_jobs w1 !! "job_1") = Some StateRunning /\
  ts1 !! 2 = Some (_ ← CancelJob "job_1"; Ret tt) /\
  (run (job_handle 1) (CancelJob "job_1") w1).1 = Some (writeJSON StatusOK (JBState "job_1" "RUNNING")) /\
  jsteps 1 (fun _ => 0%Z) (ts1, w1) (ts2, w2) /\ ts2 !! 2 = Some (Ret tt) /\
  jsteps 1 (fun _ => 0%Z) (ts2, w2) (ts3, w3) /\
  Job_State <$> (ow_jobs w3 !! "job_1") = Some StateCompleted.
Proof.
  exists toy_world, toy_running.1, toy_running.2, toy_answered.1, toy_answered.2, toy_ended.1, toy_ended.2.
  rewrite <- !surjective_pairing.
  split_and!; [apply toy_fresh| |vm_compute; reflexivity|reflexivity|vm_compute; reflexivity
    |apply play_steps|vm_compute; reflexivity|apply play_steps|vm_compute; reflexivity].
  rewrite (surjective_pairing toy_running). apply toy_reached.
Qed.
