(* ===== verification/Agent.v ===== *)
(** * control-plane/internal/worker: the node agent

    agent.go, executor.go and container.go as programs over [AgE]: the
    semaphore channel, the wait groups, goroutine starts, the two contexts, the
    HTTP client, os/exec, and the calls on the Docker client (a third-party
    package: each call is an operation the environment answers).  [agent_step]
    interleaves the goroutines of one agent process.  A ticker loop is unrolled
    [fuel] times and then waits for ever, so that every finite execution is one
    of the model for enough fuel. *)

From S2P Require Import Prelude GoText Model.
From Stdlib Require Import ZArith Lia.
From stdpp Require Import base gmap strings list.
Local Open Scope go_scope.

(** ** Data *)

Record Config := mkConfig {
  ControlPlaneURL : string;
  Hostname : string;
  Address : string;
  CPU : float64;
  MemoryMB : Z;
  MaxConcurrentJobs : Z;
  HeartbeatInterval : Duration;
  PollInterval : Duration;
  ShutdownTimeout : Duration;
  DockerHost : string }.

(** The agent: its configuration and the ID the control plane gave it. *)
Record Agent := mkAgent { a_cfg : Config; a_id : string }.

Record registerRequest := mkRegisterRequest {
  rr_Hostname : string; rr_Address : string; rr_Capacity : ResourceCapacity; rr_MaxConcurrent : Z }.
Record heartbeatRequest := mkHeartbeatRequest { hr_RunningJobs : Z; hr_Available : ResourceCapacity }.
Record statusRequest := mkStatusRequest {
  sr_Status : PodStatus; sr_ExitCode : option Z; sr_Error : string; sr_Output : string }.

(** What [json.Marshal] is given as the body of a request. *)
Inductive ReqBody :=
| NoBody
| RegisterBody (r : registerRequest)
| HeartbeatBody (r : heartbeatRequest)
| StatusBody (r : statusRequest).

(** The contexts: the one [Run] was given, [runCtx], and the background. *)
Inductive Ctx := CtxAgent | CtxRun | CtxBackground.

(** A request made by [http.NewRequestWithContext]; [rq_Path] is [URL.Path]. *)
Record HttpRequest := mkHttpRequest {
  rq_Ctx : Ctx; rq_Method : string; rq_URL : string; rq_Path : string; rq_Body : ReqBody }.

(** The variable a response is decoded into; [OutNil] for [nil]. *)
Inductive Out : Type -> Type :=
| OutNil : Out unit
| OutNode : Out Node
| OutPoll : Out (option Pod).   (* pollResponse *)

(** A response: the text of the body and what the JSON decoder makes of it. *)
Record HttpResponse (A : Type) := mkHttpResponse {
  rs_StatusCode : Z; rs_Status : string; rs_Text : string; rs_Decoded : A + string }.
Arguments mkHttpResponse {A}.
Arguments rs_StatusCode {A}.
Arguments rs_Status {A}.
Arguments rs_Text {A}.
Arguments rs_Decoded {A}.

(** The error of [cmd.Run]: an [exec.ExitError], or the command did not start. *)
Inductive RunError := ExitError (code : Z) (msg : string) | OtherError (msg : string).
Definition RunError_text (e : RunError) : string :=
  match e with ExitError _ m => m | OtherError m => m end.

Record ContainerSpec := mkContainerSpec {
  cs_Image : string; cs_Cmd : list string; cs_NanoCPUs : Z; cs_Memory : Z; cs_Name : string }.

(** Which branch of the [select] on the two channels of [ContainerWait] and on
    [ctx.Done()] is taken. *)
Inductive WaitResult :=
| WaitStatus (code : Z) (err : option string)
| WaitErr (err : option string)
| WaitCtxDone.

Inductive AgentMetric :=
| WorkerRunningJobs (v : Z) | WorkerCompletedJobsTotal | WorkerFailedJobsTotal
| WorkerHeartbeatLatency (d : Duration).

Inductive Goroutine := GHeartbeat | GPoll | GDrain | GPod (p : Pod).

Inductive AgE : Type -> Type :=
(* the semaphore channel and the wait groups *)
| ESemTry : AgE bool                     (* select { case a.sem <- _: true; default: false } *)
| ESemRelease : AgE unit                 (* <-a.sem *)
| ESemLen : AgE Z
| EWgAdd : AgE unit
| EWgDone : AgE unit
| EWgWait : AgE unit
| ELoopAdd (n : Z) : AgE unit            (* loopWG *)
| ELoopDone : AgE unit
| ELoopWait : AgE unit
| EGo (g : Goroutine) : AgE unit
| ESetID (id : string) : AgE unit        (* a.id = id *)
(* contexts and channels of Run *)
| ETick : AgE bool                       (* select: false for ctx.Done(), true for ticker.C *)
| ECtxDone : AgE unit                    (* <-ctx.Done() *)
| ECloseDrained : AgE unit
| EDrainedOrTimeout : AgE bool           (* select: true for drained, false for time.After *)
| EDrained : AgE unit                    (* <-drained *)
| ERunCancel : AgE unit
| ERunCtxErr : AgE bool                  (* runCtx.Err() != nil *)
(* the HTTP client; a request whose context is already done is not sent *)
| ENewRequest (method url : string) (body : ReqBody) : AgE (string + string)
| ESend (req : HttpRequest) : AgE bool
| EReceive (req : HttpRequest) {A} (out : Out A) : AgE (HttpResponse A + string)
| ENow : AgE Time
| EMetric (m : AgentMetric) : AgE unit
(* os/exec: the combined output and the error *)
| EExec (command : string) (args : list string) : AgE (string * option RunError)
(* the Docker client *)
| EImagePull (image : string) : AgE (option string)
| EPullDrain : AgE unit                  (* io.Copy(io.Discard, reader); reader.Close() *)
| EContainerCreate (spec : ContainerSpec) : AgE (string + string)
| EContainerStart (id : string) : AgE (option string)
| EContainerWait (id : string) : AgE WaitResult
| EContainerStop (id : string) (timeout : Z) : AgE unit
| EContainerLogs (id : string) : AgE (string + string)
| EContainerRemove (id : string) : AgE unit
(* a panic ends the process; out of fuel waits for ever *)
| EPanic : AgE Empty_set
| EBlock : AgE Empty_set.

(** ** The HTTP client *)

Definition do {A} (req : HttpRequest) (wantStatus : Z) (out : Out A) : prog AgE (A + string) :=
  sent ← call (ESend req);
  if negb sent then Ret (inr "context canceled")
  else
    r ← call (EReceive req out);
    match r with
    | inr err => Ret (inr err)
    | inl resp =>
        if negb (rs_StatusCode resp =? wantStatus)%Z then
          Ret (inr (rq_Method req +:+ " " +:+ rq_Path req +:+ ": " +:+ rs_Status resp +:+ ": " +:+ rs_Text resp))
        else
          match out in Out A return HttpResponse A -> prog AgE (A + string) with
          | OutNil => fun _ => Ret (inl tt)
          | OutNode => fun resp => Ret (rs_Decoded resp)
          | OutPoll => fun resp => Ret (rs_Decoded resp)
          end resp
    end.

Definition post {A} (a : Agent) (ctx : Ctx) (path : string) (body : ReqBody) (wantStatus : Z)
    (out : Out A) : prog AgE (A + string) :=
  r ← call (ENewRequest "POST" (ControlPlaneURL (a_cfg a) +:+ path) body);
  match r with
  | inr err => Ret (inr err)
  | inl urlPath =>
      do (mkHttpRequest ctx "POST" (ControlPlaneURL (a_cfg a) +:+ path) urlPath body) wantStatus out
  end.

Definition get {A} (a : Agent) (ctx : Ctx) (path : string) (out : Out A) : prog AgE (A + string) :=
  r ← call (ENewRequest "GET" (ControlPlaneURL (a_cfg a) +:+ path) NoBody);
  match r with
  | inr err => Ret (inr err)
  | inl urlPath =>
      do (mkHttpRequest ctx "GET" (ControlPlaneURL (a_cfg a) +:+ path) urlPath NoBody) StatusOK out
  end.

(** ** Registration and heartbeats *)

(** [register]: [None] is a nil error. *)
Definition register (cfg : Config) : prog AgE (option string) :=
  let body := RegisterBody (mkRegisterRequest (Hostname cfg) (Address cfg)
                (mkResourceCapacity (CPU cfg) (MemoryMB cfg)) (MaxConcurrentJobs cfg)) in
  r ← post (mkAgent cfg "") CtxAgent "/api/v1/nodes/register" body StatusCreated OutNode;
  match r with
  | inr err => Ret (Some err)
  | inl node => _ ← call (ESetID (Node_ID node)); Ret None
  end.

Definition sendHeartbeat (a : Agent) : prog AgE unit :=
  running ← call ESemLen;
  let body := HeartbeatBody (mkHeartbeatRequest running zeroCapacity) in
  start ← call ENow;
  _ ← post a CtxAgent ("/api/v1/nodes/" +:+ a_id a +:+ "/heartbeat") body StatusOK OutNil;
  now ← call ENow;
  call (EMetric (WorkerHeartbeatLatency (Sub now start))).

(** [time.NewTicker] panics on an interval that is not positive. *)
Definition with_ticker (d : Duration) (p : prog AgE unit) : prog AgE unit :=
  if (d <=? 0)%Z then _ ← call EPanic; Ret tt else p.

Fixpoint tick_loop (fuel : nat) (step : prog AgE unit) : prog AgE unit :=
  match fuel with
  | O => _ ← call EBlock; Ret tt
  | S fuel =>
      tick ← call ETick;
      if tick : bool then (_ ← step; tick_loop fuel step) else Ret tt
  end.

Definition heartbeatLoop (a : Agent) (fuel : nat) : prog AgE unit :=
  with_ticker (HeartbeatInterval (a_cfg a)) (tick_loop fuel (sendHeartbeat a)).

(** ** Polling *)

Definition pollOnce (a : Agent) : prog AgE unit :=
  got ← call ESemTry;
  if negb got then Ret tt
  else
    r ← get a CtxAgent ("/api/v1/nodes/" +:+ a_id a +:+ "/pods/poll") OutPoll;
    match r with
    | inr _ => call ESemRelease
    | inl None => call ESemRelease
    | inl (Some pod) =>
        _ ← call EWgAdd;
        n ← call ESemLen;
        _ ← call (EMetric (WorkerRunningJobs n));
        call (EGo (GPod pod))
    end.

Definition pollLoop (a : Agent) (fuel : nat) : prog AgE unit :=
  with_ticker (PollInterval (a_cfg a)) (tick_loop fuel (pollOnce a)).

(** ** executor.go *)

Definition status_path (a : Agent) (podID : string) : string :=
  "/api/v1/nodes/" +:+ a_id a +:+ "/pods/" +:+ podID +:+ "/status".

Definition reportStatus (a : Agent) (podID : string) (st : PodStatus) (exitCode : option Z)
    (errMsg output : string) : prog AgE unit :=
  _ ← post a CtxBackground (status_path a podID)
        (StatusBody (mkStatusRequest st exitCode errMsg output)) 200 OutNil;
  Ret tt.

Definition exitCodeOf (err : RunError) : option Z :=
  match err with ExitError code _ => Some code | OtherError _ => None end.

Definition runSubprocessPod (a : Agent) (pod : Pod) : prog AgE unit :=
  '(output, runErr) ← call (EExec (Pod_Command pod) (Pod_Args pod));
  cancelled ← call ERunCtxErr;
  if cancelled : bool then
    reportStatus a (Pod_ID pod) PodCancelled None "node agent shutting down" output
  else
    match runErr with
    | Some err =>
        _ ← reportStatus a (Pod_ID pod) PodFailed (exitCodeOf err) (RunError_text err) output;
        call (EMetric WorkerFailedJobsTotal)
    | None =>
        _ ← reportStatus a (Pod_ID pod) PodSucceeded (Some 0%Z) "" output;
        call (EMetric WorkerCompletedJobsTotal)
    end.

(** ** container.go *)

Section Containers.
(** Go leaves the conversion of a float that an [int64] cannot hold to the
    implementation. *)
Context (conv : float64 -> Z).

Definition nanoCPUs (res : ResourceRequest) : Z :=
  if flt fzero (Req_CPU res) then int64_of_float conv (fmul (Req_CPU res) f1e9) else 0.

Definition memBytes (res : ResourceRequest) : Z :=
  if (0 <? Req_MemoryMB res)%Z then Req_MemoryMB res *64 1024 *64 1024 else 0.

(** The container a pod runs in. *)
Definition container_spec (pod : Pod) : ContainerSpec :=
  mkContainerSpec (Pod_Image pod)
    (if String.eqb (Pod_Command pod) EmptyString then [] else Pod_Command pod :: Pod_Args pod)
    (nanoCPUs (Pod_Resources pod)) (memBytes (Pod_Resources pod)) ("pod-" +:+ Pod_ID pod).

Definition collectContainerLogs (containerID : string) : prog AgE string :=
  r ← call (EContainerLogs containerID);
  Ret (match r with inl text => text | inr _ => EmptyString end).

(** What [runContainerPod] does between the deferred removal and its return. *)
Definition run_started (a : Agent) (pod : Pod) (containerID : string) : prog AgE unit :=
  err ← call (EContainerStart containerID);
  match err with
  | Some err =>
      _ ← reportStatus a (Pod_ID pod) PodFailed None ("container start: " +:+ err) "";
      call (EMetric WorkerFailedJobsTotal)
  | None =>
      w ← call (EContainerWait containerID);
      match w with
      | WaitCtxDone =>
          _ ← call (EContainerStop containerID 5);
          output ← collectContainerLogs containerID;
          reportStatus a (Pod_ID pod) PodCancelled None "node agent shutting down" output
      | WaitStatus _ _ | WaitErr _ =>
          let '(exitCode, runErr) :=
            match w with
            | WaitStatus code err => (int64_wrap code, err)
            | WaitErr err => (0%Z, err)
            | WaitCtxDone => (0%Z, None)
            end in
          output ← collectContainerLogs containerID;
          match runErr with
          | Some err =>
              _ ← reportStatus a (Pod_ID pod) PodFailed None err output;
              call (EMetric WorkerFailedJobsTotal)
          | None =>
              if negb (exitCode =? 0)%Z then
                _ ← reportStatus a (Pod_ID pod) PodFailed (Some exitCode)
                      ("exit code " +:+ itoa exitCode) output;
                call (EMetric WorkerFailedJobsTotal)
              else
                _ ← reportStatus a (Pod_ID pod) PodSucceeded (Some 0%Z) "" output;
                call (EMetric WorkerCompletedJobsTotal)
          end
      end
  end.

Definition runContainerPod (a : Agent) (pod : Pod) : prog AgE unit :=
  err ← call (EImagePull (Pod_Image pod));
  match err with
  | Some err =>
      _ ← reportStatus a (Pod_ID pod) PodFailed None ("image pull: " +:+ err) "";
      call (EMetric WorkerFailedJobsTotal)
  | None =>
      _ ← call EPullDrain;
      r ← call (EContainerCreate (container_spec pod));
      match r with
      | inr err =>
          _ ← reportStatus a (Pod_ID pod) PodFailed None ("container create: " +:+ err) "";
          call (EMetric WorkerFailedJobsTotal)
      | inl containerID =>
          _ ← run_started a pod containerID;
          call (EContainerRemove containerID)
      end
  end.

Definition runPod (a : Agent) (pod : Pod) : prog AgE unit :=
  _ ← reportStatus a (Pod_ID pod) PodRunning None "" "";
  if negb (String.eqb (Pod_Image pod) EmptyString) then runContainerPod a pod
  else runSubprocessPod a pod.

(** ** The process *)

(** The goroutine [pollOnce] starts for a pod, deferred calls included. *)
Definition pod_goroutine (a : Agent) (pod : Pod) : prog AgE unit :=
  _ ← runPod a pod;
  _ ← call ESemRelease;
  n ← call ESemLen;
  _ ← call (EMetric (WorkerRunningJobs n));
  call EWgDone.

Definition goroutine (a : Agent) (fuel : nat) (g : Goroutine) : prog AgE unit :=
  match g with
  | GHeartbeat => _ ← heartbeatLoop a fuel; call ELoopDone
  | GPoll => _ ← pollLoop a fuel; call ELoopDone
  | GDrain => _ ← call EWgWait; call ECloseDrained
  | GPod pod => pod_goroutine a pod
  end.

(** [Run] after the registration. *)
Definition run_registered : prog AgE (option string) :=
  _ ← call (ELoopAdd 2);
  _ ← call (EGo GHeartbeat);
  _ ← call (EGo GPoll);
  _ ← call ECtxDone;
  _ ← call (EGo GDrain);
  drained ← call EDrainedOrTimeout;
  _ ← (if drained : bool then Ret tt else _ ← call ERunCancel; call EDrained);
  _ ← call ELoopWait;
  _ ← call ERunCancel;   (* deferred *)
  Ret None.

Definition Run (cfg : Config) : prog AgE (option string) :=
  r ← register cfg;
  match r with
  | Some err => Ret (Some ("register: " +:+ err))
  | None => run_registered
  end.
End Containers.

(** [New]: the options handed to the Docker client, and the agent's semaphore
    capacity; [newClient] is the third-party constructor. *)
Inductive DockerOpt := WithAPIVersionNegotiation | WithHost (host : string) | FromEnv.

Definition slots (cfg : Config) : Z := Z.max (MaxConcurrentJobs cfg) 1.

Definition New (newClient : list DockerOpt -> option string) (cfg : Config) : Z + string :=
  let opts := [WithAPIVersionNegotiation] ++
    (if negb (String.eqb (DockerHost cfg) EmptyString) then [WithHost (DockerHost cfg)] else [FromEnv]) in
  match newClient opts with
  | Some err => inr ("docker client: " +:+ err)
  | None => inl (slots cfg)
  end.

(** *** The state the goroutines share and what the operations do to it *)

Record Proc := mkProc {
  p_sem : Z;          (* len(a.sem) *)
  p_wg : Z;           (* the counter of a.wg *)
  p_loops : Z;        (* the counter of loopWG *)
  p_id : string;      (* a.id *)
  p_done : bool;      (* ctx is cancelled *)
  p_run_done : bool;  (* runCtx is cancelled *)
  p_drained : bool }. (* drained is closed *)

Definition with_sem (n : Z) (p : Proc) : Proc :=
  mkProc n (p_wg p) (p_loops p) (p_id p) (p_done p) (p_run_done p) (p_drained p).
Definition with_wg (n : Z) (p : Proc) : Proc :=
  mkProc (p_sem p) n (p_loops p) (p_id p) (p_done p) (p_run_done p) (p_drained p).
Definition with_loops (n : Z) (p : Proc) : Proc :=
  mkProc (p_sem p) (p_wg p) n (p_id p) (p_done p) (p_run_done p) (p_drained p).
Definition with_id (id : string) (p : Proc) : Proc :=
  mkProc (p_sem p) (p_wg p) (p_loops p) id (p_done p) (p_run_done p) (p_drained p).
Definition with_flags (done run_done drained : bool) (p : Proc) : Proc :=
  mkProc (p_sem p) (p_wg p) (p_loops p) (p_id p) done run_done drained.

(** A receive from an empty channel, and [Wait] on a counter that is not zero,
    block: they have no step.  What the network, the processes and Docker answer
    is arbitrary, except that a request is not sent once its context is done and
    that [ctx.Done()] is selected only when it is closed. *)
Definition agent_rel (cap : Z) X (e : AgE X) : Proc -> X -> Proc -> Prop :=
  match e in AgE X return Proc -> X -> Proc -> Prop with
  | ESemTry => fun p r p' => r = (p_sem p <? cap)%Z /\ p' = if r then with_sem (p_sem p + 1) p else p
  | ESemRelease => fun p _ p' => (0 < p_sem p)%Z /\ p' = with_sem (p_sem p - 1) p
  | ESemLen => fun p r p' => r = p_sem p /\ p' = p
  | EWgAdd => fun p _ p' => p' = with_wg (p_wg p + 1) p
  | EWgDone => fun p _ p' => (0 < p_wg p)%Z /\ p' = with_wg (p_wg p - 1) p
  | EWgWait => fun p _ p' => p_wg p = 0%Z /\ p' = p
  | ELoopAdd n => fun p _ p' => p' = with_loops (p_loops p + n) p
  | ELoopDone => fun p _ p' => (0 < p_loops p)%Z /\ p' = with_loops (p_loops p - 1) p
  | ELoopWait => fun p _ p' => p_loops p = 0%Z /\ p' = p
  | ESetID id => fun p _ p' => p' = with_id id p
  | ETick => fun p r p' => (r = true \/ p_done p = true) /\ p' = p
  | ECtxDone => fun p _ p' => p_done p = true /\ p' = p
  | ECloseDrained => fun p _ p' => p' = with_flags (p_done p) (p_run_done p) true p
  | EDrainedOrTimeout => fun p r p' => (r = true -> p_drained p = true) /\ p' = p
  | EDrained => fun p _ p' => p_drained p = true /\ p' = p
  | ERunCancel => fun p _ p' => p' = with_flags (p_done p) true (p_drained p) p
  | ERunCtxErr => fun p r p' => r = p_run_done p /\ p' = p
  | ESend req => fun p r p' => p' = p /\
      match rq_Ctx req with
      | CtxAgent => r = negb (p_done p)
      | CtxRun => r = negb (p_run_done p)
      | CtxBackground => r = true
      end
  | EContainerWait _ => fun p r p' => (r = WaitCtxDone -> p_run_done p = true) /\ p' = p
  | _ => fun p _ p' => p' = p
  end.

Definition spawned X (e : AgE X) : list Goroutine :=
  match e with EGo g => [g] | _ => [] end.

(** [main] is the goroutine that called [Run]. *)
Record System := mkSystem {
  s_main : prog AgE (option string);
  s_threads : list (Goroutine * prog AgE unit);
  s_proc : Proc }.

Definition start_all (conv : float64 -> Z) (cfg : Config) (fuel : nat) (id : string)
    (gs : list Goroutine) : list (Goroutine * prog AgE unit) :=
  (fun g => (g, goroutine conv (mkAgent cfg id) fuel g)) <$> gs.

Inductive agent_step (conv : float64 -> Z) (cfg : Config) (fuel : nat) : System -> System -> Prop :=
| as_main X (e : AgE X) k x ts p p' :
    agent_rel (slots cfg) X e p x p' ->
    agent_step conv cfg fuel (mkSystem (Vis e k) ts p)
      (mkSystem (k x) (ts ++ start_all conv cfg fuel (p_id p) (spawned X e)) p')
| as_thread i g X (e : AgE X) k x main ts p p' :
    ts !! i = Some (g, Vis e k) -> agent_rel (slots cfg) X e p x p' ->
    agent_step conv cfg fuel (mkSystem main ts p)
      (mkSystem main (<[i := (g, k x)]> ts ++ start_all conv cfg fuel (p_id p) (spawned X e)) p')
| as_signal main ts p :
    agent_step conv cfg fuel (mkSystem main ts p)
      (mkSystem main ts (with_flags true (p_run_done p) (p_drained p) p)).

Definition agent_start (cfg : Config) : System :=
  mkSystem (Run cfg) [] (mkProc 0 0 0 "" false false false).
