(* ===== verification/AgentProperties.v ===== *)
(** * control-plane/internal/worker: properties of the node agent

    Who holds the slots of the semaphore and the counts of the wait groups
    ([Share], moved by the operations), what a pod's goroutine reports and
    cleans up on every path, and what [Run] waits for before it returns. *)

From S2P Require Import Prelude Model Agent.
From Stdlib Require Import ZArith Lia.
From stdpp Require Import base gmap strings list.

(** ** Programs that use only some operations *)

Fixpoint only {A} (P : forall X, AgE X -> bool) (p : prog AgE A) : Prop :=
  match p with
  | Ret _ => True
  | Vis e k => P _ e = true /\ forall x, only P (k x)
  end.

Lemma only_bind {A B} (P : forall X, AgE X -> bool) (p : prog AgE A) (f : A -> prog AgE B) :
  only P p -> (forall a, only P (f a)) -> only P (p ≫= f).
Proof. intros Hp Hf. induction p as [a|X e k IH]; cbn; [apply Hf|]. destruct Hp. eauto. Qed.

Lemma only_mono {A} (P P' : forall X, AgE X -> bool) (p : prog AgE A) :
  (forall X e, P X e = true -> P' X e = true) -> only P p -> only P' p.
Proof. intros HP. induction p as [a|X e k IH]; cbn; [done|]. intros []. eauto. Qed.

(** Talking to the control plane, reading the clock and counting. *)
Definition client_op X (e : AgE X) : bool :=
  match e with
  | ENewRequest _ _ _ | ESend _ | EReceive _ _ | ENow | EMetric _ | ESemLen => true
  | _ => false
  end.

(** Executing a pod: the subprocess and the container. *)
Definition executes X (e : AgE X) : bool :=
  match e with
  | EExec _ _ | ERunCtxErr | EImagePull _ | EPullDrain | EContainerCreate _ | EContainerStart _
  | EContainerWait _ | EContainerStop _ _ | EContainerLogs _ | EContainerRemove _ => true
  | _ => false
  end.

Definition pod_op X (e : AgE X) : bool := client_op X e || executes X e.

Create HintDb agent.

Ltac only_tac := repeat first
  [ exact I | reflexivity | progress intros
  | solve [auto with agent nocore]
  | apply only_bind
  | match goal with |- only _ (match ?x with _ => _ end) => destruct x end
  | match goal with |- only _ (let '(_, _) := ?x in _) => destruct x end
  | split ].

Lemma only_do {A} req want (out : Out A) : only client_op (do req want out).
Proof. unfold do. destruct out; only_tac. Qed.
#[local] Hint Resolve only_do : agent.

Lemma only_post {A} a ctx path body want (out : Out A) : only client_op (post a ctx path body want out).
Proof. unfold post. only_tac. Qed.
Lemma only_get {A} a ctx path (out : Out A) : only client_op (get a ctx path out).
Proof. unfold get. only_tac. Qed.
#[local] Hint Resolve only_post only_get : agent.

Lemma only_heartbeat a : only client_op (sendHeartbeat a).
Proof. unfold sendHeartbeat. only_tac. Qed.

Lemma only_report a id st code err out : only pod_op (reportStatus a id st code err out).
Proof.
  apply (only_mono client_op); [by intros X []|]. unfold reportStatus. only_tac.
Qed.
#[local] Hint Resolve only_report : agent.

Lemma only_runPod conv a pod : only pod_op (runPod conv a pod).
Proof.
  unfold runPod, runContainerPod, runSubprocessPod, run_started, collectContainerLogs. only_tac.
Qed.

(** ** Slots and counts as shares of the goroutines *)

Record Share := mkShare { sh_slot : bool; sh_wg : bool; sh_loop : nat }.

(** The share a goroutine is started with. *)
Definition initial_share (g : Goroutine) : Share :=
  match g with
  | GPod _ => mkShare true true 0
  | GHeartbeat | GPoll => mkShare false false 1
  | GDrain => mkShare false false 0
  end.

(** What goroutine [g] ([None]: the caller of [Run]) must own to perform an
    operation: nothing is released that is not held, pods are executed only by
    the holder of a slot, a pod's goroutine is counted until it ends. *)
Definition entitled (g : option Goroutine) X (e : AgE X) (o : Share) : Prop :=
  match g with
  | Some (GPod _) => sh_wg o = true
  | Some GHeartbeat | Some GPoll => sh_loop o = 1
  | _ => True
  end /\
  (executes X e = true -> sh_slot o = true) /\
  match e with
  | ESemTry => sh_slot o = false
  | ESemRelease => sh_slot o = true
  | EWgAdd => sh_slot o = true /\ sh_wg o = false
  | EWgDone => sh_slot o = false /\ sh_wg o = true
  | ELoopAdd n => g = None /\ (0 <= n)%Z
  | ELoopDone => 0 < sh_loop o
  | EGo (GPod _) => sh_slot o = true /\ sh_wg o = true
  | EGo GHeartbeat | EGo GPoll => 0 < sh_loop o
  | _ => True
  end.

Definition moved X (e : AgE X) (o : Share) : X -> Share :=
  match e in AgE X return X -> Share with
  | ESemTry => fun got => mkShare got (sh_wg o) (sh_loop o)
  | ESemRelease => fun _ => mkShare false (sh_wg o) (sh_loop o)
  | EWgAdd => fun _ => mkShare (sh_slot o) true (sh_loop o)
  | EWgDone => fun _ => mkShare (sh_slot o) false (sh_loop o)
  | ELoopAdd n => fun _ => mkShare (sh_slot o) (sh_wg o) (sh_loop o + Z.to_nat n)
  | ELoopDone => fun _ => mkShare (sh_slot o) (sh_wg o) (sh_loop o - 1)
  | EGo (GPod _) => fun _ => mkShare false false (sh_loop o)
  | EGo GDrain => fun _ => o
  | EGo _ => fun _ => mkShare (sh_slot o) (sh_wg o) (sh_loop o - 1)
  | _ => fun _ => o
  end.

Definition moves X (e : AgE X) (o : Share) (x : X) (o' : Share) : Prop := o' = moved X e o x.

(** A program that disposes of its share: everything it holds is given back or
    handed on by the time it ends. *)
Definition disposes {A} (g : option Goroutine) (p : prog AgE A) (o : Share) : Prop :=
  gwp (entitled g) moves p (fun _ o' => o' = mkShare false false 0) o.

Ltac share_tac :=
  repeat (split; [by repeat split|];
    let Hm := fresh in intros ? ? Hm; unfold moves in Hm; cbn in Hm; subst); done.

(** Operations of the client leave the share alone; so does executing a pod
    with a slot. *)
Lemma keeps_share {A} g (P : forall X, AgE X -> bool) (p : prog AgE A) o :
  only P p -> (forall X e, P X e = true -> entitled g X e o /\ forall x, moved X e o x = o) ->
  gwp (entitled g) moves p (fun _ o' => o' = o) o.
Proof.
  intros Hp HP. induction p as [a|X e k IH]; [done|]. destruct Hp as [He Hk].
  destruct (HP _ _ He) as [Hent Hmv]. split; [done|]. intros x o' ->. rewrite Hmv. auto.
Qed.

Lemma client_keeps {A} g (p : prog AgE A) o :
  only client_op p -> (forall X (e : AgE X), client_op X e = true -> entitled g X e o) ->
  gwp (entitled g) moves p (fun _ o' => o' = o) o.
Proof. intros Hp Hg. eapply keeps_share; [done|]. intros X e He. split; [auto|]. by destruct e. Qed.

Lemma pod_keeps pod conv a :
  gwp (entitled (Some (GPod pod))) moves (runPod conv a pod)
    (fun _ o' => o' = mkShare true true 0) (mkShare true true 0).
Proof.
  eapply keeps_share; [apply only_runPod|]. intros X e He. by destruct e.
Qed.

Lemma tick_loop_keeps g fuel step o :
  gwp (entitled g) moves step (fun _ o' => o' = o) o ->
  entitled g _ ETick o -> entitled g _ EBlock o ->
  gwp (entitled g) moves (tick_loop fuel step) (fun _ o' => o' = o) o.
Proof.
  intros Hs Ht Hb. induction fuel as [|fuel IH].
  - split; [done|]. intros [].
  - split; [done|]. intros x o' ->. cbn [moved]. destruct x; [|done]. cbn.
    apply gwp_bind. eapply gwp_mono; [|exact Hs]. by intros _ o' ->.
Qed.

Lemma loop_disposes g d fuel step :
  g = GHeartbeat \/ g = GPoll ->
  gwp (entitled (Some g)) moves step (fun _ o' => o' = initial_share g) (initial_share g) ->
  disposes (Some g) (_ ← with_ticker d (tick_loop fuel step); call ELoopDone) (initial_share g).
Proof.
  intros Hg Hs. eapply gwp_seq with (P := fun _ o' => o' = initial_share g).
  - unfold with_ticker. case_one.
    + split; [by destruct Hg; subst|intros []].
    + apply tick_loop_keeps; [done| |]; destruct Hg; subst; done.
  - intros _ o' ->. split; [|intros ? ? ->]; destruct Hg; subst; repeat split; cbn; auto.
Qed.

Lemma pollOnce_keeps a :
  gwp (entitled (Some GPoll)) moves (pollOnce a) (fun _ o' => o' = initial_share GPoll) (initial_share GPoll).
Proof.
  unfold pollOnce. apply gwp_call; [done|]. intros got o' ->. destruct got; cbn [negb moved]; [|done].
  eapply gwp_seq.
  { apply client_keeps; [apply only_get|]. intros X e He. by destruct e. }
  intros r o' ->. destruct r as [[pod|]|]; share_tac.
Qed.

Lemma goroutine_disposes conv a fuel g :
  disposes (Some g) (goroutine conv a fuel g) (initial_share g).
Proof.
  destruct g; cbn [goroutine].
  - apply loop_disposes; [auto|]. apply client_keeps; [apply only_heartbeat|].
    intros X e He. by destruct e.
  - apply loop_disposes; [auto|]. apply pollOnce_keeps.
  - share_tac.
  - eapply gwp_seq; [apply pod_keeps|]. intros _ o' ->. share_tac.
Qed.

Definition main_op X (e : AgE X) : bool :=
  client_op X e || match e with ESetID _ => true | _ => false end.

Lemma only_register cfg : only main_op (register cfg).
Proof.
  unfold register. apply only_bind.
  - eapply only_mono; [|apply only_post]. by intros X [].
  - only_tac.
Qed.

Lemma Run_disposes cfg : disposes None (Run cfg) (mkShare false false 0).
Proof.
  unfold Run. eapply gwp_seq.
  { eapply keeps_share; [apply only_register|]. intros X e He. by destruct e. }
  intros r o' ->. destruct r; [done|]. unfold run_registered.
  do 6 (split; [repeat split; cbn; try done; lia|]; let Hm := fresh in intros ? ? Hm; unfold moves in Hm; cbn in Hm; subst).
  match goal with b : bool |- _ => destruct b end; share_tac.
Qed.

(** *** The counters are the sums of the shares *)

Definition slotZ (o : Share) : Z := b2z (sh_slot o).
Definition wgZ (o : Share) : Z := b2z (sh_wg o).
Definition loopZ (o : Share) : Z := Z.of_nat (sh_loop o).

Definition share_total (f : Share -> Z) (mo : Share) (os : list Share) : Z := (f mo + tally f os)%Z.

(** What an operation adds to the counters is what it adds to its goroutine's
    share and to the shares of those it starts. *)
Lemma op_accounts cap g X (e : AgE X) o x p p' :
  entitled g X e o -> agent_rel cap X e p x p' ->
  let given f := tally f (initial_share <$> spawned X e) in
  (p_sem p' = p_sem p - slotZ o + slotZ (moved X e o x) + given slotZ)%Z /\
  (p_wg p' = p_wg p - wgZ o + wgZ (moved X e o x) + given wgZ)%Z /\
  (p_loops p' = p_loops p - loopZ o + loopZ (moved X e o x) + given loopZ)%Z /\
  (p_sem p <= cap -> p_sem p' <= cap)%Z.
Proof.
  destruct o as [s w l]. unfold slotZ, wgZ, loopZ.
  intros (_ & _ & Hpre) HR; destruct e; try destruct g0; cbn in Hpre, HR |- *; split_and_all; subst;
    cbn; try (split_and!; lia).
  destruct (Z.ltb_spec (p_sem p) cap); cbn; split_and!; lia.
Qed.

Definition thread_ok (gp : Goroutine * prog AgE unit) (o : Share) : Prop :=
  disposes (Some gp.1) gp.2 o.

Record shares (cap : Z) (s : System) (mo : Share) (os : list Share) : Prop := {
  sh_main : disposes None (s_main s) mo;
  sh_threads : Forall2 thread_ok (s_threads s) os;
  sh_sem : p_sem (s_proc s) = share_total slotZ mo os;
  sh_wgs : p_wg (s_proc s) = share_total wgZ mo os;
  sh_loops : p_loops (s_proc s) = share_total loopZ mo os;
  sh_cap : (p_sem (s_proc s) <= cap)%Z }.

Lemma started_ok conv cfg fuel id gs :
  Forall2 thread_ok (start_all conv cfg fuel id gs) (initial_share <$> gs).
Proof. induction gs; constructor; [apply goroutine_disposes|done]. Qed.

Lemma shares_step conv cfg fuel s s' mo os :
  agent_step conv cfg fuel s s' -> shares (slots cfg) s mo os ->
  exists mo' os', shares (slots cfg) s' mo' os'.
Proof.
  intros Hs [Hm Ht Hsem Hwg Hl Hcap]; inversion Hs as [X e k x ts p p' HR|i g X e k x m ts p p' Hi HR|m ts p];
    subst; cbn in *.
  - destruct Hm as [Hpre Hk]. destruct (op_accounts _ _ _ _ _ _ _ _ Hpre HR) as (A1 & A2 & A3 & A4).
    exists (moved X e mo x), (os ++ (initial_share <$> spawned X e)).
    split; cbn; auto; [by apply Hk|by apply Forall2_app; [|apply started_ok]| | |];
      unfold share_total in *; rewrite tally_app; lia.
  - destruct (Forall2_lookup_l _ _ _ _ _ Ht Hi) as (o & Ho & Hgp). destruct Hgp as [Hpre Hk].
    destruct (op_accounts _ _ _ _ _ _ _ _ Hpre HR) as (A1 & A2 & A3 & A4).
    exists mo, (<[i := moved X e o x]> os ++ (initial_share <$> spawned X e)).
    split; cbn; auto;
      [apply Forall2_app; [apply Forall2_insert; [done|by apply Hk]|apply started_ok]| | |];
      unfold share_total in *; rewrite tally_app, (tally_insert _ _ _ _ _ Ho); lia.
  - exists mo, os. by split.
Qed.

Lemma shares_reachable conv cfg fuel s :
  rtc (agent_step conv cfg fuel) (agent_start cfg) s -> exists mo os, shares (slots cfg) s mo os.
Proof.
  intros Hr. cut (exists mo os, shares (slots cfg) (agent_start cfg) mo os).
  { induction Hr; [done|]. intros (mo & os & H'). eauto using shares_step. }
  exists (mkShare false false 0), []. split; cbn; try done; [apply Run_disposes|unfold slots; lia].
Qed.

(** ** Slots *)

Definition live {A} (p : prog AgE A) : bool := match p with Ret _ => false | Vis _ _ => true end.

Definition is_pod (g : Goroutine) : bool := match g with GPod _ => true | _ => false end.

(** The next operation belongs to the execution of a pod. *)
Definition next_executes (p : prog AgE unit) : bool :=
  match p with Vis e _ => executes _ e | Ret _ => false end.

(** How many goroutines are executing a pod, and how many pods' goroutines have
    not ended. *)
Definition executing (s : System) : Z :=
  tally (fun gp : Goroutine * prog AgE unit => b2z (next_executes gp.2)) (s_threads s).
Definition live_pods (s : System) : Z :=
  tally (fun gp : Goroutine * prog AgE unit => b2z (is_pod gp.1 && live gp.2)) (s_threads s).

Lemma slotZ_nonneg o : (0 <= slotZ o)%Z.
Proof. unfold slotZ. destruct (sh_slot o); cbn; lia. Qed.
Lemma wgZ_nonneg o : (0 <= wgZ o)%Z.
Proof. unfold wgZ. destruct (sh_wg o); cbn; lia. Qed.
Lemma loopZ_nonneg o : (0 <= loopZ o)%Z.
Proof. unfold loopZ. lia. Qed.
#[local] Hint Resolve slotZ_nonneg wgZ_nonneg loopZ_nonneg : agent.

Lemma executing_slot gp o : thread_ok gp o -> (b2z (next_executes gp.2) <= slotZ o)%Z.
Proof.
  unfold thread_ok, disposes, slotZ. destruct gp as [g [[]|X e k]]; cbn [snd fst next_executes].
  - intros _. destruct (sh_slot o); cbn; lia.
  - intros [(_ & He & _) _]. destruct (executes X e), (sh_slot o); cbn; try lia; by specialize (He eq_refl).
Qed.

Lemma live_pod_wg gp o : thread_ok gp o -> (b2z (is_pod gp.1 && live gp.2) <= wgZ o)%Z.
Proof.
  unfold thread_ok, disposes, wgZ. destruct gp as [g [[]|X e k]]; cbn [snd fst live].
  - intros _. rewrite andb_false_r. destruct (sh_wg o); cbn; lia.
  - intros [(He & _) _]. destruct g; cbn in *; destruct (sh_wg o); done || (cbn; lia).
Qed.

Lemma live_pods_wg cap s mo os : shares cap s mo os -> (live_pods s <= p_wg (s_proc s))%Z.
Proof.
  intros [_ Ht _ -> _ _]. unfold live_pods, share_total. pose proof (wgZ_nonneg mo).
  pose proof (tally_le_Forall2 _ wgZ _ _ _ live_pod_wg Ht). lia.
Qed.

Lemma held_counts cap s mo os i g X (e : AgE X) k (f : Share -> Z) :
  shares cap s mo os -> (forall o, 0 <= f o)%Z ->
  s_threads s !! i = Some (g, Vis e k) -> (forall o, entitled (Some g) X e o -> 0 < f o)%Z ->
  (0 < share_total f mo os)%Z.
Proof.
  intros [_ Ht _ _ _ _] Hf Hi He. destruct (Forall2_lookup_l _ _ _ _ _ Ht Hi) as (o & Ho & [Hpre _]).
  pose proof (tally_lookup_le f _ _ _ Hf Ho). specialize (He _ Hpre). specialize (Hf mo). unfold share_total. lia.
Qed.

(** C19: In every state an agent process can reach, at most [MaxConcurrentJobs]
    pods (at least one) are being executed, each by the holder of a slot of the
    semaphore; every live pod goroutine is counted by the wait group; a
    goroutine that is about to release its slot or its count never blocks; and
    once all goroutines have ended no slot and no count is left behind, on
    whatever path they ended. *)
Theorem agent_slots (conv : float64 -> Z) (cfg : Config) (fuel : nat) (s : System) :
  rtc (agent_step conv cfg fuel) (agent_start cfg) s ->
  (executing s <= p_sem (s_proc s) <= Z.max (MaxConcurrentJobs cfg) 1)%Z /\
  (live_pods s <= p_wg (s_proc s))%Z /\
  (forall i g k, s_threads s !! i = Some (g, Vis ESemRelease k) -> 0 < p_sem (s_proc s))%Z /\
  (forall i g k, s_threads s !! i = Some (g, Vis EWgDone k) -> 0 < p_wg (s_proc s))%Z /\
  (live (s_main s) = false -> Forall (fun gp => live gp.2 = false) (s_threads s) ->
     p_sem (s_proc s) = 0%Z /\ p_wg (s_proc s) = 0%Z).
Proof.
  intros Hr. destruct (shares_reachable _ _ _ _ Hr) as (mo & os & Hs).
  pose proof (live_pods_wg _ _ _ _ Hs) as Hlive. pose proof Hs as [Hm Ht Hsem Hwg _ Hcap].
  split_and!; [|exact Hcap|exact Hlive| | |].
  - rewrite Hsem. unfold executing, share_total. pose proof (slotZ_nonneg mo).
    pose proof (tally_le_Forall2 _ slotZ _ _ _ executing_slot Ht). lia.
  - intros i g k Hi. rewrite Hsem. eapply held_counts; eauto with agent.
    intros o (_ & _ & Ho). unfold slotZ. rewrite Ho. done.
  - intros i g k Hi. rewrite Hwg. eapply held_counts; eauto with agent.
    intros o (_ & _ & _ & Ho). unfold wgZ. rewrite Ho. done.
  - intros Hmain Hall. rewrite Hsem, Hwg. unfold share_total.
    destruct (s_main s) as [a|X e k]; [|discriminate]. cbn in Hm. subst mo.
    revert Hall. clear -Ht. induction Ht as [|[g p] o ts os Ho _ IH]; intros Hall; [done|].
    apply Forall_cons in Hall as [Hp Hall]. destruct p; [|discriminate]. cbn in Ho. unfold thread_ok, disposes in Ho. cbn in Ho. subst o.
    destruct (IH Hall) as [H1 H2]. cbn in *. lia.
Qed.
