(* ===== verification/AgentShutdown.v ===== *)
(** * control-plane/internal/worker: what [Run] waits for

    [Run] returns once the wait group of the pods was seen at zero and both
    loops have ended.  Once the context is done a poll that starts fails, so the
    poll loop can start at most one more pod: the one a request in flight brings
    back ([calm]).  That pod can be missed by the wait. *)

From S2P Require Import Prelude Model Agent AgentProperties.
From Stdlib Require Import ZArith Lia.
From stdpp Require Import base gmap strings list.

#[local] Arguments live_pods s : simpl never.

(** ** How many pods a goroutine can still start once the context is done *)

Definition may_spawn (g : Goroutine) X (e : AgE X) (n : nat) : Prop :=
  match e with
  | EGo (GPod _) => 0 < n
  | EGo _ | ELoopAdd _ => False
  | ECloseDrained => g = GDrain
  | _ => True
  end.

Definition spends X (e : AgE X) (n : nat) : X -> nat -> Prop :=
  match e in AgE X return X -> nat -> Prop with
  | EGo (GPod _) => fun _ n' => n' = n - 1
  | ESend req => fun x n' => n' = n /\ (rq_Ctx req = CtxAgent -> x = false)
  | _ => fun _ n' => n' = n
  end.

Definition calm {A} (g : Goroutine) (n : nat) (p : prog AgE A) : Prop :=
  gwp (may_spawn g) (fun X e n => spends X e n) p (fun _ _ => True) n.

(** At every point of [p] a cancellation leaves at most [n] pods to come. *)
Fixpoint steady {A} (g : Goroutine) (n : nat) (p : prog AgE A) : Prop :=
  calm g n p /\ match p with Ret _ => True | Vis e k => forall x, steady g n (k x) end.

Definition keeps_budget {A} (g : Goroutine) (n : nat) (p : prog AgE A) : Prop :=
  gwp (may_spawn g) (fun X e n => spends X e n) p (fun _ n' => n' = n) n.

Lemma keeps_calm {A} g n (p : prog AgE A) : keeps_budget g n p -> calm g n p.
Proof. apply gwp_mono. done. Qed.

Lemma calm_bind {A B} g n (p : prog AgE A) (f : A -> prog AgE B) :
  keeps_budget g n p -> (forall a, calm g n (f a)) -> calm g n (p ≫= f).
Proof. intros Hp Hf. eapply gwp_seq; [exact Hp|]. intros a n' ->. apply Hf. Qed.

Lemma steady_calm {A} g n (p : prog AgE A) : steady g n p -> calm g n p.
Proof. by destruct p as [|X e k]; intros []. Qed.

(** Operations that start nothing. *)
Definition plain_op X (e : AgE X) : bool :=
  match e with EGo _ | ELoopAdd _ | ECloseDrained => false | _ => true end.

Lemma plain_budget {A} g n (p : prog AgE A) : only plain_op p -> keeps_budget g n p.
Proof.
  induction p as [a|X e k IH]; [done|]. intros [He Hk]. split.
  - by destruct e.
  - intros x n' Hn. assert (n' = n) as -> by (destruct e; cbn in *; try discriminate; tauto). apply IH, Hk.
Qed.

Lemma plain_steady {A} g n (p : prog AgE A) : only plain_op p -> steady g n p.
Proof.
  induction p as [a|X e k IH]; intros Hp; (split; [by apply keeps_calm, plain_budget|]); [done|].
  intros x. apply IH, Hp.
Qed.

(** After a part that starts nothing. *)
Lemma steady_plain_bind {A B} g n (p : prog AgE A) (f : A -> prog AgE B) :
  only plain_op p -> (forall a, steady g n (f a)) -> steady g n (p ≫= f).
Proof.
  intros Hp Hf. induction p as [a|X e k IH]; [apply Hf|].
  assert (Hc : calm g n (Vis e k ≫= f)).
  { apply calm_bind; [by apply plain_budget|]. intros a. apply steady_calm, Hf. }
  split; [exact Hc|]. intros x. apply IH, Hp.
Qed.

(** Before a part that is calm whatever budget is left. *)
Lemma steady_calm_bind {A B} g n (p : prog AgE A) (f : A -> prog AgE B) :
  steady g n p -> (forall a m, calm g m (f a)) -> (forall a, steady g n (f a)) -> steady g n (p ≫= f).
Proof.
  intros Hp Hc Hf. induction p as [a|X e k IH]; [apply Hf|]. destruct Hp as [Hcp Hk].
  assert (Hcpf : calm g n (Vis e k ≫= f)) by (eapply gwp_seq; [exact Hcp|]; intros a m _; apply Hc).
  split; [exact Hcpf|]. intros x. apply IH, Hk.
Qed.

Lemma only_plain {A} (P : forall X, AgE X -> bool) (p : prog AgE A) :
  (forall X e, P X e = true -> plain_op X e = true) -> only P p -> only plain_op p.
Proof. apply only_mono. Qed.

Lemma client_plain {A} (p : prog AgE A) : only client_op p -> only plain_op p.
Proof. apply only_plain. by intros X []. Qed.

Lemma runPod_plain conv a pod : only plain_op (runPod conv a pod).
Proof. eapply only_plain, only_runPod. by intros X []. Qed.

(** A request of the agent's context fails once the context is done. *)
Lemma get_fails {A} g n a path (out : Out A) :
  gwp (may_spawn g) (fun X e n => spends X e n) (get a CtxAgent path out)
    (fun r n' => n' = n /\ exists err, r = inr err) n.
Proof.
  apply gwp_call; [done|]. intros [path'|err] n' ->; [|split; eauto]. unfold do.
  apply gwp_call; [done|]. intros sent n' [-> Hs]. rewrite (Hs eq_refl). split; eauto.
Qed.

Lemma pollOnce_budget a n : keeps_budget GPoll n (pollOnce a).
Proof.
  apply gwp_call; [done|]. intros got n' ->. destruct got; [|done]. cbn [negb].
  eapply gwp_seq; [apply get_fails|]. intros r n' [-> [err ->]]. split; [done|]. by intros x n' ->.
Qed.

Lemma pollOnce_steady a : steady GPoll 1 (pollOnce a).
Proof.
  apply (steady_plain_bind _ _ (call ESemTry)); [done|]. intros [|]; cbn [negb]; [|split; done].
  apply steady_plain_bind; [apply client_plain, only_get|].
  intros [[pod|]|]; [|by apply plain_steady..].
  repeat (apply (steady_plain_bind _ _ (call _)); [done|]; intros ?). repeat split; cbn; lia.
Qed.

Lemma tick_loop_budget g n fuel step : keeps_budget g n step -> keeps_budget g n (tick_loop fuel step).
Proof.
  intros Hs. induction fuel as [|fuel IH].
  - split; [done|]. intros [].
  - split; [done|]. intros x n' ->. destruct x; [|done]. cbn. apply gwp_bind.
    eapply gwp_mono; [|exact Hs]. by intros _ m ->.
Qed.

Lemma tick_loop_steady g n fuel step :
  (forall m, keeps_budget g m step) -> steady g n step -> steady g n (tick_loop fuel step).
Proof.
  intros Hb Hs. induction fuel as [|fuel IH]; [by apply plain_steady|].
  apply (steady_plain_bind _ _ (call ETick)); [done|]. intros [|]; [|by split].
  apply steady_calm_bind; [done| |done]. intros _ m. by apply keeps_calm, tick_loop_budget.
Qed.

(** The pods goroutine [g] can still start when the context gets done. *)
Definition allowance (g : Goroutine) : nat := match g with GPoll => 1 | _ => 0 end.

Lemma with_ticker_cases d p : with_ticker d p = p \/ with_ticker d p = (_ ← call EPanic; Ret tt).
Proof. unfold with_ticker. case_one; auto. Qed.

Lemma goroutine_budget conv a fuel g : calm g 0 (goroutine conv a fuel g).
Proof.
  destruct g; cbn [goroutine].
  - apply calm_bind; [|done]. unfold heartbeatLoop. destruct (with_ticker_cases (HeartbeatInterval (a_cfg a)) (tick_loop fuel (sendHeartbeat a))) as [-> | ->].
    + apply tick_loop_budget, plain_budget, client_plain, only_heartbeat.
    + split; [done|intros []].
  - apply calm_bind; [|done]. unfold pollLoop. destruct (with_ticker_cases (PollInterval (a_cfg a)) (tick_loop fuel (pollOnce a))) as [-> | ->].
    + apply tick_loop_budget, pollOnce_budget.
    + split; [done|intros []].
  - repeat split; intros; done.
  - apply keeps_calm, plain_budget, only_bind; [apply runPod_plain|]. by repeat split.
Qed.

Lemma goroutine_steady conv a fuel g : steady g (allowance g) (goroutine conv a fuel g).
Proof.
  destruct g; cbn [goroutine allowance].
  - unfold heartbeatLoop. destruct (with_ticker_cases (HeartbeatInterval (a_cfg a)) (tick_loop fuel (sendHeartbeat a))) as [-> | ->].
    + apply steady_calm_bind; [|by repeat split..].
      apply tick_loop_steady; [intros m; apply plain_budget|apply plain_steady]; apply client_plain, only_heartbeat.
    + by apply plain_steady.
  - unfold pollLoop. destruct (with_ticker_cases (PollInterval (a_cfg a)) (tick_loop fuel (pollOnce a))) as [-> | ->].
    + apply steady_calm_bind; [|by repeat split..].
      apply tick_loop_steady; [intros m; apply pollOnce_budget|apply pollOnce_steady].
    + by apply plain_steady.
  - repeat split; intros; done.
  - apply plain_steady, only_bind; [apply runPod_plain|]. by repeat split.
Qed.

(** ** How far [Run] is *)

Record Phase := mkPhase { ph_polls : nat; ph_done : bool; ph_drained : bool; ph_waited : bool }.

Definition main_may X (e : AgE X) (ph : Phase) : Prop :=
  match e with
  | EGo GPoll => 0 < ph_polls ph
  | EGo GDrain => ph_done ph = true
  | EGo (GPod _) | ECloseDrained => False
  | ELoopAdd _ => ph_waited ph = false
  | _ => True
  end.

Definition advanced X (e : AgE X) (ph : Phase) : X -> Phase :=
  match e in AgE X return X -> Phase with
  | EGo GPoll => fun _ => mkPhase (ph_polls ph - 1) (ph_done ph) (ph_drained ph) (ph_waited ph)
  | ECtxDone => fun _ => mkPhase (ph_polls ph) true (ph_drained ph) (ph_waited ph)
  | EDrainedOrTimeout => fun x => mkPhase (ph_polls ph) (ph_done ph) (ph_drained ph || x) (ph_waited ph)
  | EDrained => fun _ => mkPhase (ph_polls ph) (ph_done ph) true (ph_waited ph)
  | ELoopWait => fun _ => mkPhase (ph_polls ph) (ph_done ph) (ph_drained ph) true
  | _ => fun _ => ph
  end.

Definition finished (r : option string) (ph : Phase) : Prop :=
  r = None -> ph_done ph = true /\ ph_drained ph = true /\ ph_waited ph = true.

Definition on_course (p : prog AgE (option string)) (ph : Phase) : Prop :=
  gwp main_may (fun X e ph x ph' => ph' = advanced X e ph x) p finished ph.

Lemma register_phase cfg ph :
  gwp main_may (fun X e ph x ph' => ph' = advanced X e ph x) (register cfg) (fun _ ph' => ph' = ph) ph.
Proof.
  cut (forall A (p : prog AgE A), only main_op p ->
    gwp main_may (fun X e ph x ph' => ph' = advanced X e ph x) p (fun _ ph' => ph' = ph) ph).
  { intros H. apply H, only_register. }
  intros A p. induction p as [a|X e k IH]; [done|]. intros [He Hk]. split; [by destruct e|].
  intros x ph' ->. replace (advanced X e ph x) with ph by (by destruct e). apply IH, Hk.
Qed.

Lemma Run_on_course cfg : on_course (Run cfg) (mkPhase 1 false false false).
Proof.
  unfold Run. eapply gwp_seq; [apply register_phase|]. intros r ph ->. destruct r; [done|].
  unfold run_registered.
  do 6 (apply gwp_call; [cbn; done || lia|]; intros ? ? ->; cbn [advanced ph_polls ph_done ph_drained ph_waited orb]).
  match goal with b : bool |- _ => destruct b end;
    repeat (apply gwp_call; [done|]; intros ? ? ->); by cbn.
Qed.

(** ** The invariant *)

Definition is_poll (g : Goroutine) : bool := match g with GPoll => true | _ => false end.

Definition polls (ts : list (Goroutine * prog AgE unit)) : Z :=
  tally (fun gp => b2z (is_poll gp.1)) ts.
#[local] Arguments polls ts : simpl never.

Definition at_wait (p : prog AgE unit) : bool := match p with Vis EWgWait _ => true | _ => false end.

(** The wait group was seen at zero. *)
Definition seen_empty (s : System) : Prop :=
  p_drained (s_proc s) = true \/
  exists gp, gp ∈ s_threads s /\ gp.1 = GDrain /\ at_wait gp.2 = false.

Record draining (s : System) (ph : Phase) (bs : list nat) : Prop := {
  dr_main : on_course (s_main s) ph;
  dr_polls : (polls (s_threads s) + Z.of_nat (ph_polls ph) <= 1)%Z;
  dr_done : ph_done ph = true -> p_done (s_proc s) = true;
  dr_drained : ph_drained ph = true -> p_drained (s_proc s) = true;
  dr_waited : ph_waited ph = true -> p_loops (s_proc s) = 0%Z;
  dr_steady : Forall (fun gp => steady gp.1 (allowance gp.1) gp.2) (s_threads s);
  dr_begin : p_done (s_proc s) = false -> p_drained (s_proc s) = false /\
    Forall (fun gp => gp.1 <> GDrain) (s_threads s);
  dr_calm : p_done (s_proc s) = true ->
    Forall2 (fun gp n => calm gp.1 n gp.2) (s_threads s) bs /\ (tally Z.of_nat bs <= 1)%Z /\
    (seen_empty s -> (live_pods s + tally Z.of_nat bs <= 1)%Z) }.

Definition closes X (e : AgE X) : bool := match e with ECloseDrained => true | _ => false end.
Definition adds_loops X (e : AgE X) : bool := match e with ELoopAdd _ => true | _ => false end.

Lemma rel_flags cap X (e : AgE X) p x p' :
  agent_rel cap X e p x p' ->
  p_done p' = p_done p /\
  (p_drained p = true -> p_drained p' = true) /\
  (p_drained p' = true -> p_drained p = true \/ closes X e = true) /\
  (p_loops p = 0%Z -> p_loops p' = 0%Z \/ adds_loops X e = true).
Proof.
  destruct e; cbn; intros HR; split_and_all; subst; cbn; split_and!; auto; try lia; eauto.
  all: try (by destruct (p_sem p <? cap)%Z; auto).
Qed.

Lemma rel_spends cap X (e : AgE X) p x p' n :
  agent_rel cap X e p x p' -> p_done p = true ->
  spends X e n x (match e with EGo (GPod _) => n - 1 | _ => n end).
Proof.
  intros HR Hd. destruct e; cbn; try done.
  - by destruct g.
  - split; [done|]. intros Hc. cbn in HR. rewrite Hc, Hd in HR. tauto.
Qed.

Lemma phase_flags cap X (e : AgE X) p x p' ph :
  agent_rel cap X e p x p' -> main_may X e ph ->
  (ph_done (advanced X e ph x) = true -> ph_done ph = true \/ p_done p = true) /\
  (ph_drained (advanced X e ph x) = true -> ph_drained ph = true \/ p_drained p = true) /\
  (ph_waited (advanced X e ph x) = true -> p_loops p' = 0%Z \/
     ph_waited ph = true /\ adds_loops X e = false) /\
  (Z.of_nat (ph_polls (advanced X e ph x)) + tally (fun g => b2z (is_poll g)) (spawned X e)
     <= Z.of_nat (ph_polls ph))%Z.
Proof.
  intros HR Hm; destruct e; try destruct g; cbn in HR, Hm |- *; split_and_all; subst; cbn;
    split_and!; try tauto; try lia; try (intros; congruence).
  destruct x, (ph_drained ph); cbn; tauto.
Qed.

(** *** Goroutines that were just started *)

Section Started.
Context (conv : float64 -> Z) (cfg : Config) (fuel : nat) (id : string).
Local Abbreviation new gs := (start_all conv cfg fuel id gs).

Lemma started_steady gs : Forall (fun gp => steady gp.1 (allowance gp.1) gp.2) (new gs).
Proof. induction gs; constructor; [apply goroutine_steady|done]. Qed.

Lemma started_calm gs : Forall2 (fun gp n => calm gp.1 n gp.2) (new gs) ((fun _ => 0) <$> gs).
Proof. induction gs; constructor; [apply goroutine_budget|done]. Qed.

Lemma started_zero (gs : list Goroutine) : tally Z.of_nat ((fun _ => 0) <$> gs) = 0%Z.
Proof. induction gs; cbn; lia. Qed.

Lemma started_polls gs : polls (new gs) = tally (fun g => b2z (is_poll g)) gs.
Proof. induction gs as [|g gs IH]; [done|]. unfold polls in *. cbn. f_equal. exact IH. Qed.

Lemma started_waits gs gp : gp ∈ new gs -> gp.1 = GDrain -> at_wait gp.2 = true.
Proof.
  unfold start_all. rewrite list_elem_of_fmap. intros (g & -> & _) Hg. cbn in *. by subst g.
Qed.

Lemma started_drain gs : Forall (fun gp => gp.1 <> GDrain) (new gs) <-> Forall (fun g => g <> GDrain) gs.
Proof. unfold start_all. by rewrite Forall_fmap. Qed.
End Started.

Lemma live_pods_app main main' ts ts' p p' :
  live_pods (mkSystem main (ts ++ ts') p) =
    (live_pods (mkSystem main' ts p') + tally (fun gp => b2z (is_pod gp.1 && live gp.2)) ts')%Z.
Proof. unfold live_pods. cbn. by rewrite tally_app. Qed.

Lemma started_live_le conv cfg fuel id gs :
  (tally (fun gp : Goroutine * prog AgE unit => b2z (is_pod gp.1 && live gp.2)) (start_all conv cfg fuel id gs)
    <= tally (fun g => b2z (is_pod g)) gs)%Z.
Proof.
  unfold start_all. induction gs as [|g gs IH]; [done|]. rewrite fmap_cons. cbn [tally fst snd].
  destruct (is_pod g), (live (goroutine conv (mkAgent cfg id) fuel g)); cbn [andb b2z]; lia.
Qed.

(** A step of the goroutine that called [Run]. *)
Lemma draining_main conv cfg fuel X (e : AgE X) k x ts p p' ph bs :
  agent_rel (slots cfg) X e p x p' -> draining (mkSystem (Vis e k) ts p) ph bs ->
  exists ph' bs', draining (mkSystem (k x) (ts ++ start_all conv cfg fuel (p_id p) (spawned X e)) p') ph' bs'.
Proof.
  intros HR [[Hmay Hk] Hpo Hd Hdr Hw Hst Hb Hc]; cbn in *.
  destruct (rel_flags _ _ _ _ _ _ HR) as (F1 & F2 & F3 & F4).
  destruct (phase_flags _ _ _ _ _ _ _ HR Hmay) as (P1 & P2 & P3 & P4).
  assert (Hnc : closes X e = false) by (by destruct e).
  assert (Hnp : tally (fun g => b2z (is_pod g)) (spawned X e) = 0%Z) by (destruct e; try destruct g; done).
  exists (advanced X e ph x), (bs ++ ((fun _ => 0) <$> spawned X e)). split; cbn.
  - by apply Hk.
  - unfold polls in *. rewrite tally_app. fold (polls (start_all conv cfg fuel (p_id p) (spawned X e))).
    rewrite started_polls. lia.
  - rewrite F1. intros H. destruct (P1 H); auto.
  - intros H. apply F2. destruct (P2 H); auto.
  - intros H. destruct (P3 H) as [?|[Hw' Ha]]; [done|]. destruct (F4 (Hw Hw')); [done|congruence].
  - apply Forall_app. split; [done|apply started_steady].
  - rewrite F1. intros Hf. destruct (Hb Hf) as [B1 B2]. split.
    + destruct (p_drained p'); [|done]. destruct (F3 eq_refl); congruence.
    + apply Forall_app. split; [done|]. apply started_drain. destruct e; try constructor; try done.
      intros ->. cbn in Hmay. rewrite (Hd Hmay) in Hf. discriminate.
  - rewrite F1. intros Ht. destruct (Hc Ht) as (C1 & C2 & C3). split_and!.
    + apply Forall2_app; [done|apply started_calm].
    + rewrite tally_app, started_zero. lia.
    + intros Hs. rewrite tally_app, started_zero, (live_pods_app _ (Vis e k) _ _ _ p).
      pose proof (started_live_le conv cfg fuel (p_id p) (spawned X e)).
      cut (seen_empty (mkSystem (Vis e k) ts p)); [intros Hse; specialize (C3 Hse); lia|].
      destruct Hs as [Hs|(gp & Hgp & Hg & Hn)]; cbn in *.
      * left. destruct (F3 Hs); [done|congruence].
      * apply elem_of_app in Hgp as [Hgp|Hgp]; [right; eauto|].
        apply started_waits in Hgp; [congruence|done].
Qed.

(** The wait group is seen at zero only when it is. *)
Lemma seen_empty_thread conv cfg fuel i g X (e : AgE X) k x main main' ts p p' :
  ts !! i = Some (g, Vis e k) -> agent_rel (slots cfg) X e p x p' ->
  (closes X e = true -> g = GDrain) ->
  seen_empty (mkSystem main' (<[i := (g, k x)]> ts ++ start_all conv cfg fuel (p_id p) (spawned X e)) p') ->
  seen_empty (mkSystem main ts p) \/ p_wg p = 0%Z.
Proof.
  intros Hi HR Hgd. destruct (rel_flags _ _ _ _ _ _ HR) as (_ & _ & F3 & _).
  assert (Hin : (g, Vis e k) ∈ ts) by (by eapply list_elem_of_lookup_2).
  intros [Hs|(gp & Hgp & Hg & Hat)]; cbn in *.
  - destruct (F3 Hs) as [?|Hcl]; [by left; left|]. left. right. exists (g, Vis e k).
    split_and!; [done|auto|]. by destruct e.
  - apply elem_of_app in Hgp as [Hgp|Hgp]; [|apply started_waits in Hgp; [congruence|done]].
    apply list_elem_of_lookup in Hgp as [j Hj]. destruct (decide (i = j)) as [<-|Hne].
    + rewrite list_lookup_insert_eq in Hj by (by eapply lookup_lt_Some). simplify_eq. cbn in *. subst g.
      destruct (at_wait (Vis e k)) eqn:Hw0; [right; destruct e; try discriminate; apply HR|].
      left. right. by exists (GDrain, Vis e k).
    + rewrite list_lookup_insert_ne in Hj by done. left. right. exists gp.
      split; [by eapply list_elem_of_lookup_2|done].
Qed.

(** A step of another goroutine; [Hwg]: the wait group counts the live pods. *)
Lemma draining_thread conv cfg fuel i g X (e : AgE X) k x main ts p p' ph bs :
  ts !! i = Some (g, Vis e k) -> agent_rel (slots cfg) X e p x p' ->
  (live_pods (mkSystem main ts p) <= p_wg p)%Z ->
  draining (mkSystem main ts p) ph bs ->
  exists ph' bs', draining (mkSystem main
    (<[i := (g, k x)]> ts ++ start_all conv cfg fuel (p_id p) (spawned X e)) p') ph' bs'.
Proof.
  intros Hi HR Hwg [Hmain Hpo Hd Hdr Hw Hst Hb Hc]; cbn in *.
  destruct (rel_flags _ _ _ _ _ _ HR) as (F1 & F2 & F3 & F4).
  pose proof (Forall_lookup_1 _ _ _ _ Hst Hi) as [[Hmay _] Hsk]. cbn [fst snd] in *.
  assert (Hna : adds_loops X e = false) by (by destruct e).
  assert (Hgd : closes X e = true -> g = GDrain) by (by destruct e).
  assert (Hsp : tally (fun g => b2z (is_poll g)) (spawned X e) = 0%Z /\ Forall (fun g => g <> GDrain) (spawned X e)).
  { destruct e as [| | | | | | | | |g0| | | | | | | | | | | | | | | | | | | | | | | |]; try (split; [done|constructor]).
    destruct g0; cbn in Hmay; try done. split; [done|]. by repeat constructor. }
  destruct Hsp as [Hsp Hsd].
  set (spend n := match e with EGo (GPod _) => n - 1 | _ => n end).
  exists ph, ((if bs !! i is Some n then <[i := spend n]> bs else bs) ++ ((fun _ => 0) <$> spawned X e)).
  split; cbn; auto.
  - unfold polls in *. rewrite tally_app, (tally_insert _ _ _ _ _ Hi).
    fold (polls (start_all conv cfg fuel (p_id p) (spawned X e))). rewrite started_polls. cbn. lia.
  - rewrite F1. auto.
  - intros H. destruct (F4 (Hw H)); [done|congruence].
  - apply Forall_app. split; [|apply started_steady]. apply Forall_insert; [done|apply Hsk].
  - rewrite F1. intros Hf. destruct (Hb Hf) as [B1 B2]. split.
    + destruct (p_drained p'); [|done]. destruct (F3 eq_refl) as [?|Hcl]; [congruence|].
      by destruct (Forall_lookup_1 _ _ _ _ B2 Hi (Hgd Hcl)).
    + apply Forall_app. split; [|by apply started_drain]. apply Forall_insert; [done|].
      exact (Forall_lookup_1 _ _ _ _ B2 Hi).
  - rewrite F1. intros Ht. destruct (Hc Ht) as (C1 & C2 & C3).
    destruct (Forall2_lookup_l _ _ _ _ _ C1 Hi) as (n & Hn & [Hmn Hkn]). rewrite Hn. cbn in Hmn, Hkn.
    pose proof (rel_spends _ _ _ _ _ _ n HR Ht) as Hspend. fold (spend n) in Hspend.
    assert (Hbal : (tally (fun g => b2z (is_pod g)) (spawned X e) + Z.of_nat (spend n) <= Z.of_nat n)%Z).
    { subst spend. destruct e; cbn; try lia. destruct g0; cbn in *; lia. }
    assert (Hle : (Z.of_nat (spend n) <= Z.of_nat n)%Z) by (subst spend; destruct e; try destruct g0; lia).
    rewrite tally_app, started_zero, (tally_insert _ _ _ _ _ Hn). split_and!; [|lia|].
    + apply Forall2_app; [|apply started_calm]. apply Forall2_insert; [done|]. cbn. by apply Hkn.
    + intros Hs. rewrite (live_pods_app _ main _ _ _ p).
      pose proof (started_live_le conv cfg fuel (p_id p) (spawned X e)).
      assert (Hlv : (live_pods (mkSystem main (<[i:=(g, k x)]> ts) p) <= live_pods (mkSystem main ts p))%Z).
      { unfold live_pods. cbn. rewrite (tally_insert _ _ _ _ _ Hi). cbn. destruct (is_pod g), (live (k x)); cbn; lia. }
      cut (live_pods (mkSystem main ts p) + tally Z.of_nat bs <= 1)%Z; [lia|].
      assert (Hcase : seen_empty (mkSystem main ts p) \/ p_wg p = 0%Z) by (eapply seen_empty_thread; eauto).
      destruct Hcase as [Hse|Hz]; [by apply C3|]. lia.
Qed.

Lemma draining_step conv cfg fuel s s' mo os ph bs :
  agent_step conv cfg fuel s s' -> shares (slots cfg) s mo os -> draining s ph bs ->
  exists ph' bs', draining s' ph' bs'.
Proof.
  intros Hs Hsh Hdr; inversion Hs as [X e k x ts p p' HR|i g X e k x m ts p p' Hi HR|m ts p]; subst.
  - by eapply draining_main.
  - eapply draining_thread; eauto. by apply (live_pods_wg _ _ _ _ Hsh).
  - destruct (p_done p) eqn:Hp.
    { exists ph, bs. destruct Hdr. split; cbn in *; auto. rewrite Hp in *. auto. }
    exists ph, ((fun gp => allowance gp.1) <$> ts). destruct Hdr as [? Hpo Hd Hdr' Hw Hst Hb _]; cbn in *.
    destruct (Hb Hp) as [B1 B2]. split; cbn; auto. intros _.
    assert (Hsum : (tally Z.of_nat ((fun gp : Goroutine * prog AgE unit => allowance gp.1) <$> ts) <= 1)%Z).
    { cut (tally Z.of_nat ((fun gp : Goroutine * prog AgE unit => allowance gp.1) <$> ts) = polls ts); [lia|].
      unfold polls. clear. induction ts as [|[[] q] ts IH]; cbn in *; lia. }
    split_and!; [|done|].
    + clear -Hst. induction Hst as [|gp ts Hgp _ IH]; constructor; [by apply steady_calm|done].
    + intros [Hs'|(gp & Hgp & Hg & _)]; cbn in *; [congruence|].
      rewrite Forall_forall in B2. by destruct (B2 _ Hgp).
Qed.

Lemma draining_reachable conv cfg fuel s :
  rtc (agent_step conv cfg fuel) (agent_start cfg) s -> exists ph bs, draining s ph bs.
Proof.
  revert s. apply (rtc_ind_r (fun s => exists ph bs, draining s ph bs)).
  - exists (mkPhase 1 false false false), []. split; cbn; try done. apply Run_on_course.
  - intros s1 s2 H1 H12 (ph & bs & Hd).
    destruct (shares_reachable _ _ _ _ H1) as (mo & os & Hs). by eapply draining_step.
Qed.

Lemma loop_live_share gp o :
  thread_ok gp o -> sh_loop o = 0 -> gp.1 = GHeartbeat \/ gp.1 = GPoll -> live gp.2 = false.
Proof.
  destruct gp as [g [[]|X e k]]; [done|]. intros [(Hl & _) _] H0 Hg. cbn in *.
  destruct Hg; subst; congruence.
Qed.

(** When [Run] returns after a signal, both ticker loops have ended, every
    pod goroutine that was counted when the wait group was seen at zero has
    ended, and at most one pod's goroutine is still alive: the one the poll
    request in flight at the signal brought back. *)
Theorem Run_drains (conv : float64 -> Z) (cfg : Config) (fuel : nat) (s : System) :
  rtc (agent_step conv cfg fuel) (agent_start cfg) s -> s_main s = Ret None ->
  p_done (s_proc s) = true /\ p_drained (s_proc s) = true /\
  Forall (fun gp => gp.1 = GHeartbeat \/ gp.1 = GPoll -> live gp.2 = false) (s_threads s) /\
  (live_pods s <= 1)%Z.
Proof.
  intros Hr Hm. destruct (draining_reachable _ _ _ _ Hr) as (ph & bs & [Hmain _ Hd Hdr Hw _ _ Hc]).
  destruct (shares_reachable _ _ _ _ Hr) as (mo & os & [_ Ht _ _ Hl _]).
  rewrite Hm in Hmain. destruct (Hmain eq_refl) as (H1 & H2 & H3).
  split_and!; [auto|auto| |].
  - rewrite (Hw H3) in Hl. apply Forall_lookup. intros i gp Hi.
    destruct (Forall2_lookup_l _ _ _ _ _ Ht Hi) as (o & Ho & Hok).
    apply (loop_live_share _ _ Hok). pose proof (tally_lookup_le loopZ _ _ _ loopZ_nonneg Ho).
    pose proof (loopZ_nonneg mo). unfold share_total in Hl. unfold loopZ in *. lia.
  - destruct (Hc (Hd H1)) as (_ & _ & C3). specialize (C3 (or_introl (Hdr H2))).
    pose proof (tally_nonneg Z.of_nat bs ltac:(lia)). lia.
Qed.
