(* ===== verification/Http.v ===== *)
(** * URLs: query strings and ServeMux patterns

    What the servers and the command-line clients use of net/url and net/http:
    [url.QueryEscape], [url.QueryUnescape], [url.Values.Encode],
    [url.ParseQuery], and the Go 1.22 patterns of [http.ServeMux].  The results
    are the round trips the clients rely on: what is encoded into a query is
    what the server reads from it, and a path built from a well-formed ID gives
    the ID back as its wildcard. *)

From S2P Require Import Prelude GoText.
From Stdlib Require Import ZArith Lia Ascii.
From stdpp Require Import base gmap strings list sorting.

(** ** Splitting strings *)

(** [strings.Cut(s, c)] for a one-byte separator. *)
Fixpoint cut_at (c : ascii) (s : string) : string * string * bool :=
  match s with
  | EmptyString => (EmptyString, EmptyString, false)
  | String ch rest =>
      if Ascii.eqb ch c then (EmptyString, rest, true)
      else let '(before, after, ok) := cut_at c rest in (String ch before, after, ok)
  end.

(** [strings.HasPrefix] and [strings.TrimPrefix] in one. *)
Fixpoint trim_prefix (prefix s : string) : option string :=
  match prefix, s with
  | EmptyString, _ => Some s
  | String a prefix, String b s => if Ascii.eqb a b then trim_prefix prefix s else None
  | String _ _, EmptyString => None
  end.

(** The pieces of [s] between the separators. *)
Fixpoint split_at (c : ascii) (s : string) : list string :=
  match s with
  | EmptyString => [EmptyString]
  | String ch rest =>
      if Ascii.eqb ch c then EmptyString :: split_at c rest
      else match split_at c rest with
           | [] => [String ch EmptyString]
           | piece :: pieces => String ch piece :: pieces
           end
  end.

(** [strings.Join] *)
Fixpoint join_with (c : ascii) (pieces : list string) : string :=
  match pieces with
  | [] => EmptyString
  | [p] => p
  | p :: pieces => p +:+ String c (join_with c pieces)
  end.

Fixpoint has_char (c : ascii) (s : string) : bool :=
  match s with EmptyString => false | String ch rest => Ascii.eqb ch c || has_char c rest end.

Lemma has_char_app c s t : has_char c (s +:+ t) = has_char c s || has_char c t.
Proof. induction s as [|ch s IH]; [done|]. simpl. by rewrite IH, orb_assoc. Qed.

Lemma app_empty_r (s : string) : s +:+ EmptyString = s.
Proof. induction s as [|c s IH]; [done|]. exact (f_equal (String c) IH). Qed.

Lemma app_assoc_str (s t u : string) : (s +:+ t) +:+ u = s +:+ (t +:+ u).
Proof. induction s as [|c s IH]; [done|]. exact (f_equal (String c) IH). Qed.

Lemma trim_prefix_app s t : trim_prefix s (s +:+ t) = Some t.
Proof. induction s as [|c s IH]; [done|]. simpl. by rewrite Ascii.eqb_refl. Qed.

Lemma cut_at_app c s t : has_char c s = false -> cut_at c (s +:+ String c t) = (s, t, true).
Proof.
  induction s as [|ch s IH]; simpl; intros H; [by rewrite Ascii.eqb_refl|].
  apply orb_false_iff in H as [Hc Hs]. by rewrite Hc, IH.
Qed.

Lemma cut_at_none c s : has_char c s = false -> cut_at c s = (s, EmptyString, false).
Proof.
  induction s as [|ch s IH]; simpl; intros H; [done|].
  apply orb_false_iff in H as [Hc Hs]. by rewrite Hc, IH.
Qed.

Lemma split_at_piece c s : has_char c s = false -> split_at c s = [s].
Proof.
  induction s as [|ch s IH]; simpl; intros H; [done|].
  apply orb_false_iff in H as [Hc Hs]. by rewrite Hc, IH.
Qed.

Lemma split_at_app c s t : has_char c s = false -> split_at c (s +:+ String c t) = s :: split_at c t.
Proof.
  induction s as [|ch s IH]; simpl; intros H; [by rewrite Ascii.eqb_refl|].
  apply orb_false_iff in H as [Hc Hs]. by rewrite Hc, IH.
Qed.

Lemma split_join c pieces :
  Forall (fun p => has_char c p = false) pieces -> pieces <> [] ->
  split_at c (join_with c pieces) = pieces.
Proof.
  induction 1 as [|p pieces Hp Hps IH]; [done|]. intros _. destruct pieces as [|q pieces].
  - by apply split_at_piece.
  - cbn [join_with]. rewrite split_at_app by done. f_equal. by apply IH.
Qed.

(** ** Percent encoding *)

Definition is_alnum (n : Z) : bool :=
  ((48 <=? n) && (n <=? 57) || (65 <=? n) && (n <=? 90) || (97 <=? n) && (n <=? 122))%Z.

(** The unreserved characters: letters, digits, [-], [_], [.] and [~]. *)
Definition unreserved (c : ascii) : bool :=
  is_alnum (code c) || bool_decide (code c ∈ [45; 95; 46; 126]%Z).

(** A digit of ["0123456789ABCDEF"]. *)
Definition upper_hex (n : Z) : ascii := of_code (if (n <? 10)%Z then 48 + n else 55 + n)%Z.

Definition unhex (c : ascii) : option Z :=
  let n := code c in
  if ((48 <=? n) && (n <=? 57))%Z then Some (n - 48)%Z
  else if ((65 <=? n) && (n <=? 70))%Z then Some (n - 55)%Z
  else if ((97 <=? n) && (n <=? 102))%Z then Some (n - 87)%Z
  else None.

Definition escape_char (c : ascii) : string :=
  if unreserved c then String c EmptyString
  else if Ascii.eqb c " " then "+"
  else String "%" (String (upper_hex (code c / 16)) (String (upper_hex (code c mod 16)) EmptyString)).

Fixpoint QueryEscape (s : string) : string :=
  match s with EmptyString => EmptyString | String c rest => escape_char c +:+ QueryEscape rest end.

(** [unescape]: [plus] decodes [+] as a space, as in a query. *)
Fixpoint unescape (plus : bool) (s : string) : option string :=
  match s with
  | EmptyString => Some EmptyString
  | String c rest =>
      if Ascii.eqb c "%" then
        match rest with
        | String a (String b rest') =>
            match unhex a, unhex b with
            | Some x, Some y => String (of_code (16 * x + y)) <$> unescape plus rest'
            | _, _ => None
            end
        | _ => None
        end
      else String (if plus && Ascii.eqb c "+" then " "%char else c) <$> unescape plus rest
  end.

Definition QueryUnescape : string -> option string := unescape true.
Definition PathUnescape : string -> option string := unescape false.

(** Every character decodes to itself, by inspection of all 256. *)
Definition all_chars : list ascii := (fun n => ascii_of_nat n) <$> seq 0 256.

Lemma all_chars_complete c : c ∈ all_chars.
Proof.
  unfold all_chars. rewrite list_elem_of_fmap. exists (nat_of_ascii c).
  split; [by rewrite ascii_nat_embedding|]. rewrite elem_of_seq. pose proof (nat_ascii_bounded c). lia.
Qed.

Lemma every_char (f : ascii -> bool) : forallb f all_chars = true -> forall c, f c = true.
Proof.
  intros H c. rewrite forallb_forall in H. apply H, list_elem_of_In, all_chars_complete.
Qed.

Lemma escape_char_ok c rest :
  unescape true (escape_char c +:+ rest) = String c <$> unescape true rest.
Proof.
  unfold escape_char. destruct (unreserved c) eqn:Hu.
  { assert (Hc : Ascii.eqb c "%" = false /\ Ascii.eqb c "+" = false).
    { split; apply Ascii.eqb_neq; intros ->; vm_compute in Hu; discriminate. }
    destruct Hc as [H1 H2]. change (String c "" +:+ rest) with (String c rest).
    cbn [unescape]. by rewrite H1, H2. }
  destruct (Ascii.eqb_spec c " ") as [->|Hsp]; [done|].
  change (match unhex (upper_hex (code c / 16)), unhex (upper_hex (code c mod 16)) with
          | Some x, Some y => String (of_code (16 * x + y)) <$> unescape true rest
          | _, _ => None
          end = String c <$> unescape true rest).
  pose proof (every_char (fun c => match unhex (upper_hex (code c / 16)), unhex (upper_hex (code c mod 16)) with
    | Some x, Some y => Ascii.eqb (of_code (16 * x + y)) c | _, _ => false end)
    ltac:(by vm_compute) c) as Hc. cbv beta in Hc.
  destruct (unhex _) as [x|]; [|done]. destruct (unhex _) as [y|]; [|done].
  apply Ascii.eqb_eq in Hc. by rewrite Hc.
Qed.

Lemma QueryUnescape_escape s : QueryUnescape (QueryEscape s) = Some s.
Proof.
  induction s as [|c s IH]; [done|]. cbn [QueryEscape]. unfold QueryUnescape in *.
  rewrite escape_char_ok, IH. done.
Qed.

(** The escaped text has none of the separators of a query. *)
Lemma escape_char_safe d c :
  d ∈ ["&"; "="; ";"; "#"; "?"; "/"]%char -> has_char d (escape_char c) = false.
Proof.
  intros Hd. pose proof (every_char (fun c => forallb (fun d => negb (has_char d (escape_char c)))
    ["&"; "="; ";"; "#"; "?"; "/"]%char) ltac:(by vm_compute) c) as Hc. cbv beta in Hc.
  rewrite forallb_forall in Hc. by apply negb_true_iff, Hc, list_elem_of_In.
Qed.

Lemma QueryEscape_safe d s :
  d ∈ ["&"; "="; ";"; "#"; "?"; "/"]%char -> has_char d (QueryEscape s) = false.
Proof.
  intros Hd. induction s as [|c s IH]; [done|]. cbn [QueryEscape].
  by rewrite has_char_app, escape_char_safe, IH.
Qed.

(** ** url.Values *)

Abbreviation Values := (gmap string (list string)) (only parsing).

Definition Values_Get (v : Values) (k : string) : string :=
  match v !! k with Some (x :: _) => x | _ => EmptyString end.
Definition Values_All (v : Values) (k : string) : list string := default [] (v !! k).
Definition Values_Set (k x : string) (v : Values) : Values := <[k := [x]]> v.
Definition Values_Add (k x : string) (v : Values) : Values := <[k := Values_All v k ++ [x]]> v.

(** [key=value] as [Encode] writes it. *)
Definition encode_pair (kv : string * string) : string :=
  QueryEscape kv.1 +:+ String "=" (QueryEscape kv.2).

Definition pairs_of (k : string) (vs : list string) : list (string * string) := (fun x => (k, x)) <$> vs.

(** [Values.Encode]: by key in increasing order, the values of a key in turn. *)
Definition encode_pairs (v : Values) (keys : list string) : list (string * string) :=
  keys ≫= (fun k => pairs_of k (Values_All v k)).

Definition Encode `{SliceSort} (v : Values) : string :=
  join_with "&" (encode_pair <$> encode_pairs v (sort_slice String.ltb (map_to_list v).*1)).

(** One piece of [ParseQuery]; an invalid piece is skipped (the error it also
    returns is dropped by [URL.Query]). *)
Definition parse_piece (piece : string) (v : Values) : Values :=
  if has_char ";" piece || String.eqb piece EmptyString then v
  else
    let '(key, value, _) := cut_at "=" piece in
    match QueryUnescape key, QueryUnescape value with
    | Some key, Some value => Values_Add key value v
    | _, _ => v
    end.

Definition ParseQuery (query : string) : Values :=
  foldl (fun v piece => parse_piece piece v) ∅ (split_at "&" query).

Lemma parse_encoded_pair k x v : parse_piece (encode_pair (k, x)) v = Values_Add k x v.
Proof.
  unfold parse_piece, encode_pair. cbn [fst snd].
  rewrite has_char_app. cbn [has_char].
  rewrite !(QueryEscape_safe ";") by set_solver. cbn [orb].
  replace (String.eqb (QueryEscape k +:+ String "=" (QueryEscape x)) EmptyString) with false
    by (by destruct (QueryEscape k)).
  rewrite cut_at_app by (apply QueryEscape_safe; set_solver).
  by rewrite !QueryUnescape_escape.
Qed.

Lemma parse_encoded_pairs kvs v :
  foldl (fun v piece => parse_piece piece v) v (encode_pair <$> kvs) =
  foldl (fun v kv => Values_Add kv.1 kv.2 v) v kvs.
Proof.
  revert v. induction kvs as [|[k x] kvs IH]; intros v; [done|]. cbn [fmap list_fmap foldl].
  rewrite parse_encoded_pair. apply IH.
Qed.

Lemma encode_pair_safe kv : has_char "&" (encode_pair kv) = false.
Proof.
  unfold encode_pair. rewrite has_char_app. cbn [has_char].
  by rewrite !(QueryEscape_safe "&") by set_solver.
Qed.

(** Adding pairs appends to each key the values given for it. *)
Definition values_for (k : string) (kvs : list (string * string)) : list string :=
  (filter (fun kv => kv.1 = k) kvs).*2.

Lemma add_pairs_lookup kvs v k :
  Values_All (foldl (fun v kv => Values_Add kv.1 kv.2 v) v kvs) k = Values_All v k ++ values_for k kvs.
Proof.
  revert v. induction kvs as [|[k' x] kvs IH]; intros v; cbn [foldl].
  { unfold values_for. cbn. by rewrite app_nil_r. }
  rewrite IH. unfold Values_Add, Values_All, values_for. cbn [fst snd]. rewrite filter_cons. cbn [fst].
  destruct (decide (k' = k)) as [->|Hne].
  - rewrite lookup_insert_eq. cbn. by rewrite <- app_assoc.
  - by rewrite lookup_insert_ne.
Qed.

Lemma values_for_app k kvs kvs' : values_for k (kvs ++ kvs') = values_for k kvs ++ values_for k kvs'.
Proof. unfold values_for. by rewrite filter_app, fmap_app. Qed.

Lemma values_for_pairs_eq k vs : values_for k (pairs_of k vs) = vs.
Proof.
  unfold values_for, pairs_of. induction vs as [|x vs IH]; [done|]. cbn [fmap list_fmap].
  rewrite filter_cons_True by done. rewrite fmap_cons. cbn [snd]. f_equal. exact IH.
Qed.

Lemma values_for_pairs_ne k k' vs : k' <> k -> values_for k (pairs_of k' vs) = [].
Proof.
  intros Hne. unfold values_for, pairs_of. induction vs as [|x vs IH]; [done|]. cbn [fmap list_fmap].
  by rewrite filter_cons_False.
Qed.

Lemma encode_pairs_lookup v keys k :
  NoDup keys -> values_for k (encode_pairs v keys) = if decide (k ∈ keys) then Values_All v k else [].
Proof.
  induction 1 as [|k' keys Hnin Hnd IH]; [done|]. unfold encode_pairs in *.
  cbn [mbind list_bind]. rewrite values_for_app, IH. destruct (decide (k' = k)) as [->|Hne].
  - rewrite values_for_pairs_eq. rewrite (decide_False (P := k ∈ keys)) by done.
    rewrite app_nil_r. rewrite decide_True; [done|set_solver].
  - rewrite values_for_pairs_ne by done. cbn. apply decide_ext. set_solver.
Qed.

(** Reading back an encoded query. *)
Lemma ParseQuery_Encode `{SliceSort} (v : Values) k :
  Values_All (ParseQuery (Encode v)) k = Values_All v k.
Proof.
  unfold ParseQuery, Encode. set (keys := sort_slice String.ltb (map_to_list v).*1).
  assert (Hk : keys ≡ₚ (map_to_list v).*1) by apply sort_slice_perm.
  assert (Hnd : NoDup keys) by (rewrite Hk; apply NoDup_fst_map_to_list).
  assert (Hin : k ∈ keys <-> is_Some (v !! k)).
  { rewrite Hk, list_elem_of_fmap. split.
    - intros ([k' x] & -> & Hx). apply elem_of_map_to_list in Hx. eauto.
    - intros [x Hx]. exists (k, x). split; [done|]. by apply elem_of_map_to_list. }
  assert (Hfold : foldl (fun v piece => parse_piece piece v) ∅
      (split_at "&" (join_with "&" (encode_pair <$> encode_pairs v keys))) =
      foldl (fun v kv => Values_Add kv.1 kv.2 v) ∅ (encode_pairs v keys)).
  { destruct (encode_pairs v keys) as [|kv kvs] eqn:Hkvs; [done|]. rewrite split_join.
    - apply parse_encoded_pairs.
    - apply Forall_fmap, Forall_true. intros kv'. apply encode_pair_safe.
    - done. }
  rewrite Hfold, add_pairs_lookup, encode_pairs_lookup by done.
  unfold Values_All at 1. rewrite lookup_empty. cbn [default app].
  case_decide as Hd; [done|]. unfold Values_All. destruct (v !! k); [|done].
  destruct Hd. apply Hin. eauto.
Qed.

(** ** Patterns of [http.ServeMux] *)

(** A segment [{name}] of a pattern is a wildcard. *)
Definition wildcard (seg : string) : option string :=
  match seg with
  | String c rest => if Ascii.eqb c "{" then Some (cut_at "}" rest).1.1 else None
  | EmptyString => None
  end.

(** [PathUnescape], or the text itself when it is malformed. *)
Definition path_value (seg : string) : string := default seg (PathUnescape seg).

(** Matches a pattern's segments against a path's; a wildcard takes one
    segment, which is not empty. *)
Fixpoint match_segments (pat path : list string) : option (list (string * string)) :=
  match pat, path with
  | [], [] => Some []
  | p :: pat, s :: path =>
      match wildcard p with
      | Some name =>
          if String.eqb s EmptyString then None
          else cons (name, path_value s) <$> match_segments pat path
      | None => if String.eqb p (path_value s) then match_segments pat path else None
      end
  | _, _ => None
  end.

(** A pattern [METHOD /path]. *)
Definition pattern_of (pat : string) : string * list string :=
  let '(method, path, _) := cut_at " " pat in (method, split_at "/" path).

(** [GET] patterns also serve [HEAD]. *)
Definition method_matches (pat method : string) : bool :=
  String.eqb pat method || (String.eqb pat "GET" && String.eqb method "HEAD").

(** A path with an empty, [.] or [..] segment is answered with a redirect. *)
Definition clean_path (path : string) : bool :=
  match split_at "/" path with
  | EmptyString :: segs =>
      forallb (fun s => negb (bool_decide (s ∈ [EmptyString; "."; ".."]))) segs
  | _ => false
  end.

Definition match_pattern (pat method path : string) : option (list (string * string)) :=
  let '(m, segs) := pattern_of pat in
  if method_matches m method && clean_path path then match_segments segs (split_at "/" path) else None.

(** [r.PathValue(name)] *)
Fixpoint PathValue (name : string) (vals : list (string * string)) : string :=
  match vals with
  | [] => EmptyString
  | (n, v) :: vals => if String.eqb n name then v else PathValue name vals
  end.

(** The handler of the pattern that matches. *)
Fixpoint dispatch {A} (table : list (string * A)) (method path : string)
    : option (A * list (string * string)) :=
  match table with
  | [] => None
  | (pat, h) :: table =>
      match match_pattern pat method path with
      | Some vals => Some (h, vals)
      | None => dispatch table method path
      end
  end.

(** Two patterns that some request could match both; registering two such
    patterns of equal specificity makes [ServeMux] panic. *)
Fixpoint segments_overlap (p q : list string) : bool :=
  match p, q with
  | [], [] => true
  | a :: p, b :: q =>
      match wildcard a, wildcard b with
      | None, None => String.eqb a b
      | _, _ => true
      end && segments_overlap p q
  | _, _ => false
  end.

Definition overlap (p q : string) : bool :=
  String.eqb (pattern_of p).1 (pattern_of q).1 && segments_overlap (pattern_of p).2 (pattern_of q).2.

(** The first segment matches, and the rest does. *)
Lemma match_segments_cons a p s path v :
  match_segments (a :: p) (s :: path) = Some v ->
  (wildcard a = None -> a = path_value s) /\ exists v', match_segments p path = Some v'.
Proof.
  cbn [match_segments]. destruct (wildcard a) as [name|].
  - destruct (String.eqb s EmptyString); [done|]. rewrite fmap_Some. naive_solver.
  - destruct (String.eqb_spec a (path_value s)); [eauto|done].
Qed.

Lemma match_segments_overlap p q path v w :
  match_segments p path = Some v -> match_segments q path = Some w -> segments_overlap p q = true.
Proof.
  revert q path v w. induction p as [|a p IH]; intros [|b q] [|s path] v w Hp Hq; try done.
  apply match_segments_cons in Hp as [Ha [v' Hp]], Hq as [Hb [w' Hq]]. cbn [segments_overlap].
  rewrite (IH _ _ _ _ Hp Hq), andb_true_r.
  destruct (wildcard a), (wildcard b); try done. rewrite Ha, Hb by done. apply String.eqb_refl.
Qed.

(** Request targets: the path and the raw query. *)
Definition split_target (target : string) : string * string :=
  let '(path, query, _) := cut_at "?" target in (path, query).

(** ** IDs that can be put into a path *)

Fixpoint all_unreserved (s : string) : bool :=
  match s with EmptyString => true | String c rest => unreserved c && all_unreserved rest end.

Definition plain_id (s : string) : bool :=
  all_unreserved s && negb (bool_decide (s ∈ [EmptyString; "."; ".."])).

Lemma unreserved_no_char d s : unreserved d = false -> all_unreserved s = true -> has_char d s = false.
Proof.
  intros Hd. induction s as [|c s IH]; [done|]. cbn [all_unreserved has_char]. intros H.
  apply andb_true_iff in H as [Hc Hs]. rewrite IH by done.
  destruct (Ascii.eqb_spec c d) as [->|]; [congruence|done].
Qed.

Lemma unescape_unreserved s : all_unreserved s = true -> PathUnescape s = Some s.
Proof.
  unfold PathUnescape. induction s as [|c s IH]; [done|]. cbn [all_unreserved unescape]. intros H.
  apply andb_true_iff in H as [Hc Hs]. rewrite IH by done.
  destruct (Ascii.eqb_spec c "%") as [->|]; [vm_compute in Hc; discriminate|done].
Qed.

Lemma plain_id_spec s : plain_id s = true ->
  has_char "/" s = false /\ has_char "?" s = false /\ path_value s = s /\
  (forall l, s ∈ l -> l ⊆ [EmptyString; "."; ".."] -> False).
Proof.
  unfold plain_id, path_value. intros H. apply andb_true_iff in H as [Hu Hn].
  apply negb_true_iff, bool_decide_eq_false in Hn.
  split_and!; [by apply unreserved_no_char..| |set_solver]. by rewrite unescape_unreserved.
Qed.
