(* ===== verification/ServeMux.v ===== *)
(** * Registering patterns with [http.ServeMux]

    Patterns of Go 1.22, [[METHOD ][HOST]/[PATH]]: [parsePattern],
    [comparePaths] and the conflicts that make [Handle] panic.  [ServeMux.Handle]
    of a pattern that does not parse or that conflicts with an earlier one
    panics; the muxes of the programs are registered with it. *)

From S2P Require Import Prelude GoText Http.
From Stdlib Require Import ZArith Lia Ascii.
From stdpp Require Import base gmap strings list.

(** ** Patterns *)

(** [sg_wild]: matches any one segment, or with [sg_multi] the rest of the path. *)
Record Segment := mkSegment { sg_s : string; sg_wild : bool; sg_multi : bool }.
Record Pattern := mkPattern { pt_method : string; pt_host : string; pt_segments : list Segment }.

(** RFC 7230 token characters. *)
Definition is_token (c : ascii) : bool :=
  is_alnum (code c) || bool_decide (c ∈ ["!"; "#"; "$"; "%"; "&"; "'"; "*"; "+"; "-"; "."; "^"; "_"; "`"; "|"; "~"]%char).
Fixpoint all_token (s : string) : bool := match s with EmptyString => true | String c s => is_token c && all_token s end.

Definition is_letter (c : ascii) : bool := is_alnum (code c) && negb (is_digit c) || Ascii.eqb c "_".
Fixpoint all_name (s : string) : bool :=
  match s with EmptyString => true | String c s => (is_letter c || is_digit c) && all_name s end.
Definition valid_wildcard_name (s : string) : bool :=
  match s with EmptyString => false | String c _ => is_letter c && all_name s end.

Definition is_blank (c : ascii) : bool := Ascii.eqb c " " || Ascii.eqb c (ascii_of_nat 9).
(** The text before the first blank, and after the blanks. *)
Fixpoint cut_blank (s : string) : option (string * string) :=
  match s with
  | EmptyString => None
  | String c rest =>
      if is_blank c then Some (EmptyString, rest)
      else '(m, r) ← cut_blank rest; Some (String c m, r)
  end.
Fixpoint trim_blanks (s : string) : string :=
  match s with String c rest => if is_blank c then trim_blanks rest else s | EmptyString => s end.

(** [strings.CutSuffix] *)
Fixpoint cut_suffix (suffix s : string) : option string :=
  if String.eqb s suffix then Some EmptyString
  else match s with EmptyString => None | String c rest => String c <$> cut_suffix suffix rest end.

(** [cleanPath] on the segments after the leading slash: empty and [.] segments
    are dropped, [..] drops the one before. *)
Fixpoint clean_segments (acc segs : list string) : list string :=
  match segs with
  | [] => rev acc
  | s :: segs =>
      if String.eqb s EmptyString || String.eqb s "." then clean_segments acc segs
      else if String.eqb s ".." then clean_segments (tail acc) segs
      else clean_segments (s :: acc) segs
  end.
Definition cleanPath (p : string) : string :=
  match split_at "/" p with
  | EmptyString :: segs =>
      match clean_segments [] segs with
      | [] => "/"
      | cleaned => String "/" (join_with "/" cleaned) +:+
                   (if bool_decide (last segs = Some EmptyString) then "/" else EmptyString)
      end
  | _ => p
  end.

(** The segments of a path after a leading slash; [None]: a syntax error. *)
Fixpoint parse_segments (seen : list string) (segs : list string) : option (list Segment) :=
  match segs with
  | [] => Some []
  | seg :: rest =>
      let last := match rest with [] => true | _ => false end in
      if last && String.eqb seg EmptyString then Some [mkSegment EmptyString true true]   (* trailing slash *)
      else if negb (has_char "{" seg) then cons (mkSegment (path_value seg) false false) <$> parse_segments seen rest
      else
        match seg with
        | String c body =>
            if negb (Ascii.eqb c "{") then None
            else
              match cut_suffix "}" body with
              | None => None
              | Some name =>
                  if String.eqb name "$" then if last then Some [mkSegment "/" false false] else None
                  else
                    let '(name, multi) := match cut_suffix "..." name with Some n => (n, true) | None => (name, false) end in
                    if (multi : bool) && negb last then None
                    else if negb (valid_wildcard_name name) || bool_decide (name ∈ seen) then None
                    else cons (mkSegment name true multi) <$> parse_segments (name :: seen) rest
              end
        | EmptyString => None
        end
  end.

Definition parsePattern (s : string) : option Pattern :=
  if String.eqb s EmptyString then None
  else
    let '(method, rest) := match cut_blank s with Some (m, r) => (m, trim_blanks r) | None => (EmptyString, s) end in
    let has_method := match cut_blank s with Some _ => true | None => false end in
    if has_method && negb (String.eqb method EmptyString) && negb (all_token method) then None
    else
      let '(host, path, slash) := cut_at "/" rest in
      if negb slash || has_char "{" host then None
      else
        let path := String "/" path in
        if negb (String.eqb method EmptyString) && negb (String.eqb method "CONNECT") && negb (String.eqb path (cleanPath path)) then None
        else
          match split_at "/" path with
          | _ :: segs => mkPattern method host <$> parse_segments [] segs
          | [] => None
          end.

(** ** Conflicts *)

Inductive Relationship := Equivalent | MoreGeneral | MoreSpecific | Disjoint | Overlaps.
#[global] Instance Relationship_eq_dec : EqDecision Relationship.
Proof. solve_decision. Defined.

Definition inverse (r : Relationship) : Relationship :=
  match r with MoreGeneral => MoreSpecific | MoreSpecific => MoreGeneral | r => r end.

Definition combineRelationships (r1 r2 : Relationship) : Relationship :=
  match r1 with
  | Equivalent => r2
  | Disjoint => Disjoint
  | Overlaps => match r2 with Disjoint => Disjoint | _ => Overlaps end
  | MoreGeneral | MoreSpecific =>
      match r2 with
      | Equivalent => r1
      | _ => if bool_decide (r2 = inverse r1) then Overlaps else r2
      end
  end.

Definition compareMethods (p1 p2 : Pattern) : Relationship :=
  let m1 := pt_method p1 in
  let m2 := pt_method p2 in
  if String.eqb m1 m2 then Equivalent
  else if String.eqb m1 EmptyString then MoreGeneral
  else if String.eqb m2 EmptyString then MoreSpecific
  else if String.eqb m1 "GET" && String.eqb m2 "HEAD" then MoreGeneral
  else if String.eqb m2 "GET" && String.eqb m1 "HEAD" then MoreSpecific
  else Disjoint.

Definition compareSegments (s1 s2 : Segment) : Relationship :=
  if sg_multi s1 && sg_multi s2 then Equivalent
  else if sg_multi s1 then MoreGeneral
  else if sg_multi s2 then MoreSpecific
  else if sg_wild s1 && sg_wild s2 then Equivalent
  else if sg_wild s1 then if String.eqb (sg_s s2) "/" then Disjoint else MoreGeneral
  else if sg_wild s2 then if String.eqb (sg_s s1) "/" then Disjoint else MoreSpecific
  else if String.eqb (sg_s s1) (sg_s s2) then Equivalent else Disjoint.

Definition ends_multi (segs : list Segment) : bool := match last segs with Some s => sg_multi s | None => false end.

(** The loop over corresponding segments; [m1], [m2]: the patterns end in a
    multi wildcard. *)
Fixpoint compare_loop (m1 m2 : bool) (rel : Relationship) (s1 s2 : list Segment) : Relationship :=
  match s1, s2 with
  | a :: s1, b :: s2 =>
      let rel := combineRelationships rel (compareSegments a b) in
      if bool_decide (rel = Disjoint) then Disjoint else compare_loop m1 m2 rel s1 s2
  | [], [] => rel
  | [], _ :: _ => if m1 then combineRelationships rel MoreGeneral else Disjoint
  | _ :: _, [] => if m2 then combineRelationships rel MoreSpecific else Disjoint
  end.

Definition comparePaths (p1 p2 : Pattern) : Relationship :=
  let s1 := pt_segments p1 in
  let s2 := pt_segments p2 in
  let m1 := ends_multi s1 in
  let m2 := ends_multi s2 in
  if negb (Nat.eqb (length s1) (length s2)) && negb m1 && negb m2 then Disjoint
  else compare_loop m1 m2 Equivalent s1 s2.

Definition comparePathsAndMethods (p1 p2 : Pattern) : Relationship :=
  let mrel := compareMethods p1 p2 in
  if bool_decide (mrel = Disjoint) then Disjoint else combineRelationships mrel (comparePaths p1 p2).

Definition conflictsWith (p1 p2 : Pattern) : bool :=
  if negb (String.eqb (pt_host p1) (pt_host p2)) then false
  else match comparePathsAndMethods p1 p2 with Equivalent | Overlaps => true | _ => false end.

(** [mux.Handle]: [None] when it panics. *)
Definition mux_handle (pats : list Pattern) (pattern : string) : option (list Pattern) :=
  match parsePattern pattern with
  | None => None
  | Some p => if existsb (fun q => conflictsWith p q) pats then None else Some (pats ++ [p])
  end.

Fixpoint mux_handle_all (pats : list Pattern) (patterns : list string) : option (list Pattern) :=
  match patterns with
  | [] => Some pats
  | s :: patterns => match mux_handle pats s with None => None | Some pats => mux_handle_all pats patterns end
  end.

(** ** Properties *)

Lemma combine_inverse r1 r2 : inverse (combineRelationships r1 r2) = combineRelationships (inverse r1) (inverse r2).
Proof. by destruct r1, r2. Qed.

Lemma compareSegments_inverse s1 s2 : compareSegments s2 s1 = inverse (compareSegments s1 s2).
Proof.
  unfold compareSegments. rewrite (String.eqb_sym (sg_s s2) (sg_s s1)).
  destruct (sg_multi s1), (sg_multi s2), (sg_wild s1), (sg_wild s2); cbn; try done; by repeat case_match.
Qed.

Lemma compareMethods_inverse p1 p2 : compareMethods p2 p1 = inverse (compareMethods p1 p2).
Proof.
  unfold compareMethods. rewrite (String.eqb_sym (pt_method p2) (pt_method p1)).
  destruct (String.eqb_spec (pt_method p1) (pt_method p2)); [done|].
  destruct (String.eqb_spec (pt_method p1) EmptyString), (String.eqb_spec (pt_method p2) EmptyString); try done; [congruence|].
  destruct (String.eqb_spec (pt_method p1) "GET") as [E1|], (String.eqb_spec (pt_method p2) "HEAD") as [E2|],
    (String.eqb_spec (pt_method p2) "GET") as [E3|], (String.eqb_spec (pt_method p1) "HEAD") as [E4|]; cbn; try done; congruence.
Qed.

Lemma compare_loop_inverse m1 m2 rel s1 s2 :
  compare_loop m2 m1 (inverse rel) s2 s1 = inverse (compare_loop m1 m2 rel s1 s2).
Proof.
  revert rel s2. induction s1 as [|a s1 IH]; intros rel [|b s2]; cbn [compare_loop]; [done| | |].
  - destruct m1; [by rewrite combine_inverse|done].
  - destruct m2; [by rewrite combine_inverse|done].
  - rewrite (compareSegments_inverse a b), <- combine_inverse.
    destruct (combineRelationships rel (compareSegments a b)) eqn:E; try done;
      rewrite !bool_decide_false by done; rewrite <- IH; done.
Qed.

(** Which of two patterns is registered first makes no difference. *)
Lemma conflictsWith_sym p1 p2 : conflictsWith p1 p2 = conflictsWith p2 p1.
Proof.
  unfold conflictsWith. rewrite (String.eqb_sym (pt_host p2)). destruct (String.eqb _ _); [cbn|done].
  assert (Hi : comparePathsAndMethods p2 p1 = inverse (comparePathsAndMethods p1 p2)).
  { unfold comparePathsAndMethods. rewrite (compareMethods_inverse p1 p2).
    assert (Hp : comparePaths p2 p1 = inverse (comparePaths p1 p2)).
    { unfold comparePaths. rewrite (Nat.eqb_sym (length (pt_segments p2))).
      destruct (Nat.eqb _ _), (ends_multi (pt_segments p1)), (ends_multi (pt_segments p2)); cbn [negb andb]; try done;
        apply (compare_loop_inverse _ _ Equivalent). }
    rewrite Hp. destruct (compareMethods p1 p2); cbn [inverse]; rewrite ?bool_decide_false by done;
      rewrite ?combine_inverse; done. }
  rewrite Hi. by destruct (comparePathsAndMethods p1 p2).
Qed.

Example conflict_examples :
  is_Some (mux_handle_all [] ["/"; "/healthz"; "/admin/backends"; "/metrics"]) /\
  mux_handle_all [] ["/"; "/healthz"; "/healthz"] = None /\
  is_Some (mux_handle_all [] ["/"; "/healthz"; "/{page}"]) /\
  mux_handle_all [] ["/"; "/healthz"; "GET /{page}"] = None /\
  mux_handle_all [] ["metrics"] = None /\ mux_handle_all [] ["/a/{x}b"] = None /\ mux_handle_all [] ["GET /a//b"] = None.
Proof. vm_compute. split_and!; eauto. Qed.
