(* ===== verification/Infractl.v ===== *)
(** * control-plane/cmd/infractl: the command-line client

    main.go as programs over [CliE]: the environment, the file system, the YAML
    decoder (third-party), the HTTP client, standard output and standard error.
    [fatalf] and [os.Exit] end the process: a command returns the exit status
    early ([inr]).  Responses are decoded into the variable a command names
    ([Reply]); what is printed is a list of pieces. *)

From S2P Require Import Prelude GoText Model Store Runtime Api Agent Http.
From Stdlib Require Import ZArith Lia Ascii.
From stdpp Require Import base gmap strings list.

(** ** Operations *)

(** The variables responses are decoded into. *)
Inductive Reply : Type -> Type :=
| ReDeployment : Reply Deployment
| ReDeployments : Reply (list Deployment * Z)
| RePods : Reply (list Pod * Z)
| ReNode : Reply Node
| ReNodes : Reply (list Node * Z)
| ReService : Reply Service
| ReServices : Reply (list Service * Z)
| ReBackends : Reply (list BackendSpec * Z)
| ReTotal : Reply Z
| ReAny : Reply string.       (* map[string]any, as its indented JSON text *)

(** What is printed; times, floats and JSON are left to fmt and encoding/json. *)
Inductive Piece :=
| PText (s : string)
| PFixed2 (f : float64)       (* %.2f *)
| PTime (t : Time)            (* RFC 3339 *)
| PService (s : Service).     (* json.MarshalIndent *)

Record CliRequest := mkCliRequest {
  cr_Method : string; cr_URL : string; cr_ContentType : option string; cr_Body : option string }.

Record CliResponse := mkCliResponse { cl_StatusCode : Z; cl_Status : string; cl_Text : string }.

Inductive CliE : Type -> Type :=
| EGetenv (key : string) : CliE string
| EReadFile (path : string) : CliE (string + string)
| EUnmarshalYAML (data : string) : CliE (string + string)   (* the document, as its canonical text *)
| EMarshalJSON (document : string) : CliE (string + string)
| ENewReq (method url : string) : CliE (option string)
| EDo (req : CliRequest) : CliE (CliResponse + string)
| EDecode {A} (out : Reply A) (resp : CliResponse) : CliE (A + string)
| EStdout (line : list Piece) : CliE unit
| EStderr (line : string) : CliE unit.

(** A command that may have ended the process with a status. *)
Definition cmd (A : Type) : Type := prog CliE (A + Z).

Definition exit_bind {A B} (p : cmd A) (k : A -> cmd B) : cmd B :=
  prog_bind p (fun r => match r with inl x => k x | inr code => Ret (inr code) end).

Notation "x ←! p ; q" := (exit_bind p (fun x => q))
  (at level 20, p at level 100, q at level 200, only parsing).
Notation "' x ←! p ; q" := (exit_bind p (fun x => q))
  (at level 20, x pattern, p at level 100, q at level 200, only parsing).

Definition os_call {A} (e : CliE A) : cmd A := Vis e (fun x => Ret (inl x)).
Definition os_Exit {A} (code : Z) : cmd A := Ret (inr code).

Definition fatalf {A} (msg : string) : cmd A := _ ←! os_call (EStderr msg); os_Exit 1.
Definition Printf (line : list Piece) : cmd unit := os_call (EStdout line).

Definition serverURL : cmd string :=
  v ←! os_call (EGetenv "INFRACTL_SERVER");
  Ret (inl (if negb (String.eqb v EmptyString) then v else "http://localhost:7070")).

(** The text [usage] prints on standard error. *)
Definition usage_text : string :=
  "infractl <noun> <verb> [flags] [args]

  deployment submit <file.yaml>
  deployment list [--namespace <ns>] [--label key=value ...]
  deployment status <id>
  deployment cancel <id>

  node list [--label key=value ...]
  node status <id>
  node drain <id>

  service list [--namespace <ns>]
  service add <file.yaml>
  service status <id>
  service backends <id>

  cluster status
  scheduler stats

Flags:
  --namespace <ns>      Filter by namespace (deployment list, service list)
  --label key=value     Filter by label (repeatable; deployment list, node list)

Set INFRACTL_SERVER (default http://localhost:7070) to point at a different control plane.".

Definition usage : cmd unit := os_call (EStderr usage_text).

(** ** Flags *)

Record cliFlags := mkFlags {
  f_namespace : string; f_labels : gmap string string; f_positional : list string }.

Definition with_namespace (ns : string) (f : cliFlags) : cliFlags :=
  mkFlags ns (f_labels f) (f_positional f).
(** [k, v, ok := strings.Cut(kv, "="); if ok { f.labels[k] = v }] *)
Definition with_label (kv : string) (f : cliFlags) : cliFlags :=
  let '(k, v, ok) := cut_at "=" kv in
  if ok then mkFlags (f_namespace f) (<[k := v]> (f_labels f)) (f_positional f) else f.
Definition with_positional (arg : string) (f : cliFlags) : cliFlags :=
  mkFlags (f_namespace f) (f_labels f) (f_positional f ++ [arg]).

Fixpoint parse_flags (args : list string) (f : cliFlags) : cliFlags :=
  match args with
  | [] => f
  | arg :: rest =>
      if bool_decide (arg = "--namespace" \/ arg = "-n") then
        match rest with
        | [] => f
        | v :: rest => parse_flags rest (with_namespace v f)
        end
      else if bool_decide (arg = "--label" \/ arg = "-l") then
        match rest with
        | [] => f
        | v :: rest => parse_flags rest (with_label v f)
        end
      else
        match trim_prefix "--namespace=" arg with
        | Some v => parse_flags rest (with_namespace v f)
        | None =>
            match trim_prefix "--label=" arg with
            | Some kv => parse_flags rest (with_label kv f)
            | None => parse_flags rest (with_positional arg f)
            end
        end
  end.

Definition parseFlags (args : list string) : cliFlags := parse_flags args (mkFlags EmptyString ∅ []).

Section Commands.
Context `{MapRange} `{SliceSort}.
(** Which order the range over the label map takes. *)
Variable order : nat.

(** [for k, v := range labels] *)
Definition label_pairs (labels : gmap string string) : list (string * string) :=
  map_range order (map_imap (fun k v => Some (k, v)) labels).

Definition query_values (ns : string) (labels : gmap string string) : gmap string (list string) :=
  let q := if negb (String.eqb ns EmptyString) then Values_Set "namespace" ns ∅ else ∅ in
  foldl (fun q kv => Values_Add "label" (kv.1 +:+ "=" +:+ kv.2) q) q (label_pairs labels).

Definition buildQuery (ns : string) (labels : gmap string string) : string :=
  let q := query_values ns labels in
  if bool_decide (q = ∅) then EmptyString else "?" +:+ Encode q.

(** ** Shared helpers *)

Definition readErrorBody (resp : CliResponse) : string :=
  cl_Status resp +:+ ": " +:+ TrimSpace (cl_Text resp).

Definition readYAMLAsJSON (path : string) : cmd string :=
  data ←! os_call (EReadFile path);
  match data with
  | inr err => fatalf ("failed to read " +:+ path +:+ ": " +:+ err)
  | inl data =>
      generic ←! os_call (EUnmarshalYAML data);
      match generic with
      | inr err => fatalf ("failed to parse YAML " +:+ path +:+ ": " +:+ err)
      | inl generic =>
          body ←! os_call (EMarshalJSON generic);
          match body with
          | inr err => fatalf ("failed to re-encode " +:+ path +:+ " as JSON: " +:+ err)
          | inl body => Ret (inl body)
          end
      end
  end.

Definition getJSON {A} (path : string) (out : Reply A) : cmd A :=
  server ←! serverURL;
  resp ←! os_call (EDo (mkCliRequest "GET" (server +:+ path) None None));
  match resp with
  | inr err => fatalf ("request failed: " +:+ err)
  | inl resp =>
      if negb (cl_StatusCode resp =? StatusOK)%Z then fatalf ("request failed: " +:+ readErrorBody resp)
      else
        r ←! os_call (EDecode out resp);
        match r with
        | inr err => fatalf ("failed to decode response: " +:+ err)
        | inl x => Ret (inl x)
        end
  end.

Definition doRequest (method path : string) (wantStatus : Z) : cmd unit :=
  server ←! serverURL;
  err ←! os_call (ENewReq method (server +:+ path));
  match err with
  | Some err => fatalf ("request failed: " +:+ err)
  | None =>
      resp ←! os_call (EDo (mkCliRequest method (server +:+ path) None None));
      match resp with
      | inr err => fatalf ("request failed: " +:+ err)
      | inl resp =>
          if negb (cl_StatusCode resp =? wantStatus)%Z then fatalf ("request failed: " +:+ readErrorBody resp)
          else Ret (inl tt)
      end
  end.

(** [http.Post] of a JSON body that must be answered with 201. *)
Definition postJSON {A} (path body what : string) (out : Reply A) : cmd A :=
  server ←! serverURL;
  resp ←! os_call (EDo (mkCliRequest "POST" (server +:+ path) (Some "application/json") (Some body)));
  match resp with
  | inr err => fatalf (what +:+ " failed: " +:+ err)
  | inl resp =>
      if negb (cl_StatusCode resp =? StatusCreated)%Z then fatalf (what +:+ " failed: " +:+ readErrorBody resp)
      else
        r ←! os_call (EDecode out resp);
        match r with
        | inr err => fatalf (what +:+ ": failed to decode response: " +:+ err)
        | inl x => Ret (inl x)
        end
  end.

(** [f.positional[0]], or the process ends. *)
Definition first_positional (args : list string) (msg : string) : cmd string :=
  match f_positional (parseFlags args) with
  | id :: _ => Ret (inl id)
  | [] => fatalf msg
  end.

(** *** Printing *)

(** [utf8.RuneCountInString] of a valid string: the bytes that do not continue
    a character. *)
Fixpoint rune_count (s : string) : nat :=
  match s with
  | EmptyString => 0
  | String c rest => (if ((128 <=? code c) && (code c <=? 191))%Z then 0 else 1) + rune_count rest
  end.
Fixpoint spaces (n : nat) : string := match n with O => EmptyString | S n => String " " (spaces n) end.
(** [%-<n>s] and [%-<n>d] *)
Definition pad (n : nat) (s : string) : string := s +:+ spaces (n - rune_count s).

Fixpoint columns (cols : list (nat * string)) : string :=
  match cols with
  | [] => EmptyString
  | [(n, s)] => pad n s
  | (n, s) :: cols => pad n s +:+ " " +:+ columns cols
  end.
Definition Row (cols : list (nat * string)) : cmd unit := Printf [PText (columns cols)].
Definition Line (label value : string) : cmd unit := Printf [PText (label +:+ value)].

(** [for _, x := range xs { ... }] *)
Fixpoint each {A} (xs : list A) (f : A -> cmd unit) : cmd unit :=
  match xs with [] => Ret (inl tt) | x :: xs => _ ←! f x; each xs f end.

Definition DeploymentStatus_string (s : DeploymentStatus) : string :=
  match s with
  | DeploymentPending => "PENDING" | DeploymentActive => "ACTIVE" | DeploymentDegraded => "DEGRADED"
  | DeploymentCancelled => "CANCELLED" | DeploymentStatusOther s => s
  end.
Definition PodStatus_string (s : PodStatus) : string :=
  match s with
  | PodPending => "PENDING" | PodScheduled => "SCHEDULED" | PodRunning => "RUNNING"
  | PodSucceeded => "SUCCEEDED" | PodFailed => "FAILED" | PodRetrying => "RETRYING"
  | PodDeadLetter => "DEAD_LETTER" | PodCancelled => "CANCELLED" | PodStatusOther s => s
  end.
Definition NodeStatus_string (s : NodeStatus) : string :=
  match s with
  | NodeRegistering => "REGISTERING" | NodeHealthy => "HEALTHY" | NodeDraining => "DRAINING"
  | NodeUnhealthy => "UNHEALTHY" | NodeRemoved => "REMOVED" | NodeStatusOther s => s
  end.

(** ** deployment *)

Definition cmdDeploymentSubmit (args : list string) : cmd unit :=
  match args with
  | [] => fatalf "deployment submit: file path required"
  | path :: _ =>
      body ←! readYAMLAsJSON path;
      d ←! postJSON "/api/v1/deployments" body "submit" ReDeployment;
      Printf [PText ("Submitted " +:+ Deployment_ID d +:+ " (" +:+ Deployment_Name d +:+ ")")]
  end.

Definition cmdDeploymentList (args : list string) : cmd unit :=
  let f := parseFlags args in
  '(ds, total) ←! getJSON ("/api/v1/deployments" +:+ buildQuery (f_namespace f) (f_labels f)) ReDeployments;
  _ ←! Row [(22, "ID"); (16, "NAME"); (12, "NAMESPACE"); (10, "TYPE"); (10, "STATUS"); (10, "REPLICAS")];
  _ ←! each ds (fun d => Row [(22, Deployment_ID d); (16, Deployment_Name d); (12, Deployment_Namespace d);
         (10, Deployment_Type d); (10, DeploymentStatus_string (Deployment_Status d));
         (10, itoa (Deployment_Replicas d))]);
  _ ←! Line "" "";
  Line (itoa total) " total".

Definition cmdDeploymentStatus (args : list string) : cmd unit :=
  id ←! first_positional args "deployment status: id required";
  d ←! getJSON ("/api/v1/deployments/" +:+ id) ReDeployment;
  _ ←! Line "ID:        " (Deployment_ID d);
  _ ←! Line "Name:      " (Deployment_Name d);
  _ ←! Line "Namespace: " (Deployment_Namespace d);
  _ ←! Line "Type:      " (Deployment_Type d);
  _ ←! Line "Status:    " (DeploymentStatus_string (Deployment_Status d));
  _ ←! Line "Replicas:  " (itoa (Deployment_Replicas d));
  '(ps, total) ←! getJSON ("/api/v1/deployments/" +:+ id +:+ "/pods") RePods;
  _ ←! Line "" "";
  _ ←! Line "Pods (" (itoa total +:+ "):");
  _ ←! Row [(18, "ID"); (16, "NODE"); (12, "STATUS"); (8, "ATTEMPT")];
  each ps (fun p => Row [(18, Pod_ID p); (16, Pod_NodeID p); (12, PodStatus_string (Pod_Status p));
    (8, itoa (Pod_Attempt p))]).

Definition cmdDeploymentCancel (args : list string) : cmd unit :=
  id ←! first_positional args "deployment cancel: id required";
  _ ←! doRequest "DELETE" ("/api/v1/deployments/" +:+ id) StatusOK;
  Line "Cancelled " id.

Definition wrong_usage : cmd unit := _ ←! usage; os_Exit 1.

Definition dispatchDeployment (verb : string) (args : list string) : cmd unit :=
  if String.eqb verb "submit" then cmdDeploymentSubmit args
  else if String.eqb verb "list" then cmdDeploymentList args
  else if String.eqb verb "status" then cmdDeploymentStatus args
  else if String.eqb verb "cancel" then cmdDeploymentCancel args
  else wrong_usage.

(** ** node *)

Definition cmdNodeList (args : list string) : cmd unit :=
  let f := parseFlags args in
  '(ns, total) ←! getJSON ("/api/v1/nodes" +:+ buildQuery EmptyString (f_labels f)) ReNodes;
  _ ←! Row [(18, "ID"); (24, "ADDRESS"); (10, "STATUS"); (8, "RUNNING"); (8, "MAX")];
  _ ←! each ns (fun n => Row [(18, Node_ID n); (24, Node_Address n); (10, NodeStatus_string (Node_Status n));
         (8, itoa (Node_RunningJobs n)); (8, itoa (Node_MaxConcurrent n))]);
  _ ←! Line "" "";
  Line (itoa total) " total".

Definition capacity_line (label : string) (c : ResourceCapacity) : cmd unit :=
  Printf [PText (label +:+ "cpu="); PFixed2 (Cap_CPU c); PText (" memory_mb=" +:+ itoa (Cap_MemoryMB c))].

Definition cmdNodeStatus (args : list string) : cmd unit :=
  id ←! first_positional args "node status: id required";
  n ←! getJSON ("/api/v1/nodes/" +:+ id) ReNode;
  _ ←! Line "ID:             " (Node_ID n);
  _ ←! Line "Hostname:       " (Node_Hostname n);
  _ ←! Line "Address:        " (Node_Address n);
  _ ←! Line "Status:         " (NodeStatus_string (Node_Status n));
  _ ←! Line "Running Pods:   " (itoa (Node_RunningJobs n) +:+ " / " +:+ itoa (Node_MaxConcurrent n));
  _ ←! capacity_line "Capacity:       " (Node_Capacity n);
  _ ←! capacity_line "Available:      " (Node_Available n);
  Printf [PText "Last Heartbeat: "; PTime (Node_LastHeartbeatAt n)].

Definition cmdNodeDrain (args : list string) : cmd unit :=
  id ←! first_positional args "node drain: id required";
  _ ←! doRequest "POST" ("/api/v1/nodes/" +:+ id +:+ "/drain") StatusOK;
  Line "Draining " id.

Definition dispatchNode (verb : string) (args : list string) : cmd unit :=
  if String.eqb verb "list" then cmdNodeList args
  else if String.eqb verb "status" then cmdNodeStatus args
  else if String.eqb verb "drain" then cmdNodeDrain args
  else wrong_usage.

(** ** service *)

Definition cmdServiceList (args : list string) : cmd unit :=
  let f := parseFlags args in
  '(ss, total) ←! getJSON ("/api/v1/services" +:+ buildQuery (f_namespace f) ∅) ReServices;
  _ ←! Row [(18, "ID"); (16, "NAME"); (12, "NAMESPACE"); (16, "PATH_PREFIX"); (16, "STRATEGY")];
  _ ←! each ss (fun s => Row [(18, Service_ID s); (16, Service_Name s); (12, Service_Namespace s);
         (16, Service_PathPrefix s); (16, Service_Strategy s)]);
  _ ←! Line "" "";
  Line (itoa total) " total".

Definition cmdServiceAdd (args : list string) : cmd unit :=
  path ←! first_positional args "service add: file path required";
  body ←! readYAMLAsJSON path;
  s ←! postJSON "/api/v1/services" body "service add" ReService;
  Printf [PText ("Added service " +:+ Service_ID s +:+ " (" +:+ Service_Name s +:+ ")")].

Definition cmdServiceStatus (args : list string) : cmd unit :=
  id ←! first_positional args "service status: id required";
  s ←! getJSON ("/api/v1/services/" +:+ id) ReService;
  Printf [PService s].

Definition cmdServiceBackends (args : list string) : cmd unit :=
  id ←! first_positional args "service backends: id required";
  '(bs, total) ←! getJSON ("/api/v1/services/" +:+ id +:+ "/backends") ReBackends;
  _ ←! Row [(18, "NAME"); (32, "URL"); (8, "WEIGHT")];
  _ ←! each bs (fun b => Row [(18, Spec_Name b); (32, Spec_URL b); (8, itoa (Spec_Weight b))]);
  _ ←! Line "" "";
  Line (itoa total) " backend(s)".

Definition dispatchService (verb : string) (args : list string) : cmd unit :=
  if String.eqb verb "list" then cmdServiceList args
  else if String.eqb verb "add" then cmdServiceAdd args
  else if String.eqb verb "status" then cmdServiceStatus args
  else if String.eqb verb "backends" then cmdServiceBackends args
  else wrong_usage.

(** ** cluster and scheduler *)

Fixpoint count_healthy (ns : list Node) : Z :=
  match ns with
  | [] => 0
  | n :: ns => ((if bool_decide (Node_Status n = NodeHealthy) then 1 else 0) + count_healthy ns)%Z
  end.

Definition cmdClusterStatus : cmd unit :=
  deployments ←! getJSON "/api/v1/deployments" ReTotal;
  '(ns, total) ←! getJSON "/api/v1/nodes" ReNodes;
  services ←! getJSON "/api/v1/services" ReTotal;
  server ←! serverURL;
  _ ←! Line "Control plane: " server;
  _ ←! Line "Deployments:   " (itoa deployments);
  _ ←! Line "Nodes:         " (itoa total +:+ " (" +:+ itoa (count_healthy ns) +:+ " healthy)");
  Line "Services:      " (itoa services).

Definition dispatchCluster (verb : string) : cmd unit :=
  if negb (String.eqb verb "status") then wrong_usage else cmdClusterStatus.

Definition dispatchScheduler (verb : string) : cmd unit :=
  if negb (String.eqb verb "stats") then wrong_usage
  else raw ←! getJSON "/api/v1/scheduler/stats" ReAny; Printf [PText raw].

(** [main] on [os.Args[1:]]: [inr] is the status the process exits with,
    [inl tt] a normal return. *)
Definition main (args : list string) : cmd unit :=
  match args with
  | noun :: verb :: rest =>
      if String.eqb noun "deployment" then dispatchDeployment verb rest
      else if String.eqb noun "node" then dispatchNode verb rest
      else if String.eqb noun "service" then dispatchService verb rest
      else if String.eqb noun "cluster" then dispatchCluster verb
      else if String.eqb noun "scheduler" then dispatchScheduler verb
      else wrong_usage
  | _ => wrong_usage
  end.
End Commands.
