(* ===== verification/InfractlProperties.v ===== *)
(** * control-plane/cmd/infractl: properties

    The namespace and the labels given on the command line are what the server
    reads back from the query, and every command makes the server run the
    handlers it is meant to, with the IDs it was given, or ends with status 1
    and a message. *)

From S2P Require Import Prelude GoText Model Store Runtime Api Agent Http Routes Infractl.
From Stdlib Require Import ZArith Lia Ascii.
From stdpp Require Import base gmap strings list.

(** ** The query of the list commands *)

Section Query.
Context `{MapRange} `{SliceSort}.
Variable order : nat.

Definition label_text (kv : string * string) : string := kv.1 +:+ "=" +:+ kv.2.

Lemma label_pairs_perm labels : label_pairs order labels ≡ₚ map_to_list labels.
Proof using Type.
  unfold label_pairs. rewrite map_range_perm. apply NoDup_Permutation.
  - eapply (NoDup_fmap_1 fst), NoDup_values_key. intros k [k' v] Hk.
    rewrite map_lookup_imap in Hk. destruct (labels !! k); cbn in Hk; [|done]. by simplify_eq.
  - apply NoDup_map_to_list.
  - intros [k v]. rewrite elem_of_map_values, elem_of_map_to_list. split.
    + intros [k' Hk]. rewrite map_lookup_imap in Hk. destruct (labels !! k') eqn:Hl; cbn in Hk; [|done]. by simplify_eq.
    + intros Hk. exists k. by rewrite map_lookup_imap, Hk.
Qed.

Lemma add_labels_all (kvs : list (string * string)) q k :
  Values_All (foldl (fun q kv => Values_Add "label" (kv.1 +:+ "=" +:+ kv.2) q) q kvs) k =
  Values_All q k ++ (if String.eqb k "label" then label_text <$> kvs else []).
Proof using Type.
  revert q. induction kvs as [|kv kvs IH]; intros q; cbn [foldl].
  { by destruct (String.eqb k "label"); rewrite app_nil_r. }
  rewrite IH. clear IH. unfold Values_Add, Values_All. destruct (String.eqb_spec k "label") as [->|Hne].
  - rewrite lookup_insert_eq, fmap_cons. exact (eq_sym (app_assoc _ [_] _)).
  - rewrite lookup_insert_ne by done. by rewrite !app_nil_r.
Qed.

Lemma query_values_label ns labels :
  Values_All (query_values order ns labels) "label" = label_text <$> label_pairs order labels.
Proof using Type.
  unfold query_values. rewrite add_labels_all. cbn [String.eqb Ascii.eqb Bool.eqb].
  by destruct (negb (String.eqb ns EmptyString)).
Qed.

Lemma Values_Get_All q k : Values_Get q k = match Values_All q k with x :: _ => x | [] => EmptyString end.
Proof using Type. unfold Values_Get, Values_All. by destruct (q !! k) as [[|]|]. Qed.

Lemma query_values_namespace ns labels : Values_Get (query_values order ns labels) "namespace" = ns.
Proof using Type.
  rewrite Values_Get_All. unfold query_values. rewrite add_labels_all.
  destruct (String.eqb_spec ns EmptyString) as [->|Hne]; [done|]. cbn [negb]. done.
Qed.

(** What the server makes of the query string of a target. *)
Definition served_query (q : string) : gmap string (list string) :=
  ParseQuery (split_target q).2.

Lemma buildQuery_shape ns labels :
  buildQuery order ns labels = EmptyString /\ query_values order ns labels = ∅ \/
  buildQuery order ns labels = String "?" (Encode (query_values order ns labels)).
Proof using Type. unfold buildQuery. case_bool_decide; auto. Qed.

Lemma served_query_all ns labels k :
  Values_All (served_query (buildQuery order ns labels)) k = Values_All (query_values order ns labels) k.
Proof using Type.
  unfold served_query. destruct (buildQuery_shape ns labels) as [[-> ->]| ->]; [done|].
  change (split_target (String "?" (Encode (query_values order ns labels)))).2
    with (Encode (query_values order ns labels)).
  apply ParseQuery_Encode.
Qed.

(** *** Label texts back to labels *)

Lemma cut_eq_cut_at s : cut_eq s = cut_at "=" s.
Proof using Type. induction s as [|c s IH]; [done|]. cbn [cut_eq cut_at]. by rewrite IH. Qed.

Lemma parse_label_text kvs m k :
  Forall (fun kv => has_char "=" kv.1 = false) kvs -> NoDup kvs.*1 ->
  parse_labels_into (label_text <$> kvs) m !! k =
    match (list_to_map kvs : gmap string string) !! k with Some v => Some v | None => m !! k end.
Proof using Type.
  intros Hall. revert m. induction Hall as [|[k' v] kvs Hk' _ IH]; intros m Hnd; [done|].
  cbn [fmap list_fmap parse_labels_into] in *. inversion Hnd as [|? ? Hnin Hnd']; subst.
  rewrite cut_eq_cut_at. change (label_text (k', v)) with (k' +:+ String "=" v).
  rewrite cut_at_app by done.
  rewrite IH by done. cbn [list_to_map foldr]. destruct (decide (k = k')) as [->|Hne].
  - rewrite lookup_insert_eq. rewrite not_elem_of_list_to_map_1 by done. by rewrite lookup_insert_eq.
  - by rewrite !lookup_insert_ne.
Qed.

Lemma parseLabels_texts kvs labels :
  Forall (fun kv => has_char "=" kv.1 = false) kvs -> kvs ≡ₚ map_to_list labels ->
  parseLabels (label_text <$> kvs) = labels.
Proof using Type.
  intros Hall Hp. assert (Hnd : NoDup kvs.*1) by (rewrite Hp; apply NoDup_fst_map_to_list).
  apply map_eq. intros k. unfold parseLabels. rewrite parse_label_text, lookup_empty by done.
  rewrite (list_to_map_proper kvs (map_to_list labels)) by done. rewrite list_to_map_to_list.
  by destruct (labels !! k).
Qed.

(** The keys [strings.Cut] finds have no [=]. *)
Definition keys_ok (f : cliFlags) : Prop := map_Forall (fun k _ => has_char "=" k = false) (f_labels f).

Lemma cut_at_before c s k v : cut_at c s = (k, v, true) -> has_char c k = false.
Proof using Type.
  revert k. induction s as [|d s IH]; intros k; cbn [cut_at]; [done|].
  destruct (Ascii.eqb d c) eqn:Hd; [by intros [= <- _]|].
  destruct (cut_at c s) as [[k' v'] ok] eqn:Hs. intros [= <- <- ->]. cbn [has_char]. rewrite Hd. by apply IH.
Qed.

Lemma with_label_ok kv f : keys_ok f -> keys_ok (with_label kv f).
Proof using Type.
  unfold with_label, keys_ok. intros Hf. destruct (cut_at "=" kv) as [[k v] ok] eqn:Hc.
  destruct ok; [|done]. cbn. apply map_Forall_insert_2; [by eapply cut_at_before|done].
Qed.

Lemma parse_flags_ok args f : keys_ok f -> keys_ok (parse_flags args f).
Proof using Type.
  remember (length args) as n eqn:Hn. revert args Hn f.
  induction n as [n IH] using lt_wf_ind. intros [|arg rest] -> f Hf; [done|].
  assert (Hrec : forall rest' f', length rest' < S (length rest) -> keys_ok f' -> keys_ok (parse_flags rest' f')).
  { intros rest' f' Hl. by apply (IH (length rest')). }
  cbn [parse_flags].
  repeat case_bool_decide; repeat case_one; try done; apply Hrec; cbn [length]; try lia; try done;
    by apply with_label_ok.
Qed.

(** The namespace and the labels a user gives to [infractl] survive the trip
    through the URL: whatever bytes they contain, the server reads back exactly
    that namespace and, parsing the label values, exactly that label map, in
    whatever order the map is visited. *)
Theorem infractl_query_roundtrip (args : list string) :
  let f := parseFlags args in
  let q := served_query (buildQuery order (f_namespace f) (f_labels f)) in
  Values_Get q "namespace" = f_namespace f /\ parseLabels (Values_All q "label") = f_labels f.
Proof using Type.
  cbv zeta. set (f := parseFlags args). rewrite Values_Get_All, !served_query_all. split.
  - rewrite <- Values_Get_All. apply query_values_namespace.
  - rewrite query_values_label. apply parseLabels_texts; [|apply label_pairs_perm].
    rewrite label_pairs_perm. apply Forall_forall. intros [k v] Hkv. apply elem_of_map_to_list in Hkv.
    refine (parse_flags_ok args _ _ k v Hkv). by apply map_Forall_empty.
Qed.
End Query.

(** ** Commands and the handlers they reach *)

(** What a process has done: the requests it sent and what it printed. *)
Record CliLog := mkLog {
  lg_env : string;                  (* $INFRACTL_SERVER *)
  lg_requests : list CliRequest;
  lg_err : list string }.

Definition cli_rel X (e : CliE X) : CliLog -> X -> CliLog -> Prop :=
  match e in CliE X return CliLog -> X -> CliLog -> Prop with
  | EGetenv key => fun l x l' => l' = l /\ (key = "INFRACTL_SERVER" -> x = lg_env l)
  | EDo req => fun l _ l' => l' = mkLog (lg_env l) (lg_requests l ++ [req]) (lg_err l)
  | EStderr msg => fun l _ l' => l' = mkLog (lg_env l) (lg_requests l) (lg_err l ++ [msg])
  | _ => fun l _ l' => l' = l
  end.

(** The server a process talks to. *)
Definition server_of (env : string) : string :=
  if negb (String.eqb env EmptyString) then env else "http://localhost:7070".

(** [p] sends the requests [reqs server] and succeeds silently, or sends only
    the first of them, complains and exits with status 1. *)
Definition sends {A} (reqs : string -> list CliRequest) (p : cmd A) : Prop :=
  forall l, wp cli_rel p (fun r l' => lg_env l' = lg_env l /\
    match r with
    | inl _ => lg_requests l' = lg_requests l ++ reqs (server_of (lg_env l)) /\ lg_err l' = lg_err l
    | inr code => code = 1%Z /\ lg_err l' <> [] /\
        exists sent, sent `prefix_of` reqs (server_of (lg_env l)) /\ lg_requests l' = lg_requests l ++ sent
    end) l.

Definition GET (path : string) (server : string) : list CliRequest :=
  [mkCliRequest "GET" (server +:+ path) None None].

Lemma sends_ret {A} (x : A) : sends (fun _ => []) (Ret (inl x)).
Proof. intros l. cbn. by rewrite app_nil_r. Qed.

Lemma sends_bind {A B} r1 r2 (p : cmd A) (k : A -> cmd B) :
  sends r1 p -> (forall x, sends r2 (k x)) -> sends (fun s => r1 s ++ r2 s) (exit_bind p k).
Proof.
  intros Hp Hk l. apply wp_bind. eapply wp_mono; [|apply Hp]. intros [x|code] l' [He H].
  - destruct H as [Hr Herr]. eapply wp_mono; [|apply Hk]. intros [y|c] l'' [He' H'].
    + destruct H' as [Hr' Herr']. split; [congruence|]. rewrite Hr', Hr, Herr', Herr, He.
      split; [|done]. by rewrite app_assoc.
    + destruct H' as (-> & Herr' & sent & Hpre & Hr'). split_and!; [congruence|done|done|].
      exists (r1 (server_of (lg_env l)) ++ sent). split.
      * rewrite He in Hpre. by apply prefix_app.
      * rewrite Hr', Hr. by rewrite app_assoc.
  - destruct H as (-> & Herr & sent & Hpre & Hr). split_and!; [done|done|done|].
    exists sent. split; [by apply prefix_app_r|done].
Qed.

(** The same when one of the two sends nothing. *)
Lemma sends_then {A B} r (p : cmd A) (k : A -> cmd B) :
  sends (fun _ => []) p -> (forall x, sends r (k x)) -> sends r (exit_bind p k).
Proof. intros Hp Hk. exact (sends_bind (fun _ => []) r p k Hp Hk). Qed.

Lemma sends_quiet {A B} r (p : cmd A) (k : A -> cmd B) :
  sends r p -> (forall x, sends (fun _ => []) (k x)) -> sends r (exit_bind p k).
Proof.
  intros Hp Hk l. eapply wp_mono; [|apply (sends_bind r (fun _ => []) p k Hp Hk)].
  intros x l'. cbv beta. by rewrite app_nil_r.
Qed.

Lemma sends_fatalf {A} r msg : sends (A := A) r (fatalf msg).
Proof.
  intros l [] l' ->. cbn. split_and!; [done|done|by destruct (lg_err l)|].
  exists []. split; [apply prefix_nil|by rewrite app_nil_r].
Qed.

Lemma sends_stdout line : sends (fun _ => []) (Printf line).
Proof. intros l [] l' ->. cbn. by rewrite app_nil_r. Qed.

Create HintDb cli.
#[local] Hint Resolve sends_ret sends_fatalf sends_stdout : cli.

Lemma sends_each {A} (xs : list A) f :
  (forall x, sends (fun _ => []) (f x)) -> sends (fun _ => []) (each xs f).
Proof. intros Hf. induction xs; cbn [each]; [apply sends_ret|]. by apply sends_then. Qed.

Lemma sends_getJSON {A} path (out : Reply A) : sends (GET path) (getJSON path out).
Proof.
  intros l v l1 [-> Hv]. rewrite (Hv eq_refl). cbn. intros resp l2 ->.
  destruct resp as [resp|err].
  - destruct (negb (cl_StatusCode resp =? StatusOK)%Z).
    + intros [] l3 ->. cbn. split_and!; [done|done|by destruct (lg_err l)|]. eexists. by split.
    + intros r l3 ->. destruct r; [by cbn|]. intros [] l4 ->. cbn.
      split_and!; [done|done|by destruct (lg_err l)|]. eexists. by split.
  - intros [] l3 ->. cbn. split_and!; [done|done|by destruct (lg_err l)|]. eexists. by split.
Qed.

Lemma sends_doRequest method path want :
  sends (fun server => [mkCliRequest method (server +:+ path) None None]) (doRequest method path want).
Proof.
  intros l v l1 [-> Hv]. rewrite (Hv eq_refl). cbn. intros [err|] l1 ->.
  { intros [] l3 ->. cbn. split_and!; [done|done|by destruct (lg_err l)|]. exists [].
    split; [apply prefix_nil|by rewrite app_nil_r]. }
  intros resp l2 ->. destruct resp as [resp|err].
  - destruct (negb (cl_StatusCode resp =? want)%Z); [|by cbn].
    intros [] l3 ->. cbn. split_and!; [done|done|by destruct (lg_err l)|]. eexists. by split.
  - intros [] l3 ->. cbn. split_and!; [done|done|by destruct (lg_err l)|]. eexists. by split.
Qed.

Lemma sends_first args msg k r id rest :
  f_positional (parseFlags args) = id :: rest -> sends r (k id) ->
  sends (A := unit) r (exit_bind (first_positional args msg) k).
Proof. intros Hid Hk. unfold first_positional. by rewrite Hid. Qed.

Ltac quiet := repeat first
  [ apply sends_stdout | apply sends_ret | apply sends_each; intros
  | apply sends_then; [|intros] | match goal with |- sends _ (match ?x with _ => _ end) => destruct x end ].

Section Reach.
Context `{MapRange} `{SliceSort}.
Variable order : nat.

(** A request of the client as the server receives it. *)
Definition arrives (server : string) (req : CliRequest) : Routed :=
  match trim_prefix server (cr_URL req) with
  | Some target => cp_mux (mkIncoming (cr_Method req) target None None (mkHeartbeat 0 zeroCapacity) None None)
  | None => NoRoute
  end.

(** The handlers a command line is meant to run, for commands whose ID (if they
    take one) can be put into a path. *)
Definition with_id (rest : list string) (f : string -> list Request) : option (list Request) :=
  match f_positional (parseFlags rest) with
  | id :: _ => if plain_id id then Some (f id) else None
  | [] => None
  end.

Definition intended (args : list string) : option (list Request) :=
  match args with
  | noun :: verb :: rest =>
      let f := parseFlags rest in
      if String.eqb noun "deployment" then
        if String.eqb verb "list" then Some [RListDeployments (f_namespace f)]
        else if String.eqb verb "status" then with_id rest (fun id => [RGetDeployment id; RListDeploymentPods id])
        else if String.eqb verb "cancel" then with_id rest (fun id => [RCancelDeployment id])
        else None
      else if String.eqb noun "node" then
        if String.eqb verb "list" then Some [RListNodes (label_text <$> label_pairs order (f_labels f))]
        else if String.eqb verb "status" then with_id rest (fun id => [RGetNode id])
        else if String.eqb verb "drain" then with_id rest (fun id => [RDrainNode id])
        else None
      else if String.eqb noun "service" then
        if String.eqb verb "list" then Some [RListServices (f_namespace f)]
        else if String.eqb verb "status" then with_id rest (fun id => [RGetService id])
        else if String.eqb verb "backends" then with_id rest (fun id => [RGetServiceBackends id])
        else None
      else if String.eqb noun "cluster" && String.eqb verb "status" then
        Some [RListDeployments ""; RListNodes []; RListServices ""]
      else if String.eqb noun "scheduler" && String.eqb verb "stats" then Some [RSchedulerStats]
      else None
  | _ => None
  end.

(** The command [p] makes the server run [hs]. *)
Definition reaches (p : cmd unit) (hs : list Request) : Prop :=
  exists reqs, sends reqs p /\ forall server, arrives server <$> reqs server = ToHandler <$> hs.

(** What the server does with a request for [/s1/s2/...] without a query. *)
Definition served (method : string) (segs : list string) : Routed :=
  match dispatch_plain cp_routes method segs with
  | Some (entry, vals) =>
      entry (mkIncoming method (path_of segs) None None (mkHeartbeat 0 zeroCapacity) None None) vals ∅
  | None => NoRoute
  end.

Lemma arrives_path method segs server ct body :
  Forall (fun s => plain_id s = true) segs ->
  arrives server (mkCliRequest method (server +:+ path_of segs) ct body) = served method segs.
Proof using Type.
  intros Hs. unfold arrives. cbn [cr_URL cr_Method]. rewrite trim_prefix_app.
  rewrite (cp_mux_path _ segs None); [done|done|]. cbn [in_Target]. by rewrite app_empty_r.
Qed.

Lemma arrives_query segs server ns labels :
  Forall (fun s => plain_id s = true) segs ->
  exists q i, (forall k, Values_All q k = Values_All (query_values order ns labels) k) /\
  arrives server (mkCliRequest "GET" (server +:+ path_of segs +:+ buildQuery order ns labels) None None) =
    match dispatch_plain cp_routes "GET" segs with
    | Some (entry, vals) => entry i vals q
    | None => NoRoute
    end.
Proof using Type.
  intros Hs. exists (served_query (buildQuery order ns labels)).
  exists (mkIncoming "GET" (path_of segs +:+ buildQuery order ns labels) None None
            (mkHeartbeat 0 zeroCapacity) None None).
  split; [apply served_query_all|]. unfold arrives. cbn [cr_URL cr_Method]. rewrite trim_prefix_app.
  unfold served_query. destruct (buildQuery_shape order ns labels) as [[-> _]| ->].
  - rewrite (cp_mux_path _ segs None); [done|done|done].
  - rewrite (cp_mux_path _ segs (Some (Encode (query_values order ns labels)))); done.
Qed.

(** A request for a path, and what follows it. *)
Lemma reach_get {A} path segs r hs (out : Reply A) (k : A -> cmd unit) :
  path = path_of segs -> Forall (fun s => plain_id s = true) segs -> served "GET" segs = ToHandler r ->
  (exists reqs, (forall x, sends reqs (k x)) /\
     forall server, arrives server <$> reqs server = ToHandler <$> hs) ->
  reaches (exit_bind (getJSON path out) k) (r :: hs).
Proof using Type.
  intros -> Hs Hd (reqs & Hk & Ha). eexists. split.
  - apply sends_bind; [apply sends_getJSON|exact Hk].
  - intros server. cbn [GET app fmap list_fmap]. rewrite arrives_path, Hd by done. f_equal. apply Ha.
Qed.

Lemma follow_nothing {A} (k : A -> cmd unit) :
  (forall x, sends (fun _ => []) (k x)) ->
  exists reqs, (forall x, sends reqs (k x)) /\
    forall server, arrives server <$> reqs server = ToHandler <$> ([] : list Request).
Proof using Type. intros Hk. by exists (fun _ => []). Qed.

Lemma follow_get {A} path segs r (k : A -> cmd unit) :
  path = path_of segs -> Forall (fun s => plain_id s = true) segs -> served "GET" segs = ToHandler r ->
  (forall x, sends (GET path) (k x)) ->
  exists reqs, (forall x, sends reqs (k x)) /\
    forall server, arrives server <$> reqs server = ToHandler <$> [r].
Proof using Type.
  intros -> Hs Hd Hk. exists (GET (path_of segs)). split; [done|].
  intros server. cbn [GET fmap list_fmap]. by rewrite arrives_path, Hd.
Qed.

Lemma reach_list {A} path segs ns labels (f : gmap string (list string) -> Request) (out : Reply A)
    (k : A -> cmd unit) :
  path = path_of segs -> Forall (fun s => plain_id s = true) segs ->
  (forall i q, match dispatch_plain cp_routes "GET" segs with
   | Some (entry, vals) => entry i vals q
   | None => NoRoute
   end = ToHandler (f q)) ->
  (forall q q', (forall k, Values_All q k = Values_All q' k) -> f q = f q') ->
  (forall x, sends (fun _ => []) (k x)) ->
  reaches (exit_bind (getJSON (path +:+ buildQuery order ns labels) out) k) [f (query_values order ns labels)].
Proof using Type.
  intros -> Hs Hd Hf Hk. eexists. split.
  - apply sends_quiet; [apply sends_getJSON|done].
  - intros server. cbn [GET app fmap list_fmap]. destruct (arrives_query segs server ns labels Hs) as (q & i & Hq & ->).
    by rewrite Hd, (Hf q _ Hq).
Qed.

Lemma reach_do method path segs r want (k : unit -> cmd unit) :
  path = path_of segs -> Forall (fun s => plain_id s = true) segs -> served method segs = ToHandler r ->
  (forall x, sends (fun _ => []) (k x)) ->
  reaches (exit_bind (doRequest method path want) k) [r].
Proof using Type.
  intros -> Hs Hd Hk. eexists. split.
  - apply sends_quiet; [apply sends_doRequest|done].
  - intros server. cbn [GET app fmap list_fmap]. by rewrite arrives_path, Hd.
Qed.

(** Reading the ID first. *)
Lemma reach_id rest msg (k : string -> cmd unit) hs f :
  with_id rest f = Some hs ->
  (forall id, plain_id id = true -> reaches (k id) (f id)) ->
  reaches (exit_bind (first_positional rest msg) k) hs.
Proof using Type.
  unfold with_id, first_positional. destruct (f_positional (parseFlags rest)) as [|id ids]; [done|].
  destruct (plain_id id) eqn:Hid; [|done]. intros [= <-] Hk. by apply Hk.
Qed.

Ltac plain := repeat constructor; assumption || reflexivity.
Ltac at_path l := apply (reach_get _ l); [reflexivity|plain|vm_compute; reflexivity|].
Ltac in_list l := apply (reach_list _ l); [reflexivity|plain|by intros| |].

Lemma get_namespace_ext (q q' : gmap string (list string)) :
  (forall k, Values_All q k = Values_All q' k) -> Values_Get q "namespace" = Values_Get q' "namespace".
Proof using Type. intros Hq. by rewrite !Values_Get_All, Hq. Qed.

Lemma deployment_reaches verb rest hs :
  intended ("deployment" :: verb :: rest) = Some hs -> reaches (dispatchDeployment order verb rest) hs.
Proof using Type.
  cbn [intended]. unfold dispatchDeployment. cbn [String.eqb].
  destruct (String.eqb_spec verb "submit") as [->|_]; [done|].
  destruct (String.eqb verb "list").
  { intros [= <-]. rewrite <- (query_values_namespace order (f_namespace (parseFlags rest)) (f_labels (parseFlags rest))).
    apply (reach_list _ ["api"; "v1"; "deployments"] _ _ (fun q => RListDeployments (Values_Get q "namespace")));
      [reflexivity|plain|by intros|intros q q' Hq; by rewrite (get_namespace_ext q q')|].
    intros [ds total]. quiet. }
  destruct (String.eqb verb "status").
  { intros Hid. eapply reach_id; [exact Hid|]. intros id Hp. at_path ["api"; "v1"; "deployments"; id].
    apply (follow_get ("/api/v1/deployments/" +:+ id +:+ "/pods") ["api"; "v1"; "deployments"; id; "pods"]);
      [reflexivity|plain|vm_compute; reflexivity|].
    intros d. do 6 (apply sends_then; [apply sends_stdout|intros _]).
    apply sends_quiet; [apply sends_getJSON|]. intros [ps total]. quiet. }
  destruct (String.eqb verb "cancel"); [|done].
  intros Hid. eapply reach_id; [exact Hid|]. intros id Hp.
  apply (reach_do _ _ ["api"; "v1"; "deployments"; id]); [reflexivity|plain|vm_compute; reflexivity|]. intros []. quiet.
Qed.

Lemma node_reaches verb rest hs :
  intended ("node" :: verb :: rest) = Some hs -> reaches (dispatchNode order verb rest) hs.
Proof using Type.
  cbn [intended]. unfold dispatchNode. cbn [String.eqb].
  destruct (String.eqb verb "list").
  { intros [= <-]. rewrite <- (query_values_label order EmptyString (f_labels (parseFlags rest))).
    apply (reach_list _ ["api"; "v1"; "nodes"] _ _ (fun q => RListNodes (Values_All q "label")));
      [reflexivity|plain|by intros|intros q q' Hq; by rewrite Hq|].
    intros [ns total]. quiet. }
  destruct (String.eqb verb "status").
  { intros Hid. eapply reach_id; [exact Hid|]. intros id Hp. at_path ["api"; "v1"; "nodes"; id].
    apply follow_nothing. intros n. quiet. }
  destruct (String.eqb verb "drain"); [|done].
  intros Hid. eapply reach_id; [exact Hid|]. intros id Hp.
  apply (reach_do _ _ ["api"; "v1"; "nodes"; id; "drain"]); [reflexivity|plain|vm_compute; reflexivity|]. intros []. quiet.
Qed.

Lemma service_reaches verb rest hs :
  intended ("service" :: verb :: rest) = Some hs -> reaches (dispatchService order verb rest) hs.
Proof using Type.
  cbn [intended]. unfold dispatchService. cbn [String.eqb].
  destruct (String.eqb verb "list").
  { intros [= <-]. rewrite <- (query_values_namespace order (f_namespace (parseFlags rest)) ∅).
    apply (reach_list _ ["api"; "v1"; "services"] _ _ (fun q => RListServices (Values_Get q "namespace")));
      [reflexivity|plain|by intros|intros q q' Hq; by rewrite (get_namespace_ext q q')|].
    intros [ss total]. quiet. }
  destruct (String.eqb_spec verb "add") as [->|_]; [done|].
  destruct (String.eqb verb "status").
  { intros Hid. eapply reach_id; [exact Hid|]. intros id Hp. at_path ["api"; "v1"; "services"; id].
    apply follow_nothing. intros s. quiet. }
  destruct (String.eqb verb "backends"); [|done].
  intros Hid. eapply reach_id; [exact Hid|]. intros id Hp. at_path ["api"; "v1"; "services"; id; "backends"].
  apply follow_nothing. intros [bs total]. quiet.
Qed.

Lemma sends_serverURL : sends (fun _ => []) serverURL.
Proof using Type. intros l v l' [-> _]. cbn. by rewrite app_nil_r. Qed.

Lemma cluster_reaches :
  reaches cmdClusterStatus [RListDeployments ""; RListNodes []; RListServices ""].
Proof using Type.
  exists (fun s => GET "/api/v1/deployments" s ++ (GET "/api/v1/nodes" s ++ GET "/api/v1/services" s)). split.
  - apply (sends_bind (GET _)); [apply sends_getJSON|]. intros ds.
    apply (sends_bind (GET _)); [apply sends_getJSON|]. intros [ns total].
    apply sends_quiet; [apply sends_getJSON|]. intros ss.
    apply sends_then; [apply sends_serverURL|]. intros v. quiet.
  - intros server. cbn [GET app fmap list_fmap].
    change "/api/v1/deployments" with (path_of ["api"; "v1"; "deployments"]).
    change "/api/v1/nodes" with (path_of ["api"; "v1"; "nodes"]).
    change "/api/v1/services" with (path_of ["api"; "v1"; "services"]).
    rewrite !arrives_path by plain. vm_compute. reflexivity.
Qed.

Lemma command_reaches args hs : intended args = Some hs -> reaches (main order args) hs.
Proof using Type.
  destruct args as [|noun [|verb rest]]; [done..|]. unfold main.
  destruct (String.eqb_spec noun "deployment") as [->|H1]; [apply deployment_reaches|].
  destruct (String.eqb_spec noun "node") as [->|H2]; [apply node_reaches|].
  destruct (String.eqb_spec noun "service") as [->|H3]; [apply service_reaches|].
  cbn [intended]. rewrite (proj2 (String.eqb_neq _ _) H1), (proj2 (String.eqb_neq _ _) H2), (proj2 (String.eqb_neq _ _) H3).
  destruct (String.eqb_spec noun "cluster") as [->|_]; cbn [andb].
  - unfold dispatchCluster. destruct (String.eqb verb "status"); cbn [negb].
    + intros [= <-]. apply cluster_reaches.
    + done.
  - unfold dispatchScheduler. destruct (String.eqb noun "scheduler"); cbn [andb]; [|done].
    destruct (String.eqb verb "stats"); cbn [negb]; [|done]. intros [= <-].
    at_path ["api"; "v1"; "scheduler"; "stats"]. apply follow_nothing. intros raw. quiet.
Qed.

End Reach.

