(* ===== verification/AgentPods.v ===== *)
(** * control-plane/internal/worker: running one pod

    What the agent reports, cleans up and counts for a pod on every path
    ([Ledger]), and the composition with the control plane: the agent's
    requests, routed by the server's table to its handlers, drive the stored pod
    through its life cycle. *)

From S2P Require Import Prelude GoText Model Store Runtime Fixtures MemoryStore Scheduler Api.
From S2P Require Import ApiProperties Http Routes Agent AgentProperties.
From Stdlib Require Import ZArith Lia Ascii.
From stdpp Require Import base gmap strings list.
Local Open Scope go_scope.

(** ** What was done for a pod *)

Record Ledger := mkLedger {
  l_reports : list (string * statusRequest);                      (* URL and body *)
  l_execs : list (string * list string * option RunError);
  l_waits : list WaitResult;
  l_created : list string;
  l_removed : list string;
  l_cancelled : bool;                                             (* runCtx was seen cancelled *)
  l_completed : Z;
  l_failed : Z }.

Definition no_entries : Ledger := mkLedger [] [] [] [] [] false 0 0.

Definition note X (e : AgE X) (x : X) (l : Ledger) : Ledger :=
  match e in AgE X return X -> Ledger with
  | ENewRequest _ url (StatusBody r) => fun _ =>
      mkLedger (l_reports l ++ [(url, r)]) (l_execs l) (l_waits l) (l_created l) (l_removed l)
        (l_cancelled l) (l_completed l) (l_failed l)
  | EExec cmd args => fun x =>
      mkLedger (l_reports l) (l_execs l ++ [(cmd, args, x.2)]) (l_waits l) (l_created l) (l_removed l)
        (l_cancelled l) (l_completed l) (l_failed l)
  | ERunCtxErr => fun x =>
      mkLedger (l_reports l) (l_execs l) (l_waits l) (l_created l) (l_removed l)
        (l_cancelled l || x) (l_completed l) (l_failed l)
  | EContainerWait _ => fun x =>
      mkLedger (l_reports l) (l_execs l) (l_waits l ++ [x]) (l_created l) (l_removed l)
        (l_cancelled l || match x with WaitCtxDone => true | _ => false end) (l_completed l) (l_failed l)
  | EContainerCreate _ => fun x =>
      mkLedger (l_reports l) (l_execs l) (l_waits l)
        (match x with inl id => l_created l ++ [id] | inr _ => l_created l end) (l_removed l)
        (l_cancelled l) (l_completed l) (l_failed l)
  | EContainerRemove id => fun _ =>
      mkLedger (l_reports l) (l_execs l) (l_waits l) (l_created l) (l_removed l ++ [id])
        (l_cancelled l) (l_completed l) (l_failed l)
  | EMetric WorkerCompletedJobsTotal => fun _ =>
      mkLedger (l_reports l) (l_execs l) (l_waits l) (l_created l) (l_removed l)
        (l_cancelled l) (l_completed l + 1) (l_failed l)
  | EMetric WorkerFailedJobsTotal => fun _ =>
      mkLedger (l_reports l) (l_execs l) (l_waits l) (l_created l) (l_removed l)
        (l_cancelled l) (l_completed l) (l_failed l + 1)
  | _ => fun _ => l
  end x.

(** The environment's answers are arbitrary. *)
Definition noted X (e : AgE X) (l : Ledger) (x : X) (l' : Ledger) : Prop := l' = note X e x l.

(** The status a pod ends with: CANCELLED when the agent's run context was
    cancelled, SUCCEEDED when the process or container ended with status 0 and
    no error, FAILED otherwise. *)
Definition clean_exit (w : WaitResult) : bool :=
  match w with
  | WaitStatus code None => bool_decide (int64_wrap code = 0%Z)
  | WaitErr None => true
  | _ => false
  end.

Definition verdict (l : Ledger) : PodStatus :=
  if l_cancelled l then PodCancelled
  else match l_execs l, l_waits l with
       | [(_, _, None)], [] => PodSucceeded
       | [], [w] => if clean_exit w then PodSucceeded else PodFailed
       | _, _ => PodFailed
       end.

Definition add_report (url : string) (r : statusRequest) (l : Ledger) : Ledger :=
  mkLedger (l_reports l ++ [(url, r)]) (l_execs l) (l_waits l) (l_created l) (l_removed l)
    (l_cancelled l) (l_completed l) (l_failed l).

Definition status_url (a : Agent) (podID : string) : string :=
  ControlPlaneURL (a_cfg a) +:+ status_path a podID.

Definition running_report : statusRequest := mkStatusRequest PodRunning None "" "".

(** What holds once a pod is done. *)
Definition pod_done (a : Agent) (pod : Pod) (l : Ledger) : Prop :=
  (exists final, l_reports l = [(status_url a (Pod_ID pod), running_report); (status_url a (Pod_ID pod), final)] /\
     sr_Status final = verdict l /\
     Model.TransitionPod PodRunning (sr_Status final) = true /\
     (sr_Status final = PodSucceeded -> sr_ExitCode final = Some 0%Z /\ sr_Error final = "") /\
     (sr_Status final = PodCancelled -> sr_ExitCode final = None /\ sr_Error final = "node agent shutting down")) /\
  l_removed l = l_created l /\
  l_completed l = b2z (bool_decide (verdict l = PodSucceeded)) /\
  l_failed l = b2z (bool_decide (verdict l = PodFailed)) /\
  (Pod_Image pod = "" -> l_created l = [] /\ l_waits l = [] /\
     exists err, l_execs l = [(Pod_Command pod, Pod_Args pod, err)]) /\
  (Pod_Image pod <> "" -> l_execs l = [] /\ length (l_created l) <= 1 /\ length (l_waits l) <= 1).

Ltac pod_ends := unfold pod_done, verdict; cbn; split_and!;
  [ eexists; split; [reflexivity|]; cbn; split_and!; done | try done..
  | intros ?; first [congruence | split_and!; by eauto] | try (intros ?; split_and!; done || lia) ].

(** ** Environments of a pod's execution *)

(** The operations other than reports. *)
Definition local_op X (e : AgE X) : bool :=
  executes X e || match e with EMetric _ => true | _ => false end.

(** The proof below is about any environment in which local operations are noted
    in a ledger [led] and a report [r] makes a [step r] of some other state
    [aux]. *)
Class PodEnv {W C : Type} (R : forall X, AgE X -> W -> X -> W -> Prop) (led : W -> Ledger) (aux : W -> C)
    (step : statusRequest -> C -> C -> Prop) (a : Agent) (pod : Pod) : Prop := {
  env_local : forall X (e : AgE X) w x w', local_op X e = true -> R X e w x w' ->
    led w' = note X e x (led w) /\ aux w' = aux w;
  env_report : forall st code err out w,
    wp R (reportStatus a (Pod_ID pod) st code err out) (fun _ w' =>
      led w' = add_report (status_url a (Pod_ID pod)) (mkStatusRequest st code err out) (led w) /\
      step (mkStatusRequest st code err out) (aux w) (aux w')) w }.

Section Pods.
Context {W C : Type} {R : forall X, AgE X -> W -> X -> W -> Prop} {led : W -> Ledger} {aux : W -> C}.
Context {step : statusRequest -> C -> C -> Prop} {a : Agent} {pod : Pod}.
Context `{!PodEnv R led aux step a pod}.
Variable conv : float64 -> Z.

Definition sees (l : Ledger) (c : C) (w : W) : Prop := led w = l /\ aux w = c.

Lemma wp_local {X} (e : AgE X) (k : X -> prog AgE unit) Q l c w :
  local_op X e = true -> sees l c w ->
  (forall x w', sees (note X e x l) c w' -> wp R (k x) Q w') -> wp R (call e ≫= k) Q w.
Proof using All.
  intros He [Hl Hc] H. apply wp_call. intros x w' HR.
  destruct (env_local X e w x w' He HR) as [Hl' Hc']. apply H. split; congruence.
Qed.

Lemma wp_last {X} (e : AgE X) (Q : X -> W -> Prop) l c w :
  local_op X e = true -> sees l c w -> (forall x w', sees (note X e x l) c w' -> Q x w') ->
  wp R (call e) Q w.
Proof using All.
  intros He [Hl Hc] H x w' HR. destruct (env_local X e w x w' He HR) as [Hl' Hc']. apply H. split; congruence.
Qed.

Lemma wp_report st code err out (k : unit -> prog AgE unit) Q l c w :
  sees l c w ->
  (forall c' w', step (mkStatusRequest st code err out) c c' ->
     sees (add_report (status_url a (Pod_ID pod)) (mkStatusRequest st code err out) l) c' w' ->
     wp R (k tt) Q w') ->
  wp R (reportStatus a (Pod_ID pod) st code err out ≫= k) Q w.
Proof using All.
  intros [Hl Hc] H. apply wp_bind. eapply wp_mono; [|apply env_report]. intros [] w' [Hl' Hs].
  subst c. eapply H; [exact Hs|]. split; [by rewrite Hl', Hl|done].
Qed.

(** The state after the two reports. *)
Definition reported_twice (c0 : C) (w : W) : Prop :=
  exists c1 final, step running_report c0 c1 /\ step final c1 (aux w) /\
    l_reports (led w) = [(status_url a (Pod_ID pod), running_report); (status_url a (Pod_ID pod), final)].

Definition settled (c0 : C) (w : W) : Prop := pod_done a pod (led w) /\ reported_twice c0 w.

Lemma settled_intro c0 c1 w r l :
  step running_report c0 c1 -> step r c1 (aux w) -> sees l (aux w) w ->
  l_reports l = [(status_url a (Pod_ID pod), running_report); (status_url a (Pod_ID pod), r)] ->
  pod_done a pod l -> settled c0 w.
Proof using Type. intros H1 H2 [<- _] Hr Hd. split; [done|]. by exists c1, r. Qed.

(** A final report and its counter. *)
Lemma wp_outcome st code err out m (Q : unit -> W -> Prop) l c w :
  sees l c w ->
  (forall x c' w', step (mkStatusRequest st code err out) c c' ->
     sees (note _ (EMetric m) tt (add_report (status_url a (Pod_ID pod)) (mkStatusRequest st code err out) l)) c' w' ->
     Q x w') ->
  wp R (_ ← reportStatus a (Pod_ID pod) st code err out; call (EMetric m)) Q w.
Proof using All.
  intros Hs H. eapply wp_report; [exact Hs|]. intros c2 w' H2 Hs'.
  eapply wp_last; [done|exact Hs'|]. intros [] w'' Hs''. by eapply H.
Qed.

Lemma wp_final_report st code err out (Q : unit -> W -> Prop) l c w :
  sees l c w ->
  (forall x c' w', step (mkStatusRequest st code err out) c c' ->
     sees (add_report (status_url a (Pod_ID pod)) (mkStatusRequest st code err out) l) c' w' -> Q x w') ->
  wp R (reportStatus a (Pod_ID pod) st code err out) Q w.
Proof using All.
  intros [Hl Hc] H. eapply wp_mono; [|apply env_report]. intros [] w' [Hl' Hs].
  subst c. eapply H; [exact Hs|]. split; [by rewrite Hl', Hl|done].
Qed.

Lemma wp_logs id (k : string -> prog AgE unit) Q l c w :
  sees l c w -> (forall text w', sees l c w' -> wp R (k text) Q w') ->
  wp R (collectContainerLogs id ≫= k) Q w.
Proof using All.
  intros Hs H. apply wp_bind. unfold collectContainerLogs.
  eapply wp_local; [done|exact Hs|]. intros [text|e] w' Hs'; by apply H.
Qed.

Ltac settle H1 H2 Hs := let He := fresh in
  destruct Hs as [? He]; rewrite <- He in H2;
  eapply (settled_intro _ _ _ _ _ H1 H2); [split; [eassumption|done]|reflexivity|pod_ends].

Section Paths.
Context (c0 c1 : C) (Hrun : step running_report c0 c1).
Let l1 : Ledger := add_report (status_url a (Pod_ID pod)) running_report no_entries.

Lemma subprocess_settles w :
  Pod_Image pod = "" -> sees l1 c1 w -> wp R (runSubprocessPod a pod) (fun _ => settled c0) w.
Proof using All.
  intros Hi Hs. unfold runSubprocessPod. eapply wp_local; [done|exact Hs|]. intros [output err] w1 Hs1.
  eapply wp_local; [done|exact Hs1|]. intros c w2 Hs2. destruct c.
  - eapply wp_final_report; [exact Hs2|]. intros _ c2 w3 H2 Hs3. settle Hrun H2 Hs3.
  - destruct err as [err|]; (eapply wp_outcome; [exact Hs2|]; intros _ c2 w3 H2 Hs3; settle Hrun H2 Hs3).
Qed.

(** The deferred removal after a final report. *)
Lemma removal_settles id l c2 r w :
  step r c1 c2 -> sees l c2 w ->
  l_reports l = [(status_url a (Pod_ID pod), running_report); (status_url a (Pod_ID pod), r)] ->
  pod_done a pod (note _ (EContainerRemove id) tt l) ->
  wp R (call (EContainerRemove id)) (fun _ => settled c0) w.
Proof using All.
  intros H2 Hs Hr Hd. eapply wp_last; [done|exact Hs|]. intros [] w' [Hl <-].
  eapply (settled_intro _ _ _ _ _ Hrun H2); [split; [exact Hl|done]|exact Hr|exact Hd].
Qed.

Lemma started_settles id w l :
  Pod_Image pod <> "" -> l = note _ (EContainerCreate (container_spec conv pod)) (inl id) l1 -> sees l c1 w ->
  wp R (_ ← run_started a pod id; call (EContainerRemove id)) (fun _ => settled c0) w.
Proof using All.
  intros Hi -> Hs. apply wp_bind. unfold run_started.
  eapply wp_local; [done|exact Hs|]. intros [err|] w1 Hs1.
  { eapply wp_outcome; [exact Hs1|]. intros _ c2 w2 H2 Hs2. eapply removal_settles; [exact H2|exact Hs2|done|pod_ends]. }
  eapply wp_local; [done|exact Hs1|]. intros r w2 Hs2. destruct r as [code err|err|].
  - eapply wp_logs; [exact Hs2|]. intros text w3 Hs3. destruct err as [err|].
    { eapply wp_outcome; [exact Hs3|]. intros _ c2 w4 H2 Hs4. eapply removal_settles; [exact H2|exact Hs4|done|pod_ends]. }
    destruct (Z.eqb_spec (int64_wrap code) 0) as [H0|H0]; cbn [negb];
      (eapply wp_outcome; [exact Hs3|]; intros _ c2 w4 H2 Hs4; eapply removal_settles; [exact H2|exact Hs4|done|]);
      unfold pod_done, verdict; cbn.
    + rewrite (bool_decide_true _ H0). pod_ends.
    + rewrite (bool_decide_false _ H0). pod_ends.
  - eapply wp_logs; [exact Hs2|]. intros text w3 Hs3. destruct err as [err|]; cbn [Z.eqb negb];
      (eapply wp_outcome; [exact Hs3|]; intros _ c2 w4 H2 Hs4; eapply removal_settles; [exact H2|exact Hs4|done|pod_ends]).
  - eapply wp_local; [done|exact Hs2|]. intros [] w3 Hs3. eapply wp_logs; [exact Hs3|]. intros text w4 Hs4.
    eapply wp_final_report; [exact Hs4|]. intros _ c2 w5 H2 Hs5.
    eapply removal_settles; [exact H2|exact Hs5|done|pod_ends].
Qed.

Lemma container_settles w :
  Pod_Image pod <> "" -> sees l1 c1 w -> wp R (runContainerPod conv a pod) (fun _ => settled c0) w.
Proof using All.
  intros Hi Hs. unfold runContainerPod. eapply wp_local; [done|exact Hs|]. intros [err|] w1 Hs1.
  { eapply wp_outcome; [exact Hs1|]. intros _ c2 w2 H2 Hs2. settle Hrun H2 Hs2. }
  eapply wp_local; [done|exact Hs1|]. intros [] w2 Hs2.
  eapply wp_local; [done|exact Hs2|]. intros [id|err] w3 Hs3.
  - eapply started_settles; [done|reflexivity|exact Hs3].
  - eapply wp_outcome; [exact Hs3|]. intros _ c2 w4 H2 Hs4. settle Hrun H2 Hs4.
Qed.
End Paths.

Lemma runPod_settles w : led w = no_entries -> wp R (runPod conv a pod) (fun _ => settled (aux w)) w.
Proof using All.
  intros Hl. unfold runPod. eapply wp_report; [by split|]. intros c1 w1 H1 Hs1.
  destruct (String.eqb_spec (Pod_Image pod) EmptyString) as [Hi|Hi]; cbn [negb].
  - by eapply subprocess_settles.
  - by eapply container_settles.
Qed.
End Pods.

(** ** On its own *)

Lemma do_noted {A} req want (out : Out A) l : wp noted (do req want out) (fun _ l' => l' = l) l.
Proof.
  unfold do. apply wp_call. intros sent l' ->. destruct sent; cbn [negb]; [|done].
  apply wp_call. intros [resp|err] l' ->; [|done].
  destruct (negb (rs_StatusCode resp =? want)%Z); [done|]. by destruct out.
Qed.

#[local] Instance noted_env a pod : PodEnv noted (fun l => l) (fun _ => tt) (fun _ _ _ => True) a pod.
Proof.
  split; [by intros X e w x w' _ ->|]. intros st code err out l.
  unfold reportStatus. apply wp_bind. unfold post. apply wp_call. intros [path|e] l' ->; [|done].
  eapply wp_mono; [|apply do_noted]. by intros r l' ->.
Qed.

(** Running a pod reports RUNNING first and then exactly one final status,
    both to the pod's own status URL, on every path and whatever the network, the
    process and Docker answer: CANCELLED if the agent was shutting down, SUCCEEDED
    with exit code 0 if the process or container ended cleanly, FAILED otherwise,
    so that the report is a legal transition from RUNNING; every container that
    was created is removed once; the counters of completed and failed jobs agree
    with the report; and a pod is executed by exactly one of the two paths, once. *)
Theorem runPod_correct (conv : float64 -> Z) (a : Agent) (pod : Pod) :
  wp noted (runPod conv a pod) (fun _ l => pod_done a pod l) no_entries.
Proof. eapply wp_mono; [|by apply runPod_settles]. by intros _ l []. Qed.

(** ** With the control plane *)

(** The agent's request as the server's decoder sees it. *)
Definition incoming (req : HttpRequest) (target : string) : Incoming :=
  mkIncoming (rq_Method req) target None
    (match rq_Body req with
     | RegisterBody r => Some (mkRegister (rr_Hostname r) (rr_Address r) (rr_Capacity r) (rr_MaxConcurrent r))
     | _ => None
     end)
    (match rq_Body req with
     | HeartbeatBody r => mkHeartbeat (hr_RunningJobs r) (hr_Available r)
     | _ => mkHeartbeat 0 zeroCapacity
     end)
    (match rq_Body req with
     | StatusBody r => Some (mkPodStatus (sr_Status r) (sr_ExitCode r) (sr_Error r) (sr_Output r))
     | _ => None
     end) None.

(** The server's answer as the agent's decoder sees it. *)
Definition answer {A} (out : Out A) (r : Response) : HttpResponse A :=
  mkHttpResponse (r_status r) "" ""
    (match out in Out A return A + string with
     | OutNil => inl tt
     | OutNode => match r_body r with BNode (Some n) => inl n | _ => inr "unexpected body" end
     | OutPoll => match r_body r with BPodField p => inl p | _ => inr "unexpected body" end
     end).

Section Composed.
Context `{SliceSort}.

(** A network that delivers every request to the control plane at [base], which
    routes it and runs the handler on a reliable store. *)
Definition net_rel (base : string) X (e : AgE X) : Ledger * World -> X -> Ledger * World -> Prop :=
  fun s x s' => s'.1 = note X e x s.1 /\
  match e in AgE X return X -> Prop with
  | ENewRequest _ _ _ => fun x => (exists path, x = inl path) /\ s'.2 = s.2
  | ESend _ => fun x => x = true /\ s'.2 = s.2
  | EReceive req out => fun x => exists target h resp,
      trim_prefix base (rq_URL req) = Some target /\
      cp_mux (incoming req target) = ToHandler h /\
      runs (cp_rel false) (NewRouter true h) s.2 resp s'.2 /\
      x = inl (answer out resp)
  | _ => fun _ => s'.2 = s.2
  end x.

(** A report, applied by the handler. *)
Definition applied (nodeID podID : string) (r : statusRequest) (w w' : World) : Prop :=
  cluster_wf (w_cluster w) ->
  cluster_wf (w_cluster w') /\ exists t, w_cluster w' =
    (reported nodeID podID (mkPodStatus (sr_Status r) (sr_ExitCode r) (sr_Error r) (sr_Output r)) t
       (w_cluster w)).2.

Lemma status_routed a podID r urlPath :
  plain_id (a_id a) = true -> plain_id podID = true ->
  cp_mux (incoming (mkHttpRequest CtxBackground "POST" (status_url a podID) urlPath (StatusBody r)) (status_path a podID)) =
  ToHandler (RUpdatePodStatus (a_id a) podID
    (Some (mkPodStatus (sr_Status r) (sr_ExitCode r) (sr_Error r) (sr_Output r)))).
Proof using Type.
  intros Ha Hp. rewrite (cp_mux_path _ ["api"; "v1"; "nodes"; a_id a; "pods"; podID; "status"] None).
  - vm_compute. reflexivity.
  - repeat constructor; assumption || reflexivity.
  - cbn [incoming in_Target]. by rewrite app_empty_r.
Qed.

#[local] Instance net_env a pod :
  plain_id (a_id a) = true -> plain_id (Pod_ID pod) = true ->
  PodEnv (net_rel (ControlPlaneURL (a_cfg a))) fst snd (applied (a_id a) (Pod_ID pod)) a pod.
Proof using Type.
  intros Ha Hp. split.
  { intros X e s x s' He [Hl Hw]. split; [done|]. by destruct e. }
  intros st code err out [l w]. unfold reportStatus. apply wp_bind. unfold post. apply wp_call.
  intros path [l1 w1] [Hl1 [[urlPath ->] Hw1]]. cbn in Hl1, Hw1. subst l1 w1. unfold do. apply wp_call.
  intros sent [l1 w1] [Hl1 [-> Hw1]]. cbn in Hl1, Hw1. subst l1 w1. cbn [negb]. apply wp_call.
  intros x [l1 w1] [Hl1 (target & h & resp & Ht & Hh & Hr & ->)]. cbn in Hl1, Hr. subst l1.
  cbn [rq_URL] in Ht. unfold status_path in *. rewrite trim_prefix_app in Ht. injection Ht as <-.
  fold (status_path a (Pod_ID pod)) in Hh. change (ControlPlaneURL (a_cfg a) +:+ status_path a (Pod_ID pod)) with (status_url a (Pod_ID pod)) in Hh.
  rewrite status_routed in Hh by done. injection Hh as <-.
  assert (Hgoal : applied (a_id a) (Pod_ID pod) (mkStatusRequest st code err out) w w1).
  { intros Hwf. split.
    - by destruct (wp_runs _ _ _ _ _ _ (wp_cluster_wf false _ w Hwf) Hr).
    - destruct (wp_runs _ _ _ _ _ _ (update_status_wp _ _ _ w Hwf) Hr) as (t & _ & Heq).
      exists t. exact (f_equal snd Heq). }
  by destruct (negb (rs_StatusCode (answer OutNil resp) =? 200)%Z).
Qed.

Lemma reported_legal nodeID podID req t c p :
  pods c !! podID = Some p -> Model.TransitionPod (Pod_Status p) (ps_Status req) = true ->
  (reported nodeID podID req t c).2 =
    let c2 := with_pods (<[podID := apply_pod_transition (ps_Status req) (ps_Error req) t
                             (pod_with_result (ps_ExitCode req) (ps_Output req) p)]> (pods c)) c in
    if bool_decide (Pod_Status p = PodRunning) && isPodTerminalish (ps_Status req)
    then release nodeID (Pod_DeploymentID p) c2 else c2.
Proof using Type. intros Hp Ht. unfold reported. by rewrite Hp, Ht. Qed.

(** The two reports of a scheduled pod. *)
Lemma reports_drive_pod nodeID podID final w0 w1 w2 p :
  cluster_wf (w_cluster w0) -> pods (w_cluster w0) !! podID = Some p -> Pod_Status p = PodScheduled ->
  Model.TransitionPod PodRunning (sr_Status final) = true ->
  applied nodeID podID running_report w0 w1 -> applied nodeID podID final w1 w2 ->
  exists p', pods (w_cluster w2) !! podID = Some p' /\
    Pod_Status p' = sr_Status final /\ Pod_ExitCode p' = sr_ExitCode final /\ Pod_Output p' = sr_Output final /\
    pod_template p' = pod_template p /\ is_Some (Pod_StartedAt p') /\
    (forall id, id <> podID -> pods (w_cluster w2) !! id = pods (w_cluster w0) !! id) /\
    nodes (w_cluster w2) = nodes (release nodeID (Pod_DeploymentID p) (w_cluster w0)).
Proof using Type.
  intros Hwf Hp Hst Hlegal H1 H2. destruct (H1 Hwf) as [Hwf1 (t1 & Hc1)]. destruct (H2 Hwf1) as [_ (t2 & Hc2)].
  assert (Hterm : isPodTerminalish (sr_Status final) = true).
  { apply TransitionPod_spec in Hlegal. cbn in Hlegal. destruct (sr_Status final); set_solver. }
  rewrite (reported_legal _ _ _ _ _ p) in Hc1 by (cbn; by rewrite ?Hst). cbv zeta in Hc1.
  rewrite Hst, (bool_decide_false (PodScheduled = PodRunning)) in Hc1 by done. cbn [andb] in Hc1.
  erewrite (reported_legal _ _ _ _ _ _) in Hc2; [|rewrite Hc1; apply lookup_insert_eq|exact Hlegal].
  cbv zeta in Hc2. cbn [ps_Status] in Hc2. rewrite Hterm, bool_decide_true in Hc2 by done. cbn [andb] in Hc2.
  rewrite Hc2, release_pods, Hc1. cbn [with_pods pods]. rewrite insert_insert_eq, lookup_insert_eq.
  eexists. split_and!; [reflexivity|done|done|done|done| | |].
  - cbn. destruct (sr_Status final); by destruct (Pod_StartedAt p).
  - intros id Hid. by rewrite lookup_insert_ne.
  - unfold release. cbn. by destruct (nodes (w_cluster w0) !! nodeID).
Qed.

End Composed.

(** ** Examples *)

Definition demo_agent : Agent :=
  mkAgent (mkConfig "http://localhost:7070" "host" "http://localhost:9100" fone 2048 2
             (5 * Second) (1 * Second) (10 * Second) "") "node_1".

Definition waiting_pod : Pod := demo_pod "pod_3" PodScheduled "node_1" 220.

(** The demo cluster with one more pod, assigned to [node_1] and not picked up. *)
Definition waiting_cluster : Cluster := with_pods (<["pod_3" := waiting_pod]> (pods demo_cluster)) demo_cluster.
Definition waiting_world : World := mkWorld waiting_cluster 1000 [] zeroStats.
Definition waiting_machine : Machine MemoryStore :=
  mkMachine (mkMemoryStore (deployments waiting_cluster) (pods waiting_cluster) (nodes waiting_cluster)
    (services waiting_cluster)) 0 [] zeroStats.

Lemma waiting_wf : cluster_wf waiting_cluster.
Proof. apply (bool_decide_unpack _). vm_compute. exact I. Qed.


(** *** Reports can be lost *)

(** The control plane as a program on a concrete store, behind a network that
    may lose a request. *)
Definition lossy_rel (o : Oracle) (base : string) X (e : AgE X)
    : Ledger * Machine MemoryStore -> X -> Ledger * Machine MemoryStore -> Prop :=
  fun s x s' => s'.1 = note X e x s.1 /\
  match e in AgE X return X -> Prop with
  | EReceive req out => fun x =>
      ((exists err, x = inr err) /\ s'.2 = s.2) \/
      exists target h, trim_prefix base (rq_URL req) = Some target /\
        cp_mux (incoming req target) = ToHandler h /\
        (x, s'.2) = (let '(resp, m) := run (cp_handle o) (NewRouter true h) s.2 in (inl (answer out resp), m))
  | _ => fun _ => s'.2 = s.2
  end x.

Definition poll_answer (o : Oracle) (node : string) (m : Machine MemoryStore) : option Pod :=
  match r_body (run (cp_handle o) (PollPods node) m).1 with BPodField p => p | _ => None end.

(** What the agent and the control plane are left with when the first report is
    lost and the second one is delivered. *)
Definition late_report : statusRequest := mkStatusRequest PodSucceeded (Some 0%Z) "" "done".
Definition late_ledger : Ledger :=
  mkLedger [(status_url demo_agent "pod_3", running_report); (status_url demo_agent "pod_3", late_report)]
    [("sleep", ["1"], None)] [] [] [] false 1 0.
Definition late_run : Response * Machine MemoryStore :=
  run (cp_handle (test_oracle 1000))
    (UpdatePodStatus "node_1" "pod_3" (Some (mkPodStatus PodSucceeded (Some 0%Z) "" "done"))) waiting_machine.

Lemma late_report_delivered :
  runs (lossy_rel (test_oracle 1000) "http://localhost:7070")
    (reportStatus demo_agent "pod_3" PodSucceeded (Some 0%Z) "" "done")
    (mkLedger [(status_url demo_agent "pod_3", running_report)] [("sleep", ["1"], None)] [] [] [] false 0 0,
     waiting_machine) tt
    (mkLedger (l_reports late_ledger) [("sleep", ["1"], None)] [] [] [] false 0 0, late_run.2).
Proof.
  exists (inl "/"). eexists (_, _). split; [split; [reflexivity|reflexivity]|].
  exists true. eexists (_, _). split; [split; [reflexivity|reflexivity]|].
  exists (inl (answer OutNil late_run.1)), (mkLedger (l_reports late_ledger) [("sleep", ["1"], None)] [] [] [] false 0 0, late_run.2).
  split.
  - split; [reflexivity|]. right. exists (status_path demo_agent "pod_3"). eexists.
    split; [reflexivity|]. split; [by apply status_routed|].
    cbn [NewRouter snd]. unfold late_run. by destruct (run _ _ _).
  - cbn [prog_bind]. by destruct (negb (rs_StatusCode (answer OutNil late_run.1) =? 200)%Z).
Qed.

Ltac run_step x := exists x; eexists (_, _); split; [split; reflexivity|].

(** An execution in which a pod that ran successfully runs again: the network
    loses the RUNNING report, the agent executes the pod anyway and its SUCCEEDED
    report is refused because the stored pod is still SCHEDULED, so that the
    agent's next poll is handed the same pod. *)
Theorem lost_report_runs_again (conv : float64 -> Z) :
  exists l m, runs (lossy_rel (test_oracle 1000) "http://localhost:7070") (runPod conv demo_agent waiting_pod)
      (no_entries, waiting_machine) tt (l, m) /\
    verdict l = PodSucceeded /\
    poll_answer (test_oracle 1000) "node_1" waiting_machine = Some waiting_pod /\
    Pod_ID <$> poll_answer (test_oracle 1000) "node_1" m = Some "pod_3".
Proof.
  exists late_ledger, late_run.2. split; [|split_and!; vm_compute; reflexivity].
  run_step (@inl string string "/"). run_step true.
  exists (inr "timeout"). eexists (_, _). split; [split; [reflexivity|left; by eauto]|].
  run_step ("done", @None RunError). run_step false.
  eapply runs_bind; [exact late_report_delivered|]. by exists tt, (late_ledger, late_run.2).
Qed.
