(* ===== verification/AgentExamples.v ===== *)
(** * control-plane/internal/worker: executions of the agent

    Concrete interleavings of an agent process, which instantiate its
    invariants, and two executions the code allows that its comments do not
    mention: [Run] returning while a pod runs, and one pod started twice. *)

From S2P Require Import Prelude Model Store Runtime Fixtures MemoryStore Api Agent AgentProperties.
From S2P Require Import AgentShutdown AgentPods.
From Stdlib Require Import ZArith Lia.
From stdpp Require Import base gmap strings list.

Definition demo_config : Config := a_cfg demo_agent.

Definition answered {A} (code : Z) (x : A) : HttpResponse A + string :=
  inl (mkHttpResponse code "" "" (inl x)).

Ltac step_main v := eapply rtc_l; [eapply (as_main _ _ _ _ _ _ v); cbn; by auto|];
  cbn [app spawned start_all fmap list_fmap].
Ltac step_thread i v := eapply rtc_l; [eapply (as_thread _ _ _ i _ _ _ _ v); [reflexivity|cbn; by auto]|];
  cbn [app insert list_insert spawned start_all fmap list_fmap].

(** Registration and the start of the two loops; goroutine 0 sends heartbeats,
    goroutine 1 polls. *)
Ltac register_agent :=
  step_main (@inl string string "/api/v1/nodes/register"); step_main true;
  step_main (answered 201 (demo_node "node_1" NodeHealthy 0 300)); step_main tt;
  step_main tt; step_main tt; step_main tt.

(** One round of the poll loop up to the answer. *)
Ltac send_poll :=
  step_thread 1 true; step_thread 1 true;
  step_thread 1 (@inl string string "/api/v1/nodes/node_1/pods/poll"); step_thread 1 true.

Ltac start_pod n :=
  step_thread 1 (answered 200 (Some waiting_pod)); step_thread 1 tt; step_thread 1 n; step_thread 1 tt;
  step_thread 1 tt.

Ltac lose_report i :=
  step_thread i (@inl string string "/"); step_thread i true;
  step_thread i (@inr (HttpResponse unit) string "timeout").

Section Runs.
Variable conv : float64 -> Z.

Lemma abandoning_run : exists s,
  rtc (agent_step conv demo_config 2) (agent_start demo_config) s /\
  s_main s = Ret None /\ live_pods s = 1%Z.
Proof.
  eexists. split; [unfold agent_start|].
  - register_agent. send_poll. eapply rtc_l; [apply as_signal|].
    step_main tt. step_main tt. step_thread 2 tt. step_thread 2 tt. step_main true.
    start_pod 1%Z. step_thread 1 false. step_thread 1 tt. step_thread 0 false. step_thread 0 tt.
    step_main tt. step_main tt. apply rtc_refl.
  - done.
Qed.

Lemma doubling_run : exists s,
  rtc (agent_step conv demo_config 3) (agent_start demo_config) s /\
  (s_threads s).*1 = [GHeartbeat; GPoll; GPod waiting_pod; GPod waiting_pod] /\
  live_pods s = 2%Z /\ executing s = 2%Z.
Proof.
  eexists. split; [unfold agent_start|].
  - register_agent. send_poll. start_pod 1%Z. send_poll. start_pod 2%Z.
    lose_report 2. lose_report 3. apply rtc_refl.
  - done.
Qed.

(** [Run] can return while a pod is being executed: a poll answered with a pod
    just when the agent is told to stop starts the pod's goroutine after the wait
    group was seen at zero, so that [Run] does not wait for it. *)
Theorem Run_can_abandon_pod : exists s,
  rtc (agent_step conv demo_config 2) (agent_start demo_config) s /\
  s_main s = Ret None /\ live_pods s = 1%Z.
Proof. apply abandoning_run. Qed.

(** One pod can be executed twice at the same time by one agent: until its
    RUNNING report is recorded the control plane answers every poll of the node
    with the same SCHEDULED pod, and an agent with two slots starts a second
    goroutine for it. *)
Theorem pod_can_start_twice :
  (let m := waiting_machine in let o := test_oracle 1000 in
   poll_answer o "node_1" m = Some waiting_pod /\
   poll_answer o "node_1" (run (cp_handle o) (PollPods "node_1") m).2 = Some waiting_pod) /\
  exists s, rtc (agent_step conv demo_config 3) (agent_start demo_config) s /\
    (s_threads s).*1 = [GHeartbeat; GPoll; GPod waiting_pod; GPod waiting_pod] /\
    live_pods s = 2%Z /\ executing s = 2%Z.
Proof. split; [split; vm_compute; reflexivity|apply doubling_run]. Qed.
End Runs.

Lemma agent_slots_witness : exists s, executing s = 2%Z /\ (p_sem (s_proc s) <= 2)%Z.
Proof.
  destruct (doubling_run (fun _ => 0%Z)) as (s & Hr & _ & _ & He). exists s. split; [exact He|].
  destruct (agent_slots (fun _ => 0%Z) demo_config 3 s Hr) as [[_ H] _]. exact H.
Defined.

Lemma Run_drains_witness : exists s, s_main s = Ret None /\ p_drained (s_proc s) = true.
Proof.
  destruct (abandoning_run (fun _ => 0%Z)) as (s & Hr & Hm & _). exists s. split; [exact Hm|].
  apply (Run_drains (fun _ => 0%Z) demo_config 2 s Hr Hm).
Defined.
