(* ===== verification/GoFormat.v ===== *)
(** * More of the Go standard library on text

    [%q] ([strconv.Quote]) and [%f] of fmt, [strconv.ParseFloat],
    [strconv.ParseInt] in base 0, and command lines as package flag reads them
    with [ExitOnError]. *)

From S2P Require Import Prelude GoText Http.
From Stdlib Require Import ZArith Lia Ascii SpecFloat.
From stdpp Require Import base gmap strings list.
Local Open Scope go_scope.

(** ** [%q] *)

Definition quote_mark : ascii := ascii_of_nat 34.
Definition backslash : ascii := ascii_of_nat 92.

(** The letter of a one-letter escape: [\a \b \f \n \r \t \v], the quote and the
    backslash. *)
Definition escape_letters : list (Z * ascii) :=
  [(7, "a"); (8, "b"); (12, "f"); (10, "n"); (13, "r"); (9, "t"); (11, "v");
   (34, quote_mark); (92, backslash)]%Z%char.

Fixpoint assoc_letter (n : Z) (l : list (Z * ascii)) : option ascii :=
  match l with [] => None | (m, c) :: l => if (n =? m)%Z then Some c else assoc_letter n l end.
Fixpoint letter_code (c : ascii) (l : list (Z * ascii)) : option Z :=
  match l with [] => None | (m, d) :: l => if Ascii.eqb c d then Some m else letter_code c l end.

(** One byte of the text; those of multi-byte runes are taken to be printable. *)
Definition quote_char (c : ascii) : string :=
  match assoc_letter (code c) escape_letters with
  | Some letter => String backslash (String letter EmptyString)
  | None =>
      if ((code c <? 32) || (code c =? 127))%Z
      then String backslash (String "x" (String (hex_digit (code c / 16)) (String (hex_digit (code c mod 16)) EmptyString)))
      else String c EmptyString
  end.

Fixpoint quote_body (s : string) : string :=
  match s with EmptyString => EmptyString | String c rest => quote_char c +:+ quote_body rest end.

Definition Quote (s : string) : string :=
  String quote_mark (quote_body s +:+ String quote_mark EmptyString).

(** Reading a quoted text back, up to its closing mark; what follows it. *)
Fixpoint unquote_body (s : string) : option (string * string) :=
  match s with
  | EmptyString => None
  | String c rest =>
      if Ascii.eqb c quote_mark then Some (EmptyString, rest)
      else if Ascii.eqb c backslash then
        match rest with
        | String l rest1 =>
            match letter_code l escape_letters with
            | Some n => '(s, t) ← unquote_body rest1; Some (String (of_code n) s, t)
            | None =>
                match rest1 with
                | String a (String b rest3) =>
                    if Ascii.eqb l "x" then
                      x ← unhex a; y ← unhex b; '(s, t) ← unquote_body rest3;
                      Some (String (of_code (16 * x + y)) s, t)
                    else None
                | _ => None
                end
            end
        | EmptyString => None
        end
      else '(s, t) ← unquote_body rest; Some (String c s, t)
  end.

Lemma unquote_char c rest :
  unquote_body (quote_char c +:+ rest) = ('(s, t) ← unquote_body rest; Some (String c s, t)).
Proof.
  pose (plain c := negb (Ascii.eqb c quote_mark) && negb (Ascii.eqb c backslash)).
  assert (Hall : forall c,
    match assoc_letter (code c) escape_letters with
    | Some l => bool_decide (letter_code l escape_letters = Some (code c)) && Ascii.eqb (of_code (code c)) c
    | None =>
        if ((code c <? 32) || (code c =? 127))%Z then
          match unhex (hex_digit (code c / 16)), unhex (hex_digit (code c mod 16)) with
          | Some x, Some y => Ascii.eqb (of_code (16 * x + y)) c
          | _, _ => false
          end
        else plain c
    end = true).
  { apply every_char. vm_compute. reflexivity. }
  specialize (Hall c). unfold quote_char.
  destruct (assoc_letter (code c) escape_letters) as [l|].
  - apply andb_prop in Hall as [Hl%bool_decide_eq_true Hc%Ascii.eqb_eq].
    change (unquote_body (String backslash (String l EmptyString) +:+ rest))
      with (match letter_code l escape_letters with
            | Some n => '(s, t) ← unquote_body rest; Some (String (of_code n) s, t)
            | None => match rest with
                | String a (String b rest3) =>
                    if Ascii.eqb l "x" then
                      x ← unhex a; y ← unhex b; '(s, t) ← unquote_body rest3;
                      Some (String (of_code (16 * x + y)) s, t)
                    else None
                | _ => None
                end
            end).
    by rewrite Hl, Hc.
  - destruct ((code c <? 32) || (code c =? 127))%Z.
    + destruct (unhex (hex_digit (code c / 16))) as [x|] eqn:Hx; [|done].
      destruct (unhex (hex_digit (code c mod 16))) as [y|] eqn:Hy; [|done].
      apply Ascii.eqb_eq in Hall.
      set (a := hex_digit (code c / 16)) in *. set (b := hex_digit (code c mod 16)) in *.
      change (unquote_body (String backslash (String "x" (String a (String b EmptyString))) +:+ rest))
        with (x ← unhex a; y ← unhex b; '(s, t) ← unquote_body rest; Some (String (of_code (16 * x + y)) s, t)).
      rewrite Hx, Hy. cbn [mbind option_bind]. by rewrite Hall.
    + unfold plain in Hall. apply andb_prop in Hall as [H1%negb_true_iff H2%negb_true_iff].
      change (String c EmptyString +:+ rest) with (String c rest). cbn [unquote_body]. by rewrite H1, H2.
Qed.

(** A quoted text is read back exactly, whatever follows it. *)
Lemma unquote_Quote s rest :
  (match Quote s +:+ rest with String _ t => unquote_body t | EmptyString => None end) = Some (s, rest).
Proof.
  change (Quote s +:+ rest) with (String quote_mark ((quote_body s +:+ String quote_mark EmptyString) +:+ rest)).
  cbn match. induction s as [|c s IH]; [done|]. cbn [quote_body].
  rewrite !app_assoc_str, unquote_char. rewrite app_assoc_str in IH. by rewrite IH.
Qed.

(** No quoted text contains a line feed. *)
Lemma quote_body_line s : has_char (ascii_of_nat 10) (quote_body s) = false.
Proof.
  induction s as [|c s IH]; [done|]. cbn [quote_body]. rewrite has_char_app, IH, orb_false_r.
  apply negb_true_iff. revert c. apply every_char. vm_compute. reflexivity.
Qed.

Lemma Quote_line s : has_char (ascii_of_nat 10) (Quote s) = false.
Proof.
  unfold Quote. change (has_char (ascii_of_nat 10) (quote_body s +:+ String quote_mark EmptyString) = false).
  by rewrite has_char_app, quote_body_line.
Qed.

(** ** [%f] *)

(** [n / d] rounded to the nearest integer, halves to the even one. *)
Definition round_half_even (n d : Z) : Z :=
  let q := (n / d)%Z in
  let r := (n mod d)%Z in
  if (2 * r <? d)%Z then q
  else if (d <? 2 * r)%Z then (q + 1)%Z
  else if Z.even q then q else (q + 1)%Z.

Fixpoint pad_digits (k : nat) (n : Z) (acc : string) : string :=
  match k with O => acc | S k => pad_digits k (n / 10) (String (digit_char (n mod 10)) acc) end.

(** Six digits after the point, correctly rounded. *)
Definition format_f (f : float64) : string :=
  match f with
  | S754_nan => "NaN"
  | S754_infinity s => if s then "-Inf" else "+Inf"
  | S754_zero s => (if s then "-" else EmptyString) +:+ "0.000000"
  | S754_finite s m e =>
      let n := if (0 <=? e)%Z then (Z.pos m * 2 ^ e * 1000000)%Z
               else round_half_even (Z.pos m * 1000000) (2 ^ (- e)) in
      (if s then "-" else EmptyString) +:+ itoa (n / 1000000) +:+ "." +:+ pad_digits 6 (n mod 1000000) EmptyString
  end.

(** ** [strconv.ParseFloat] and [strconv.ParseInt(s, 0, 64)] *)

Definition lower_code (c : ascii) : Z := code (lower c).
Definition is_char (c d : ascii) : bool := Ascii.eqb c d.

(** The digit a character stands for, at most 36. *)
Definition digit_of (c : ascii) : option Z :=
  if is_digit c then Some (code c - 48)%Z
  else if ((97 <=? lower_code c) && (lower_code c <=? 122))%Z then Some (lower_code c - 87)%Z
  else None.

(** [underscoreOK]: underscores only between digits, or after a base prefix. *)
Inductive Saw := SawStart | SawDigit | SawUnderscore | SawOther.
Fixpoint underscore_scan (hex : bool) (saw : Saw) (s : string) : bool :=
  match s with
  | EmptyString => match saw with SawUnderscore => false | _ => true end
  | String c rest =>
      if is_digit c || (hex && ((97 <=? lower_code c) && (lower_code c <=? 102))%Z)
      then underscore_scan hex SawDigit rest
      else if is_char c "_" then
        match saw with SawDigit => underscore_scan hex SawUnderscore rest | _ => false end
      else match saw with SawUnderscore => false | _ => underscore_scan hex SawOther rest end
  end.

Definition cut_sign (s : string) : bool * string :=
  match s with
  | String c rest => if is_char c "-" then (true, rest) else if is_char c "+" then (false, rest) else (false, s)
  | EmptyString => (false, s)
  end.

Definition underscoreOK (s : string) : bool :=
  let s := (cut_sign s).2 in
  match s with
  | String z (String p rest) =>
      if is_char z "0" && bool_decide (lower p ∈ ["b"; "o"; "x"]%char)
      then underscore_scan (is_char (lower p) "x") SawDigit rest
      else underscore_scan false SawStart s
  | _ => underscore_scan false SawStart s
  end.

(** The mantissa of [readFloat]: the value of the digits, how many follow the
    point, whether there was one, and what is left. *)
Fixpoint read_mantissa (base : Z) (s : string) (m : Z) (frac : option Z) (saw : bool)
    : Z * Z * bool * string :=
  let stop := (m, default 0%Z frac, saw, s) in
  match s with
  | EmptyString => stop
  | String c rest =>
      if is_char c "_" then read_mantissa base rest m frac saw
      else if is_char c "." then
        match frac with Some _ => stop | None => read_mantissa base rest m (Some 0%Z) saw end
      else
        match digit_of c with
        | Some d => if (d <? base)%Z
                    then read_mantissa base rest (m * base + d) (Z.succ <$> frac) true
                    else stop
        | None => stop
        end
  end.

(** The digits of an exponent, which saturate; [None] if there are none. *)
Fixpoint read_exponent (s : string) (e : Z) (saw : bool) : option Z :=
  match s with
  | EmptyString => if saw then Some e else None
  | String c rest =>
      if is_char c "_" then if saw then read_exponent rest e saw else None
      else if is_digit c then read_exponent rest (if (e <? 10000)%Z then e * 10 + (code c - 48) else e)%Z true
      else None
  end.

(** [m * 2^e] and [m * 10^e], rounded. *)
Definition round_binary (neg : bool) (m e : Z) : float64 :=
  if (m =? 0)%Z then S754_zero neg
  else let f := binary_normalize 53 1024 m e false in if neg then SFopp f else f.
Definition round_decimal (neg : bool) (m e : Z) : float64 :=
  if (m =? 0)%Z then S754_zero neg
  else
    let f := if (0 <=? e)%Z then binary_normalize 53 1024 (m * 10 ^ e) 0 false
             else SFdiv 53 1024 (S754_finite false (Z.to_pos m) 0) (S754_finite false (Z.to_pos (10 ^ (- e))) 0) in
    if neg then SFopp f else f.

Definition in_range (f : float64) : option float64 :=
  match f with S754_infinity _ => None | _ => Some f end.

(** "inf", "infinity" and "nan" in any case; a sign only before the first two. *)
Definition special (s : string) : option float64 :=
  let '(neg, body) := cut_sign (ToLower s) in
  if String.eqb body "inf" || String.eqb body "infinity" then Some (S754_infinity neg)
  else if String.eqb (ToLower s) "nan" then Some S754_nan else None.

Definition read_float (s : string) : option float64 :=
  let '(neg, body) := cut_sign s in
  let '(base, digits) :=
    match body with
    | String z (String x rest) => if is_char z "0" && is_char (lower x) "x" then (16%Z, rest) else (10%Z, body)
    | _ => (10%Z, body)
    end in
  let '(m, frac, saw, rest) := read_mantissa base digits 0 None false in
  if negb saw then None
  else
    let exponent :=
      match rest with
      | EmptyString => if (base =? 16)%Z then None else Some 0%Z
      | String c rest =>
          if is_char (lower c) (if (base =? 16)%Z then "p" else "e")%char then
            let '(eneg, rest) := cut_sign rest in
            e ← read_exponent rest 0 false; Some (if eneg : bool then (- e)%Z else e)
          else None
      end in
    match exponent with
    | None => None
    | Some e =>
        if has_char "_" s && negb (underscoreOK s) then None
        else in_range (if (base =? 16)%Z then round_binary neg m (e - 4 * frac) else round_decimal neg m (e - frac))
    end.

(** [None] stands for every error, [ErrRange] included. *)
Definition ParseFloat (s : string) : option float64 :=
  match special s with Some f => Some f | None => read_float s end.

Fixpoint read_uint (base : Z) (s : string) (n : Z) : option Z :=
  match s with
  | EmptyString => Some n
  | String c rest =>
      if is_char c "_" then read_uint base rest n
      else
        match digit_of c with
        | Some d => if (d <? base)%Z then read_uint base rest (n * base + d) else None
        | None => None
        end
  end.

Definition ParseInt0 (s : string) : option Z :=
  let '(neg, body) := cut_sign s in
  let '(base, digits) :=
    match body with
    | String z (String p (String _ _ as rest)) =>
        if negb (is_char z "0") then (10%Z, body)
        else if is_char (lower p) "b" then (2%Z, rest)
        else if is_char (lower p) "o" then (8%Z, rest)
        else if is_char (lower p) "x" then (16%Z, rest)
        else (8%Z, String p rest)
    | String z rest => if is_char z "0" then (8%Z, rest) else (10%Z, body)
    | EmptyString => (10%Z, body)
    end in
  if String.eqb body EmptyString then None
  else
    match read_uint base digits 0 with
    | None => None
    | Some n =>
        if has_char "_" s && negb (underscoreOK s) then None
        else
          let n := if neg : bool then (- n)%Z else n in
          if ((min_int64 <=? n) && (n <=? max_int64))%Z then Some n else None
    end.

Example format_examples :
  Quote (String "a" (String (ascii_of_nat 9) (String (ascii_of_nat 34) "b"))) =
    String quote_mark ("a" +:+ String backslash "t" +:+ String backslash (String quote_mark ("b" +:+ String quote_mark EmptyString))) /\
  format_f (fdiv (float_of_Z 1234567891) f1e9) = "1.234568" /\ format_f (float_of_Z (-2)) = "-2.000000" /\
  format_f fzero = "0.000000".
Proof. vm_compute. split_and!; reflexivity. Qed.

Example number_examples :
  ParseFloat "2.5" = Some (fdiv (float_of_Z 5) (float_of_Z 2)) /\ ParseFloat "0x1p-2" = Some (fdiv (float_of_Z 1) (float_of_Z 4)) /\
  ParseFloat "1e400" = None /\ ParseFloat "-Inf" = Some (S754_infinity true) /\ ParseFloat "1.2.3" = None /\
  ParseFloat "1_0e-1" = Some (float_of_Z 1) /\ ParseFloat "0.1" = Some (fdiv (float_of_Z 1) (float_of_Z 10)) /\
  ParseInt0 "0x1F" = Some 31%Z /\ ParseInt0 "-0b101" = Some (-5)%Z /\ ParseInt0 "017" = Some 15%Z /\
  ParseInt0 "1_000" = Some 1000%Z /\ ParseInt0 "9223372036854775808" = None /\ ParseInt0 "08" = None.
Proof. vm_compute. split_and!; reflexivity. Qed.

(** ** Package flag *)

Inductive FlagValue := FString (s : string) | FInt (n : Z) | FDuration (d : Duration).

(** What [Parse] does: the flags' values and the remaining arguments, or the
    exit status of the process ([ExitOnError]): 0 for a request for help, 2 for
    an error. *)
Inductive Parsed :=
| Flags (values : gmap string FlagValue) (rest : list string)
| FlagExit (status : Z).

Definition set_flag (old : FlagValue) (value : string) : option FlagValue :=
  match old with
  | FString _ => Some (FString value)
  | FInt _ => FInt <$> ParseInt0 value
  | FDuration _ => FDuration <$> ParseDuration value
  end.

(** [formal] are the flags defined, with their current values. *)
Fixpoint parse_args (fuel : nat) (formal : gmap string FlagValue) (args : list string) : Parsed :=
  match fuel, args with
  | O, _ | _, [] => Flags formal args
  | S fuel, s :: rest =>
      match s with
      | String d (String c body) =>
          if negb (is_char d "-") then Flags formal args
          else if is_char c "-" && String.eqb body EmptyString then Flags formal rest
          else
            let name := if is_char c "-" then body else String c body in
            match name with
            | String n0 _ =>
                if is_char n0 "-" || is_char n0 "=" then FlagExit 2
                else
                  let '(name, value, hasValue) := cut_at "=" name in
                  match formal !! name with
                  | None => FlagExit (if String.eqb name "help" || String.eqb name "h" then 0 else 2)
                  | Some old =>
                      let given :=
                        if hasValue : bool then Some (value, rest)
                        else match rest with v :: rest => Some (v, rest) | [] => None end in
                      match given with
                      | None => FlagExit 2
                      | Some (v, rest) =>
                          match set_flag old v with
                          | None => FlagExit 2
                          | Some new => parse_args fuel (<[name := new]> formal) rest
                          end
                      end
                  end
            | EmptyString => FlagExit 2
            end
      | _ => Flags formal args
      end
  end.

(** Every flag consumes an argument. *)
Definition flag_Parse (formal : list (string * FlagValue)) (args : list string) : Parsed :=
  parse_args (S (length args)) (list_to_map formal) args.

Definition flag_string (values : gmap string FlagValue) (name : string) : string :=
  match values !! name with Some (FString s) => s | _ => EmptyString end.
Definition flag_int (values : gmap string FlagValue) (name : string) : Z :=
  match values !! name with Some (FInt n) => n | _ => 0%Z end.
Definition flag_duration (values : gmap string FlagValue) (name : string) : Duration :=
  match values !! name with Some (FDuration d) => d | _ => 0%Z end.

Example flag_examples :
  flag_Parse [("name", FString ""); ("n", FInt 3)] ["--name"; "x"; "-n=0x10"; "rest"; "-n"; "1"]
    = Flags (<["n" := FInt 16]> {[ "name" := FString "x" ]}) ["rest"; "-n"; "1"] /\
  flag_Parse [("n", FInt 3)] ["-n"; "x"] = FlagExit 2 /\ flag_Parse [] ["-h"] = FlagExit 0.
Proof. vm_compute. split_and!; reflexivity. Qed.
