(* ===== verification/Settings.v ===== *)
(** * Environment settings, log levels and command lines

    config.Load of the control plane and of the job orchestrator, the settings
    of the worker agent (cmd/worker), the command line of the job orchestrator,
    and the log levels of the three programs.  The environment is a function:
    [os.Getenv] returns the empty string for a variable that is not set. *)

From S2P Require Import Prelude GoText Http GoFormat Agent.
From Stdlib Require Import ZArith Lia Ascii.
From stdpp Require Import base gmap strings list.
Local Open Scope go_scope.

(** ** Reading one variable *)

Abbreviation Env := (string -> string) (only parsing).

Definition envString (env : Env) (key def : string) : string :=
  let v := env key in if negb (String.eqb v EmptyString) then v else def.

(** [v == ""] or an error of the parser: the default. *)
Definition env_parsed {A} (parse : string -> option A) (env : Env) (key : string) (def : A) : A :=
  let v := env key in
  if String.eqb v EmptyString then def
  else match parse v with None => def | Some n => n end.

Definition envInt : Env -> string -> Z -> Z := env_parsed Atoi.
Definition envFloat : Env -> string -> float64 -> float64 := env_parsed ParseFloat.
Definition envDuration : Env -> string -> Duration -> Duration := env_parsed ParseDuration.

(** ** control-plane/config/config.go *)

Record ControlPlaneConfig := mkControlPlaneConfig {
  cp_Port : Z; cp_LogLevel : string; cp_LogFormat : string; cp_DBPath : string;
  cp_SchedulerInterval : Duration; cp_ReconcileInterval : Duration;
  cp_HeartbeatTimeout : Duration; cp_ShutdownTimeout : Duration }.

Definition LoadControlPlane (env : Env) : ControlPlaneConfig := {|
  cp_Port := envInt env "CTRLPLANE_PORT" 7070;
  cp_LogLevel := envString env "CTRLPLANE_LOG_LEVEL" "info";
  cp_LogFormat := envString env "CTRLPLANE_LOG_FORMAT" "json";
  cp_DBPath := envString env "CTRLPLANE_DB_PATH" "";
  cp_SchedulerInterval := envDuration env "CTRLPLANE_SCHEDULER_INTERVAL" (500 * Millisecond);
  cp_ReconcileInterval := envDuration env "CTRLPLANE_RECONCILE_INTERVAL" (2 * Second);
  cp_HeartbeatTimeout := envDuration env "CTRLPLANE_HEARTBEAT_TIMEOUT" (15 * Second);
  cp_ShutdownTimeout := envDuration env "CTRLPLANE_SHUTDOWN_TIMEOUT" (10 * Second) |}.

(** ** ml-job-orchestrator/config/config.go *)

Record OrchestratorConfig := mkOrchestratorConfig {
  oc_Port : Z; oc_NumWorkers : Z; oc_QueueSize : Z; oc_MaxJobHistory : Z; oc_ShutdownTimeout : Duration }.

(** Its own helpers. *)
Definition orchestrator_envInt : Env -> string -> Z -> Z := env_parsed Atoi.
Definition orchestrator_envDuration : Env -> string -> Duration -> Duration := env_parsed ParseDuration.

Definition LoadOrchestrator (env : Env) : OrchestratorConfig := {|
  oc_Port := orchestrator_envInt env "MLORCH_PORT" 8080;
  oc_NumWorkers := orchestrator_envInt env "MLORCH_NUM_WORKERS" 4;
  oc_QueueSize := orchestrator_envInt env "MLORCH_QUEUE_SIZE" 100;
  oc_MaxJobHistory := orchestrator_envInt env "MLORCH_MAX_JOB_HISTORY" 1000;
  oc_ShutdownTimeout := orchestrator_envDuration env "MLORCH_SHUTDOWN_TIMEOUT" (30 * Second) |}.

(** The flags of cmd/orchestrator: the environment gives their defaults. *)
Definition orchestrator_flags (cfg : OrchestratorConfig) : list (string * FlagValue) :=
  [("port", FInt (oc_Port cfg)); ("workers", FInt (oc_NumWorkers cfg)); ("log-level", FString "info")].

(** The settings [main] of cmd/orchestrator runs with and its log level, or the
    exit status of a command line it refuses. *)
Definition orchestrator_settings (env : Env) (args : list string) : (OrchestratorConfig * string) + Z :=
  let cfg := LoadOrchestrator env in
  match flag_Parse (orchestrator_flags cfg) args with
  | FlagExit status => inr status
  | Flags v _ =>
      inl ({| oc_Port := flag_int v "port"; oc_NumWorkers := flag_int v "workers";
              oc_QueueSize := oc_QueueSize cfg; oc_MaxJobHistory := oc_MaxJobHistory cfg;
              oc_ShutdownTimeout := oc_ShutdownTimeout cfg |}, flag_string v "log-level")
  end.

(** ** control-plane/cmd/worker *)

(** Its own helpers. *)
Definition worker_envString (env : Env) (key def : string) : string :=
  let v := env key in if negb (String.eqb v EmptyString) then v else def.
Definition worker_envInt : Env -> string -> Z -> Z := env_parsed Atoi.
Definition worker_envDuration : Env -> string -> Duration -> Duration := env_parsed ParseDuration.

(** The agent's configuration and the port of its metrics listener; [hostname]
    is what [os.Hostname] reported, empty when it failed. *)
Definition worker_settings (env : Env) (hostname : string) : Config * Z :=
  let metricsPort := worker_envInt env "WORKER_METRICS_PORT" 9100 in
  ({| ControlPlaneURL := worker_envString env "WORKER_CONTROL_PLANE_URL" "http://localhost:7070";
      Hostname := worker_envString env "WORKER_HOSTNAME" hostname;
      Address := worker_envString env "WORKER_ADDRESS" ("http://localhost:" +:+ itoa metricsPort);
      CPU := envFloat env "WORKER_CPU" (float_of_Z 2);
      MemoryMB := worker_envInt env "WORKER_MEMORY_MB" 2048;
      MaxConcurrentJobs := worker_envInt env "WORKER_MAX_CONCURRENT_JOBS" 4;
      HeartbeatInterval := worker_envDuration env "WORKER_HEARTBEAT_INTERVAL" (5 * Second);
      PollInterval := worker_envDuration env "WORKER_POLL_INTERVAL" (1 * Second);
      ShutdownTimeout := worker_envDuration env "WORKER_SHUTDOWN_TIMEOUT" (10 * Second);
      DockerHost := worker_envString env "WORKER_DOCKER_HOST" "" |}, metricsPort).

(** ** Log levels *)

Inductive Level := LevelDebug | LevelInfo | LevelWarn | LevelError.
Inductive LogFormat := TextHandler | JSONHandler.
#[global] Instance Level_eq_dec : EqDecision Level.
Proof. solve_decision. Defined.
#[global] Instance LogFormat_eq_dec : EqDecision LogFormat.
Proof. solve_decision. Defined.

(** logging.New of the control plane. *)
Definition NewLogger (level format : string) : Level * LogFormat :=
  let level := ToLower level in
  (if String.eqb level "debug" then LevelDebug
   else if String.eqb level "warn" || String.eqb level "warning" then LevelWarn
   else if String.eqb level "error" then LevelError
   else LevelInfo,
   if String.eqb (ToLower format) "text" then TextHandler else JSONHandler).

(** cmd/orchestrator's own, which does not lower the case. *)
Definition setLogLevel (level : string) : Level :=
  if String.eqb level "debug" then LevelDebug
  else if String.eqb level "warn" then LevelWarn
  else if String.eqb level "error" then LevelError
  else LevelInfo.

(** ** Starting the programs

    [time.NewTicker] panics on an interval that is not positive, [make(chan, n)]
    on a negative size (or one too large to allocate). *)

(** cmd/control-plane: the scheduler and the reconciler each start a ticker. *)
Definition control_plane_starts (cfg : ControlPlaneConfig) : bool :=
  ((0 <? cp_SchedulerInterval cfg) && (0 <? cp_ReconcileInterval cfg))%Z.

(** cmd/worker: the heartbeat loop and the polling loop. *)
Definition worker_starts (cfg : Config) : bool :=
  ((0 <? HeartbeatInterval cfg) && (0 <? PollInterval cfg))%Z.

(** cmd/orchestrator: the queue; and how many workers [worker.New] starts. *)
Definition orchestrator_starts (cfg : OrchestratorConfig) : bool := (0 <=? oc_QueueSize cfg)%Z.
Definition workers_started (cfg : OrchestratorConfig) : nat := Z.to_nat (oc_NumWorkers cfg).

(** *** cmd/control-plane: what [main] sets up *)

Inductive StoreChoice := UseBolt (path : string) | UseMemory.

Record ControlPlanePlan := mkControlPlanePlan {
  cpl_store : StoreChoice;
  cpl_logger : Level * LogFormat;
  cpl_scheduler : Duration;                 (* scheduler.New *)
  cpl_reconciler : Duration * Duration;     (* reconciler.New: interval, heartbeat timeout *)
  cpl_addr : string;                        (* api.NewServer *)
  cpl_shutdown : Duration }.

(** [openBolt]: whether [state.NewBoltStore] succeeds; [inr]: the exit status. *)
Definition control_plane_main (env : Env) (openBolt : string -> bool) : ControlPlanePlan + Z :=
  let cfg := LoadControlPlane env in
  let plan store := mkControlPlanePlan store (NewLogger (cp_LogLevel cfg) (cp_LogFormat cfg)) (cp_SchedulerInterval cfg)
    (cp_ReconcileInterval cfg, cp_HeartbeatTimeout cfg) (":" +:+ itoa (cp_Port cfg)) (cp_ShutdownTimeout cfg) in
  if negb (String.eqb (cp_DBPath cfg) EmptyString) then
    if openBolt (cp_DBPath cfg) then inl (plan (UseBolt (cp_DBPath cfg))) else inr 1%Z
  else inl (plan UseMemory).

(** ** Properties *)

(** A variable that is not set or does not parse counts for nothing. *)
Definition effective {A} (parse : string -> option A) (v : string) : option A :=
  if String.eqb v EmptyString then None else parse v.

Lemma env_parsed_spec {A} (parse : string -> option A) env key def :
  env_parsed parse env key def = default def (effective parse (env key)).
Proof. unfold env_parsed, effective. by destruct (String.eqb (env key) EmptyString). Qed.

Lemma Atoi_range s n : Atoi s = Some n -> in_int64 n.
Proof.
  unfold Atoi, in_int64. intros HA. repeat case_match; simplify_eq/=; lia.
Qed.


Lemma duration_terms_range fuel s d v :
  (0 <= d)%Z -> duration_terms fuel s d = Some v -> (0 <= v)%Z.
Proof.
  revert s d. induction fuel as [|fuel IH]; intros s d Hd Hv; [done|]. cbn [duration_terms] in Hv.
  destruct (String.eqb s EmptyString); [by simplify_eq|]. destruct (duration_term s) as [[x rest]|]; [|done].
  cbv zeta in Hv. destruct (2 ^ 63 <? _)%Z; [done|]. eapply IH; [|exact Hv]. apply uint64_wrap_range.
Qed.

Lemma ParseDuration_range s d : ParseDuration s = Some d -> in_int64 d.
Proof.
  unfold ParseDuration. destruct (match s with EmptyString => _ | String _ _ => _ end) as [neg body].
  destruct (String.eqb body "0"); [intros [= <-]; done|]. destruct (String.eqb body EmptyString); [done|].
  destruct (duration_terms _ body 0) as [v|] eqn:Hv; [|done]. apply duration_terms_range in Hv; [|done].
  destruct neg; [intros [= <-]; apply int64_wrap_range|].
  destruct (Z.ltb_spec max_int64 v); [done|]. intros [= <-]. unfold in_int64, min_int64. lia.
Qed.

Lemma env_parsed_range {A} (parse : string -> option A) (P : A -> Prop) env key def :
  (forall s x, parse s = Some x -> P x) -> P def -> P (env_parsed parse env key def).
Proof.
  intros Hp Hd. rewrite env_parsed_spec. unfold effective. destruct (String.eqb _ _); [done|]. cbn.
  destruct (parse (env key)) eqn:E; [by eapply Hp|done].
Qed.

Lemma envInt_range env key def : in_int64 def -> in_int64 (envInt env key def).
Proof. apply env_parsed_range, Atoi_range. Qed.
Lemma envDuration_range env key def : in_int64 def -> in_int64 (envDuration env key def).
Proof. apply env_parsed_range, ParseDuration_range. Qed.

(** An interval with a positive default fails to be positive only when the
    variable says so. *)
Lemma env_duration_bad env key def :
  (0 < def)%Z ->
  (0 <? envDuration env key def)%Z = false <->
  exists d, effective ParseDuration (env key) = Some d /\ (d <= 0)%Z.
Proof.
  intros Hd. unfold envDuration. rewrite env_parsed_spec, Z.ltb_ge.
  destruct (effective ParseDuration (env key)) as [d|]; cbn; naive_solver lia.
Qed.

Lemma ticker_settings env k1 k2 d1 d2 :
  (0 < d1)%Z -> (0 < d2)%Z ->
  ((0 <? envDuration env k1 d1) && (0 <? envDuration env k2 d2))%Z = false <->
  exists key d, key ∈ [k1; k2] /\ effective ParseDuration (env key) = Some d /\ (d <= 0)%Z.
Proof.
  intros H1 H2. rewrite andb_false_iff, !env_duration_bad by done. split.
  - intros [(d & ? & ?)|(d & ? & ?)]; [exists k1, d|exists k2, d]; split_and!; set_solver.
  - intros (key & d & Hk & ? & ?). apply elem_of_cons in Hk as [->|Hk]; [left|right]; [eauto|].
    apply list_elem_of_singleton in Hk as ->. eauto.
Qed.


(** *** The command line of the orchestrator *)

(** A flag as it is given: nothing, or its text. *)
Definition given (name : string) (v : option string) : list string :=
  match v with Some v => [String "-" name; v] | None => [] end.

(** Names that are not mistaken for other syntax. *)
Definition flag_name (name : string) : bool :=
  match name with String c _ => negb (is_char c "-") && negb (Http.has_char "=" name) | EmptyString => false end.

Lemma parse_args_flag fuel formal name old v rest :
  flag_name name = true -> formal !! name = Some old ->
  parse_args (S fuel) formal (String "-" name :: v :: rest) =
  match set_flag old v with None => FlagExit 2 | Some new => parse_args fuel (<[name := new]> formal) rest end.
Proof.
  intros Hn Hf. destruct name as [|c name]; [done|]. cbn [flag_name] in Hn.
  apply andb_prop in Hn as [Hd%negb_true_iff He%negb_true_iff].
  cbn [parse_args]. change (is_char "-" "-") with true. cbn [negb].
  rewrite Hd. cbn [andb]. change (is_char c "-" || is_char c "=") with (is_char c "-" || Ascii.eqb c "=").
  rewrite Hd. cbn [Http.has_char] in He. apply orb_false_iff in He as [He1 He2].
  rewrite He1. cbn [orb]. rewrite Http.cut_at_none by (cbn [Http.has_char]; by rewrite He1, He2). by rewrite Hf.
Qed.

(** CLI flags take precedence over the environment.  For every environment and
    every combination of [-port], [-workers] and [-log-level] given: a number
    that does not parse makes the program exit with status 2; otherwise each
    setting is the flag's value if the flag was given, else the variable's if it
    parses, else the default, and the log level applies as given. *)
Theorem orchestrator_flags_win (env : string -> string) (port workers level : option string) :
  let args := given "port" port ++ given "workers" workers ++ given "log-level" level in
  let setting flag key def :=
    match flag with Some v => default 0%Z (ParseInt0 v) | None => default def (effective Atoi (env key)) end in
  match port ≫= (fun v => Some (ParseInt0 v)), workers ≫= (fun v => Some (ParseInt0 v)) with
  | Some None, _ | _, Some None => orchestrator_settings env args = inr 2%Z
  | _, _ => exists cfg lvl, orchestrator_settings env args = inl (cfg, lvl) /\
      oc_Port cfg = setting port "MLORCH_PORT" 8080%Z /\
      oc_NumWorkers cfg = setting workers "MLORCH_NUM_WORKERS" 4%Z /\
      oc_QueueSize cfg = default 100%Z (effective Atoi (env "MLORCH_QUEUE_SIZE")) /\
      lvl = default "info" level
  end.
Proof.
  cbv zeta. unfold orchestrator_settings, flag_Parse, orchestrator_flags.
  set (cfg := LoadOrchestrator env).
  set (f0 := list_to_map _ : gmap string FlagValue).
  assert (H0 : f0 !! "port" = Some (FInt (oc_Port cfg)) /\ f0 !! "workers" = Some (FInt (oc_NumWorkers cfg)) /\
    f0 !! "log-level" = Some (FString "info")) by done.
  clearbody f0. destruct H0 as (Hp & Hw & Hl).
  assert (Ep : oc_Port cfg = default 8080%Z (effective Atoi (env "MLORCH_PORT"))) by apply env_parsed_spec.
  assert (Ew : oc_NumWorkers cfg = default 4%Z (effective Atoi (env "MLORCH_NUM_WORKERS"))) by apply env_parsed_spec.
  assert (Eq : oc_QueueSize cfg = default 100%Z (effective Atoi (env "MLORCH_QUEUE_SIZE"))) by apply env_parsed_spec.
  clearbody cfg.
  destruct port as [p|], workers as [w|], level as [l|]; cbn [given app length mbind option_bind].
  all: repeat (rewrite (parse_args_flag _ _ "port" (FInt (oc_Port cfg))) by done; cbn [set_flag];
    destruct (ParseInt0 p); cbn [fmap option_fmap option_map]; [|done]).
  all: repeat (rewrite (parse_args_flag _ _ "workers" (FInt (oc_NumWorkers cfg)))
    by (rewrite ?lookup_insert_ne by done; done); cbn [set_flag];
    destruct (ParseInt0 w); cbn [fmap option_fmap option_map]; [|done]).
  all: repeat (rewrite (parse_args_flag _ _ "log-level" (FString "info"))
    by (rewrite ?lookup_insert_ne by done; done); cbn [set_flag]).
  all: try done.
  all: cbn [parse_args]; eexists _, _; split; [reflexivity|]; cbn [oc_Port oc_NumWorkers oc_QueueSize];
    unfold flag_int, flag_string;
    repeat first [rewrite lookup_insert_eq|rewrite lookup_insert_ne by done]; by rewrite ?Hp, ?Hw, ?Hl.
Qed.

(** An interval of zero is accepted as a setting and stops the program. *)
Example zero_interval :
  control_plane_starts (LoadControlPlane (fun k => if String.eqb k "CTRLPLANE_RECONCILE_INTERVAL" then "0s" else EmptyString)) = false /\
  worker_starts (worker_settings (fun k => if String.eqb k "WORKER_POLL_INTERVAL" then "-1s" else EmptyString) "host").1 = false /\
  control_plane_starts (LoadControlPlane (fun _ => EmptyString)) = true.
Proof. vm_compute. split_and!; reflexivity. Qed.
