(* ===== verification/ProxyConfig.v ===== *)
(** * reverse-proxy-load-balancer/internal/config: the YAML configuration

    config.go and duration.go.  [os.ReadFile] and [yaml.Unmarshal] (a
    third-party package) are parameters of [Load]; the decoder calls
    [Duration.UnmarshalYAML] on the duration fields. *)

From S2P Require Import Prelude GoText Http GoFormat Proxy.
From Stdlib Require Import ZArith Lia.
From stdpp Require Import base gmap strings list.
Local Open Scope go_scope.

(** ** Data *)

Record DiscoveryConfig := mkDiscoveryConfig {
  dc_Enabled : bool; dc_ControlPlaneURL : string; dc_RefreshInterval : Duration }.
Record ServerConfig := mkServerConfig {
  sc_ListenAddr : string; sc_ReadTimeout : Duration; sc_WriteTimeout : Duration; sc_ShutdownTimeout : Duration }.
Record LoadBalancerConfig := mkLoadBalancerConfig {
  lc_Strategy : string; lc_MaxRetries : Z; lc_BackendTimeout : Duration }.
Record HealthCheckConfig := mkHealthCheckConfig {
  hc_Enabled : bool; hc_Path : string; hc_Interval : Duration; hc_Timeout : Duration;
  hc_UnhealthyThreshold : Z; hc_HealthyThreshold : Z }.
Record BackendConfig := mkBackendConfig { bc_Name : string; bc_URL : string; bc_Weight : Z }.
Record LoggingConfig := mkLoggingConfig { lg_Level : string; lg_Format : string }.
Record MetricsConfig := mkMetricsConfig { mc_Enabled : bool; mc_Path : string }.

Record Config := mkConfig {
  c_Server : ServerConfig;
  c_LoadBalancer : LoadBalancerConfig;
  c_HealthCheck : HealthCheckConfig;
  c_Backends : list BackendConfig;
  c_Discovery : DiscoveryConfig;
  c_Logging : LoggingConfig;
  c_Metrics : MetricsConfig }.

(** ** duration.go *)

(** [raw]: the node decoded as a string, or the decoder's error.  The text of the
    wrapped error of [time.ParseDuration] is left out. *)
Definition UnmarshalYAML (raw : string + string) : Duration + string :=
  match raw with
  | inr err => inr err
  | inl raw =>
      match ParseDuration raw with
      | None => inr ("invalid duration " +:+ Quote raw)
      | Some parsed => inl parsed
      end
  end.

(** ** applyDefaults *)

(** [if x == "" { x = def }] and [if x == 0 { x = def }] *)
Definition or_string (def s : string) : string := if String.eqb s EmptyString then def else s.
Definition or_int (def n : Z) : Z := if (n =? 0)%Z then def else n.

Definition applyDefaults (cfg : Config) : Config := {|
  c_Server :=
    let s := c_Server cfg in
    {| sc_ListenAddr := or_string ":8080" (sc_ListenAddr s);
       sc_ReadTimeout := or_int (5 * Second) (sc_ReadTimeout s);
       sc_WriteTimeout := or_int (10 * Second) (sc_WriteTimeout s);
       sc_ShutdownTimeout := or_int (5 * Second) (sc_ShutdownTimeout s) |};
  c_LoadBalancer :=
    let l := c_LoadBalancer cfg in
    {| lc_Strategy := or_string "round_robin" (lc_Strategy l);
       lc_MaxRetries := lc_MaxRetries l;
       lc_BackendTimeout := or_int (2 * Second) (lc_BackendTimeout l) |};
  c_HealthCheck :=
    let h := c_HealthCheck cfg in
    {| hc_Enabled := hc_Enabled h;
       hc_Path := or_string "/health" (hc_Path h);
       hc_Interval := or_int (2 * Second) (hc_Interval h);
       hc_Timeout := or_int (500 * Millisecond) (hc_Timeout h);
       hc_UnhealthyThreshold := or_int 2 (hc_UnhealthyThreshold h);
       hc_HealthyThreshold := or_int 2 (hc_HealthyThreshold h) |};
  c_Backends := (fun b => mkBackendConfig (bc_Name b) (bc_URL b) (or_int 1 (bc_Weight b))) <$> c_Backends cfg;
  c_Discovery :=
    let d := c_Discovery cfg in
    {| dc_Enabled := dc_Enabled d; dc_ControlPlaneURL := dc_ControlPlaneURL d;
       dc_RefreshInterval := or_int (5 * Second) (dc_RefreshInterval d) |};
  c_Logging :=
    let l := c_Logging cfg in
    {| lg_Level := or_string "info" (lg_Level l); lg_Format := or_string "json" (lg_Format l) |};
  c_Metrics :=
    let m := c_Metrics cfg in
    {| mc_Enabled := mc_Enabled m; mc_Path := or_string "/metrics" (mc_Path m) |} |}.

(** ** Validate *)

Definition strategies : list string := ["round_robin"; "least_conn"; "weighted_round_robin"].

Fixpoint validate_backends (bs : list BackendConfig) : option string :=
  match bs with
  | [] => None
  | b :: bs =>
      if String.eqb (bc_Name b) EmptyString then Some "backend missing name"
      else if String.eqb (bc_URL b) EmptyString then Some ("backend " +:+ Quote (bc_Name b) +:+ " missing url")
      else validate_backends bs
  end.

(** The error's text, [None] for nil. *)
Definition Validate (c : Config) : option string :=
  if negb (dc_Enabled (c_Discovery c)) && (Nat.eqb (length (c_Backends c)) 0)
  then Some "at least one backend must be configured (or enable discovery)"
  else if dc_Enabled (c_Discovery c) && String.eqb (dc_ControlPlaneURL (c_Discovery c)) EmptyString
  then Some "discovery.control_plane_url is required when discovery.enabled is true"
  else
    match validate_backends (c_Backends c) with
    | Some err => Some err
    | None =>
        if bool_decide (lc_Strategy (c_LoadBalancer c) ∈ strategies) then None
        else Some ("unsupported load_balancer.strategy " +:+ Quote (lc_Strategy (c_LoadBalancer c)))
    end.

(** ** Load *)

Section Load.
Variable ReadFile : string -> string + string.
(** The decoder, given the methods of the types it decodes into. *)
Variable Unmarshal : (string + string -> Duration + string) -> string -> Config + string.

Definition Load (path : string) : Config + string :=
  match ReadFile path with
  | inr err => inr ("read config: " +:+ err)
  | inl data =>
      match Unmarshal UnmarshalYAML data with
      | inr err => inr ("parse config: " +:+ err)
      | inl cfg =>
          let cfg := applyDefaults cfg in
          match Validate cfg with
          | Some err => inr ("invalid config: " +:+ err)
          | None => inl cfg
          end
      end
  end.
End Load.

(** ** Properties *)

(** What the rest of the program relies on. *)
Record well_formed (c : Config) : Prop := {
  wf_listen : sc_ListenAddr (c_Server c) <> EmptyString;
  wf_timeouts : sc_ReadTimeout (c_Server c) <> 0%Z /\ sc_WriteTimeout (c_Server c) <> 0%Z /\
    sc_ShutdownTimeout (c_Server c) <> 0%Z /\ lc_BackendTimeout (c_LoadBalancer c) <> 0%Z /\
    hc_Interval (c_HealthCheck c) <> 0%Z /\ hc_Timeout (c_HealthCheck c) <> 0%Z /\
    dc_RefreshInterval (c_Discovery c) <> 0%Z;
  wf_strategy : is_Some (NewBalancer (lc_Strategy (c_LoadBalancer c)));
  wf_health : hc_Path (c_HealthCheck c) <> EmptyString /\
    hc_UnhealthyThreshold (c_HealthCheck c) <> 0%Z /\ hc_HealthyThreshold (c_HealthCheck c) <> 0%Z;
  wf_backends : forall b, b ∈ c_Backends c -> bc_Name b <> EmptyString /\ bc_URL b <> EmptyString /\ bc_Weight b <> 0%Z;
  wf_source : if dc_Enabled (c_Discovery c) then dc_ControlPlaneURL (c_Discovery c) <> EmptyString else c_Backends c <> [];
  wf_logging : lg_Level (c_Logging c) <> EmptyString /\ lg_Format (c_Logging c) <> EmptyString;
  wf_metrics : mc_Path (c_Metrics c) <> EmptyString }.

(** A field is kept when it was set. *)
Definition kept {A} (zero : A) (raw given : A) : Prop := raw <> zero -> given = raw.

Record extends (raw c : Config) : Prop := {
  ex_server : kept EmptyString (sc_ListenAddr (c_Server raw)) (sc_ListenAddr (c_Server c)) /\
    kept 0%Z (sc_ReadTimeout (c_Server raw)) (sc_ReadTimeout (c_Server c)) /\
    kept 0%Z (sc_WriteTimeout (c_Server raw)) (sc_WriteTimeout (c_Server c)) /\
    kept 0%Z (sc_ShutdownTimeout (c_Server raw)) (sc_ShutdownTimeout (c_Server c));
  ex_balancer : kept EmptyString (lc_Strategy (c_LoadBalancer raw)) (lc_Strategy (c_LoadBalancer c)) /\
    lc_MaxRetries (c_LoadBalancer c) = lc_MaxRetries (c_LoadBalancer raw) /\
    kept 0%Z (lc_BackendTimeout (c_LoadBalancer raw)) (lc_BackendTimeout (c_LoadBalancer c));
  ex_health : hc_Enabled (c_HealthCheck c) = hc_Enabled (c_HealthCheck raw) /\
    kept EmptyString (hc_Path (c_HealthCheck raw)) (hc_Path (c_HealthCheck c)) /\
    kept 0%Z (hc_Interval (c_HealthCheck raw)) (hc_Interval (c_HealthCheck c)) /\
    kept 0%Z (hc_Timeout (c_HealthCheck raw)) (hc_Timeout (c_HealthCheck c)) /\
    kept 0%Z (hc_UnhealthyThreshold (c_HealthCheck raw)) (hc_UnhealthyThreshold (c_HealthCheck c)) /\
    kept 0%Z (hc_HealthyThreshold (c_HealthCheck raw)) (hc_HealthyThreshold (c_HealthCheck c));
  ex_backends : Forall2 (fun r b => bc_Name b = bc_Name r /\ bc_URL b = bc_URL r /\ kept 0%Z (bc_Weight r) (bc_Weight b))
    (c_Backends raw) (c_Backends c);
  ex_discovery : dc_Enabled (c_Discovery c) = dc_Enabled (c_Discovery raw) /\
    dc_ControlPlaneURL (c_Discovery c) = dc_ControlPlaneURL (c_Discovery raw) /\
    kept 0%Z (dc_RefreshInterval (c_Discovery raw)) (dc_RefreshInterval (c_Discovery c));
  ex_metrics : mc_Enabled (c_Metrics c) = mc_Enabled (c_Metrics raw) /\
    kept EmptyString (mc_Path (c_Metrics raw)) (mc_Path (c_Metrics c)) }.

Lemma or_string_kept def s : kept EmptyString s (or_string def s).
Proof. intros Hs. unfold or_string. by destruct (String.eqb_spec s EmptyString). Qed.
Lemma or_int_kept def n : kept 0%Z n (or_int def n).
Proof. intros Hn. unfold or_int. by destruct (Z.eqb_spec n 0). Qed.
Lemma or_string_set def s : def <> EmptyString -> or_string def s <> EmptyString.
Proof. intros Hd. unfold or_string. by destruct (String.eqb_spec s EmptyString). Qed.
Lemma or_int_set def n : def <> 0%Z -> or_int def n <> 0%Z.
Proof. intros Hd. unfold or_int. by destruct (Z.eqb_spec n 0). Qed.
#[local] Hint Resolve or_string_kept or_int_kept : plat.
#[local] Hint Extern 1 (or_string _ _ <> _) => (apply or_string_set; discriminate) : plat.
#[local] Hint Extern 1 (or_int _ _ <> _) => (apply or_int_set; discriminate) : plat.

Lemma applyDefaults_extends raw : extends raw (applyDefaults raw).
Proof.
  split; cbn; split_and?; auto with plat. apply Forall2_fmap_r. induction (c_Backends raw); constructor; [cbn; auto with plat|done].
Qed.

Lemma or_string_idemp def s : or_string def (or_string def s) = or_string def s.
Proof. unfold or_string. destruct (String.eqb s EmptyString) eqn:E; rewrite ?E; [by case_match|done]. Qed.
Lemma or_int_idemp def n : or_int def (or_int def n) = or_int def n.
Proof. unfold or_int. destruct (n =? 0)%Z eqn:E; rewrite ?E; [by case_match|done]. Qed.

Lemma applyDefaults_idemp raw : applyDefaults (applyDefaults raw) = applyDefaults raw.
Proof.
  unfold applyDefaults. cbn. f_equal; rewrite ?or_string_idemp, ?or_int_idemp; try done.
  rewrite <- list_fmap_compose. apply list_fmap_ext. intros i b _. cbn. by rewrite or_int_idemp.
Qed.

Lemma validate_backends_ok bs :
  validate_backends bs = None <-> Forall (fun b => bc_Name b <> EmptyString /\ bc_URL b <> EmptyString) bs.
Proof.
  induction bs as [|b bs IH]; [done|]. cbn. rewrite Forall_cons.
  destruct (String.eqb_spec (bc_Name b) EmptyString), (String.eqb_spec (bc_URL b) EmptyString); naive_solver.
Qed.

(** A file is acceptable as it is written: the strategy may be left out, and
    each backend needs a name and a URL. *)
Definition acceptable (raw : Config) : Prop :=
  (if dc_Enabled (c_Discovery raw) then dc_ControlPlaneURL (c_Discovery raw) <> EmptyString else c_Backends raw <> []) /\
  Forall (fun b => bc_Name b <> EmptyString /\ bc_URL b <> EmptyString) (c_Backends raw) /\
  lc_Strategy (c_LoadBalancer raw) ∈ EmptyString :: strategies.

Lemma strategy_default s : or_string "round_robin" s ∈ strategies <-> s ∈ EmptyString :: strategies.
Proof.
  unfold or_string. destruct (String.eqb_spec s EmptyString) as [->|Hs]; [split; intros; set_solver|].
  rewrite elem_of_cons. naive_solver.
Qed.

Lemma Validate_defaults raw : Validate (applyDefaults raw) = None <-> acceptable raw.
Proof.
  unfold Validate, acceptable. cbn [applyDefaults c_Discovery c_Backends c_LoadBalancer dc_Enabled dc_ControlPlaneURL lc_Strategy].
  rewrite length_fmap, <- strategy_default.
  assert (Hbs : validate_backends ((fun b => mkBackendConfig (bc_Name b) (bc_URL b) (or_int 1 (bc_Weight b))) <$> c_Backends raw) = None
    <-> Forall (fun b => bc_Name b <> EmptyString /\ bc_URL b <> EmptyString) (c_Backends raw))
    by (by rewrite validate_backends_ok, Forall_fmap).
  set (vb := validate_backends _) in *. set (st := or_string "round_robin" _).
  destruct (dc_Enabled (c_Discovery raw)); cbn [negb andb].
  - destruct (String.eqb_spec (dc_ControlPlaneURL (c_Discovery raw)) EmptyString); [naive_solver|].
    destruct vb; [naive_solver|]. case_bool_decide; naive_solver.
  - destruct (c_Backends raw) as [|b bs]; cbn [length Nat.eqb]; [naive_solver|].
    destruct vb; [naive_solver|]. case_bool_decide; naive_solver.
Qed.

Lemma strategies_known s : s ∈ strategies -> is_Some (NewBalancer s).
Proof. intros Hs. repeat (apply elem_of_cons in Hs as [->|Hs]; [eauto|]). by apply not_elem_of_nil in Hs. Qed.

Lemma acceptable_well_formed raw : acceptable raw -> well_formed (applyDefaults raw).
Proof.
  intros (Hsrc & Hbs & Hst). split; cbn; split_and?; auto with plat.
  - apply strategies_known. by apply strategy_default.
  - intros b (r & -> & Hr)%list_elem_of_fmap. rewrite Forall_forall in Hbs. destruct (Hbs _ Hr). cbn. auto with plat.
  - destruct (dc_Enabled _); [done|]. by destruct (c_Backends raw).
Qed.

