(* ===== verification/ProxyMetrics.v ===== *)
(** * reverse-proxy-load-balancer/internal/metrics and internal/admin

    metrics.go: the registry, its counters and gauges, and the text it renders;
    handler.go of internal/admin.  Entries of the registry are never removed, so
    that the pointer [backendFor] returns stays the entry of its name: an update
    through it is an update of the map. *)

From S2P Require Import Prelude GoText Http GoFormat Proxy ProxyHandler.
From Stdlib Require Import ZArith Lia Ascii SpecFloat DecimalString.
From stdpp Require Import base gmap strings list sorting.
Local Open Scope go_scope.

(** ** The registry *)

Record backendMetrics := mkBackendMetrics {
  bm_requestsTotal : Z; bm_errorsTotal : Z; bm_activeConnections : Z; bm_healthy : bool }.

Record Metrics := mkMetrics {
  m_requestsTotal : Z;
  m_retriesTotal : Z;
  m_count : Z;            (* requestSeconds.count *)
  m_sumNs : Z;            (* requestSeconds.sumNs *)
  m_backends : gmap string backendMetrics }.

Definition NewMetrics : Metrics := mkMetrics 0 0 0 0 ∅.

Definition backendFor (name : string) (m : Metrics) : backendMetrics * Metrics :=
  match m_backends m !! name with
  | Some bm => (bm, m)
  | None =>
      let bm := mkBackendMetrics 0 0 0 false in
      (bm, mkMetrics (m_requestsTotal m) (m_retriesTotal m) (m_count m) (m_sumNs m) (<[name := bm]> (m_backends m)))
  end.

(** An update through the pointer [backendFor] returns. *)
Definition on_entry (f : backendMetrics -> backendMetrics) (name : string) (m : Metrics) : Metrics :=
  let '(bm, m) := backendFor name m in
  mkMetrics (m_requestsTotal m) (m_retriesTotal m) (m_count m) (m_sumNs m) (<[name := f bm]> (m_backends m)).

Definition inc_requests (bm : backendMetrics) : backendMetrics :=
  mkBackendMetrics (bm_requestsTotal bm +64 1) (bm_errorsTotal bm) (bm_activeConnections bm) (bm_healthy bm).
Definition inc_errors (bm : backendMetrics) : backendMetrics :=
  mkBackendMetrics (bm_requestsTotal bm) (bm_errorsTotal bm +64 1) (bm_activeConnections bm) (bm_healthy bm).
Definition store_active (n : Z) (bm : backendMetrics) : backendMetrics :=
  mkBackendMetrics (bm_requestsTotal bm) (bm_errorsTotal bm) n (bm_healthy bm).
Definition store_healthy (b : bool) (bm : backendMetrics) : backendMetrics :=
  mkBackendMetrics (bm_requestsTotal bm) (bm_errorsTotal bm) (bm_activeConnections bm) b.

(** [Duration.Seconds] *)
Definition Seconds (d : Duration) : float64 :=
  fadd (float_of_Z (Z.quot d Second)) (fdiv (float_of_Z (Z.rem d Second)) f1e9).

Definition SetBackendHealth (name : string) (healthy : bool) : Metrics -> Metrics :=
  on_entry (store_healthy healthy) name.

Section Registry.
(** The conversion of floats an [int64] cannot hold. *)
Variable conv : float64 -> Z.

Definition observe (seconds : float64) (m : Metrics) : Metrics :=
  mkMetrics (m_requestsTotal m) (m_retriesTotal m) (m_count m +64 1)
    (m_sumNs m +64 int64_of_float conv (fmul seconds f1e9)) (m_backends m).

(** The calls the proxy handler makes. *)
Definition metric (c : PxMetric) (m : Metrics) : Metrics :=
  match c with
  | ObserveRequest d =>
      observe (Seconds d) (mkMetrics (m_requestsTotal m +64 1) (m_retriesTotal m) (m_count m) (m_sumNs m) (m_backends m))
  | IncRetries => mkMetrics (m_requestsTotal m) (m_retriesTotal m +64 1) (m_count m) (m_sumNs m) (m_backends m)
  | IncBackendRequests name => on_entry inc_requests name m
  | IncBackendErrors name => on_entry inc_errors name m
  | SetBackendActiveConnections name n => on_entry (store_active n) name m
  end.
End Registry.

(** ** Render *)

Definition LF : ascii := ascii_of_nat 10.
Definition line (s : string) : string := s +:+ String LF EmptyString.
Fixpoint concat_all (l : list string) : string :=
  match l with [] => EmptyString | s :: l => s +:+ concat_all l end.

(** [h.snapshot()] *)
Definition snapshot (m : Metrics) : Z * float64 := (m_count m, fdiv (float_of_Z (m_sumNs m)) f1e9).

(** One block of per-backend lines; [backendFor] finds the entry. *)
Definition backend_lines (family : string) (value : backendMetrics -> Z) (m : Metrics) (names : list string)
    : list string :=
  (fun name => line (family +:+ "{backend=" +:+ Quote name +:+ "} " +:+ itoa (value (backendFor name m).1))) <$> names.

Definition Render `{SliceSort} (m : Metrics) : string :=
  let '(count, sum) := snapshot m in
  let names := sort_slice String.ltb (map_to_list (m_backends m)).*1 in
  concat_all (
    [line "# HELP proxy_up Whether the proxy process is up.";
     line "# TYPE proxy_up gauge";
     line "proxy_up 1";
     line "# HELP proxy_requests_total Total number of requests handled by the proxy.";
     line "# TYPE proxy_requests_total counter";
     line ("proxy_requests_total " +:+ itoa (m_requestsTotal m));
     line "# HELP proxy_retries_total Total number of request retries against alternate backends.";
     line "# TYPE proxy_retries_total counter";
     line ("proxy_retries_total " +:+ itoa (m_retriesTotal m));
     line "# HELP proxy_request_duration_seconds Request duration in seconds.";
     line "# TYPE proxy_request_duration_seconds summary";
     line ("proxy_request_duration_seconds_count " +:+ itoa count);
     line ("proxy_request_duration_seconds_sum " +:+ format_f sum);
     line "# HELP proxy_backend_requests_total Total requests routed to each backend.";
     line "# TYPE proxy_backend_requests_total counter"] ++
    backend_lines "proxy_backend_requests_total" bm_requestsTotal m names ++
    [line "# HELP proxy_backend_errors_total Total errors encountered routing to each backend.";
     line "# TYPE proxy_backend_errors_total counter"] ++
    backend_lines "proxy_backend_errors_total" bm_errorsTotal m names ++
    [line "# HELP proxy_backend_active_connections Current in-flight requests per backend.";
     line "# TYPE proxy_backend_active_connections gauge"] ++
    backend_lines "proxy_backend_active_connections" bm_activeConnections m names ++
    [line "# HELP proxy_backend_health_status Backend health, 1 for healthy and 0 for unhealthy.";
     line "# TYPE proxy_backend_health_status gauge"] ++
    backend_lines "proxy_backend_health_status" (fun bm => if bm_healthy bm then 1 else 0)%Z m names).

(** ** admin/handler.go *)

Section Admin.
Context `{UrlLib}.

Record backendStatus := mkBackendStatus {
  st_Name : string; st_URL : string; st_Healthy : bool; st_Weight : Z;
  st_ActiveConnections : Z; st_TotalRequests : Z; st_TotalErrors : Z }.

Definition status_of (b : Backend) : backendStatus :=
  mkBackendStatus (b_Name b) (url_String (b_URL b)) (b_alive b) (b_Weight b)
    (b_activeConns b) (b_totalReqs b) (b_totalErrs b).

(** The value the handler encodes as JSON: [pool] are the locations of the
    backends, all of them allocated. *)
Fixpoint BackendsHandler (h : gmap nat Backend) (pool : list nat) : list backendStatus :=
  match pool with
  | [] => []
  | l :: pool =>
      match h !! l with
      | Some b => status_of b :: BackendsHandler h pool
      | None => BackendsHandler h pool
      end
  end.
End Admin.

(** ** Reading the text back

    A scraper skips the comment lines and reads a sample from each other line: a
    name, an optional label whose value is quoted, and the value after it. *)

Inductive Sample := mkSample (family : string) (backend : option string) (value : string).

Definition read_sample (l : string) : option Sample :=
  let '(family, rest, labelled) := cut_at "{" l in
  if labelled : bool then
    match trim_prefix "backend=" rest with
    | Some (String _ quoted) =>
        '(name, rest) ← unquote_body quoted; value ← trim_prefix "} " rest; Some (mkSample family (Some name) value)
    | _ => None
    end
  else let '(family, value, _) := cut_at " " l in Some (mkSample family None value).

Definition is_comment (l : string) : bool := match l with String c _ => Ascii.eqb c "#" | EmptyString => true end.

(** All samples, or [None] if a line is not one. *)
Fixpoint read_lines (ls : list string) : option (list Sample) :=
  match ls with
  | [] => Some []
  | l :: ls => if is_comment l then read_lines ls
               else s ← read_sample l; rest ← read_lines ls; Some (s :: rest)
  end.
Definition scrape (text : string) : option (list Sample) := read_lines (split_at LF text).
