(* ===== verification/ProxyMetered.v ===== *)
(** * reverse-proxy-load-balancer: the metrics of the running proxy

    The system of ProxyHandlerProperties with its registry: every call a request
    or the health checker makes on it is logged in the order of execution. *)

From S2P Require Import Prelude GoText Proxy ProxyProperties ProxyHandler ProxyHandlerProperties ProxyMetrics ProxyMetricsProperties.
From Stdlib Require Import ZArith Lia Ascii SpecFloat.
From stdpp Require Import base gmap strings list.
Local Open Scope go_scope.

Section Metered.
Context `{UrlLib} {S : Type} `{!Balancer S}.

(** What happens, as far as the metrics are concerned: an operation of a
    request, and a call of [onStatusChange]. *)
Inductive Event := EvOp (o : Obs) | EvHealth (name : string) (healthy : bool).

Definition ev_calls (ev : Event) : list MCall :=
  match ev with
  | EvOp (Ob (EPxMetric c) _) => [Handler c]
  | EvOp _ => []
  | EvHealth name healthy => [Health name healthy]
  end.
Definition calls_of (log : list Event) : list MCall := log ≫= ev_calls.

Definition probe_events (checker : Checker) (probe : nat * option Z) (w : PxWorld (S := S)) : list Event :=
  match pv_heap (px_prov w) !! probe.1 with
  | Some b => let '(_, _, (name, alive)) := check checker probe.2 (px_counts w) b in [EvHealth name alive]
  | None => []
  end.

Abbreviation MConfig := (list (prog PxE unit * list Obs) * PxWorld (S := S) * list Event)%type (only parsing).

Inductive mstep (checker : Checker) (maxRetries : Z) : MConfig -> MConfig -> Prop :=
| ms_request r ts w log :
    mstep checker maxRetries (ts, w, log) (ts ++ [(ServeHTTP maxRetries r, [])], w, log)
| ms_op i X (e : PxE X) k h ts w log x w' : ts !! i = Some (Vis e k, h) -> px_rel X e w x w' ->
    mstep checker maxRetries (ts, w, log) (<[i := (k x, h ++ [Ob e x])]> ts, w', log ++ [EvOp (Ob e x)])
| ms_check probe ts w log :
    let st := check_at checker (px_counts w, pv_heap (px_prov w)) probe in
    mstep checker maxRetries (ts, w, log) (ts, with_heap st.2 st.1 w, log ++ probe_events checker probe w)
| ms_refresh fetched ts w log :
    mstep checker maxRetries (ts, w, log)
      (ts, mkPxWorld (refresh fetched (px_prov w)) (px_bal w) (px_counts w), log).

Definition msteps (checker : Checker) (maxRetries : Z) : MConfig -> MConfig -> Prop := rtc (mstep checker maxRetries).

(** ** Counting

    [k] chooses the counter: requests ([false]) or errors ([true]). *)

Definition counter (k : bool) (b : Backend) : Z := if k then b_totalErrs b else b_totalReqs b.

Definition one_if (P : Prop) `{Decision P} : Z := if decide P then 1 else 0.

(** An operation adds to the counter of the backend at a location [P]. *)
Definition bumps (k : bool) (P : nat -> Prop) `{forall l, Decision (P l)} (o : Obs) : Z :=
  match o with
  | Ob (EIncRequests l) _ => if k then 0 else one_if (P l)
  | Ob (EIncErrors l) _ => if k then one_if (P l) else 0
  | _ => 0
  end.

(** An operation adds to the metric of [name]. *)
Definition booked (k : bool) (name : string) (o : Obs) : Z :=
  match o with
  | Ob (EPxMetric (IncBackendRequests n)) _ => if k then 0 else one_if (n = name)
  | Ob (EPxMetric (IncBackendErrors n)) _ => if k then one_if (n = name) else 0
  | _ => 0
  end.

Definition finished (o : Obs) : Z := match o with Ob (EPxMetric (ObserveRequest _)) _ => 1 | _ => 0 end.

(** The backends a request was given. *)
Definition ob_targets (o : Obs) : list Target :=
  match o with
  | Ob e x => match e in PxE X return X -> list Target with
              | ENext => fun x => match x with Some b => [b] | None => [] end
              | _ => fun _ => []
              end x
  end.
Definition targets (h : list Obs) : list Target := h ≫= ob_targets.

Definition faithful (nm : nat -> string) (h : list Obs) : Prop := forall b, b ∈ targets h -> nm (t_loc b) = t_Name b.

(** A request only counts for backends it was given. *)
Definition own_target X (e : PxE X) (h : list Obs) : Prop :=
  match e with
  | EIncRequests l | EIncErrors l => exists b, b ∈ targets h /\ t_loc b = l
  | _ => True
  end.

(** Nothing is left unbooked between two points of a history. *)
Record even (h0 h : list Obs) : Prop := {
  ev_targets : targets h0 ⊆ targets h;
  ev_finished : tally finished h = tally finished h0;
  ev_booked : forall nm name k, faithful nm h ->
    (tally (bumps k (fun l => nm l = name)) h - tally (booked k name) h =
     tally (bumps k (fun l => nm l = name)) h0 - tally (booked k name) h0)%Z }.

Lemma even_refl h : even h h.
Proof using Type. by split. Qed.

Lemma targets_app h h' : targets (h ++ h') = targets h ++ targets h'.
Proof using Type. apply bind_app. Qed.

Lemma faithful_prefix nm h h' : faithful nm (h ++ h') -> faithful nm h.
Proof using Type. intros Hf b Hb. apply Hf. rewrite targets_app. set_solver. Qed.

Lemma even_trans h1 h2 h3 : targets h2 ⊆ targets h3 -> even h1 h2 -> even h2 h3 -> even h1 h3.
Proof using Type.
  intros Ht [T1 F1 B1] [T2 F2 B2]. split; [set_solver|congruence|].
  intros nm name k Hf. rewrite B2 by done. apply B1. intros b Hb. apply Hf. set_solver.
Qed.

(** Operations without a counter. *)
Definition uncounted X (e : PxE X) : bool :=
  match e with
  | EIncRequests _ | EIncErrors _ => false
  | EPxMetric (ObserveRequest _) | EPxMetric (IncBackendRequests _) | EPxMetric (IncBackendErrors _) => false
  | _ => true
  end.

Lemma even_uncounted h0 h X (e : PxE X) x : uncounted X e = true -> even h0 h -> even h0 (h ++ [Ob e x]).
Proof using Type.
  intros He Hev. apply (even_trans h0 h); [rewrite targets_app; set_solver|done|].
  assert (Hz : finished (Ob e x) = 0%Z /\ forall nm name k, bumps k (fun l => nm l = name) (Ob e x) = 0%Z /\ booked k name (Ob e x) = 0%Z).
  { destruct e; try done. by destruct m. }
  destruct Hz as [Hf Hb]. split; [rewrite targets_app; set_solver|rewrite tally_app; cbn [tally]; lia|].
  intros nm name k _. rewrite !tally_app. cbn [tally]. destruct (Hb nm name k) as [-> ->]. lia.
Qed.

(** The counter of a backend and its metric, one after the other. *)
Lemma even_pair h0 h (k : bool) b (x y : unit) :
  b ∈ targets h -> even h0 h ->
  even h0 ((h ++ [Ob (if k then EIncErrors (t_loc b) else EIncRequests (t_loc b)) x]) ++
    [Ob (EPxMetric (if k then IncBackendErrors (t_Name b) else IncBackendRequests (t_Name b))) y]).
Proof using Type.
  intros Hb Hev. apply (even_trans h0 h); [rewrite !targets_app; set_solver|done|]. split.
  - rewrite !targets_app. set_solver.
  - rewrite !tally_app. destruct k; cbn; lia.
  - intros nm name k' Hf. rewrite !tally_app. cbn [tally].
    assert (Hn : nm (t_loc b) = t_Name b) by (apply Hf; rewrite !targets_app; set_solver).
    destruct k, k'; cbn [bumps booked]; unfold one_if; rewrite ?Hn; lia.
Qed.

Lemma own_target_uncounted X (e : PxE X) h : uncounted X e = true -> own_target X e h.
Proof using Type. by destruct e. Qed.

(** A stretch without counters, then the rest. *)
Definition quiet {A} (p : prog PxE A) : Prop :=
  forall h0 h, even h0 h -> hist own_target p (fun _ h' => even h0 h' /\ targets h ⊆ targets h') h.

Lemma quiet_call X (e : PxE X) : uncounted X e = true -> quiet (call e).
Proof using Type.
  intros He h0 h Hev. split; [by apply own_target_uncounted|]. intros x. split; [by apply even_uncounted|].
  rewrite targets_app. set_solver.
Qed.
Lemma quiet_ret {A} (a : A) : quiet (Ret a).
Proof using Type. by intros h0 h. Qed.
Lemma quiet_bind {A B} (p : prog PxE A) (f : A -> prog PxE B) : quiet p -> (forall a, quiet (f a)) -> quiet (p ≫= f).
Proof using Type.
  intros Hp Hf h0 h Hev. apply hist_bind. eapply hist_mono; [|by apply Hp]. cbn. intros a h' [He Ht].
  eapply hist_mono; [|by apply Hf]. cbn. intros _ h'' [? ?]. split; [done|set_solver].
Qed.
Lemma quiet_for_each {A} (f : A -> unit -> prog PxE unit) l : (forall x, quiet (f x tt)) -> quiet (for_each l tt f).
Proof using Type. intros Hf. induction l as [|x l IH]; [apply quiet_ret|]. apply quiet_bind; [apply Hf|]. by intros []. Qed.

Lemma hist_quiet {A B} (p : prog PxE A) (f : A -> prog PxE B) Q h0 h :
  quiet p -> even h0 h -> (forall a h', even h0 h' -> targets h ⊆ targets h' -> hist own_target (f a) Q h') ->
  hist own_target (p ≫= f) Q h.
Proof using Type.
  intros Hp Hev Hf. apply hist_bind. eapply hist_mono; [|by apply Hp]. cbn. intros a h' [? ?]. by apply Hf.
Qed.

(** ** A request books what it counts *)

Lemma hist_pair {A} (k : bool) b (p : prog PxE A) Q h0 h :
  b ∈ targets h -> even h0 h ->
  (forall h', even h0 h' -> targets h ⊆ targets h' -> hist own_target p Q h') ->
  hist own_target (_ ← call (if k then EIncErrors (t_loc b) else EIncRequests (t_loc b));
    _ ← call (EPxMetric (if k then IncBackendErrors (t_Name b) else IncBackendRequests (t_Name b))); p) Q h.
Proof using Type.
  intros Hb Hev Hp. apply hist_call; [destruct k; cbn; eauto|]. intros x. apply hist_call; [by destruct k|]. intros y.
  apply Hp; [by apply even_pair|]. rewrite !targets_app. set_solver.
Qed.

Lemma proxyOnce_even r b Q h0 h :
  b ∈ targets h -> even h0 h ->
  (forall a h', even h0 h' -> hist own_target (Ret a) Q h') ->
  hist own_target (proxyOnce r b) Q h.
Proof using Type.
  intros Hb Hev HQ. unfold proxyOnce. destruct (newOutboundRequest r b) as [outReq|]; [|by apply HQ].
  eapply hist_quiet; [by apply quiet_call|exact Hev|]. intros _ h1 H1 T1.
  apply (hist_pair false b _ _ h0); [set_solver|done|]. intros h2 H2 T2.
  eapply hist_quiet; [by apply quiet_call|exact H2|]. intros n h3 H3 T3.
  eapply hist_quiet; [by apply quiet_call|exact H3|]. intros _ h4 H4 T4.
  eapply hist_quiet; [by apply quiet_call|exact H4|]. intros a h5 H5 T5.
  assert (Hfin : forall res h6, even h0 h6 -> hist own_target (_ ← call (EDecConnections (t_loc b));
    n ← call (EActiveConnections (t_loc b)); _ ← call (EPxMetric (SetBackendActiveConnections (t_Name b) n)); Ret res) Q h6).
  { intros res h6 H6. eapply hist_quiet; [by apply quiet_call|exact H6|]. intros _ h7 H7 _.
    eapply hist_quiet; [by apply quiet_call|exact H7|]. intros m h8 H8 _.
    eapply hist_quiet; [by apply quiet_call|exact H8|]. intros _ h9 H9 _. by apply HQ. }
  apply hist_bind. destruct a as [status headers body|timeout].
  - eapply hist_quiet; [|exact H5|].
    { apply quiet_for_each. intros [key values]. apply quiet_for_each. intros v. by apply quiet_call. }
    intros _ h6 H6 _. eapply hist_quiet; [by apply quiet_call|exact H6|]. intros _ h7 H7 _.
    eapply hist_quiet; [by apply quiet_call|exact H7|]. intros _ h8 H8 _. by apply Hfin.
  - apply (hist_pair true b _ _ h0); [set_solver|done|]. intros h6 H6 _. by apply Hfin.
Qed.

Lemma serve_loop_even r canRetry k attempt attempts lastStatus Q h0 h :
  even h0 h -> (forall a h', even h0 h' -> hist own_target (Ret a) Q h') ->
  hist own_target (serve_loop r canRetry k attempt attempts lastStatus) Q h.
Proof using Type.
  intros Hev HQ. revert attempt lastStatus h Hev. induction k as [|k IH]; intros attempt lastStatus h Hev; [by apply HQ|].
  cbn [serve_loop]. apply hist_call; [done|]. intros [b|].
  - assert (Hev' : even h0 (h ++ [Ob ENext (Some b)])) by (by apply even_uncounted).
    assert (Hb : b ∈ targets (h ++ [Ob ENext (Some b)])) by (rewrite targets_app; set_solver).
    apply hist_bind. apply (proxyOnce_even r b _ h0); [done|done|]. intros [status ok] h1 H1. cbn [hist].
    destruct ok; [by apply HQ|]. destruct (negb canRetry || _); [by apply HQ|].
    eapply hist_quiet; [by apply quiet_call|exact H1|]. intros _ h2 H2 _. by apply IH.
  - eapply hist_quiet; [by apply quiet_call|by apply even_uncounted|]. intros _ h2 H2 _. by apply HQ.
Qed.

(** At the end everything is booked and the request is counted once. *)
Record settled (h : list Obs) : Prop := {
  sd_finished : tally finished h = 1%Z;
  sd_booked : forall nm name k, faithful nm h -> tally (bumps k (fun l => nm l = name)) h = tally (booked k name) h }.

Lemma ServeHTTP_settled maxRetries r : hist own_target (ServeHTTP maxRetries r) (fun _ h => settled h) [].
Proof using Type.
  unfold ServeHTTP. eapply hist_quiet; [by apply quiet_call|apply even_refl|]. intros start h1 H1 _. cbv zeta.
  apply hist_bind. apply (serve_loop_even _ _ _ _ _ _ _ []); [done|]. intros lst h2 H2. cbn [hist].
  apply (hist_quiet _ _ _ [] h2); [destruct lst; [case_match; by apply quiet_call|apply quiet_ret]|done|]. intros _ h3 H3 _.
  eapply hist_quiet; [by apply quiet_call|exact H3|]. intros finish h4 [T4 F4 B4] _.
  split; [done|]. intros x. split.
  - rewrite tally_app, F4. done.
  - intros nm name k Hf. rewrite !tally_app. cbn. rewrite !Z.add_0_r.
    specialize (B4 nm name k (faithful_prefix _ _ _ Hf)). cbn in B4. lia.
Qed.

(** ** The invariant *)

Definition on_op (f : Obs -> Z) (ev : Event) : Z := match ev with EvOp o => f o | EvHealth _ _ => 0 end.

(** How the backends change in one step: names stay, the counters advance by
    [d], new backends start at zero. *)
Definition advances (d : bool -> nat -> Z) (h h' : gmap nat Backend) : Prop :=
  (forall l b, h !! l = Some b -> exists b', h' !! l = Some b' /\ b_Name b' = b_Name b /\
     forall k, d k l = 0%Z /\ counter k b' = counter k b \/ counter k b' = (counter k b +64 d k l)) /\
  (forall l b', h !! l = None -> h' !! l = Some b' -> forall k, counter k b' = 0%Z).

Record metered (cfg : MConfig) : Prop := {
  mt_wf : provider_wf (px_prov cfg.1.2);
  mt_log : forall f : Obs -> Z, tally (on_op f) cfg.2 = tally (fun t => tally f t.2) cfg.1.1;
  mt_count : forall l b k, pv_heap (px_prov cfg.1.2) !! l = Some b ->
    counter k b = int64_wrap (tally (on_op (bumps k (eq l))) cfg.2);
  mt_alloc : forall l k, pv_heap (px_prov cfg.1.2) !! l = None -> tally (on_op (bumps k (eq l))) cfg.2 = 0%Z;
  mt_names : forall t b, t ∈ cfg.1.1 -> b ∈ targets t.2 ->
    exists bk, pv_heap (px_prov cfg.1.2) !! t_loc b = Some bk /\ b_Name bk = t_Name b;
  mt_threads : forall t, t ∈ cfg.1.1 -> hist own_target t.1 (fun _ h => settled h) t.2 }.

Lemma metered_advance d ts w log ts' w' log' :
  metered (ts, w, log) -> provider_wf (px_prov w') -> advances d (pv_heap (px_prov w)) (pv_heap (px_prov w')) ->
  (forall f : Obs -> Z, tally (on_op f) log' = tally (fun t => tally f t.2) ts') ->
  (forall k l, tally (on_op (bumps k (eq l))) log' = tally (on_op (bumps k (eq l))) log + d k l)%Z ->
  (forall k l, d k l <> 0%Z -> is_Some (pv_heap (px_prov w) !! l)) ->
  (forall t b, t ∈ ts' -> b ∈ targets t.2 -> (exists t0, t0 ∈ ts /\ b ∈ targets t0.2) \/
     exists bk, pv_heap (px_prov w) !! t_loc b = Some bk /\ b_Name bk = t_Name b) ->
  (forall t, t ∈ ts' -> hist own_target t.1 (fun _ h => settled h) t.2) ->
  metered (ts', w', log').
Proof using Type.
  intros [Hwf Hlog Hc Ha Hn Ht] Hwf' [Hadv Hnew] Hlog' Hd Hdl Hn' Ht'. cbn [fst snd] in *.
  assert (Hd0 : forall k l, pv_heap (px_prov w) !! l = None -> d k l = 0%Z).
  { intros k l Hl. destruct (decide (d k l = 0%Z)) as [->|Hne]; [done|]. apply Hdl in Hne. rewrite Hl in Hne. by destruct Hne. }
  split; cbn [fst snd]; [done|done| | | |done].
  - intros l b' k Hb'. rewrite Hd. destruct (pv_heap (px_prov w) !! l) as [b|] eqn:Hl.
    + destruct (Hadv _ _ Hl) as (b1 & Hb1 & _ & Hk). simplify_eq. destruct (Hk k) as [[-> ->]| ->]; rewrite (Hc _ _ k Hl).
      * f_equal. lia.
      * apply int64_wrap_add.
    + by rewrite (Hnew _ _ Hl Hb' k), Ha, Hd0.
  - intros l k Hl'. assert (Hl : pv_heap (px_prov w) !! l = None).
    { destruct (pv_heap (px_prov w) !! l) eqn:E; [|done]. destruct (Hadv _ _ E) as (? & ? & _). congruence. }
    by rewrite Hd, Ha, Hd0.
  - intros t b Hts Hb. destruct (Hn' t b Hts Hb) as [(t0 & Ht0 & Hb0)|(bk & Hbk & <-)];
      [destruct (Hn t0 b Ht0 Hb0) as (bk & Hbk & <-)|];
      destruct (Hadv _ _ Hbk) as (b' & ? & ? & _); eauto.
Qed.

(** A step of the environment: nothing is counted. *)
Lemma metered_env ts w log ts' w' evs :
  metered (ts, w, log) -> provider_wf (px_prov w') ->
  advances (fun _ _ => 0%Z) (pv_heap (px_prov w)) (pv_heap (px_prov w')) ->
  (forall f, tally (on_op f) evs = 0%Z) ->
  (forall t, t ∈ ts' -> t ∈ ts \/ targets t.2 = [] /\ hist own_target t.1 (fun _ h => settled h) t.2) ->
  (forall f : Obs -> Z, tally (fun t => tally f t.2) ts' = tally (fun t => tally f t.2) ts) ->
  metered (ts', w', log ++ evs).
Proof using Type.
  intros Hm Hwf' Hadv Hev Hts Hsum. eapply metered_advance; [done|done|exact Hadv|..].
  - intros f. rewrite tally_app, Hev, Hsum, (mt_log _ Hm). cbn [fst]. lia.
  - intros k l. rewrite tally_app, Hev. lia.
  - by intros k l [].
  - intros t b [Ht|[Ht _]]%Hts Hb; [left; eauto|]. rewrite Ht in Hb. by apply not_elem_of_nil in Hb.
  - intros t [Ht|[_ Ht]]%Hts; [by apply (mt_threads _ Hm)|done].
Qed.

Lemma advances_refl h : advances (fun _ _ => 0%Z) h h.
Proof using Type. split; [|congruence]. intros l b Hl. exists b. auto. Qed.

Lemma advances_alter (f : Backend -> Backend) l h d :
  (forall b, b_Name (f b) = b_Name b) ->
  (forall b k, d k l = 0%Z /\ counter k (f b) = counter k b \/ counter k (f b) = (counter k b +64 d k l)) ->
  (forall k l', l' <> l -> d k l' = 0%Z) -> advances d h (alter f l h).
Proof using Type.
  intros Hname Hf Hd. split.
  - intros l' b Hb. destruct (decide (l' = l)) as [->|Hne].
    + exists (f b). by rewrite lookup_alter_eq, Hb.
    + exists b. rewrite lookup_alter_ne by done. split_and!; [done|done|]. intros k. left. by rewrite Hd.
  - intros l' b' Hl Hb'. apply lookup_alter_Some in Hb' as [(-> & b & Hb & _)|[_ Hb']]; congruence.
Qed.

(** The thread's own step. *)
Lemma metered_op d ts w log i X (e : PxE X) k h x w' :
  metered (ts, w, log) -> ts !! i = Some (Vis e k, h) -> provider_wf (px_prov w') ->
  advances d (pv_heap (px_prov w)) (pv_heap (px_prov w')) ->
  (forall q l, bumps q (eq l) (Ob e x) = d q l) ->
  (forall q l, d q l <> 0%Z -> exists b, b ∈ targets h /\ t_loc b = l) ->
  (forall b, b ∈ ob_targets (Ob e x) -> exists bk, pv_heap (px_prov w) !! t_loc b = Some bk /\ b_Name bk = t_Name b) ->
  metered (<[i := (k x, h ++ [Ob e x])]> ts, w', log ++ [EvOp (Ob e x)]).
Proof using Type.
  intros Hm Hi Hwf' Hadv Hd Hdl Hpick.
  assert (Hin : (Vis e k, h) ∈ ts) by (by eapply list_elem_of_lookup_2).
  assert (Hel : forall t, t ∈ <[i := (k x, h ++ [Ob e x])]> ts -> t = (k x, h ++ [Ob e x]) \/ t ∈ ts).
  { intros t [j Hj]%list_elem_of_lookup. destruct (decide (j = i)) as [->|].
    - rewrite list_lookup_insert_eq in Hj by (by eapply lookup_lt_Some). left. congruence.
    - rewrite list_lookup_insert_ne in Hj by done. right. by eapply list_elem_of_lookup_2. }
  eapply metered_advance; [done|done|exact Hadv|..].
  - intros f. rewrite (tally_insert _ _ _ _ _ Hi), tally_app, (mt_log _ Hm). cbn [fst snd]. rewrite tally_app. cbn [tally on_op]. lia.
  - intros q l. rewrite tally_app. cbn [tally on_op]. rewrite Hd. lia.
  - intros q l Hne. destruct (Hdl _ _ Hne) as (b & Hb & <-). destruct (mt_names _ Hm _ _ Hin Hb) as (bk & Hbk & _). cbn in Hbk. eauto.
  - intros t b [->|Ht]%Hel Hb; [|left; eauto]. cbn [snd] in Hb. rewrite targets_app in Hb.
    apply elem_of_app in Hb as [Hb|Hb]; [left; by exists (Vis e k, h)|right]. apply Hpick.
    unfold targets in Hb. cbn in Hb. by rewrite app_nil_r in Hb.
  - intros t [->|Ht]%Hel; [|by apply (mt_threads _ Hm)]. by apply (mt_threads _ Hm _ Hin).
Qed.

(** New backends are alive, with no connections, no requests and no errors. *)
Definition fresh_backend (b : Backend) : Prop :=
  b_alive b = true /\ b_activeConns b = 0%Z /\ b_totalReqs b = 0%Z /\ b_totalErrs b = 0%Z.

Lemma refresh_loop_fresh known specs h nl next bs h' nl' next' bs' :
  refresh_loop known specs h nl next bs = (h', nl', next', bs') ->
  forall l b, h' !! l = Some b -> h !! l = Some b \/ fresh_backend b.
Proof using Type.
  revert h nl next bs. induction specs as [|spec specs IH]; intros h nl next bs Hl l b Hb.
  { cbn in Hl. simplify_eq. by left. }
  cbn [refresh_loop] in Hl. destruct (reusable h known spec); [by eapply IH|].
  destruct (New (bs_Name spec) (bs_URL spec) (bs_Weight spec)) as [b0|] eqn:Hnew; [|by eapply IH].
  destruct (IH _ _ _ _ Hl l b Hb) as [Hl'|]; [|by right].
  apply lookup_insert_Some in Hl' as [[_ <-]|[_ ?]]; [right|by left].
  unfold New in Hnew. destruct (url_Parse _); [|done]. by injection Hnew as <-.
Qed.

Lemma metered_check ts w log checker probe :
  let st := check_at checker (px_counts w, pv_heap (px_prov w)) probe in
  metered (ts, w, log) -> metered (ts, with_heap st.2 st.1 w, log ++ probe_events checker probe w).
Proof using Type.
  intros st Hm.
  assert (Hon : exists f l, (forall b, b_Name (f b) = b_Name b /\ forall k, counter k (f b) = counter k b) /\
    px_prov (with_heap st.2 st.1 w) = px_prov (on_backend f l w)).
  { subst st. destruct probe as [l answer]. cbn. destruct (pv_heap (px_prov w) !! l) as [b|] eqn:Hl.
    - exists (fun b => (check checker answer (px_counts w) b).1.2), l. split.
      + intros b0. rewrite check_cases. unfold recordSuccess, recordFailure.
        destruct (succeeded answer); cbn; repeat case_one; split; done.
      + unfold on_backend. cbn. rewrite (alter_insert_lookup _ _ _ _ Hl). by destruct (check _ _ _ _) as [[counts b'] cb].
    - exists (fun b => b), l. split; [done|]. cbn. by rewrite alter_id. }
  destruct Hon as (f & l & Hf & Heq). eapply (metered_env ts w); [done|..].
  - rewrite Heq. apply on_backend_wf; [apply Hf|apply Hm].
  - rewrite Heq. apply advances_alter; [apply Hf| |done]. intros b k. left. split; [done|]. apply Hf.
  - intros g. unfold probe_events. destruct (pv_heap _ !! _) as [b|]; [|done].
    destruct (check _ _ _ b) as [[cs b'] [name alive]]. done.
  - auto.
  - done.
Qed.

Lemma metered_refresh ts w log fetched :
  metered (ts, w, log) -> metered (ts, mkPxWorld (refresh fetched (px_prov w)) (px_bal w) (px_counts w), log).
Proof using Type.
  intros Hm. rewrite <- (app_nil_r log). pose proof (mt_wf _ Hm) as Hwf. cbn [fst snd] in Hwf.
  destruct fetched as [specs|]; [|eapply (metered_env ts w); auto using advances_refl].
  destruct (refresh_spec (px_prov w) specs Hwf) as [_ Hold Hbd Hnext _].
  eapply (metered_env ts w); [done|split; [exact Hbd|exact Hnext]| |done|auto|done].
  split.
  - intros l b Hl. exists b. cbn [px_prov]. rewrite Hold; [auto|]. apply (pw_heap _ Hwf). by rewrite Hl.
  - intros l b Hl Hb. unfold refresh in Hb. cbn [px_prov] in Hb.
    destruct (refresh_loop _ _ _ _ _ _) as [[[h' nl'] next'] bs'] eqn:El. cbn [pv_heap] in Hb.
    destruct (refresh_loop_fresh _ _ _ _ _ _ _ _ _ _ El l b Hb) as [?|(_ & _ & H1 & H2)]; [congruence|by intros []].
Qed.

(** The counter of a backend the request was given. *)
Lemma metered_bump (q : bool) ts w log i l (k : unit -> prog PxE unit) h x :
  let e := if q then EIncErrors l else EIncRequests l in
  metered (ts, w, log) -> ts !! i = Some (Vis e k, h) -> own_target _ e h ->
  metered (<[i := (k x, h ++ [Ob e x])]> ts, on_backend (if q then IncErrors else IncRequests) l w, log ++ [EvOp (Ob e x)]).
Proof using Type.
  intros e Hm Hi Hpre. eapply (metered_op (fun q l' => bumps q (eq l') (Ob e x))); [done|done| | |done| |].
  - apply on_backend_wf; [by destruct q|apply Hm].
  - apply advances_alter; [by destruct q| |].
    + intros b k0. subst e. destruct q, k0; cbn; unfold one_if; rewrite ?decide_True by done; auto.
    + intros k0 l' Hl. subst e. destruct q, k0; cbn; unfold one_if; by rewrite ?decide_False by congruence.
  - intros k0 l' Hne. assert (l' = l) as ->; [|subst e; by destruct q].
    destruct (decide (l' = l)) as [|Hl]; [done|]. destruct Hne. subst e.
    destruct q, k0; cbn; unfold one_if; by rewrite ?decide_False by congruence.
  - intros b Hb. subst e. destruct q; by apply not_elem_of_nil in Hb.
Qed.

Lemma mstep_metered checker maxRetries cfg cfg' :
  metered cfg -> mstep checker maxRetries cfg cfg' -> metered cfg'.
Proof using Type.
  intros Hm Hs. destruct Hs as [r ts w log|i X e k h ts w log x w' Hi HR|probe ts w log st|fetched ts w log].
  - rewrite <- (app_nil_r log). eapply (metered_env ts w); [done|apply Hm|apply advances_refl|done| |].
    + intros t [Ht| ->%list_elem_of_singleton]%elem_of_app; [by left|right]. split; [done|apply ServeHTTP_settled].
    + intros f. rewrite tally_app. cbn. lia.
  - pose proof (mt_wf _ Hm) as Hwf. cbn [fst snd] in Hwf.
    pose proof (mt_threads _ Hm _ (list_elem_of_lookup_2 _ _ _ Hi)) as [Hpre _]. cbn [snd] in Hpre.
    assert (Hsame : px_prov w' = px_prov w -> (forall q l, bumps q (eq l) (Ob e x) = 0%Z) ->
      (forall b, b ∈ ob_targets (Ob e x) -> exists bk, pv_heap (px_prov w) !! t_loc b = Some bk /\ b_Name bk = t_Name b) ->
      metered (<[i := (k x, h ++ [Ob e x])]> ts, w', log ++ [EvOp (Ob e x)])).
    { intros Hp Hb Hpk. eapply (metered_op (fun _ _ => 0%Z) ts w); [done|done|by rewrite Hp|rewrite Hp; apply advances_refl|done|by intros ? ? []|done]. }
    assert (Hnop : forall b, b ∈ @nil Target -> exists bk, pv_heap (px_prov w) !! t_loc b = Some bk /\ b_Name bk = t_Name b)
      by (intros b Hb; by apply not_elem_of_nil in Hb).
    destruct e as [|l|l|l|l|l|l req|key v|st|body|msg st|m|]; cbn [px_rel] in HR.
    + destruct HR as [-> ->]. apply Hsame; [done|done|]. intros b Hb. unfold target_of in Hb.
      destruct ((balancer_next _ _ _).1) as [l0|]; [|by apply not_elem_of_nil in Hb].
      cbn [mbind option_bind] in Hb. destruct (pv_heap (px_prov w) !! l0) as [bk|] eqn:Hl0; cbn in Hb;
        [apply list_elem_of_singleton in Hb; subst; cbn; eauto|by apply not_elem_of_nil in Hb].
    + subst w'. eapply (metered_op (fun _ _ => 0%Z)); [done|done|by apply on_backend_wf| |done|by intros ? ? []|exact Hnop].
      apply advances_alter; [done|intros b []; by left|done].
    + subst w'. eapply (metered_op (fun _ _ => 0%Z)); [done|done|by apply on_backend_wf| |done|by intros ? ? []|exact Hnop].
      apply advances_alter; [done|intros b []; by left|done].
    + subst w'. by apply (metered_bump false).
    + subst w'. by apply (metered_bump true).
    + destruct HR as [_ ->]. by apply Hsame.
    + subst. by apply Hsame.
    + subst. by apply Hsame.
    + subst. by apply Hsame.
    + subst. by apply Hsame.
    + subst. by apply Hsame.
    + subst. by apply Hsame.
    + subst. by apply Hsame.
  - by apply metered_check.
  - by apply metered_refresh.
Qed.

Lemma msteps_metered checker maxRetries cfg cfg' :
  metered cfg -> msteps checker maxRetries cfg cfg' -> metered cfg'.
Proof using Type. intros Hm Hs. induction Hs; [done|]. eauto using mstep_metered. Qed.

(** ** When the proxy is idle *)

(** Adding up the counters of the backends of a name. *)
Definition named (name : string) (k : bool) (b : Backend) : Z := if decide (b_Name b = name) then counter k b else 0.
Definition heap_total (name : string) (k : bool) (h : gmap nat Backend) : Z := tally (named name k) (map_to_list h).*2.

Definition name_at (h : gmap nat Backend) (l : nat) : string := match h !! l with Some b => b_Name b | None => EmptyString end.

Lemma tally_ext {A} (f g : A -> Z) (l : list A) : (forall x, x ∈ l -> f x = g x) -> tally f l = tally g l.
Proof using Type. induction l as [|x l IH]; intros Hfg; [done|]. cbn. rewrite Hfg, IH by set_solver. done. Qed.

Lemma tally_plus {A} (f g : A -> Z) (l : list A) : tally (fun x => f x + g x)%Z l = (tally f l + tally g l)%Z.
Proof using Type. induction l as [|x l IH]; cbn; lia. Qed.

Lemma tally_zero {A} (l : list A) : tally (fun _ => 0%Z) l = 0%Z.
Proof using Type. induction l as [|x l IH]; cbn; lia. Qed.

Lemma tally_fmap {A B} (f : A -> Z) (g : B -> A) (l : list B) : tally f (g <$> l) = tally (fun x => f (g x)) l.
Proof using Type. induction l as [|x l IH]; cbn; [done|]. by rewrite IH. Qed.

(** Summing over two lists in either order. *)
Lemma tally_swap {A B} (f : A -> B -> Z) (l : list A) (l' : list B) :
  tally (fun x => tally (f x) l') l = tally (fun y => tally (fun x => f x y) l) l'.
Proof using Type.
  induction l as [|x l IH]; cbn; [by rewrite tally_zero|]. by rewrite IH, tally_plus.
Qed.

Lemma wrap_tally {A} (f : A -> Z) (l : list A) : int64_wrap (tally (fun x => int64_wrap (f x)) l) = int64_wrap (tally f l).
Proof using Type.
  induction l as [|x l IH]; [done|]. cbn. rewrite int64_wrap_add, Z.add_comm, <- int64_wrap_add, IH, int64_wrap_add.
  f_equal. lia.
Qed.

Lemma tally_perm {A} (f : A -> Z) (l l' : list A) : l ≡ₚ l' -> tally f l = tally f l'.
Proof using Type. induction 1; cbn; lia. Qed.

Lemma tally_bind {A B} (f : B -> Z) (g : A -> list B) (l : list A) : tally f (l ≫= g) = tally (fun x => tally f (g x)) l.
Proof using Type. induction l as [|x l IH]; [done|]. cbn [mbind list_bind tally]. by rewrite tally_app, IH. Qed.

(** A location is the key of one entry. *)
Lemma tally_at (h : gmap nat Backend) (f : Backend -> Z) l :
  tally (fun p => if decide (l = p.1) then f p.2 else 0%Z) (map_to_list h) =
  match h !! l with Some b => f b | None => 0%Z end.
Proof using Type.
  induction h as [|j b h Hj IH] using map_ind; [done|].
  rewrite (tally_perm _ _ _ (map_to_list_insert h j b Hj)). cbn [tally fst snd]. rewrite IH.
  destruct (decide (l = j)) as [->|Hne]; [rewrite lookup_insert_eq, Hj; lia|by rewrite lookup_insert_ne].
Qed.

Lemma bumps_nonneg k l ev : (0 <= on_op (bumps k (eq l)) ev)%Z.
Proof using Type. destruct ev as [[X []]|]; cbn; try done; destruct k; unfold one_if; try case_decide; lia. Qed.

(** What happened to the backends of a name, event by event. *)
Lemma bumps_by_name k name ts w log ev :
  metered (ts, w, log) -> ev ∈ log ->
  let heap := pv_heap (px_prov w) in
  tally (fun p => if decide (b_Name p.2 = name) then on_op (bumps k (eq p.1)) ev else 0%Z) (map_to_list heap) =
  on_op (bumps k (fun l => name_at heap l = name)) ev.
Proof using Type.
  intros Hm Hev heap.
  assert (Hloc : forall l, on_op (bumps k (eq l)) ev <> 0%Z -> is_Some (heap !! l)).
  { intros l Hne. destruct (heap !! l) eqn:Hl; [eauto|]. pose proof (mt_alloc _ Hm l k Hl) as Hz. cbn [snd] in Hz.
    apply list_elem_of_lookup in Hev as [i Hi].
    pose proof (tally_lookup_le _ _ _ _ (bumps_nonneg k l) Hi). pose proof (bumps_nonneg k l ev). lia. }
  assert (Hone : forall l0 : nat, is_Some (heap !! l0) ->
    tally (fun p => if decide (b_Name p.2 = name) then one_if (p.1 = l0) else 0%Z) (map_to_list heap) =
    one_if (name_at heap l0 = name)).
  { intros l0 [b Hb]. transitivity (match heap !! l0 with Some b => one_if (b_Name b = name) | None => 0%Z end).
    - rewrite <- (tally_at heap (fun b => one_if (b_Name b = name)) l0). apply tally_ext. intros [l b'] _. cbn.
      unfold one_if. repeat case_decide; congruence.
    - unfold name_at. by rewrite Hb. }
  assert (Hzero : tally (fun p => if decide (b_Name p.2 = name) then 0%Z else 0%Z) (map_to_list heap) = 0%Z).
  { rewrite (tally_ext _ (fun _ => 0%Z)); [apply tally_zero|]. intros p _. by case_decide. }
  destruct ev as [[X [] x]|n a]; cbn [on_op bumps]; try exact Hzero.
  all: destruct k; try exact Hzero; apply Hone, Hloc; cbn; unfold one_if; by rewrite decide_True.
Qed.

(** Counted on the backends of a name, and booked for it. *)
Lemma totals_booked k name ts w log :
  metered (ts, w, log) -> (forall t, t ∈ ts -> t.1 = Ret tt) ->
  int64_wrap (heap_total name k (pv_heap (px_prov w))) = int64_wrap (tally (on_op (booked k name)) log).
Proof using Type.
  intros Hm Hdone. unfold heap_total. rewrite tally_fmap. set (heap := pv_heap (px_prov w)).
  rewrite (tally_ext _ (fun p => int64_wrap (tally (fun ev => if decide (b_Name p.2 = name) then on_op (bumps k (eq p.1)) ev else 0%Z) log))).
  2: { intros [l b] Hlb%elem_of_map_to_list. cbn. unfold named. case_decide; [apply (mt_count _ Hm l b k Hlb)|].
       by rewrite tally_zero. }
  rewrite wrap_tally, tally_swap.
  rewrite (tally_ext _ (on_op (bumps k (fun l => name_at heap l = name)))) by (intros ev Hev; by eapply (bumps_by_name k)).
  f_equal. rewrite !(mt_log _ Hm). cbn [fst]. apply tally_ext. intros t Ht.
  pose proof (mt_threads _ Hm t Ht) as Hh. rewrite (Hdone t Ht) in Hh. apply (sd_booked _ Hh (name_at heap)).
  intros b Hb. destruct (mt_names _ Hm t b Ht Hb) as (bk & Hbk & <-). unfold name_at, heap. cbn in Hbk. by rewrite Hbk.
Qed.

Lemma calls_booked (k : bool) name log :
  tally (if k then errors_of name else requests_of name) (calls_of log) = tally (on_op (booked k name)) log.
Proof using Type.
  unfold calls_of. rewrite tally_bind. apply tally_ext. intros ev _.
  destruct ev as [[X e x]|n b]; [|by destruct k]. destruct e; try (by destruct k).
  destruct m; destruct k; cbn; try done; unfold counts_name, one_if; cbn [andb]; case_bool_decide; case_decide; done.
Qed.

Lemma calls_finished log : tally observed (calls_of log) = tally (on_op finished) log.
Proof using Type.
  unfold calls_of. rewrite tally_bind. apply tally_ext. intros ev _.
  destruct ev as [[X e x]|n b]; [|done]. destruct e; try done. by destruct m.
Qed.

Lemma tally_ones {A} (l : list A) : tally (fun _ => 1%Z) l = Z.of_nat (length l).
Proof using Type. induction l as [|x l IH]; [done|]. cbn [tally length]. lia. Qed.

(** C22: The metrics agree with the proxy.  However requests, health checks and pool
    refreshes interleaved, for every balancer: once all requests are done, the
    total counts them all, and for every backend name the requests and errors the
    metrics page shows are those counted on the backend objects of that name
    (modulo 2^64), objects that refreshes have replaced included. *)
Theorem metrics_agree (conv : float64 -> Z) (checker : Checker) (maxRetries : Z) (w w' : PxWorld)
    (ts : list (prog PxE unit * list Obs)) (log : list Event) :
  provider_wf (px_prov w) ->
  map_Forall (fun _ b => b_totalReqs b = 0%Z /\ b_totalErrs b = 0%Z) (pv_heap (px_prov w)) ->
  msteps checker maxRetries ([], w, []) (ts, w', log) ->
  (forall t, t ∈ ts -> t.1 = Ret tt) ->
  let m := registry conv (calls_of log) in
  m_requestsTotal m = int64_wrap (Z.of_nat (length ts)) /\
  forall name,
    bm_requestsTotal (backendFor name m).1 = int64_wrap (heap_total name false (pv_heap (px_prov w'))) /\
    bm_errorsTotal (backendFor name m).1 = int64_wrap (heap_total name true (pv_heap (px_prov w'))).
Proof using Type.
  intros Hwf Hz Hs Hdone m.
  assert (H0 : metered ([], w, [])).
  { split; cbn [fst snd]; [done|done| |done|intros t b Ht|intros t Ht]; try (by apply not_elem_of_nil in Ht).
    intros l b k Hb. destruct (Hz _ _ Hb) as [H1 H2]. by destruct k. }
  pose proof (msteps_metered _ _ _ _ H0 Hs) as Hm. subst m. split.
  - destruct (registry_totals conv (calls_of log)) as (-> & _). rewrite calls_finished, (mt_log _ Hm). cbn [fst].
    rewrite (tally_ext _ (fun _ => 1%Z)); [by rewrite tally_ones|]. intros t Ht.
    pose proof (mt_threads _ Hm t Ht) as Hh. rewrite (Hdone t Ht) in Hh. apply Hh.
  - intros name. rewrite registry_backendFor, !(totals_booked _ _ _ _ _ Hm Hdone).
    cbn [entry_of bm_requestsTotal bm_errorsTotal].
    by rewrite <- (calls_booked false name log), <- (calls_booked true name log).
Qed.
End Metered.

(** ** Executions *)

Section Driver.
Context `{UrlLib} {S : Type} `{!Balancer S}.

(** One result of each operation: every backend answers 200. *)
Definition px_result {X} (e : PxE X) (w : PxWorld (S := S)) : X * PxWorld (S := S) :=
  match e in PxE X return X * PxWorld with
  | ENext =>
      let next := balancer_next (pv_heap (px_prov w)) (pv_pool (px_prov w)) (px_bal w) in
      (next.1 ≫= target_of (pv_heap (px_prov w)), mkPxWorld (px_prov w) next.2 (px_counts w))
  | EIncConnections l => (tt, on_backend IncConnections l w)
  | EDecConnections l => (tt, on_backend DecConnections l w)
  | EIncRequests l => (tt, on_backend IncRequests l w)
  | EIncErrors l => (tt, on_backend IncErrors l w)
  | EActiveConnections l => (ActiveConnections (pv_heap (px_prov w)) l, w)
  | EDo _ _ => (Responded 200 [] EmptyString, w)
  | EHeaderAdd _ _ => (tt, w) | EWriteHeader _ => (tt, w) | ECopy _ => (true, w)
  | EHttpError _ _ => (tt, w) | EPxMetric _ => (tt, w) | EPxNow => (0%Z, w)
  end.

Lemma px_result_rel X (e : PxE X) w : px_rel X e w (px_result e w).1 (px_result e w).2.
Proof using Type. by destruct e. Qed.

Abbreviation MCfg := (list (prog PxE unit * list Obs) * PxWorld (S := S) * list Event)%type (only parsing).

(** The threads take turns as the schedule says. *)
Fixpoint drive (schedule : list nat) (cfg : MCfg) : MCfg :=
  match schedule with
  | [] => cfg
  | i :: schedule =>
      let '(ts, w, log) := cfg in
      match ts !! i with
      | Some (Vis e k, h) =>
          let r := px_result e w in
          drive schedule (<[i := (k r.1, h ++ [Ob e r.1])]> ts, r.2, log ++ [EvOp (Ob e r.1)])
      | _ => drive schedule cfg
      end
  end.

Lemma drive_steps checker maxRetries schedule cfg : msteps checker maxRetries cfg (drive schedule cfg).
Proof using Type.
  revert cfg. induction schedule as [|i schedule IH]; intros [[ts w] log]; [apply rtc_refl|]. cbn [drive].
  destruct (ts !! i) as [[[a|X e k] h]|] eqn:Hi; [apply IH| |apply IH].
  eapply rtc_l; [|apply IH]. apply (ms_op _ _ _ _ _ _ _ _ _ _ _ _ Hi (px_result_rel X e w)).
Qed.
End Driver.

Import ToyUrl.

(** Two requests for the one backend of a small proxy. *)
Definition two_requests : list (prog PxE unit * list Obs) * PxWorld (S := AnyBalancer) * list Event :=
  ([(ServeHTTP 2 toy_request, []); (ServeHTTP 2 toy_request, [])], toy_proxy, []).

Lemma two_requests_start : msteps toy_checker 2 ([], toy_proxy, []) two_requests.
Proof.
  eapply rtc_l; [apply (ms_request _ _ toy_request)|]. eapply rtc_l; [apply (ms_request _ _ toy_request)|]. apply rtc_refl.
Qed.

Definition is_ret {E A} (p : prog E A) : bool := match p with Ret _ => true | Vis _ _ => false end.
Definition idle (cfg : list (prog PxE unit * list Obs) * PxWorld (S := AnyBalancer) * list Event) : bool :=
  forallb (fun t => is_ret t.1) cfg.1.1.

Definition one_after_other : list nat := replicate 20 0 ++ replicate 20 1.

Lemma idle_done cfg : idle cfg = true -> forall t, t ∈ cfg.1.1 -> t.1 = Ret tt.
Proof.
  intros Hi t Ht. unfold idle in Hi. rewrite forallb_forall in Hi. apply list_elem_of_In in Ht.
  specialize (Hi t Ht). destruct (t.1) as [[]|]; done.
Qed.

Lemma metrics_agree_witness :
  exists ts w log, msteps toy_checker 2 ([], toy_proxy, []) (ts, w, log) /\
    m_requestsTotal (registry (fun _ => 0%Z) (calls_of log)) = 2%Z /\
    bm_requestsTotal (backendFor "a" (registry (fun _ => 0%Z) (calls_of log))).1 = 2%Z.
Proof.
  destruct (drive one_after_other two_requests) as [[ts w] log] eqn:E. exists ts, w, log.
  assert (Hs : msteps toy_checker 2 ([], toy_proxy, []) (ts, w, log)).
  { rewrite <- E. etransitivity; [exact two_requests_start|apply drive_steps]. }
  assert (Hwf : provider_wf (px_prov toy_proxy)).
  { split; cbn; [intros l [b Hl]; apply lookup_singleton_Some in Hl; lia|intros name l Hl; by rewrite lookup_empty in Hl]. }
  assert (Hz : map_Forall (fun _ b => b_totalReqs b = 0%Z /\ b_totalErrs b = 0%Z) (pv_heap (px_prov toy_proxy)))
    by (by apply map_Forall_singleton).
  assert (Hd : forall t, t ∈ ts -> t.1 = Ret tt).
  { apply (idle_done (ts, w, log)). rewrite <- E. vm_compute. reflexivity. }
  destruct (metrics_agree (fun _ => 0%Z) toy_checker 2 toy_proxy w ts log Hwf Hz Hs Hd) as [H1 H2].
  split; [exact Hs|]. rewrite H1. destruct (H2 "a") as [-> _].
  replace ts with (drive one_after_other two_requests).1.1 by (by rewrite E).
  replace w with (drive one_after_other two_requests).1.2 by (by rewrite E). split; vm_compute; reflexivity.
Defined.

(** The first request reads the connection count after it has closed its own; the
    second closes its connection, reads and reports 0; then the first reports
    the 1 it read. *)
Definition late_report : list nat := replicate 10 0 ++ replicate 10 1 ++ [0; 0] ++ replicate 5 1 ++ replicate 3 0.

(** The gauge of active connections can be left behind.  The handler reads the
    connection count and stores it in the registry in two steps.  In this
    execution of two requests both are done and the backend has no connection
    open, and the metrics page keeps showing one until the next request. *)
Theorem active_gauge_left_behind (conv : float64 -> Z) :
  exists ts w log, msteps toy_checker 2 ([], toy_proxy, []) (ts, w, log) /\
    (forall t, t ∈ ts -> t.1 = Ret tt) /\
    ActiveConnections (pv_heap (px_prov w)) 0 = 0%Z /\
    bm_activeConnections (backendFor "a" (registry conv (calls_of log))).1 = 1%Z.
Proof.
  destruct (drive late_report two_requests) as [[ts w] log] eqn:E. exists ts, w, log. split_and!.
  - rewrite <- E. etransitivity; [exact two_requests_start|apply drive_steps].
  - apply (idle_done (ts, w, log)). rewrite <- E. vm_compute. reflexivity.
  - replace w with (drive late_report two_requests).1.2 by (by rewrite E). vm_compute. reflexivity.
  - rewrite registry_backendFor. replace log with (drive late_report two_requests).2 by (by rewrite E).
    vm_compute. reflexivity.
Qed.
