(* ===== verification/ProxyMain.v ===== *)
(** * reverse-proxy-load-balancer/cmd/proxy: starting the proxy

    [main] up to the point where it serves: the command line, the configuration,
    the pool, the balancer, the handler, the routes of the mux and the background
    goroutines.  Its result is the running proxy, or how the process ended. *)

From S2P Require Import Prelude GoText Http GoFormat ServeMux Settings Proxy ProxyProperties.
From S2P Require Import ProxyHandler ProxyHandlerProperties ProxyConfig ProxyMetrics.
From S2P Require Import ProxyMetricsProperties ProxyMetered.
From Stdlib Require Import ZArith Lia Ascii SpecFloat.
From stdpp Require Import base gmap strings list.
Local Open Scope go_scope.

Section Main.
Context `{UrlLib}.
Variable ReadFile : string -> string + string.
Variable Unmarshal : (string + string -> Duration + string) -> string -> Config + string.

(** *** internal/proxy/transport.go *)

Record Transport := mkTransport {
  tr_DialTimeout : Duration; tr_KeepAlive : Duration; tr_MaxIdleConns : Z; tr_MaxIdleConnsPerHost : Z;
  tr_IdleConnTimeout : Duration; tr_TLSHandshakeTimeout : Duration; tr_ExpectContinueTimeout : Duration }.

Definition NewTransport : Transport :=
  mkTransport (5 * Second) (30 * Second) 1000 100 (90 * Second) (5 * Second) (1 * Second).

(** *** internal/proxy/handler.go *)

(** [http.Client]; [cl_ErrUseLastResponse]: [CheckRedirect] returns it, so that a
    redirect is passed on and not followed. *)
Record Client := mkClient { cl_Transport : Transport; cl_Timeout : Duration; cl_ErrUseLastResponse : bool }.

Record HandlerConfig := mkHandlerConfig { hd_MaxRetries : Z; hd_BackendTimeout : Duration }.

(** The fields of [Handler] that are its own; the pool, the balancer and the
    metrics are the shared world. *)
Record Handler := mkHandler { hd_client : Client; hd_maxRetries : Z }.

Definition Handler_New (cfg : HandlerConfig) : Handler :=
  mkHandler (mkClient NewTransport (hd_BackendTimeout cfg) true) (hd_MaxRetries cfg).

(** *** internal/logging/logger.go *)

Definition logging_New (level format : string) : Level * LogFormat :=
  let level := ToLower level in
  let lvl :=
    if String.eqb level "debug" then LevelDebug
    else if String.eqb level "warn" || String.eqb level "warning" then LevelWarn
    else if String.eqb level "error" then LevelError
    else LevelInfo in
  (lvl, if String.eqb (ToLower format) "text" then TextHandler else JSONHandler).

(** *** The proxy as it serves *)

Record App := mkApp {
  app_world : PxWorld (S := AnyBalancer);   (* pool, discovery, balancer *)
  app_handler : Handler;
  app_patterns : list Pattern;              (* of the mux, in order *)
  app_checker : option (Checker * HealthCheckConfig);
  app_discovery : option (string * Duration);
  app_calls : list MCall;                   (* made on the registry so far *)
  app_server : ServerConfig;
  app_logger : Level * LogFormat }.

Definition app_maxRetries (a : App) : Z := hd_maxRetries (app_handler a).

(** How [main] ends or goes on. *)
Inductive Outcome :=
| Exited (status : Z)
| Panicked               (* ServeMux.Handle *)
| Serving (a : App).

(** The backends of the static list, at locations 0, 1, ...; [None]: a URL does
    not parse. *)
Fixpoint static_backends (l : nat) (bs : list BackendConfig) : option (gmap nat Backend * list nat) :=
  match bs with
  | [] => Some (∅, [])
  | bc :: bs =>
      match New (bc_Name bc) (bc_URL bc) (bc_Weight bc) with
      | None => None
      | Some b =>
          match static_backends (S l) bs with
          | None => None
          | Some (h, ls) => Some (<[l := b]> h, l :: ls)
          end
      end
  end.

(** The pool and its provider; with discovery the pool starts empty, and [early]
    is what the provider's first fetch has already brought, if it was that
    quick. *)
Definition start_pool (cfg : Config) (early : option (list backendSpec)) : option Provider :=
  if dc_Enabled (c_Discovery cfg) then Some (refresh early (mkProvider ∅ 0 [] ∅))
  else
    match static_backends 0 (c_Backends cfg) with
    | None => None
    | Some (h, ls) => Some (mkProvider h (length ls) ls ∅)
    end.

Definition mux_patterns (cfg : Config) : list string :=
  ["/"; "/healthz"; "/admin/backends"] ++ (if mc_Enabled (c_Metrics cfg) then [mc_Path (c_Metrics cfg)] else []).

(** [for _, b := range pool.Backends() { m.SetBackendHealth(b.Name, true) }] *)
Definition all_healthy (p : Provider) : list MCall :=
  pv_pool p ≫= (fun l => match pv_heap p !! l with Some b => [Health (b_Name b) true] | None => [] end).

Definition serve (cfg : Config) (early : option (list backendSpec)) : Outcome :=
  match start_pool cfg early with
  | None => Exited 1
  | Some prov =>
      match NewBalancer (lc_Strategy (c_LoadBalancer cfg)) with
      | None => Exited 1
      | Some lb =>
          match mux_handle_all [] (mux_patterns cfg) with
          | None => Panicked
          | Some pats =>
              let hc := c_HealthCheck cfg in
              Serving {|
                app_world := mkPxWorld prov lb ∅;
                app_handler := Handler_New {| hd_MaxRetries := lc_MaxRetries (c_LoadBalancer cfg);
                  hd_BackendTimeout := lc_BackendTimeout (c_LoadBalancer cfg) |};
                app_patterns := pats;
                app_checker := if hc_Enabled hc
                  then Some (NewChecker (hc_UnhealthyThreshold hc) (hc_HealthyThreshold hc), hc) else None;
                app_discovery := if dc_Enabled (c_Discovery cfg)
                  then Some (dc_ControlPlaneURL (c_Discovery cfg), dc_RefreshInterval (c_Discovery cfg)) else None;
                app_calls := if hc_Enabled hc then [] else all_healthy prov;
                app_server := c_Server cfg;
                app_logger := logging_New (lg_Level (c_Logging cfg)) (lg_Format (c_Logging cfg)) |}
          end
      end
  end.

Definition main (args : list string) (early : option (list backendSpec)) : Outcome :=
  match flag_Parse [("config", FString "config.yaml")] args with
  | FlagExit status => Exited status
  | Flags v _ =>
      match Load ReadFile Unmarshal (flag_string v "config") with
      | inr _ => Exited 1
      | inl cfg => serve cfg early
      end
  end.

(** The goroutines of the health checker and of discovery each start a ticker,
    which panics on an interval that is not positive and takes the process
    down. *)
Definition tickers_panic (a : App) : bool :=
  match app_checker a with Some (_, hc) => (hc_Interval hc <=? 0)%Z | None => false end ||
  match app_discovery a with Some (_, d) => (d <=? 0)%Z | None => false end.

(** ** Properties *)

Lemma static_backends_spec l bs :
  match static_backends l bs with
  | None => exists bc, bc ∈ bs /\ url_Parse (bc_URL bc) = None
  | Some (h, ls) => ls = seq l (length bs) /\
      (forall k, is_Some (h !! k) <-> l <= k < l + length bs) /\
      forall i bc, bs !! i = Some bc -> exists u, url_Parse (bc_URL bc) = Some u /\
        h !! (l + i) = Some (mkBackend (bc_Name bc) u (if (bc_Weight bc <=? 0)%Z then 1 else bc_Weight bc)%Z true 0 0 0)
  end.
Proof using Type.
  revert l. induction bs as [|bc bs IH]; intros l; cbn [static_backends].
  { split_and!; [done| |intros i bc Hi; by rewrite lookup_nil in Hi]. intros k. rewrite lookup_empty.
    split; [by intros []|cbn; lia]. }
  unfold New. destruct (url_Parse (bc_URL bc)) as [u|] eqn:Hu; [|exists bc; set_solver].
  specialize (IH (Datatypes.S l)). destruct (static_backends (Datatypes.S l) bs) as [[h ls]|].
  - destruct IH as (-> & Hdom & Hlook). split_and!; [done| |].
    + intros k. cbn [length]. destruct (decide (k = l)) as [->|]; [rewrite lookup_insert_eq|rewrite lookup_insert_ne, Hdom by done].
      * split; [lia|eauto].
      * lia.
    + intros [|i] bc' Hi; cbn in Hi; simplify_eq.
      * exists u. by rewrite Nat.add_0_r, lookup_insert_eq.
      * destruct (Hlook _ _ Hi) as (u' & ? & Hl). exists u'. split; [done|]. rewrite lookup_insert_ne by lia.
        by rewrite <- Nat.add_succ_comm.
  - destruct IH as (bc' & ? & ?). exists bc'. set_solver.
Qed.

(** The state a fresh proxy starts in. *)
Definition fresh_world (w : PxWorld (S := AnyBalancer)) : Prop :=
  provider_wf (px_prov w) /\ map_Forall (fun _ b => fresh_backend b) (pv_heap (px_prov w)).

Lemma start_pool_fresh cfg early prov :
  start_pool cfg early = Some prov -> provider_wf prov /\ map_Forall (fun _ b => fresh_backend b) (pv_heap prov).
Proof using Type.
  unfold start_pool. destruct (dc_Enabled (c_Discovery cfg)).
  - intros [= <-]. set (p0 := mkProvider ∅ 0 [] ∅).
    assert (Hwf : provider_wf p0).
    { split; cbn; [intros l [b Hl]|intros name l Hl]; by rewrite lookup_empty in Hl. }
    destruct early as [specs|]; [|by split].
    destruct (refresh_spec p0 specs Hwf) as [_ _ Hbd Hnext _]. split; [by split|].
    intros l b Hb. unfold refresh in Hb. destruct (refresh_loop _ _ _ _ _ _) as [[[h' nl'] next'] bs'] eqn:El.
    destruct (refresh_loop_fresh _ _ _ _ _ _ _ _ _ _ El l b Hb) as [Hl|?]; [unfold p0 in Hl; cbn in Hl; by rewrite lookup_empty in Hl|done].
  - pose proof (static_backends_spec 0 (c_Backends cfg)) as Hspec.
    destruct (static_backends 0 (c_Backends cfg)) as [[h ls]|]; [|done]. intros [= <-].
    destruct Hspec as (-> & Hdom & Hlook). split; [split; cbn|].
    + intros l Hl%Hdom. rewrite length_seq. lia.
    + intros name l Hl. by rewrite lookup_empty in Hl.
    + intros l b Hb. cbn in Hb. assert (is_Some (h !! l)) as Hl%Hdom by eauto.
      destruct (lookup_lt_is_Some_2 (c_Backends cfg) l) as [bc Hbc]; [lia|].
      destruct (Hlook _ _ Hbc) as (u & _ & Hl'). cbn in Hl'. simplify_eq. done.
Qed.

Lemma start_pool_none cfg early :
  start_pool cfg early = None <->
  dc_Enabled (c_Discovery cfg) = false /\ exists bc, bc ∈ c_Backends cfg /\ url_Parse (bc_URL bc) = None.
Proof using Type.
  unfold start_pool. destruct (dc_Enabled (c_Discovery cfg)); [naive_solver|].
  pose proof (static_backends_spec 0 (c_Backends cfg)) as Hspec.
  destruct (static_backends 0 (c_Backends cfg)) as [[h ls]|]; [|naive_solver].
  split; [done|]. intros (_ & bc & [i Hi]%list_elem_of_lookup & Hn).
  destruct Hspec as (_ & _ & Hlook). destruct (Hlook _ _ Hi) as (u & ? & _). congruence.
Qed.

(** A pattern the mux of the proxy refuses. *)
Definition refused_path (path : string) : Prop :=
  mux_handle_all [] (["/"; "/healthz"; "/admin/backends"] ++ [path]) = None.

Lemma base_patterns_register : is_Some (mux_handle_all [] ["/"; "/healthz"; "/admin/backends"]).
Proof using Type. vm_compute. eauto. Qed.

Lemma mux_patterns_none cfg :
  mux_handle_all [] (mux_patterns cfg) = None <->
  mc_Enabled (c_Metrics cfg) = true /\ refused_path (mc_Path (c_Metrics cfg)).
Proof using Type.
  unfold mux_patterns, refused_path. destruct (mc_Enabled (c_Metrics cfg)); [naive_solver|].
  split; [|naive_solver]. rewrite app_nil_r. destruct base_patterns_register as [pats ->]. done.
Qed.

(** What a backend of the static list becomes. *)
Definition serves_config (h : gmap nat Backend) (bc : BackendConfig) (l : nat) : Prop :=
  exists b, h !! l = Some b /\ b_Name b = bc_Name bc /\ url_Parse (bc_URL bc) = Some (b_URL b) /\
    b_Weight b = (if (bc_Weight bc <=? 0)%Z then 1 else bc_Weight bc)%Z.

Lemma start_pool_static cfg early prov :
  dc_Enabled (c_Discovery cfg) = false -> start_pool cfg early = Some prov ->
  Forall2 (serves_config (pv_heap prov)) (c_Backends cfg) (pv_pool prov).
Proof using Type.
  unfold start_pool. intros ->. pose proof (static_backends_spec 0 (c_Backends cfg)) as Hspec.
  destruct (static_backends 0 (c_Backends cfg)) as [[h ls]|]; [|done]. intros [= <-].
  destruct Hspec as (-> & _ & Hlook). cbn. apply Forall2_same_length_lookup. split; [by rewrite length_seq|].
  intros i bc l Hbc Hl. apply lookup_seq in Hl as [-> _]. destruct (Hlook _ _ Hbc) as (u & Hu & Hb).
  eexists. split; [exact Hb|]. done.
Qed.

(** C33: How the proxy starts.  With a command line that parses: a configuration
    [Load] refuses exits with status 1, and so does a static backend whose URL
    does not parse; a metrics path the mux refuses makes it panic; there is no
    other failure (the strategy of a loaded configuration is always known).
    Otherwise it serves: the pool is the static list in its order, with the
    objects in their initial state (what the accounting theorems assume), the
    thresholds are at least one, and every background ticker has a positive
    interval unless the file gave a negative one. *)
Theorem main_correct (args : list string) (v : gmap string FlagValue) (rest : list string)
    (early : option (list backendSpec)) :
  flag_Parse [("config", FString "config.yaml")] args = Flags v rest ->
  match Load ReadFile Unmarshal (flag_string v "config") with
  | inr _ => main args early = Exited 1
  | inl cfg =>
      let bad_url := dc_Enabled (c_Discovery cfg) = false /\ exists bc, bc ∈ c_Backends cfg /\ url_Parse (bc_URL bc) = None in
      let bad_path := mc_Enabled (c_Metrics cfg) = true /\ refused_path (mc_Path (c_Metrics cfg)) in
      (bad_url -> main args early = Exited 1) /\
      (~ bad_url -> bad_path -> main args early = Panicked) /\
      (~ bad_url -> ~ bad_path -> exists a, main args early = Serving a /\
         fresh_world (app_world a) /\
         (dc_Enabled (c_Discovery cfg) = false ->
            Forall2 (serves_config (pv_heap (px_prov (app_world a)))) (c_Backends cfg) (pv_pool (px_prov (app_world a)))) /\
         (forall c hc, app_checker a = Some (c, hc) -> (1 <= unhealthyThreshold c)%Z /\ (1 <= healthyThreshold c)%Z) /\
         (tickers_panic a = true ->
            (hc_Interval (c_HealthCheck cfg) < 0)%Z \/ (dc_RefreshInterval (c_Discovery cfg) < 0)%Z))
  end.
Proof using Type.
  intros Hf. unfold main. rewrite Hf. destruct (Load ReadFile Unmarshal (flag_string v "config")) as [cfg|err] eqn:HL; [|done].
  cbv zeta. rewrite <- (start_pool_none cfg early), <- mux_patterns_none. unfold serve.
  assert (Hwf : well_formed cfg).
  { unfold Load in HL. destruct (ReadFile _) as [data|]; [|done]. destruct (Unmarshal _ data) as [raw|]; [|done].
    destruct (Validate (applyDefaults raw)) eqn:Hv; [done|]. simplify_eq. by apply acceptable_well_formed, Validate_defaults. }
  destruct (wf_strategy _ Hwf) as [lb Hlb]. rewrite Hlb.
  destruct (start_pool cfg early) as [prov|] eqn:Hp; [|naive_solver].
  destruct (mux_handle_all [] (mux_patterns cfg)) as [pats|]; [|naive_solver].
  split_and!; [done|done|]. intros _ _. eexists. split; [reflexivity|]. cbn [app_world px_prov app_checker].
  split_and!.
  - exact (start_pool_fresh _ _ _ Hp).
  - intros Hd. by eapply start_pool_static.
  - intros c hc. destruct (hc_Enabled _); [|done]. intros [= <- <-]. unfold NewChecker. cbn.
    split; case_match; lia.
  - destruct (wf_timeouts _ Hwf) as (_ & _ & _ & _ & Hi & _ & Hr). unfold tickers_panic. cbn [app_checker app_discovery].
    intros [Ht|Ht]%orb_true_iff; [left; destruct (hc_Enabled _)|right; destruct (dc_Enabled _)]; try done;
      apply Z.leb_le in Ht; lia.
Qed.
End Main.

(** ** Examples *)

Import ToyUrl.

(** A decoder for two files: one backend with health checks, and discovery
    without them. *)
Definition raw_config (backends : list BackendConfig) (discovery health : bool) (metrics : string) : Config :=
  mkConfig (mkServerConfig EmptyString 0 0 0) (mkLoadBalancerConfig EmptyString 2 0)
    (mkHealthCheckConfig health EmptyString 0 0 0 0) backends
    (mkDiscoveryConfig discovery (if discovery then "http://cp/api/v1/proxy/backends" else EmptyString) 0)
    (mkLoggingConfig EmptyString EmptyString) (mkMetricsConfig true metrics).

Definition toy_files (path : string) : string + string :=
  if String.eqb path "config.yaml" then inl "static" else if String.eqb path "dynamic.yaml" then inl "dynamic" else inr "no such file".
Definition toy_yaml (_ : string + string -> Duration + string) (data : string) : Config + string :=
  if String.eqb data "static" then inl (raw_config [mkBackendConfig "a" "a" 0] false true EmptyString)
  else inl (raw_config [] true false EmptyString).

Lemma main_correct_witness :
  exists a, main toy_files toy_yaml [] None = Serving a /\ fresh_world (app_world a).
Proof.
  pose proof (main_correct toy_files toy_yaml [] (list_to_map [("config", FString "config.yaml")]) [] None eq_refl) as Hm.
  destruct (Load toy_files toy_yaml _) as [cfg|] eqn:HL; [|vm_compute in HL; discriminate].
  assert (Hcfg : cfg = applyDefaults (raw_config [mkBackendConfig "a" "a" 0] false true EmptyString)).
  { vm_compute in HL. injection HL as <-. vm_compute. reflexivity. }
  destruct Hm as (_ & _ & Hok). destruct Hok as (a & Ha & Hf & _).
  - subst cfg. intros (_ & bc & Hbc & Hu). apply list_elem_of_singleton in Hbc. subst bc. vm_compute in Hu. discriminate.
  - subst cfg. intros [_ Hr]. vm_compute in Hr. discriminate.
  - exists a. split; [exact Ha|exact Hf].
Defined.

(** The metrics path is not validated: one that equals another route, or lacks
    its slash, passes [Load] and makes [main] panic. *)
Example metrics_path_panics :
  Validate (applyDefaults (raw_config [mkBackendConfig "a" "a" 0] false true "/healthz")) = None /\
  serve (applyDefaults (raw_config [mkBackendConfig "a" "a" 0] false true "/healthz")) None = Panicked /\
  Validate (applyDefaults (raw_config [mkBackendConfig "a" "a" 0] false true "metrics")) = None /\
  serve (applyDefaults (raw_config [mkBackendConfig "a" "a" 0] false true "metrics")) None = Panicked.
Proof. vm_compute. split_and!; reflexivity. Qed.

(** Discovered backends look down when health checks are off.  With discovery
    enabled and health checks disabled, [main] marks the backends of the pool
    healthy in the metrics once, before the first fetch has filled the pool.  In
    this execution a backend is discovered, is alive and serves a request, and
    the metrics page shows its health as 0. *)
Theorem discovered_backend_looks_down (conv : float64 -> Z) :
  exists a w ts log, main toy_files toy_yaml ["-config"; "dynamic.yaml"] None = Serving a /\ app_checker a = None /\
    msteps (NewChecker 2 2) (app_maxRetries a) ([], app_world a, []) (ts, w, log) /\
    (forall t, t ∈ ts -> t.1 = Ret tt) /\
    BackendsHandler (pv_heap (px_prov w)) (pv_pool (px_prov w)) = [mkBackendStatus "a" "a" true 1 0 1 0] /\
    bm_requestsTotal (backendFor "a" (registry conv (app_calls a ++ calls_of log))).1 = 1%Z /\
    bm_healthy (backendFor "a" (registry conv (app_calls a ++ calls_of log))).1 = false.
Proof.
  destruct (main toy_files toy_yaml ["-config"; "dynamic.yaml"] None) as [|e|a] eqn:Hm;
    [vm_compute in Hm; discriminate..|].
  pose (w1 := mkPxWorld (refresh (Some [mkSpec "a" "a" 1]) (px_prov (app_world a))) (px_bal (app_world a)) (px_counts (app_world a))).
  pose (cfg := drive (replicate 15 0) ([(ServeHTTP (app_maxRetries a) toy_request, [])], w1, [])).
  assert (Ha : app_world a = mkPxWorld (mkProvider ∅ 0 [] ∅) (RoundRobin 0) ∅ /\ app_maxRetries a = 2%Z /\
    app_calls a = [] /\ app_checker a = None) by (vm_compute in Hm; injection Hm as <-; done).
  destruct Ha as (Hw & Hr & Hc & Hk).
  exists a, cfg.1.2, cfg.1.1, cfg.2. rewrite Hc, !registry_backendFor. split_and!; [done|done| |subst cfg w1; rewrite Hw, Hr..].
  - eapply rtc_l; [apply (ms_refresh _ _ (Some [mkSpec "a" "a" 1]))|]. fold w1.
    eapply rtc_l; [apply (ms_request _ _ toy_request)|]. destruct cfg as [[ts w] log] eqn:E.
    change (msteps (NewChecker 2 2) (app_maxRetries a) ([(ServeHTTP (app_maxRetries a) toy_request, [])], w1, []) (ts, w, log)).
    rewrite <- E. apply drive_steps.
  - apply idle_done. vm_compute. reflexivity.
  - vm_compute. reflexivity.
  - vm_compute. reflexivity.
  - vm_compute. reflexivity.
Qed.
