(* ===== verification/Middleware.v ===== *)
(** * Request middleware of the control plane and of the job orchestrator

    middleware.go and server.go of both programs: the request ID, the recovery
    from panics and the access log, stacked as [NewRouter] stacks them around an
    arbitrary handler.  A handler is a program over the operations of its
    response writer whose result says whether it panicked.  The response is what
    net/http makes of the calls: the first status counts, a body without a status
    is a 200, headers set after the status are ignored. *)

From S2P Require Import Prelude GoText GoFormat.
From Stdlib Require Import ZArith Lia.
From stdpp Require Import base gmap strings list.
Local Open Scope go_scope.

(** ** The response writer *)

Inductive RwCall := HeaderSet (key value : string) | WriteHeader (code : Z) | Write (data : string).

(** A line of the structured log. *)
Inductive LogLine :=
| AccessLine (method path : string) (status : Z) (duration_ms : Z) (request_id : option string)
| PanicLine.

Inductive RwE : Type -> Type :=
| ERw (c : RwCall) : RwE unit
| ELog (l : LogLine) : RwE unit
| ETime : RwE Time
| ERandom (n : nat) : RwE (option (list byte)).

(** [true]: the handler panicked. *)
Definition Handler : Type := prog RwE bool.

Definition set_header (k v : string) : prog RwE unit := call (ERw (HeaderSet k v)).
Definition write_header (code : Z) : prog RwE unit := call (ERw (WriteHeader code)).

(** The body of a [writeJSONError]. *)
Definition error_json (msg : string) : string :=
  "{" +:+ Quote "error" +:+ ":" +:+ Quote msg +:+ "}" +:+ String (Ascii.ascii_of_nat 10) EmptyString.

Definition writeJSONError (status : Z) (msg : string) : prog RwE unit :=
  _ ← set_header "Content-Type" "application/json";
  _ ← write_header status;
  call (ERw (Write (error_json msg))).

(** ** Middleware *)

(** The [statusRecorder] around the response writer: it remembers the last code
    passed to [WriteHeader]. *)
Fixpoint statusRecorder {A} (p : prog RwE A) (status : Z) : prog RwE (A * Z) :=
  match p with
  | Ret a => Ret (a, status)
  | Vis e k =>
      Vis e (fun x => statusRecorder (k x) (match e with ERw (WriteHeader code) => code | _ => status end))
  end.

(** [d.Milliseconds()] *)
Definition Milliseconds (d : Duration) : Z := Z.quot d Millisecond.

(** A panic unwinds through it: nothing is logged. *)
Definition loggingMiddleware (method path : string) (id : option string) (next : Handler) : Handler :=
  start ← call ETime;
  '(panicked, status) ← statusRecorder next StatusOK;
  if panicked : bool then Ret true
  else
    finish ← call ETime;
    _ ← call (ELog (AccessLine method path status (Milliseconds (Sub finish start)) id));
    Ret false.

Definition recoveryMiddleware (next : Handler) : Handler :=
  panicked ← next;
  if panicked : bool then
    _ ← call (ELog PanicLine);
    _ ← writeJSONError StatusInternalServerError "internal server error";
    Ret false
  else Ret false.

Definition generateRequestID : prog RwE string :=
  r ← call (ERandom 4);
  Ret (match r with None => "unknown" | Some b => EncodeToString b end).

(** [next] reads the ID from the request's context. *)
Definition requestIDMiddleware (next : string -> Handler) : Handler :=
  id ← generateRequestID;
  _ ← set_header "X-Request-ID" id;
  next id.

(** The control plane: [requestIDMiddleware(recoveryMiddleware(loggingMiddleware(mux)))]. *)
Definition cp_stack (method path : string) (mux : string -> Handler) : Handler :=
  requestIDMiddleware (fun id => recoveryMiddleware (loggingMiddleware method path (Some id) (mux id))).

(** *** The job orchestrator's own: no request IDs *)

Definition orchestrator_logging (method path : string) (next : Handler) : Handler :=
  start ← call ETime;
  '(panicked, status) ← statusRecorder next StatusOK;
  if panicked : bool then Ret true
  else
    finish ← call ETime;
    _ ← call (ELog (AccessLine method path status (Milliseconds (Sub finish start)) None));
    Ret false.

Definition orchestrator_recovery (next : Handler) : Handler :=
  panicked ← next;
  if panicked : bool then
    _ ← call (ELog PanicLine);
    _ ← writeJSONError StatusInternalServerError "internal server error";
    Ret false
  else Ret false.

(** [recoveryMiddleware(loggingMiddleware(r))] *)
Definition orchestrator_stack (method path : string) (router : Handler) : Handler :=
  orchestrator_recovery (orchestrator_logging method path router).

(** ** What is sent and logged *)

Record RwWorld := mkRwWorld { rw_calls : list RwCall; rw_log : list LogLine; rw_clock : Time }.

Definition rw_rel X (e : RwE X) : RwWorld -> X -> RwWorld -> Prop :=
  match e in RwE X return RwWorld -> X -> RwWorld -> Prop with
  | ERw c => fun w _ w' => w' = mkRwWorld (rw_calls w ++ [c]) (rw_log w) (rw_clock w)
  | ELog l => fun w _ w' => w' = mkRwWorld (rw_calls w) (rw_log w ++ [l]) (rw_clock w)
  | ETime => fun w t w' => (rw_clock w <= t)%Z /\ w' = mkRwWorld (rw_calls w) (rw_log w) t
  | ERandom n => fun w r w' => w' = w /\ forall bs, r = Some bs -> length bs = n
  end.

(** The code of the response: informational codes do not end it. *)
Definition final_code (c : Z) : bool := negb ((100 <=? c) && (c <? 200) && negb (c =? 101))%Z.

Fixpoint sent_status (calls : list RwCall) : Z :=
  match calls with
  | [] => StatusOK                       (* nothing written: 200 with no body *)
  | WriteHeader c :: calls => if final_code c then c else sent_status calls
  | Write _ :: _ => StatusOK
  | HeaderSet _ _ :: calls => sent_status calls
  end.

(** The headers sent: those set before the status or the body. *)
Fixpoint sent_headers (calls : list RwCall) (h : gmap string string) : gmap string string :=
  match calls with
  | [] => h
  | WriteHeader c :: calls => if final_code c then h else sent_headers calls h
  | Write _ :: _ => h
  | HeaderSet k v :: calls => sent_headers calls (<[k := v]> h)
  end.

Fixpoint sent_body (calls : list RwCall) : string :=
  match calls with
  | [] => EmptyString
  | Write d :: calls => d +:+ sent_body calls
  | _ :: calls => sent_body calls
  end.

(** What the recorder remembers. *)
Fixpoint recorded (calls : list RwCall) (status : Z) : Z :=
  match calls with
  | [] => status
  | WriteHeader c :: calls => recorded calls c
  | _ :: calls => recorded calls status
  end.

Definition opened (calls : list RwCall) : bool :=
  existsb (fun c => match c with WriteHeader c => final_code c | Write _ => true | HeaderSet _ _ => false end) calls.

(** A handler that sets its status once, before the body. *)
Fixpoint orderly (calls : list RwCall) : bool :=
  match calls with
  | [] => true
  | WriteHeader c :: calls => final_code c && forallb (fun c => match c with WriteHeader _ => false | _ => true end) calls
  | Write _ :: calls => forallb (fun c => match c with WriteHeader _ => false | _ => true end) calls
  | HeaderSet _ _ :: calls => orderly calls
  end.

(** ** Properties *)

Lemma runs_bind_inv {A B} (p : prog RwE A) (f : A -> prog RwE B) w b w2 :
  runs rw_rel (p ≫= f) w b w2 -> exists a w1, runs rw_rel p w a w1 /\ runs rw_rel (f a) w1 b w2.
Proof.
  revert w. induction p as [a|X e k IH]; intros w; cbn; [eauto|].
  intros (x & w1 & HR & Hr). destruct (IH x w1 Hr) as (a & w3 & ? & ?). exists a, w3. eauto.
Qed.

(** A program adds to the calls made on its writer. *)
Lemma runs_calls {A} (p : prog RwE A) w a w' :
  runs rw_rel p w a w' -> exists cs, rw_calls w' = rw_calls w ++ cs.
Proof.
  revert w. induction p as [b|X e k IH]; intros w; cbn; [intros [_ ->]; exists []; by rewrite app_nil_r|].
  intros (x & w1 & HR & Hr). destruct (IH x w1 Hr) as [cs Hcs]. rewrite Hcs.
  destruct e; cbn in HR; destruct_and?; subst w1; cbn [rw_calls]; rewrite <- ?app_assoc; eauto.
Qed.

(** The recorder changes nothing, and remembers the last code. *)
Lemma statusRecorder_runs {A} (p : prog RwE A) s w a st w' :
  runs rw_rel (statusRecorder p s) w (a, st) w' ->
  exists cs, runs rw_rel p w a w' /\ rw_calls w' = rw_calls w ++ cs /\ st = recorded cs s.
Proof.
  revert s w. induction p as [b|X e k IH]; intros s w; cbn.
  - intros [[= -> ->] ->]. exists []. by rewrite app_nil_r.
  - intros (x & w1 & HR & Hr). destruct (IH x _ w1 Hr) as (cs & Hp & Hcs & ->).
    destruct e as [c|l| |n]; cbn in HR; destruct_and?; subst; cbn [rw_calls] in Hcs.
    1: { exists (c :: cs). split_and!; [by eexists _, _|by rewrite Hcs, <- app_assoc|by destruct c]. }
    all: exists cs; split_and!; [|done|done]; eexists _, _; split; [|exact Hp]; cbn; eauto.
Qed.

Lemma recorded_none cs s :
  forallb (fun c => match c with WriteHeader _ => false | _ => true end) cs = true -> recorded cs s = s.
Proof. revert s. induction cs as [|[]]; cbn; naive_solver. Qed.

(** The recorder is right about an orderly handler. *)
Lemma orderly_recorded cs : orderly cs = true -> recorded cs StatusOK = sent_status cs.
Proof.
  induction cs as [|[k v|c|d] cs IH]; cbn; [done|done| |].
  - intros [-> Hc]%andb_prop. by apply recorded_none.
  - apply recorded_none.
Qed.

Lemma sent_status_app cs cs' : opened cs = true -> sent_status (cs ++ cs') = sent_status cs.
Proof.
  induction cs as [|[k v|c|d] cs IH]; cbn; [done|done| |done]. destruct (final_code c); [done|exact IH].
Qed.

Lemma sent_status_closed cs cs' : opened cs = false -> sent_status (cs ++ cs') = sent_status cs'.
Proof.
  induction cs as [|[k v|c|d] cs IH]; cbn; [done|done| |done]. destruct (final_code c); [done|exact IH].
Qed.

Lemma sent_headers_app cs cs' h :
  sent_headers (cs ++ cs') h = if opened cs then sent_headers cs h else sent_headers cs' (sent_headers cs h).
Proof.
  revert h. induction cs as [|[k v|c|d] cs IH]; intros h; cbn; [done|apply IH| |done].
  destruct (final_code c); [done|]. cbn. apply IH.
Qed.

Lemma sent_body_app cs cs' : sent_body (cs ++ cs') = sent_body cs +:+ sent_body cs'.
Proof.
  induction cs as [|[k v|c|d] cs IH]; cbn; [done|done|done|]. rewrite IH.
  induction d as [|ch d IHd]; [done|]. exact (f_equal (String ch) IHd).
Qed.

(** What the stack around a handler adds. *)
Record stacked (method path : string) (id : option string) (pre : list RwCall) (panicked : bool)
    (w1 w' : RwWorld) : Prop := {
  sk_quiet : panicked = false -> rw_calls w' = rw_calls w1 /\
    exists cs ms, rw_calls w1 = pre ++ cs /\ rw_log w' = rw_log w1 ++ [AccessLine method path (recorded cs StatusOK) ms id];
  sk_panic : panicked = true ->
    rw_calls w' = rw_calls w1 ++ [HeaderSet "Content-Type" "application/json"; WriteHeader StatusInternalServerError;
      Write (error_json "internal server error")] /\
    rw_log w' = rw_log w1 ++ [PanicLine] }.

Lemma recovered_stack method path id (p : Handler) w a w' :
  runs rw_rel (recoveryMiddleware (loggingMiddleware method path id p)) w a w' ->
  a = false /\ exists panicked w1 t, runs rw_rel p (mkRwWorld (rw_calls w) (rw_log w) t) panicked w1 /\
    stacked method path id (rw_calls w) panicked w1 w'.
Proof.
  intros (panicked & w2 & Hl & Hr)%runs_bind_inv.
  cbn in Hl. destruct Hl as (t & w0 & [_ ->] & ([pan st] & w1 & Hp & Hl)%runs_bind_inv).
  apply statusRecorder_runs in Hp as (cs & Hp & Hcs & ->). destruct pan.
  - cbn in Hl. destruct Hl as [-> ->]. cbn in Hr. destruct Hr as (? & ? & -> & ? & ? & -> & ? & ? & -> & ? & ? & -> & -> & ->).
    split; [done|]. exists true, w1, t. split; [done|]. split; [done|]. intros _. cbn. by rewrite <- !app_assoc.
  - cbn in Hl. destruct Hl as (t' & ? & [_ ->] & ? & ? & -> & -> & ->). cbn in Hr. destruct Hr as [-> ->].
    split; [done|]. exists false, w1, t. split; [done|]. split; [|done]. intros _. cbn. split; [done|].
    cbn in Hcs. eexists cs, _. split; [exact Hcs|reflexivity].
Qed.

(** The middleware is transparent.  Around any handler, whatever it writes and
    wherever it panics, the control plane's stack returns normally and sends
    exactly one response.  Without a panic it is the handler's own, with the
    X-Request-ID header, and one access line is logged, whose status is the one
    sent if the handler sets its status once and first.  After a panic the
    response is the 500 error if the handler had sent nothing, else keeps the
    status already sent with the error appended to its body; the panic is logged
    and no access line is. *)
Theorem cp_stack_transparent (method path : string) (mux : string -> Handler) (t0 : Time) (a : bool) (w' : RwWorld) :
  runs rw_rel (cp_stack method path mux) (mkRwWorld [] [] t0) a w' ->
  a = false /\ exists id panicked w1 cs t,
    runs rw_rel (mux id) (mkRwWorld [HeaderSet "X-Request-ID" id] [] t) panicked w1 /\
    rw_calls w1 = HeaderSet "X-Request-ID" id :: cs /\
    (id = "unknown" \/ exists bs, length bs = 4 /\ id = EncodeToString bs) /\
    (panicked = false ->
       sent_status (rw_calls w') = sent_status cs /\ sent_body (rw_calls w') = sent_body cs /\
       sent_headers (rw_calls w') ∅ = sent_headers cs {["X-Request-ID" := id]} /\
       exists status ms, rw_log w' = rw_log w1 ++ [AccessLine method path status ms (Some id)] /\
         (orderly cs = true -> status = sent_status (rw_calls w'))) /\
    (panicked = true -> rw_log w' = rw_log w1 ++ [PanicLine] /\
       sent_body (rw_calls w') = sent_body cs +:+ error_json "internal server error" /\
       sent_status (rw_calls w') = if opened cs then sent_status cs else StatusInternalServerError).
Proof.
  intros (id & w2 & Hid & (u & w3 & Hset & Hr)%runs_bind_inv)%runs_bind_inv.
  cbn in Hid. destruct Hid as (r & ? & [-> Hlen] & Hid & ->).
  assert (Hform : id = "unknown" \/ exists bs, length bs = 4 /\ id = EncodeToString bs) by (destruct r; eauto). clear r Hid Hlen.
  cbn in Hset. destruct Hset as (? & ? & -> & _ & ->). cbn [rw_calls rw_log rw_clock app] in Hr.
  destruct (recovered_stack _ _ _ _ _ _ _ Hr) as (-> & panicked & w1 & t & Hp & [Hq Hk]). split; [done|].
  cbn [rw_calls rw_log] in *. exists id, panicked, w1.
  destruct (runs_calls _ _ _ _ Hp) as [cs Hcs]. cbn in Hcs. exists cs, t. split_and!; [exact Hp|exact Hcs|exact Hform| |].
  - intros Hf. destruct (Hq Hf) as (-> & cs' & ms & Hcs' & Hlog). rewrite Hcs in Hcs' |- *. cbn in Hcs'. simplify_eq.
    split_and!; [done|done|done|]. eexists _, ms. split; [exact Hlog|]. intros Ho. by rewrite orderly_recorded.
  - intros Hf. destruct (Hk Hf) as (-> & Hlog). rewrite Hcs. split; [exact Hlog|]. cbn. split.
    + rewrite sent_body_app. done.
    + destruct (opened cs) eqn:Ho; [by apply sent_status_app|by rewrite sent_status_closed].
Qed.

(** A handler that panics after it has sent its status. *)
Definition late_panic (_ : string) : Handler := _ ← write_header StatusOK; _ ← call (ERw (Write "partial")); Ret true.

Definition late_panic_world : RwWorld :=
  mkRwWorld [HeaderSet "X-Request-ID" "unknown"; WriteHeader StatusOK; Write "partial";
    HeaderSet "Content-Type" "application/json"; WriteHeader StatusInternalServerError;
    Write (error_json "internal server error")] [PanicLine] 5.

Lemma cp_stack_transparent_witness :
  runs rw_rel (cp_stack "GET" "/" late_panic) (mkRwWorld [] [] 0) false late_panic_world /\
  sent_status (rw_calls late_panic_world) = StatusOK.
Proof.
  assert (Hr : runs rw_rel (cp_stack "GET" "/" late_panic) (mkRwWorld [] [] 0) false late_panic_world).
  { cbn. exists None. eexists. split; [by split|]. exists tt. eexists. split; [reflexivity|].
    exists 5%Z. eexists. split; [by split|]. do 5 (exists tt; eexists; split; [reflexivity|]).
    exists tt. eexists. split; [reflexivity|]. done. }
  split; [exact Hr|].
  destruct (cp_stack_transparent "GET" "/" late_panic 0 false late_panic_world Hr)
    as (_ & id & panicked & w1 & cs & t & Hp & Hcs & _ & Hq & Hk).
  cbn in Hp. destruct Hp as (? & ? & -> & ? & ? & -> & -> & ->). cbn in Hcs. injection Hcs as <-.
  destruct (Hk eq_refl) as (_ & _ & Hs). exact Hs.
Defined.
