(* ===== verification/Pool.v ===== *)
(** * ml-job-orchestrator/internal/worker/pool.go and cmd/orchestrator: shutdown

    The worker pool with its goroutines, [stopCh], wait group, run context and
    shutdown timer, for any [JobRunner] (a job starts, and ends either on its own
    or interrupted because the run context is done); and the end of cmd/orchestrator's
    [main].  Workers, [main], the scheduler's sends, the signal and the timer are
    interleaved by [pool_step]. *)

From S2P Require Import Prelude Jobs Orchestrator.
From Stdlib Require Import ZArith Lia.
From stdpp Require Import base gmap strings list.

(** ** Operations *)

Inductive PoolE : Type -> Type :=
| PTryReceive : PoolE Recv            (* select { case job, ok := <-q: ... default: } *)
| PSelect : PoolE Wake                (* select on q, stopCh and ctx.Done() *)
| PRunStart (j : Job) : PoolE unit    (* runner.Run(runCtx, job) ... *)
| PRunEnd (j : Job) : PoolE bool      (* ... returns; true: the run context ended it *)
| PWgAdd : PoolE unit
| PWgDone : PoolE unit
| PGo : PoolE unit                    (* go func() { ... }() *)
| PCloseStop : PoolE unit
| PAfterFunc (d : Duration) : PoolE unit
| PWgWait : PoolE unit
| PTimerStop : PoolE unit
| PRunCancel : PoolE unit
| PAwaitSignal : PoolE unit           (* <-ctx.Done() *)
| PServerShutdown : PoolE unit.       (* srv.Shutdown(shutdownCtx) *)

(** [runner.Run(runCtx, job)] *)
Definition run_job (j : Job) : prog PoolE unit := _ ← call (PRunStart j); _ ← call (PRunEnd j); Ret tt.

(** One iteration of a worker; whether it goes on. *)
Definition iteration : prog PoolE bool :=
  r ← call PTryReceive;
  match r with
  | RecvClosed => Ret false
  | RecvJob j => _ ← run_job j; Ret true
  | RecvEmpty =>
      w ← call PSelect;
      match w with
      | WakeClosed => Ret false
      | WakeJob j => _ ← run_job j; Ret true
      | WakeStop | WakeDone => Ret false
      end
  end.

(** [New]: the goroutines of the workers. *)
Fixpoint start_workers (n : nat) : prog PoolE unit :=
  match n with O => Ret tt | S n => _ ← call PWgAdd; _ ← call PGo; start_workers n end.

Definition Shutdown (shutdownTimeout : Duration) : prog PoolE unit :=
  _ ← call PCloseStop;
  _ ← call (PAfterFunc shutdownTimeout);
  _ ← call PWgWait;
  _ ← call PTimerStop;
  call PRunCancel.

(** The end of cmd/orchestrator's [main], after the pool was created with the
    context [signal.NotifyContext] returned. *)
Definition orchestrator_main (numWorkers : Z) (shutdownTimeout : Duration) : prog PoolE unit :=
  _ ← start_workers (Z.to_nat numWorkers);
  _ ← call PAwaitSignal;
  _ ← call PServerShutdown;
  Shutdown shutdownTimeout.

(** ** The system *)

Record PoolWorld := mkPoolWorld {
  po_queue : list Job;
  po_stop : bool;            (* stopCh is closed *)
  po_ctx : bool;             (* the parent context is done *)
  po_cancelled : bool;       (* runCancel was called *)
  po_wg : Z;
  po_timer : bool;           (* armed *)
  po_running : list Job;
  po_done : list (Job * bool) }.   (* jobs that ended, and whether interrupted *)

(** [runCtx] is derived from the parent context. *)
Definition run_ctx_done (w : PoolWorld) : bool := po_ctx w || po_cancelled w.

Definition set_queue (q : list Job) (w : PoolWorld) : PoolWorld :=
  mkPoolWorld q (po_stop w) (po_ctx w) (po_cancelled w) (po_wg w) (po_timer w) (po_running w) (po_done w).
Definition set_flags (stop ctx cancelled timer : bool) (w : PoolWorld) : PoolWorld :=
  mkPoolWorld (po_queue w) stop ctx cancelled (po_wg w) timer (po_running w) (po_done w).
Definition set_wg (n : Z) (w : PoolWorld) : PoolWorld :=
  mkPoolWorld (po_queue w) (po_stop w) (po_ctx w) (po_cancelled w) n (po_timer w) (po_running w) (po_done w).
Definition set_jobs (running : list Job) (done : list (Job * bool)) (w : PoolWorld) : PoolWorld :=
  mkPoolWorld (po_queue w) (po_stop w) (po_ctx w) (po_cancelled w) (po_wg w) (po_timer w) running done.

Definition pool_rel X (e : PoolE X) : PoolWorld -> X -> PoolWorld -> Prop :=
  match e in PoolE X return PoolWorld -> X -> PoolWorld -> Prop with
  | PTryReceive => fun w r w' =>
      match po_queue w with
      | j :: q => r = RecvJob j /\ w' = set_queue q w
      | [] => r = RecvEmpty /\ w' = w
      end
  | PSelect => fun w r w' =>
      (exists j q, po_queue w = j :: q /\ r = WakeJob j /\ w' = set_queue q w) \/
      (po_stop w = true /\ r = WakeStop /\ w' = w) \/
      (po_ctx w = true /\ r = WakeDone /\ w' = w)
  | PRunStart j => fun w _ w' => w' = set_jobs (po_running w ++ [j]) (po_done w) w
  | PRunEnd j => fun w interrupted w' =>
      (interrupted = true -> run_ctx_done w = true) /\
      exists pre post, po_running w = pre ++ j :: post /\ w' = set_jobs (pre ++ post) (po_done w ++ [(j, interrupted)]) w
  | PWgAdd => fun w _ w' => w' = set_wg (po_wg w + 1) w
  | PWgDone => fun w _ w' => w' = set_wg (po_wg w - 1) w
  | PGo => fun w _ w' => w' = w
  | PCloseStop => fun w _ w' => w' = set_flags true (po_ctx w) (po_cancelled w) (po_timer w) w
  | PAfterFunc _ => fun w _ w' => w' = set_flags (po_stop w) (po_ctx w) (po_cancelled w) true w
  | PWgWait => fun w _ w' => po_wg w = 0%Z /\ w' = w
  | PTimerStop => fun w _ w' => w' = set_flags (po_stop w) (po_ctx w) (po_cancelled w) false w
  | PRunCancel => fun w _ w' => w' = set_flags (po_stop w) (po_ctx w) true (po_timer w) w
  | PAwaitSignal => fun w _ w' => po_ctx w = true /\ w' = w
  | PServerShutdown => fun w _ w' => w' = w
  end.

(** A worker goroutine: in its loop, in its deferred [p.wg.Done()], or gone. *)
Inductive Worker := Looping (p : prog PoolE bool) | Leaving | Gone.

Record PoolSystem := mkPoolSystem { ps_main : prog PoolE unit; ps_workers : list Worker; ps_world : PoolWorld }.

Definition spawns X (e : PoolE X) : list Worker := match e with PGo => [Looping iteration] | _ => [] end.

(** [sends]: the scheduler is still sending. *)
Inductive pool_step (cap : nat) (sends : bool) : PoolSystem -> PoolSystem -> Prop :=
| pl_main X (e : PoolE X) k ws w x w' : pool_rel X e w x w' ->
    pool_step cap sends (mkPoolSystem (Vis e k) ws w) (mkPoolSystem (k x) (ws ++ spawns X e) w')
| pl_work i X (e : PoolE X) k m ws w x w' : ws !! i = Some (Looping (Vis e k)) -> pool_rel X e w x w' ->
    pool_step cap sends (mkPoolSystem m ws w) (mkPoolSystem m (<[i := Looping (k x)]> ws) w')
| pl_again i m ws w : ws !! i = Some (Looping (Ret true)) ->
    pool_step cap sends (mkPoolSystem m ws w) (mkPoolSystem m (<[i := Looping iteration]> ws) w)
| pl_leave i m ws w : ws !! i = Some (Looping (Ret false)) ->
    pool_step cap sends (mkPoolSystem m ws w) (mkPoolSystem m (<[i := Leaving]> ws) w)
| pl_done i m ws w w' : ws !! i = Some Leaving -> pool_rel _ PWgDone w tt w' ->
    pool_step cap sends (mkPoolSystem m ws w) (mkPoolSystem m (<[i := Gone]> ws) w')
| pl_send j m ws w : sends = true -> length (po_queue w) < cap ->
    pool_step cap sends (mkPoolSystem m ws w) (mkPoolSystem m ws (set_queue (po_queue w ++ [j]) w))
| pl_signal m ws w :
    pool_step cap sends (mkPoolSystem m ws w)
      (mkPoolSystem m ws (set_flags (po_stop w) true (po_cancelled w) (po_timer w) w))
| pl_timer m ws w : po_timer w = true ->
    pool_step cap sends (mkPoolSystem m ws w)
      (mkPoolSystem m ws (set_flags (po_stop w) (po_ctx w) true false w)).

Definition pool_steps (cap : nat) (sends : bool) : PoolSystem -> PoolSystem -> Prop := rtc (pool_step cap sends).

Definition pool_idle : PoolWorld := mkPoolWorld [] false false false 0 false [] [].
