(* ===== verification/PoolProperties.v ===== *)
(** * ml-job-orchestrator: properties of the worker pool's shutdown *)

From S2P Require Import Prelude Jobs Orchestrator Pool.
From Stdlib Require Import ZArith Lia.
From stdpp Require Import base gmap strings list list_tactics.

(** ** Draining

    No job is sent any more.  The positions a worker can be in. *)

Inductive Pos := AtStart | Waiting | Starting (j : Job) | Ending (j : Job) | Again | Stopping | AtDone | IsGone.

Definition worker_at (p : Pos) : Worker :=
  match p with
  | AtStart => Looping iteration
  | Waiting => Looping (w ← call PSelect;
      match w with WakeJob j => _ ← run_job j; Ret true | WakeClosed | WakeStop | WakeDone => Ret false end)
  | Starting j => Looping (_ ← run_job j; Ret true)
  | Ending j => Looping (_ ← call (PRunEnd j); Ret true)
  | Again => Looping (Ret true)
  | Stopping => Looping (Ret false)
  | AtDone => Leaving
  | IsGone => Gone
  end.

(** The job a worker has taken from the queue, and the one it is running. *)
Definition held (p : Pos) : list Job := match p with Starting j | Ending j => [j] | _ => [] end.
Definition runs_now (p : Pos) : list Job := match p with Ending j => [j] | _ => [] end.
(** It has seen the queue empty. *)
Definition saw_empty (p : Pos) : bool := match p with Waiting | Stopping | AtDone | IsGone => true | _ => false end.
Definition counted (p : Pos) : Z := match p with IsGone => 0 | _ => 1 end.

(** [Shutdown] from its [k]-th operation on. *)
Definition shutdown_from (d : Duration) (k : nat) : prog PoolE unit :=
  match k with
  | 0 => Shutdown d
  | 1 => _ ← call (PAfterFunc d); _ ← call PWgWait; _ ← call PTimerStop; call PRunCancel
  | 2 => _ ← call PWgWait; _ ← call PTimerStop; call PRunCancel
  | 3 => _ ← call PTimerStop; call PRunCancel
  | 4 => call PRunCancel
  | _ => Ret tt
  end.

Record draining (d : Duration) (q0 : list Job) (k : nat) (ps : list Pos) (w : PoolWorld) : Prop := {
  dr_jobs : q0 ≡ₚ (po_done w).*1 ++ (ps ≫= held) ++ po_queue w;
  dr_running : po_running w ≡ₚ ps ≫= runs_now;
  dr_empty : forall p, p ∈ ps -> saw_empty p = true -> po_queue w = [];
  dr_wg : po_wg w = tally counted ps;
  dr_waited : 3 <= k -> forall p, p ∈ ps -> p = IsGone;
  dr_alive : run_ctx_done w = false -> Forall (fun x => x.2 = false) (po_done w);
  dr_stop : 1 <= k -> po_stop w = true }.

Definition drain_inv (d : Duration) (q0 : list Job) (n : nat) (s : PoolSystem) : Prop :=
  exists k ps, ps_main s = shutdown_from d k /\ ps_workers s = worker_at <$> ps /\ length ps = n /\ draining d q0 k ps (ps_world s).

(** Replacing one worker's position. *)
Lemma bind_insert {A} (f : Pos -> list A) ps i p p' :
  ps !! i = Some p -> exists pre post, ps ≫= f = pre ++ f p ++ post /\ <[i := p']> ps ≫= f = pre ++ f p' ++ post.
Proof.
  intros Hi. exists (take i ps ≫= f), (drop (S i) ps ≫= f). split.
  - rewrite <- (take_drop_middle _ _ _ Hi) at 1. by rewrite bind_app.
  - rewrite insert_take_drop by (by eapply lookup_lt_Some). by rewrite bind_app.
Qed.

Lemma elem_of_insert (ps : list Pos) (i : nat) (p p' x : Pos) :
  ps !! i = Some p -> x ∈ <[i := p']> ps -> x = p' \/ x ∈ ps.
Proof.
  intros Hi [j Hj]%list_elem_of_lookup. destruct (decide (j = i)) as [->|].
  - rewrite list_lookup_insert_eq in Hj by (by eapply lookup_lt_Some). left. congruence.
  - rewrite list_lookup_insert_ne in Hj by done. right. by eapply list_elem_of_lookup_2.
Qed.

(** A worker moves: the jobs are still accounted for. *)
Lemma draining_move d q0 k ps w i p p' w' :
  draining d q0 k ps w -> ps !! i = Some p -> p <> IsGone ->
  ((po_done w').*1 ++ held p' ++ po_queue w' ≡ₚ (po_done w).*1 ++ held p ++ po_queue w) ->
  (forall R, po_running w ≡ₚ runs_now p ++ R -> po_running w' ≡ₚ runs_now p' ++ R) ->
  (po_queue w = [] -> po_queue w' = []) -> (saw_empty p' = true -> po_queue w' = []) ->
  (po_wg w' = po_wg w - counted p + counted p')%Z ->
  (run_ctx_done w' = false -> run_ctx_done w = false) ->
  (run_ctx_done w' = false -> Forall (fun x => x.2 = false) (po_done w) -> Forall (fun x => x.2 = false) (po_done w')) ->
  po_stop w' = po_stop w -> draining d q0 k (<[i := p']> ps) w'.
Proof.
  intros [Hj Hr He Hw Hk Ha Hst] Hi Hng Hjobs Hrun Hq Hs Hwg Hc Hd Heq. split.
  - destruct (bind_insert held ps i p p' Hi) as (pre & post & E1 & E2). rewrite E2, Hj, E1.
    transitivity (pre ++ post ++ (po_done w).*1 ++ held p ++ po_queue w); [solve_Permutation|].
    rewrite <- Hjobs. solve_Permutation.
  - destruct (bind_insert runs_now ps i p p' Hi) as (pre & post & E1 & E2). rewrite E2.
    rewrite (Hrun (pre ++ post)); [solve_Permutation|]. rewrite Hr, E1. solve_Permutation.
  - intros x [->|Hx]%(elem_of_insert _ _ _ _ _ Hi) Hx'; [by apply Hs|]. apply Hq. by eapply He.
  - by rewrite (tally_insert _ _ _ _ _ Hi), Hwg, Hw.
  - intros Hk3. exfalso. apply Hng, (Hk Hk3). by eapply list_elem_of_lookup_2.
  - intros Hf. apply Hd; [done|]. by apply Ha, Hc.
  - rewrite Heq. exact Hst.
Qed.

(** The next operation of a worker and of [main], as facts about the program. *)
Definition work_next (wk : Worker) (w : PoolWorld) (wk' : Worker) (w' : PoolWorld) : Prop :=
  match wk with Looping (Vis e k) => exists x, pool_rel _ e w x w' /\ wk' = Looping (k x) | _ => False end.
Definition main_next (m : prog PoolE unit) (w : PoolWorld) (m' : prog PoolE unit) (new : list Worker) (w' : PoolWorld) : Prop :=
  match m with Vis e k => exists x, pool_rel _ e w x w' /\ m' = k x /\ new = spawns _ e | Ret _ => False end.

(** The flags matter to the drain only through the run context. *)
Lemma draining_flags d q0 k k' ps w stop ctx cancelled timer :
  draining d q0 k ps w -> (3 <= k' -> 3 <= k) -> (1 <= k' -> stop = true) -> (ctx || cancelled = false -> run_ctx_done w = false) ->
  draining d q0 k' ps (set_flags stop ctx cancelled timer w).
Proof. intros [Hj Hr He Hw Hk Ha _] Hk' Hst Hc. split; try done; [auto|]. intros Hf. apply Ha, Hc, Hf. Qed.

Lemma draining_shutdown d q0 k ps w m' new w' :
  draining d q0 k ps w -> main_next (shutdown_from d k) w m' new w' ->
  exists k', m' = shutdown_from d k' /\ new = [] /\ draining d q0 k' ps w'.
Proof.
  intros Hd Hm. pose proof Hd as [Hj Hr He Hw Hk Ha Hst].
  destruct k as [|[|[|[|[|k]]]]]; [..|done]; destruct Hm as (x & HR & -> & ->); cbn in HR.
  - exists 1. split_and!; [done|done|]. subst w'. apply (draining_flags d q0 0); [done|lia|done|done].
  - exists 2. split_and!; [done|done|]. subst w'. apply (draining_flags d q0 1); [done|lia|by rewrite Hst by lia|done].
  - destruct HR as [Hz ->]. exists 3. split_and!; [done|done|]. split; try done; [|by intros; rewrite Hst by lia]. intros _ p Hp.
    rewrite Hz in Hw. symmetry in Hw. apply list_elem_of_lookup in Hp as [i Hi].
    assert (Hnn : forall p, (0 <= counted p)%Z) by (by intros []).
    pose proof (tally_lookup_le counted ps i p Hnn Hi). destruct p; cbn in *; try lia. done.
  - exists 4. split_and!; [done|done|]. subst w'. apply (draining_flags d q0 3); [done|lia|by rewrite Hst by lia|done].
  - exists 5. split_and!; [by destruct x|done|]. subst w'. apply (draining_flags d q0 4); [done|lia|by rewrite Hst by lia|].
    by rewrite orb_true_r.
Qed.

(** How far a worker is from being gone, a job in the queue counting four. *)
Definition weight (p : Pos) : Z :=
  match p with IsGone => 0 | AtDone => 1 | Stopping => 2 | Waiting => 3 | AtStart => 4 | Again => 5 | Ending _ => 6 | Starting _ => 7 end.

Lemma draining_work d q0 k ps w i p wk' w' :
  draining d q0 k ps w -> ps !! i = Some p -> work_next (worker_at p) w wk' w' ->
  exists p', wk' = worker_at p' /\ draining d q0 k (<[i := p']> ps) w' /\
    (4 * Z.of_nat (length (po_queue w')) + weight p' < 4 * Z.of_nat (length (po_queue w)) + weight p)%Z.
Proof.
  intros Hd Hi Hn. pose proof (dr_empty _ _ _ _ _ Hd p (list_elem_of_lookup_2 _ _ _ Hi)) as He.
  destruct p as [| |j|j| | | |]; try done; destruct Hn as (x & HR & ->); cbn in HR.
  - destruct (po_queue w) as [|j q] eqn:Hq; destruct HR as [-> ->]; [exists Waiting|exists (Starting j)]; (split; [done|split]).
    + eapply draining_move; [done|exact Hi|done|by rewrite Hq|done|done|by rewrite Hq|cbn; lia|done|done|done].
    + rewrite Hq. cbn. lia.
    + eapply draining_move; [done|exact Hi|done|..|cbn; lia|done|done|done]; cbn; rewrite ?Hq; done.
    + cbn. lia.
  - specialize (He eq_refl). destruct HR as [(j & q & Hq & _)|[(_ & -> & ->)|(_ & -> & ->)]]; [congruence|..];
      exists Stopping; (split; [done|split; [|cbn; lia]]);
      (eapply draining_move; [done|exact Hi|done|done|done|done|done|cbn; lia|done|done|done]).
  - subst w'. exists (Ending j). split; [done|split; [|cbn; lia]].
    eapply draining_move; [done|exact Hi|done|done| |done|done|cbn; lia|done|done|done].
    cbn. intros R ->. solve_Permutation.
  - destruct HR as (Hint & pre & post & Hrun & ->). exists Again. split; [done|split; [|cbn; lia]].
    eapply draining_move; [done|exact Hi|done| | |done|done|cbn; lia|done| |done].
    + cbn. rewrite fmap_app. cbn. solve_Permutation.
    + cbn. intros R. rewrite Hrun. intros HR. apply (Permutation_cons_inv (a := j)).
      rewrite <- HR. solve_Permutation.
    + cbn. intros Hc Hall. apply Forall_app. split; [done|]. apply Forall_singleton. cbn.
      destruct x; [|done]. specialize (Hint eq_refl). unfold run_ctx_done in Hint, Hc. cbn in Hc. congruence.
Qed.

Lemma drain_step cap d q0 n s s' : drain_inv d q0 n s -> pool_step cap false s s' -> drain_inv d q0 n s'.
Proof.
  intros (k & ps & Hm & Hws & Hlen & Hd) Hs.
  assert (Hat : forall i wk, ps_workers s !! i = Some wk -> exists p, ps !! i = Some p /\ wk = worker_at p).
  { intros i wk Hi. rewrite Hws, list_lookup_fmap, fmap_Some in Hi. naive_solver. }
  destruct Hs as [X e kk ws w x w' HR|i X e kk m ws w x w' Hi HR|i m ws w Hi|i m ws w Hi|i m ws w w' Hi HR|j m ws w Hsend|m ws w|m ws w Ht];
    cbn [ps_main ps_workers ps_world] in *.
  - assert (Hn : main_next (shutdown_from d k) w (kk x) (spawns X e) w') by (rewrite <- Hm; cbn; eauto).
    destruct (draining_shutdown _ _ _ _ _ _ _ _ Hd Hn) as (k' & -> & Hnew & Hd'). rewrite Hnew, app_nil_r.
    exists k', ps. by split_and!.
  - destruct (Hat _ _ Hi) as (p & Hp & Hwk).
    assert (Hn : work_next (worker_at p) w (Looping (kk x)) w') by (rewrite <- Hwk; cbn; eauto).
    destruct (draining_work _ _ _ _ _ _ _ _ _ Hd Hp Hn) as (p' & -> & Hd' & _).
    exists k, (<[i := p']> ps). cbn. by rewrite list_fmap_insert, Hws, length_insert.
  - destruct (Hat _ _ Hi) as (p & Hp & Hwk). assert (p = Again) as -> by (destruct p; by simplify_eq/=).
    exists k, (<[i := AtStart]> ps). cbn. rewrite list_fmap_insert, Hws, length_insert. split_and!; [done..|].
    eapply draining_move; [done|exact Hp|done|done|done|done|done|cbn; lia|done|done|done].
  - destruct (Hat _ _ Hi) as (p & Hp & Hwk). assert (p = Stopping) as -> by (destruct p; by simplify_eq/=).
    exists k, (<[i := AtDone]> ps). cbn. rewrite list_fmap_insert, Hws, length_insert. split_and!; [done..|].
    pose proof (dr_empty _ _ _ _ _ Hd Stopping (list_elem_of_lookup_2 _ _ _ Hp) eq_refl).
    eapply draining_move; [done|exact Hp|done|done|done|done|done|cbn; lia|done|done|done].
  - destruct (Hat _ _ Hi) as (p & Hp & Hwk). assert (p = AtDone) as -> by (destruct p; by simplify_eq/=).
    exists k, (<[i := IsGone]> ps). cbn. rewrite list_fmap_insert, Hws, length_insert. split_and!; [done..|].
    pose proof (dr_empty _ _ _ _ _ Hd AtDone (list_elem_of_lookup_2 _ _ _ Hp) eq_refl). cbn in HR. subst w'.
    eapply draining_move; [done|exact Hp|done|done|done|done|done|cbn; lia|done|done|done].
  - done.
  - exists k, ps. split_and!; [done..|]. apply (draining_flags d q0 k); [done|done|apply (dr_stop _ _ _ _ _ Hd)|done].
  - exists k, ps. split_and!; [done..|]. apply (draining_flags d q0 k); [done|done|apply (dr_stop _ _ _ _ _ Hd)|]. by rewrite orb_true_r.
Qed.

Lemma drain_steps cap d q0 n s s' : drain_inv d q0 n s -> pool_steps cap false s s' -> drain_inv d q0 n s'.
Proof. intros Hd Hs. induction Hs; [done|]. eauto using drain_step. Qed.

(** The pool when [Shutdown] is called: [n] workers at the top of their loops,
    jobs [q0] in the queue. *)
Definition pool_at (d : Duration) (n : nat) (q0 : list Job) : PoolSystem :=
  mkPoolSystem (Shutdown d) (replicate n (Looping iteration)) (mkPoolWorld q0 false false false (Z.of_nat n) false [] []).

Lemma pool_at_inv d n q0 : drain_inv d q0 n (pool_at d n q0).
Proof.
  exists 0, (replicate n AtStart). cbn. rewrite fmap_replicate, length_replicate.
  assert (Hf : forall f : Pos -> list Job, f AtStart = [] -> replicate n AtStart ≫= f = []).
  { intros f Hf. induction n as [|n IH]; [done|]. cbn. by rewrite Hf. }
  split_and!; try done. split; cbn; rewrite ?Hf by done; try done.
  - intros p Hp. apply elem_of_replicate in Hp as [-> _]. done.
  - clear Hf. induction n as [|n IH]; [done|]. cbn [replicate tally]. rewrite <- IH. cbn [counted]. lia.
  - lia.
  - lia.
Qed.

(** *** Every step of the pool makes progress *)

Definition work_left (k : nat) (ps : list Pos) (w : PoolWorld) : Z :=
  (4 * Z.of_nat (length (po_queue w)) + tally weight ps + (5 - Z.min 5 (Z.of_nat k)))%Z.

(** One step forward, keeping the invariant. *)
Definition forward (cap : nat) (d : Duration) (q0 : list Job) (n : nat) (k : nat) (ps : list Pos) (s : PoolSystem) : Prop :=
  exists s' k' ps', pool_step cap false s s' /\ ps_main s' = shutdown_from d k' /\ ps_workers s' = worker_at <$> ps' /\
    length ps' = n /\ draining d q0 k' ps' (ps_world s') /\ (work_left k' ps' (ps_world s') < work_left k ps (ps_world s))%Z.

Lemma forward_main cap d q0 n k ps w w' :
  length ps = n -> draining d q0 k ps w -> k < 5 ->
  main_next (shutdown_from d k) w (shutdown_from d (S k)) [] w' -> po_queue w' = po_queue w ->
  forward cap d q0 n k ps (mkPoolSystem (shutdown_from d k) (worker_at <$> ps) w).
Proof.
  intros Hlen Hd Hk Hn Hq. exists (mkPoolSystem (shutdown_from d (S k)) (worker_at <$> ps) w'), (S k), ps.
  destruct (shutdown_from d k) as [|X e kk] eqn:E; [done|].
  assert (Hd' : draining d q0 (S k) ps w').
  { rewrite <- E in Hn. destruct (draining_shutdown _ _ _ _ _ _ _ _ Hd Hn) as (k' & Hk' & _ & Hd').
    assert (k' = S k \/ 5 <= k' /\ 5 <= S k) as [->|[? ?]]; [|done|].
    { destruct k as [|[|[|[|[|k]]]]]; [..|lia]; destruct k' as [|[|[|[|[|k']]]]]; cbn in Hk'; try discriminate; lia. }
    destruct Hd' as [? ? ? ? Hw ? ?]. split; try done; intros; [apply Hw|]; auto with lia. }
  destruct Hn as (x & HR & Hkx & Hsp). split_and!; [|done..|].
  - rewrite <- (app_nil_r (worker_at <$> ps)) at 2. rewrite Hkx, Hsp. by apply pl_main.
  - unfold work_left. cbn [ps_world]. rewrite Hq. lia.
Qed.

Lemma forward_work cap d q0 n k ps w i p p' s' :
  length ps = n -> draining d q0 k ps w -> ps !! i = Some p ->
  let s := mkPoolSystem (shutdown_from d k) (worker_at <$> ps) w in
  pool_step cap false s s' -> ps_main s' = shutdown_from d k -> ps_workers s' = worker_at <$> <[i := p']> ps ->
  draining d q0 k (<[i := p']> ps) (ps_world s') ->
  (4 * Z.of_nat (length (po_queue (ps_world s'))) + weight p' < 4 * Z.of_nat (length (po_queue w)) + weight p)%Z ->
  forward cap d q0 n k ps s.
Proof.
  intros Hlen Hd Hi s Hs Hm Hws Hd' Hlt. exists s', k, (<[i := p']> ps). split_and!; [done..|by rewrite length_insert|done|].
  unfold work_left. cbn [ps_world s]. rewrite (tally_insert _ _ _ _ _ Hi). lia.
Qed.

(** A worker that is not gone can move once [stopCh] is closed. *)
Lemma forward_worker cap d q0 n k ps w i p :
  length ps = n -> draining d q0 k ps w -> 1 <= k -> ps !! i = Some p -> p <> IsGone ->
  forward cap d q0 n k ps (mkPoolSystem (shutdown_from d k) (worker_at <$> ps) w).
Proof.
  intros Hlen Hd Hk Hi Hng.
  assert (Hwi : (worker_at <$> ps) !! i = Some (worker_at p)) by (by rewrite list_lookup_fmap, Hi).
  assert (Hop : forall X (e : PoolE X) kk x w', worker_at p = Looping (Vis e kk) -> pool_rel X e w x w' ->
    forward cap d q0 n k ps (mkPoolSystem (shutdown_from d k) (worker_at <$> ps) w)).
  { intros X e kk x w' Hwp HR. rewrite Hwp in Hwi.
    assert (Hn : work_next (worker_at p) w (Looping (kk x)) w') by (rewrite Hwp; cbn; eauto).
    destruct (draining_work _ _ _ _ _ _ _ _ _ Hd Hi Hn) as (p' & Hp' & Hd' & Hlt).
    eapply (forward_work _ _ _ _ _ _ _ _ _ p'); [done|done|exact Hi|by eapply pl_work|done| |done|done].
    cbn. by rewrite list_fmap_insert, Hp'. }
  pose proof (dr_empty _ _ _ _ _ Hd p (list_elem_of_lookup_2 _ _ _ Hi)) as He.
  destruct p as [| |j|j| | | |]; try done.
  - destruct (po_queue w) as [|j q] eqn:Hq; eapply Hop; try reflexivity; cbn; rewrite Hq; split; reflexivity.
  - eapply Hop; [reflexivity|]. right. left. split_and!; [by apply (dr_stop _ _ _ _ _ Hd)|reflexivity|reflexivity].
  - eapply (Hop _ _ _ tt); [reflexivity|]. cbn. reflexivity.
  - assert (Hin : j ∈ po_running w).
    { rewrite (dr_running _ _ _ _ _ Hd). apply list_elem_of_bind. exists (Ending j). cbn.
      split; [set_solver|by eapply list_elem_of_lookup_2]. }
    apply list_elem_of_split in Hin as (pre & post & Hr). eapply (Hop _ _ _ false); [reflexivity|]. cbn. split; [done|eauto].
  - eapply (forward_work _ _ _ _ _ _ _ _ _ AtStart); [done|done|exact Hi|by eapply pl_again|done| | |cbn; lia].
    + cbn. by rewrite list_fmap_insert.
    + eapply draining_move; [done|exact Hi|done|done|done|done|done|cbn; lia|done|done|done].
  - eapply (forward_work _ _ _ _ _ _ _ _ _ AtDone); [done|done|exact Hi|by eapply pl_leave|done| | |cbn; lia].
    + cbn. by rewrite list_fmap_insert.
    + specialize (He eq_refl). eapply draining_move; [done|exact Hi|done|done|done|done|done|cbn; lia|done|done|done].
  - eapply (forward_work _ _ _ _ _ _ _ _ _ IsGone); [done|done|exact Hi|by eapply pl_done|done| | |cbn; lia].
    + cbn. by rewrite list_fmap_insert.
    + specialize (He eq_refl). eapply draining_move; [done|exact Hi|done|done|done|done|done|cbn; lia|done|done|done].
Qed.

Lemma drain_progress cap d q0 n k ps w :
  length ps = n -> draining d q0 k ps w -> k < 5 ->
  forward cap d q0 n k ps (mkPoolSystem (shutdown_from d k) (worker_at <$> ps) w).
Proof.
  intros Hlen Hd Hk. destruct k as [|[|[|[|[|k]]]]]; [..|lia].
  1,2: eapply forward_main; [done|done|done|exists tt; by split_and!|done].
  - destruct (decide (po_wg w = 0%Z)) as [Hz|Hz].
    { eapply forward_main; [done|done|done|exists tt; by split_and!|done]. }
    assert (Hex : exists p, p ∈ ps /\ p <> IsGone).
    { rewrite (dr_wg _ _ _ _ _ Hd) in Hz. clear -Hz. induction ps as [|p ps IH]; [done|]. cbn in Hz.
      destruct (decide (counted p = 0%Z)) as [Hp|Hp]; [|exists p; split; [set_solver|]; by intros ->].
      destruct IH as (p' & ? & ?); [lia|]. exists p'. set_solver. }
    destruct Hex as (p & [i Hi]%list_elem_of_lookup & Hp). by apply (forward_worker cap d q0 n 2 ps w i p); [|done|lia|done|].
  - eapply forward_main; [done|done|done|exists tt; by split_and!|done].
  - eapply forward_main; [done|done|done|exists tt; by split_and!|done].
Qed.

(** From every state of the drain the shutdown can be completed. *)
Lemma drain_completes cap d q0 n s :
  drain_inv d q0 n s -> exists s', pool_steps cap false s s' /\ ps_main s' = Ret tt.
Proof.
  intros (k & ps & Hm & Hws & Hlen & Hd). remember (Z.to_nat (work_left k ps (ps_world s))) as m eqn:Hwork.
  revert k ps s Hm Hws Hlen Hd Hwork. induction m as [m IH] using lt_wf_ind. intros k ps [mn ws w] Hm Hws Hlen Hd ->.
  cbn [ps_main ps_workers ps_world] in *. subst mn ws.
  destruct (decide (k < 5)) as [Hk|Hk].
  - destruct (drain_progress cap d q0 n k ps w Hlen Hd Hk) as (s' & k' & ps' & Hs & Hm' & Hws' & Hlen' & Hd' & Hlt).
    cbn [ps_world] in Hlt.
    assert (Hnn : forall k ps w, (0 <= work_left k ps w)%Z).
    { intros k0 ps0 w0. unfold work_left. pose proof (tally_nonneg weight ps0 ltac:(by intros [])). lia. }
    destruct (IH (Z.to_nat (work_left k' ps' (ps_world s')))) with (k := k') (ps := ps') (s := s') as (s'' & Hs'' & Hend); try done.
    { specialize (Hnn k' ps' (ps_world s')). lia. }
    exists s''. split; [|done]. eapply rtc_l; [exact Hs|exact Hs''].
  - exists (mkPoolSystem (shutdown_from d k) (worker_at <$> ps) w). split; [apply rtc_refl|].
    destruct k as [|[|[|[|[|k]]]]]; by (lia || done).
Qed.


(** ** Executions *)

Definition some_job : Job :=
  mkJob "job_1" "train" "training" "python" [] StateQueued 0 0 0 0 0 0 None None EmptyString EmptyString.

Ltac main_step := eapply rtc_l; [eapply (pl_main _ _ _ _ _ _ _ tt); cbn; first [reflexivity|split; [reflexivity|reflexivity]]|cbn].
Ltac worker_step x := eapply rtc_l; [eapply (pl_work _ _ 0 _ _ _ _ _ _ x); [reflexivity|cbn]|cbn].


(** A queued job can be left behind.  The comment on the worker loop says that
    draining the queue with a non-blocking check first guarantees that every
    already-queued job is processed before the worker honours the stop signal.
    In this execution the only worker finds the queue empty, a job is queued and
    then [Shutdown] is called, the worker's blocking select has both and takes
    the stop signal: [Shutdown] returns with the job still in the queue. *)
Theorem queued_job_left_behind (d : Duration) :
  exists s, pool_steps 1 true (pool_at d 1 []) s /\ ps_main s = Ret tt /\
    po_queue (ps_world s) = [some_job] /\ po_done (ps_world s) = [].
Proof.
  eexists. split.
  - unfold pool_at. cbn [replicate].
    worker_step RecvEmpty. { split; reflexivity. }
    eapply rtc_l; [apply (pl_send _ _ some_job); [done|cbn; lia]|cbn].
    main_step. main_step.
    worker_step WakeStop. { right. left. split_and!; reflexivity. }
    eapply rtc_l; [eapply (pl_leave _ _ 0); reflexivity|cbn].
    eapply rtc_l; [eapply (pl_done _ _ 0); reflexivity|cbn].
    main_step. main_step. main_step. apply rtc_refl.
  - done.
Qed.

(** ** The grace period of cmd/orchestrator *)

(** [stopCh] is closed only after the signal was awaited. *)
Fixpoint awaits (p : prog PoolE unit) (signalled : bool) : Prop :=
  match p with
  | Ret _ => True
  | Vis e k =>
      match e with PCloseStop => signalled = true | _ => True end /\
      forall x, awaits (k x) (match e with PAwaitSignal => true | _ => signalled end)
  end.

Lemma main_awaits n d : awaits (orchestrator_main n d) false.
Proof.
  unfold orchestrator_main. induction (Z.to_nat n) as [|m IH]; [cbn; tauto|]. cbn [start_workers].
  split; [done|]. intros []. split; [done|]. intros []. exact IH.
Qed.

(** Only [main] closes [stopCh]. *)
Definition worker_ok (wk : Worker) : Prop := exists p, wk = worker_at p.

Lemma worker_next_pos p w wk' w' :
  work_next (worker_at p) w wk' w' -> worker_ok wk' /\ po_stop w' = po_stop w /\ po_ctx w' = po_ctx w.
Proof.
  destruct p as [| |j|j| | | |]; try done; intros (x & HR & ->); cbn in HR.
  - destruct (po_queue w) as [|j q]; destruct HR as [-> ->]; (split; [|done]); [by exists Waiting|by exists (Starting j)].
  - destruct HR as [(j & q & _ & -> & ->)|[(_ & -> & ->)|(_ & -> & ->)]]; (split; [|done]); [by exists (Starting j)|by exists Stopping..].
  - subst w'. split; [by exists (Ending j)|done].
  - destruct HR as (_ & pre & post & _ & ->). split; [by exists Again|done].
Qed.

Record signalled_inv (s : PoolSystem) : Prop := {
  sg_main : exists b, awaits (ps_main s) b /\ (b = true -> po_ctx (ps_world s) = true);
  sg_workers : Forall worker_ok (ps_workers s);
  sg_stop : po_stop (ps_world s) = true -> po_ctx (ps_world s) = true }.

Lemma pool_rel_ctx X (e : PoolE X) w x w' : pool_rel X e w x w' -> po_ctx w' = po_ctx w.
Proof.
  destruct e; cbn; intros HR; try (by subst w').
  - destruct (po_queue w); by destruct HR as [_ ->].
  - by destruct HR as [(j & q & _ & _ & ->)|[(_ & _ & ->)|(_ & _ & ->)]].
  - by destruct HR as (_ & pre & post & _ & ->).
  - by destruct HR as [_ ->].
  - by destruct HR as [_ ->].
Qed.

Lemma pool_rel_stop X (e : PoolE X) w x w' :
  pool_rel X e w x w' -> po_stop w' = true -> po_stop w = true \/ match e with PCloseStop => True | _ => False end.
Proof.
  destruct e; cbn; intros HR Hs; try (subst w'; auto).
  - destruct (po_queue w); destruct HR as [_ ->]; auto.
  - destruct HR as [(j & q & _ & _ & ->)|[(_ & _ & ->)|(_ & _ & ->)]]; auto.
  - destruct HR as (_ & pre & post & _ & ->); auto.
  - destruct HR as [_ ->]; auto.
  - destruct HR as [_ ->]; auto.
Qed.

Lemma signalled_step cap sends s s' : signalled_inv s -> pool_step cap sends s s' -> signalled_inv s'.
Proof.
  intros [(b & Ha & Hb) Hw Hst] Hs.
  destruct Hs as [X e k ws w x w' HR|i X e k m ws w x w' Hi HR|i m ws w Hi|i m ws w Hi|i m ws w w' Hi HR|j m ws w ? ?|m ws w|m ws w Ht];
    cbn [ps_main ps_workers ps_world] in *.
  - pose proof (pool_rel_ctx _ _ _ _ _ HR) as Hc. destruct Ha as [He Hk].
    assert (Hb' : match e with PAwaitSignal => true | _ => b end = true -> po_ctx w' = true).
    { rewrite Hc. destruct e; try done. cbn in HR. tauto. }
    split; cbn.
    + eexists. split; [apply Hk|exact Hb'].
    + apply Forall_app. split; [done|]. destruct e; try apply Forall_nil_2. apply Forall_singleton. by exists AtStart.
    + intros Hs'. rewrite Hc. destruct (pool_rel_stop _ _ _ _ _ HR Hs') as [?|Hcl]; [auto|]. destruct e; try done. auto.
  - rewrite Forall_lookup in Hw. destruct (Hw _ _ Hi) as [p Hp].
    assert (Hn : work_next (worker_at p) w (Looping (k x)) w') by (rewrite <- Hp; cbn; eauto).
    destruct (worker_next_pos _ _ _ _ Hn) as (Hok & Hs & Hc). split; cbn.
    + exists b. by rewrite Hc.
    + apply Forall_insert; [by apply Forall_lookup|done].
    + by rewrite Hs, Hc.
  - split; cbn; [eauto| |done]. apply Forall_insert; [done|by exists AtStart].
  - split; cbn; [eauto| |done]. apply Forall_insert; [done|by exists AtDone].
  - cbn in HR. subst w'. split; cbn; [eauto| |done]. apply Forall_insert; [done|by exists IsGone].
  - split; cbn; [eauto|done|done].
  - split; cbn; [exists b; auto|done|done].
  - split; cbn; [eauto|done|done].
Qed.

Definition orchestrator_start (n : Z) (d : Duration) : PoolSystem := mkPoolSystem (orchestrator_main n d) [] pool_idle.

(** C39: The grace period of cmd/orchestrator never takes effect.  [main] creates the
    pool with the context that the signal cancels, and the run context is derived
    from it.  So whenever [Shutdown] has begun, in every execution, the run
    context is already done, although the pool promises to cancel it only when
    [shutdownTimeout] has passed; and a running job can be interrupted by the
    signal before [Shutdown] is even called. *)
Theorem grace_period_void (cap : nat) (n : Z) (d : Duration) :
  (forall s, pool_steps cap true (orchestrator_start n d) s ->
     po_stop (ps_world s) = true -> run_ctx_done (ps_world s) = true) /\
  (0 < cap -> (0 < n)%Z -> exists s, pool_steps cap true (orchestrator_start n d) s /\
     po_stop (ps_world s) = false /\ po_timer (ps_world s) = false /\ (some_job, true) ∈ po_done (ps_world s)).
Proof.
  split.
  - intros s Hs Hst.
    assert (Hinv : signalled_inv s).
    { assert (H0 : signalled_inv (orchestrator_start n d)).
      { split; cbn; [exists false; split; [apply main_awaits|done]|done|done]. }
      clear Hst. induction Hs; [done|]. eauto using signalled_step. }
    unfold run_ctx_done. by rewrite (sg_stop _ Hinv Hst).
  - intros Hc Hn. unfold orchestrator_start, orchestrator_main. destruct (Z.to_nat n) as [|m] eqn:Hm; [lia|].
    cbn [start_workers]. eexists. split.
    + main_step. main_step. change (po_wg pool_idle + 1)%Z with 1%Z.
      eapply rtc_l; [apply (pl_send _ _ some_job); [done|cbn; lia]|cbn].
      worker_step (RecvJob some_job). { split; reflexivity. }
      worker_step tt. { reflexivity. }
      eapply rtc_l; [apply pl_signal|cbn].
      worker_step true. { split; [reflexivity|]. exists [], []. split; reflexivity. }
      apply rtc_refl.
    + cbn. split_and!; [done|done|set_solver].
Qed.

Lemma grace_period_void_witness :
  exists s, pool_steps 1 true (orchestrator_start 1 Second) s /\ (some_job, true) ∈ po_done (ps_world s).
Proof.
  destruct (grace_period_void 1 1 Second) as [_ Hex]. destruct Hex as (s & Hs & _ & _ & Hin); [lia|lia|].
  exists s. split; [exact Hs|exact Hin].
Defined.
