(* ===== verification/Mlctl.v ===== *)
(** * ml-job-orchestrator/cmd/mlctl: the command-line client

    main.go as programs over [MlE]: the environment, the HTTP client, the JSON
    decoder, the clock and the standard streams.  A command that ends the process
    returns its exit status early ([inr]).  The routes of the server are those of
    gorilla/mux, a third-party package, and are not followed here. *)

From S2P Require Import Infractl Prelude GoText Http GoFormat Jobs Orchestrator Settings.
From Stdlib Require Import ZArith Lia Ascii.
From stdpp Require Import base gmap strings list.

(** ** Operations *)

(** The body of a request: nothing, or the JSON object of a submission, here as
    what the server decodes it into. *)
Record MlRequest := mkMlRequest {
  ml_Method : string; ml_URL : string; ml_ContentType : option string; ml_Body : option submitJobRequest }.
Record MlResponse := mkMlResponse { ml_StatusCode : Z; ml_Status : string; ml_Text : string }.

(** The variables responses are decoded into. *)
Inductive MlReply : Type -> Type :=
| ReCreated : MlReply string               (* struct { ID string } *)
| ReJob : MlReply Job
| ReJobs : MlReply (list Job * Z).         (* jobs and total *)

Inductive MlE : Type -> Type :=
| MGetenv (key : string) : MlE string
| MNewRequest (method url : string) : MlE bool           (* false: error, the request is nil *)
| MDo (req : MlRequest) : MlE (MlResponse + string)
| MDecode {A} (out : MlReply A) (resp : MlResponse) : MlE (A + string)
| MNow : MlE Time
| MStdout (line : string) : MlE unit
| MStderr (line : string) : MlE unit.

(** [inr]: the process ended with a status; a nil-pointer panic ends it with 2. *)
Definition mlcmd (A : Type) : Type := prog MlE (A + Z).
Definition ml_bind {A B} (p : mlcmd A) (k : A -> mlcmd B) : mlcmd B :=
  prog_bind p (fun r => match r with inl x => k x | inr code => Ret (inr code) end).
Notation "x ←? p ; q" := (ml_bind p (fun x => q)) (at level 20, p at level 100, q at level 200, only parsing).
Notation "' x ←? p ; q" := (ml_bind p (fun x => q)) (at level 20, x pattern, p at level 100, q at level 200, only parsing).

Definition ml_call {A} (e : MlE A) : mlcmd A := Vis e (fun x => Ret (inl x)).
Definition ml_ret {A} (x : A) : mlcmd A := Ret (inl x).
Definition ml_exit {A} (code : Z) : mlcmd A := Ret (inr code).
Definition fatalf {A} (msg : string) : mlcmd A := _ ←? ml_call (MStderr msg); ml_exit 1.
Definition Println (line : string) : mlcmd unit := ml_call (MStdout line).

Definition serverURL : mlcmd string :=
  v ←? ml_call (MGetenv "MLCTL_SERVER");
  ml_ret (if negb (String.eqb v EmptyString) then v else "http://localhost:8080").

(** The text [usage] prints on standard error. *)
Definition usage_text : string :=
  "mlctl <command> [flags]

Commands:
  submit   submit a new job
  status   print a job's current status
  list     list jobs, optionally filtered
  cancel   cancel a job

Set MLCTL_SERVER (default http://localhost:8080) to point at a different orchestrator.".

Definition usage : mlcmd unit := ml_call (MStderr usage_text).

Definition readErrorBody (resp : MlResponse) : string := ml_Status resp +:+ ": " +:+ TrimSpace (ml_Text resp).

(** [fs.Parse(args)] with [flag.ExitOnError]. *)
Definition parse_or_exit (formal : list (string * FlagValue)) (args : list string) : mlcmd (gmap string FlagValue) :=
  match flag_Parse formal args with
  | FlagExit code => ml_exit code
  | Flags v _ => ml_ret v
  end.

(** A response that must have the status [want], decoded. *)
Definition expect {A} (what decodeWhat : string) (resp : MlResponse + string) (want : Z) (out : MlReply A) : mlcmd A :=
  match resp with
  | inr err => fatalf (what +:+ " failed: " +:+ err)
  | inl resp =>
      if negb (ml_StatusCode resp =? want)%Z then fatalf (what +:+ " failed: " +:+ readErrorBody resp)
      else
        r ←? ml_call (MDecode out resp);
        match r with
        | inr err => fatalf (decodeWhat +:+ ": failed to decode response: " +:+ err)
        | inl x => ml_ret x
        end
  end.

(** ** submit *)

Definition submit_flags : list (string * FlagValue) :=
  [("name", FString EmptyString); ("type", FString EmptyString); ("command", FString EmptyString);
   ("args", FString EmptyString); ("timeout", FInt 0); ("retries", FInt 0); ("priority", FInt 0)].

(** [var jobArgs []string; if strings.TrimSpace(s) != "" { jobArgs = strings.Fields(s) }] *)
Definition job_args (s : string) : list string :=
  if negb (String.eqb (TrimSpace s) EmptyString) then Fields s else [].

Definition submit_body (v : gmap string FlagValue) : submitJobRequest := {|
  sj_Name := flag_string v "name"; sj_Type := flag_string v "type"; sj_Command := flag_string v "command";
  sj_Args := job_args (flag_string v "args"); sj_TimeoutSeconds := flag_int v "timeout";
  sj_MaxRetries := flag_int v "retries"; sj_Priority := flag_int v "priority" |}.

(** From [http.Post] on. *)
Definition post_job (body : submitJobRequest) : mlcmd unit :=
  server ←? serverURL;
  resp ←? ml_call (MDo (mkMlRequest "POST" (server +:+ "/jobs") (Some "application/json") (Some body)));
  id ←? expect "submit" "submit" resp StatusCreated ReCreated;
  Println ("Submitted " +:+ id).

Definition cmdSubmit (args : list string) : mlcmd unit :=
  v ←? parse_or_exit submit_flags args;
  if String.eqb (flag_string v "name") EmptyString || String.eqb (flag_string v "command") EmptyString then
    _ ←? ml_call (MStderr "submit: --name and --command are required");
    ml_exit 1
  else post_job (submit_body v).

(** ** status *)

Definition fetchJob (id : string) : mlcmd Job :=
  server ←? serverURL;
  resp ←? ml_call (MDo (mkMlRequest "GET" (server +:+ "/jobs/" +:+ id) None None));
  expect "status" "status" resp StatusOK ReJob.

Definition formatDuration (job : Job) : mlcmd string :=
  match Job_StartedAt job, Job_FinishedAt job with
  | None, _ => ml_ret "-"
  | Some started, Some finished => ml_ret (Duration_String (Round (Sub finished started) Millisecond))
  | Some started, None =>
      now ←? ml_call MNow;
      ml_ret (Duration_String (Round (Sub now started) Millisecond) +:+ " (running)")
  end.

Definition cmdStatus (args : list string) : mlcmd unit :=
  match args with
  | [] => fatalf "status: job id required"
  | id :: _ =>
      job ←? fetchJob id;
      _ ←? Println ("ID:       " +:+ Job_ID job);
      _ ←? Println ("Name:     " +:+ Job_Name job);
      _ ←? Println ("State:    " +:+ State_string (Job_State job));
      d ←? formatDuration job;
      _ ←? Println ("Duration: " +:+ d);
      _ ←? Println ("Retries:  " +:+ itoa (Job_RetryCount job));
      if negb (String.eqb (Job_ErrorMessage job) EmptyString)
      then Println ("Error:    " +:+ Job_ErrorMessage job) else ml_ret tt
  end.

(** ** list *)

Definition list_flags : list (string * FlagValue) :=
  [("state", FString EmptyString); ("type", FString EmptyString); ("limit", FInt 20)].

(** The target of the request: state and type are not escaped. *)
Definition list_target (state type : string) (limit : Z) : string :=
  "/jobs?state=" +:+ state +:+ "&type=" +:+ type +:+ "&limit=" +:+ itoa limit.

(** [pad n]: [%-<n>s] and [%-<n>d]. *)
Definition job_row (id name state retries : string) : string :=
  pad 12 id +:+ " " +:+ pad 20 name +:+ " " +:+ pad 10 state +:+ " " +:+ pad 10 retries.

Fixpoint print_jobs (js : list Job) : mlcmd unit :=
  match js with
  | [] => ml_ret tt
  | j :: js =>
      _ ←? Println (job_row (Job_ID j) (Job_Name j) (State_string (Job_State j)) (itoa (Job_RetryCount j)));
      print_jobs js
  end.

Definition cmdList (args : list string) : mlcmd unit :=
  v ←? parse_or_exit list_flags args;
  server ←? serverURL;
  resp ←? ml_call (MDo (mkMlRequest "GET"
    (server +:+ list_target (flag_string v "state") (flag_string v "type") (flag_int v "limit")) None None));
  '(jobs, total) ←? expect "list" "list" resp StatusOK ReJobs;
  _ ←? Println (job_row "ID" "NAME" "STATE" "RETRIES");
  _ ←? print_jobs jobs;
  _ ←? Println EmptyString;
  Println (itoa total +:+ " total").

(** ** cancel *)

(** The error of [http.NewRequest] is dropped; [Do] of the nil request it comes
    with panics. *)
Definition cmdCancel (args : list string) : mlcmd unit :=
  match args with
  | [] => fatalf "cancel: job id required"
  | id :: _ =>
      server ←? serverURL;
      ok ←? ml_call (MNewRequest "DELETE" (server +:+ "/jobs/" +:+ id));
      if negb ok then ml_exit 2
      else
        resp ←? ml_call (MDo (mkMlRequest "DELETE" (server +:+ "/jobs/" +:+ id) None None));
        match resp with
        | inr err => fatalf ("cancel failed: " +:+ err)
        | inl resp =>
            if negb (ml_StatusCode resp =? StatusOK)%Z then fatalf ("cancel failed: " +:+ readErrorBody resp)
            else Println ("Cancelled " +:+ id)
        end
  end.

(** [os.Args[1:]] *)
Definition main (args : list string) : mlcmd unit :=
  match args with
  | [] => _ ←? usage; ml_exit 1
  | cmd :: args =>
      if String.eqb cmd "submit" then cmdSubmit args
      else if String.eqb cmd "status" then cmdStatus args
      else if String.eqb cmd "list" then cmdList args
      else if String.eqb cmd "cancel" then cmdCancel args
      else _ ←? usage; ml_exit 1
  end.
