(* ===== verification/MlctlProperties.v ===== *)
(** * ml-job-orchestrator/cmd/mlctl: properties

    What is typed on the command line is what the server is asked for. *)

From S2P Require Import Prelude GoText Http GoFormat Jobs Orchestrator Settings Mlctl.
From Stdlib Require Import ZArith Lia Ascii Decimal DecimalString DecimalZ.
From stdpp Require Import base gmap strings list.

(** ** Numbers *)

(** Reading a known digit. *)
Ltac read_digit := match goal with |- parse_digits (String ?c ?s) ?a = _ =>
  let k := eval vm_compute in (Z.of_nat (nat_of_ascii c) - 48)%Z in
  change (parse_digits (String c s) a) with (parse_digits s (10 * a + k)%Z) end.

Lemma parse_digits_acc d acc :
  parse_digits (NilEmpty.string_of_uint d) (Z.pos acc) = Some (Z.pos (Pos.of_uint_acc d acc)).
Proof.
  revert acc. induction d; intros acc; cbn [NilEmpty.string_of_uint Pos.of_uint_acc]; [done|..].
  all: read_digit; rewrite <- IHd; f_equal; lia.
Qed.

Lemma parse_digits_uint d : parse_digits (NilEmpty.string_of_uint d) 0 = Some (Z.of_uint d).
Proof.
  unfold Z.of_uint. induction d; cbn [NilEmpty.string_of_uint Pos.of_uint]; [done|exact IHd|..].
  all: read_digit; apply (parse_digits_acc d).
Qed.

Lemma parse_digits_zero d : parse_digits (NilZero.string_of_uint d) 0 = Some (Z.of_uint d).
Proof. destruct d; [done|..]; apply parse_digits_uint. Qed.

Lemma uint_first d : exists c rest, NilZero.string_of_uint d = String c rest /\
  Ascii.eqb c "-" = false /\ Ascii.eqb c "+" = false.
Proof. destruct d; cbn; eauto. Qed.

(** What is printed with [%d] is read back by [strconv.Atoi]. *)
Lemma Atoi_itoa n : in_int64 n -> Atoi (itoa n) = Some n.
Proof.
  intros Hn. unfold itoa. pose proof (DecimalZ.of_to n) as Hof. unfold Atoi.
  assert (Hrange : ((min_int64 <=? n) && (n <=? max_int64))%Z = true) by (unfold in_int64 in Hn; lia).
  destruct (Z.to_int n) as [d|d]; cbn [NilZero.string_of_int Z.of_int] in *.
  - destruct (uint_first d) as (c & rest & Hd & H1 & H2). pose proof (parse_digits_zero d) as Hp. rewrite Hd in *.
    rewrite H1, H2. cbn [String.eqb]. by rewrite Hp, Hof, Hrange.
  - destruct (uint_first d) as (c & rest & Hd & _). pose proof (parse_digits_zero d) as Hp. rewrite Hd in *.
    change (Ascii.eqb "-" "-") with true. cbn [String.eqb]. by rewrite Hp, Hof, Hrange.
Qed.

(** ** Words *)

Fixpoint no_space (s : string) : bool := match s with EmptyString => true | String c s => negb (is_space c) && no_space s end.
Definition word (s : string) : bool := negb (String.eqb s EmptyString) && no_space s.

Lemma fields_word acc s rest :
  no_space s = true -> fields_from acc (s +:+ rest) = fields_from (acc +:+ s) rest.
Proof.
  revert acc. induction s as [|c s IH]; intros acc Hs; [by rewrite app_empty_r|].
  cbn in Hs. apply andb_prop in Hs as [Hc%negb_true_iff Hs].
  change (String c s +:+ rest) with (String c (s +:+ rest)). cbn [fields_from]. rewrite Hc, IH by done.
  f_equal. by rewrite app_assoc_str.
Qed.

(** Words joined by spaces are the fields of the text. *)
Lemma Fields_join ws : Forall (fun s => word s = true) ws -> Fields (join_with " " ws) = ws.
Proof.
  unfold Fields. induction 1 as [|s ws Hs Hws IH]; [done|].
  unfold word in Hs. apply andb_prop in Hs as [Hne%negb_true_iff Hsp].
  destruct ws as [|s' ws].
  - cbn [join_with]. rewrite <- (app_empty_r s) at 1. rewrite fields_word by done.
    change (EmptyString +:+ s) with s. cbn [fields_from]. by rewrite Hne.
  - cbn [join_with]. rewrite fields_word by done.
    change (EmptyString +:+ s) with s. cbn [fields_from]. change (is_space " ") with true. cbn match. rewrite Hne.
    cbn [join_with] in IH. by rewrite IH.
Qed.

Lemma trim_left_word s rest : word s = true -> trim_left (s +:+ rest) = s +:+ rest.
Proof.
  unfold word. destruct s as [|c s]; [done|]. cbn. intros [Hc%negb_true_iff _]%andb_prop.
  change (String c s +:+ rest) with (String c (s +:+ rest)). cbn. by rewrite Hc.
Qed.

Lemma trim_right_first c s : is_space c = false -> trim_right (String c s) <> EmptyString.
Proof. intros Hc. cbn. destruct (trim_right s); [by rewrite Hc|done]. Qed.

(** The arguments a user separates by spaces are the arguments of the job. *)
Lemma job_args_words ws : Forall (fun s => word s = true) ws -> job_args (join_with " " ws) = ws.
Proof.
  intros Hws. unfold job_args. destruct ws as [|s ws]; [done|].
  pose proof (Forall_inv Hws) as Hs. cbv beta in Hs.
  assert (Hne : TrimSpace (join_with " " (s :: ws)) <> EmptyString).
  { unfold TrimSpace. assert (exists rest, join_with " " (s :: ws) = s +:+ rest) as [rest ->].
    { destruct ws; [exists EmptyString; cbn; by rewrite app_empty_r|cbn; eauto]. }
    rewrite trim_left_word by done. unfold word in Hs. destruct s as [|c s]; [done|].
    cbn in Hs. apply andb_prop in Hs as [Hc%negb_true_iff _]. by apply (trim_right_first c (s +:+ rest)). }
  destruct (String.eqb_spec (TrimSpace (join_with " " (s :: ws))) EmptyString); [done|]. by apply Fields_join.
Qed.

(** ** submit *)

(** What the program does once the flags are read. *)
Lemma cmdSubmit_flags args v rest :
  flag_Parse submit_flags args = Flags v rest ->
  cmdSubmit args =
  if String.eqb (flag_string v "name") EmptyString || String.eqb (flag_string v "command") EmptyString
  then (_ ←? ml_call (MStderr "submit: --name and --command are required"); ml_exit 1)
  else post_job (submit_body v).
Proof. intros Hf. unfold cmdSubmit, parse_or_exit. rewrite Hf. done. Qed.

(** More fuel than arguments makes no difference. *)
Lemma parse_args_fuel f1 f2 formal args :
  length args < f1 -> length args < f2 -> parse_args f1 formal args = parse_args f2 formal args.
Proof.
  revert f2 formal args. induction f1 as [|f1 IH]; intros f2 formal args H1 H2; [lia|].
  destruct f2 as [|f2]; [lia|]. destruct args as [|s rest]; [done|]. cbn [length] in *.
  cbn [parse_args]. repeat case_match; try done; apply IH; simplify_eq/=; lia.
Qed.

Definition parsed (formal : gmap string FlagValue) (args : list string) : Parsed :=
  parse_args (S (length args)) formal args.

Definition set_given (name : string) (v : option string) (formal : gmap string FlagValue) : gmap string FlagValue :=
  match v with Some v => <[name := FString v]> formal | None => formal end.

Lemma parsed_given_string formal name old v rest :
  flag_name name = true -> formal !! name = Some (FString old) ->
  parsed formal (given name v ++ rest) = parsed (set_given name v formal) rest.
Proof.
  intros Hn Hf. destruct v as [v|]; [|done]. unfold parsed. cbn [given app].
  rewrite (parse_args_flag _ _ _ _ _ _ Hn Hf). cbn [set_flag set_given length]. apply parse_args_fuel; lia.
Qed.

Lemma set_given_ne name v formal k : k <> name -> set_given name v formal !! k = formal !! k.
Proof. intros Hk. destruct v; [by apply lookup_insert_ne|done]. Qed.

Lemma set_given_string name v formal :
  formal !! name = Some (FString EmptyString) -> flag_string (set_given name v formal) name = default EmptyString v.
Proof. intros Hf. unfold flag_string. destruct v; cbn; [by rewrite lookup_insert_eq|by rewrite Hf]. Qed.

Lemma flag_string_ne name v formal k : k <> name -> flag_string (set_given name v formal) k = flag_string formal k.
Proof. intros Hk. unfold flag_string. by rewrite set_given_ne. Qed.
Lemma flag_int_ne name v formal k : k <> name -> flag_int (set_given name v formal) k = flag_int formal k.
Proof. intros Hk. unfold flag_int. by rewrite set_given_ne. Qed.

(** The text flags of a submission, and the last flag, a number. *)
Lemma submit_parsed (name command type words timeout : option string) :
  let formal := set_given "args" words (set_given "type" type (set_given "command" command
    (set_given "name" name (list_to_map submit_flags)))) in
  flag_Parse submit_flags (given "name" name ++ given "command" command ++ given "type" type ++ given "args" words ++ given "timeout" timeout) =
  match timeout with
  | None => Flags formal []
  | Some t => match ParseInt0 t with Some n => Flags (<["timeout" := FInt n]> formal) [] | None => FlagExit 2 end
  end.
Proof.
  intros formal. change (flag_Parse submit_flags ?a) with (parsed (list_to_map submit_flags) a).
  rewrite (parsed_given_string _ "name" EmptyString) by done.
  rewrite (parsed_given_string _ "command" EmptyString) by (rewrite ?set_given_ne by done; done).
  rewrite (parsed_given_string _ "type" EmptyString) by (rewrite ?set_given_ne by done; done).
  rewrite (parsed_given_string _ "args" EmptyString) by (rewrite ?set_given_ne by done; done).
  fold formal. assert (Ht : formal !! "timeout" = Some (FInt 0)) by (unfold formal; rewrite !set_given_ne by done; done).
  destruct timeout as [t|]; [|done]. unfold parsed. cbn [given app length].
  rewrite (parse_args_flag _ _ "timeout" (FInt 0)) by done. cbn [set_flag]. by destruct (ParseInt0 t).
Qed.

(** [mlctl submit] asks for what was typed.  For every combination of flags:
    numbers that do not parse end it with status 2, a missing name or command with
    status 1, before any request; otherwise it posts one job with exactly the
    name, type, command and numbers given (0 for those left out), and with the
    words of [-args] as arguments. *)
Theorem mlctl_submits (name command type words timeout : option string) :
  let text := default EmptyString in
  let args := given "name" name ++ given "command" command ++ given "type" type ++ given "args" words ++ given "timeout" timeout in
  match timeout ≫= (fun v => Some (ParseInt0 v)) with
  | Some None => cmdSubmit args = ml_exit 2
  | t =>
      if String.eqb (text name) EmptyString || String.eqb (text command) EmptyString
      then cmdSubmit args = (_ ←? ml_call (MStderr "submit: --name and --command are required"); ml_exit 1)
      else exists body, cmdSubmit args = post_job body /\
        sj_Name body = text name /\ sj_Command body = text command /\ sj_Type body = text type /\
        sj_TimeoutSeconds body = default 0%Z (t ≫= id) /\ sj_MaxRetries body = 0%Z /\ sj_Priority body = 0%Z /\
        forall ws, Forall (fun s => word s = true) ws -> text words = join_with " " ws -> sj_Args body = ws
  end.
Proof.
  intros text args. pose proof (submit_parsed name command type words timeout) as Hp. fold args in Hp. cbv zeta in Hp.
  set (formal := set_given "args" words _) in Hp.
  assert (Hs : flag_string formal "name" = text name /\ flag_string formal "command" = text command /\
    flag_string formal "type" = text type /\ flag_string formal "args" = text words /\
    flag_int formal "retries" = 0%Z /\ flag_int formal "priority" = 0%Z /\ flag_int formal "timeout" = 0%Z).
  { unfold formal. rewrite !flag_int_ne by done.
    split_and!; try done; repeat first [rewrite set_given_string by (rewrite ?set_given_ne by done; done)|rewrite flag_string_ne by done]; done. }
  destruct Hs as (Hn & Hc & Ht & Hw & Hr & Hpr & Hto). clearbody formal.
  assert (Hbody : forall v, flag_Parse submit_flags args = Flags v [] ->
    (forall k, k <> "timeout" -> v !! k = formal !! k) ->
    if String.eqb (text name) EmptyString || String.eqb (text command) EmptyString
    then cmdSubmit args = (_ ←? ml_call (MStderr "submit: --name and --command are required"); ml_exit 1)
    else exists body, cmdSubmit args = post_job body /\
      sj_Name body = text name /\ sj_Command body = text command /\ sj_Type body = text type /\
      sj_TimeoutSeconds body = flag_int v "timeout" /\ sj_MaxRetries body = 0%Z /\ sj_Priority body = 0%Z /\
      forall ws, Forall (fun s => word s = true) ws -> text words = join_with " " ws -> sj_Args body = ws).
  { intros v Hv Hk. rewrite (cmdSubmit_flags _ _ _ Hv).
    assert (Hks : forall k, k <> "timeout" -> flag_string v k = flag_string formal k) by (intros k Hne; unfold flag_string; by rewrite Hk).
    assert (Hki : forall k, k <> "timeout" -> flag_int v k = flag_int formal k) by (intros k Hne; unfold flag_int; by rewrite Hk).
    rewrite !Hks, Hn, Hc by done. destruct (_ || _); [done|]. exists (submit_body v).
    cbn [sj_Name sj_Command sj_Type sj_TimeoutSeconds sj_MaxRetries sj_Priority sj_Args submit_body].
    rewrite !Hks, (Hki "retries"), (Hki "priority"), Hn, Hc, Ht, Hw, Hr, Hpr by done. split_and!; try done.
    intros ws Hws ->. by apply job_args_words. }
  destruct timeout as [t|]; cbn [mbind option_bind].
  - destruct (ParseInt0 t) as [n|]; cbn [id].
    + specialize (Hbody _ Hp ltac:(intros k Hk; by apply lookup_insert_ne)). unfold flag_int in Hbody.
      rewrite lookup_insert_eq in Hbody. exact Hbody.
    + unfold cmdSubmit, parse_or_exit. by rewrite Hp.
  - specialize (Hbody _ Hp ltac:(done)). rewrite Hto in Hbody. exact Hbody.
Qed.

(** ** list *)

Lemma all_unreserved_query s : all_unreserved s = true -> QueryUnescape s = Some s /\
  has_char "&" s = false /\ has_char ";" s = false /\ has_char "?" s = false.
Proof.
  intros Hs. split_and!; try (by apply unreserved_no_char).
  unfold QueryUnescape. induction s as [|c s IH]; [done|]. cbn in Hs. apply andb_prop in Hs as [Hc Hs].
  assert (Hp : Ascii.eqb c "%" = false /\ Ascii.eqb c "+" = false).
  { split; apply negb_true_iff.
    - revert Hc. apply implb_true_iff. revert c. apply every_char. vm_compute. reflexivity.
    - revert Hc. apply implb_true_iff. revert c. apply every_char. vm_compute. reflexivity. }
  destruct Hp as [H1 H2]. cbn [unescape]. rewrite H1, H2. by rewrite IH.
Qed.

Lemma itoa_unreserved n : all_unreserved (itoa n) = true.
Proof.
  assert (Hu : forall d, all_unreserved (NilEmpty.string_of_uint d) = true) by (induction d; done).
  assert (Hz : forall d, all_unreserved (NilZero.string_of_uint d) = true) by (intros []; [done|apply Hu..]).
  unfold itoa. destruct (Z.to_int n); [apply Hz|]. apply (Hz d).
Qed.

(** One parameter written without escaping. *)
Lemma parse_plain_piece key x v :
  all_unreserved key = true -> all_unreserved x = true ->
  parse_piece (key +:+ String "=" x) v = Values_Add key x v.
Proof.
  intros Hk Hx. destruct (all_unreserved_query _ Hk) as (Uk & _ & Sk & _). destruct (all_unreserved_query _ Hx) as (Ux & _ & Sx & _).
  unfold parse_piece. rewrite has_char_app, Sk. cbn [has_char orb]. rewrite Sx.
  change (Ascii.eqb "=" ";") with false. cbn [orb].
  assert (Hne : String.eqb (key +:+ String "=" x) EmptyString = false) by (by destruct key).
  rewrite Hne, cut_at_app by (by apply unreserved_no_char). by rewrite Uk, Ux.
Qed.

Lemma list_target_query state type limit :
  all_unreserved state = true -> all_unreserved type = true ->
  ParseQuery (split_target (list_target state type limit)).2 =
  Values_Add "limit" (itoa limit) (Values_Add "type" type (Values_Add "state" state ∅)).
Proof.
  intros Hs Ht.
  assert (Hpiece : forall key x, all_unreserved key = true -> all_unreserved x = true -> has_char "&" (key +:+ String "=" x) = false).
  { intros key x Hk Hx. rewrite has_char_app. cbn [has_char]. change (Ascii.eqb "=" "&") with false. cbn [orb].
    apply orb_false_iff. by split; apply unreserved_no_char. }
  assert (Ht' : list_target state type limit = "/jobs" +:+ String "?" (("state" +:+ String "=" state) +:+
    String "&" (("type" +:+ String "=" type) +:+ String "&" ("limit" +:+ String "=" (itoa limit))))).
  { unfold list_target. rewrite !app_assoc_str. reflexivity. }
  rewrite Ht'. unfold split_target. rewrite cut_at_app by done. cbn [snd]. unfold ParseQuery.
  rewrite !split_at_app, split_at_piece by (apply Hpiece; done || apply itoa_unreserved).
  cbn [foldl]. by rewrite !parse_plain_piece by (done || apply itoa_unreserved).
Qed.

(** [mlctl list] asks for what was typed, if it needs no escaping.  For a state and
    a type made of unreserved characters and every limit an [int] can hold, the
    server lists with exactly that filter. *)
Theorem mlctl_lists (state type : string) (limit : Z) :
  all_unreserved state = true -> all_unreserved type = true -> in_int64 limit ->
  let q := ParseQuery (split_target (list_target state type limit)).2 in
  ListJobs (Values_Get q "state") (Values_Get q "type") (Values_Get q "limit") =
  ('(jobs, total) ← call (EList (mkListFilter state type limit)); Ret (writeJSON StatusOK (JBJobs jobs total))).
Proof.
  intros Hs Ht Hl q. subst q. rewrite list_target_query by done.
  assert (Hget : forall k, Values_Get (Values_Add "limit" (itoa limit) (Values_Add "type" type (Values_Add "state" state ∅))) k =
    if String.eqb k "limit" then itoa limit else if String.eqb k "type" then type else if String.eqb k "state" then state else EmptyString).
  { intros k. unfold Values_Get, Values_Add, Values_All.
    rewrite (lookup_insert_ne _ "type" "limit"), (lookup_insert_ne _ "state" "limit"), (lookup_insert_ne _ "state" "type"), !lookup_empty by done.
    cbn [default app].
    destruct (String.eqb_spec k "limit") as [->|]; [by rewrite lookup_insert_eq|rewrite lookup_insert_ne by done].
    destruct (String.eqb_spec k "type") as [->|]; [by rewrite lookup_insert_eq|rewrite lookup_insert_ne by done].
    destruct (String.eqb_spec k "state") as [->|]; [by rewrite lookup_insert_eq|by rewrite lookup_insert_ne, lookup_empty by done]. }
  rewrite !Hget. cbn [String.eqb Ascii.eqb Bool.eqb]. unfold ListJobs.
  assert (Hne : String.eqb (itoa limit) EmptyString = false).
  { destruct (String.eqb_spec (itoa limit) EmptyString) as [E|]; [|done]. pose proof (Atoi_itoa limit Hl) as Ha. by rewrite E in Ha. }
  by rewrite Hne, Atoi_itoa.
Qed.

Lemma mlctl_lists_witness :
  all_unreserved "FAILED" = true /\
  ListJobs "FAILED" "training" "5" =
  ('(jobs, total) ← call (EList (mkListFilter "FAILED" "training" 5)); Ret (writeJSON StatusOK (JBJobs jobs total))).
Proof.
  split; [reflexivity|]. exact (mlctl_lists "FAILED" "training" 5 eq_refl eq_refl ltac:(split; vm_compute; discriminate)).
Defined.

(** A type with an ampersand is cut short, and the rest becomes another
    parameter. *)
Example list_not_escaped :
  let q := ParseQuery (split_target (list_target "PENDING" "r&d" 20)).2 in
  Values_Get q "type" = "r" /\ Values_All q "d" = [EmptyString].
Proof. vm_compute. split; reflexivity. Qed.
