(* ===== verification/GoHeap.v ===== *)
(** * References: structs with pointers, maps and slices, and their Clone

    An entity of the programs is a struct some of whose fields are references:
    a map, a slice, a pointer.  Assigning or passing the struct copies the
    references, not what they refer to.  This file models that: a heap of cells,
    structs that hold locations, the value a struct stands for in a heap
    ([view]), and the [Clone] methods of control-plane/internal/model (pod.go,
    deployment.go, node.go, service.go) and ml-job-orchestrator/internal/model
    (job.go).  [Object] is what a clone promises: the same value, on fresh cells
    only. *)

From S2P Require Import Prelude Model Jobs.
From Stdlib Require Import ZArith Lia.
From stdpp Require Import base gmap strings list fin_maps.

(** ** The heap *)

Abbreviation loc := positive (only parsing).
(** A reference field; [None] is nil. *)
Abbreviation Ref := (option positive) (only parsing).

(** A struct: its reference fields, and the other fields in [flat] (whose
    components for the reference fields are not used). *)
Record DeploymentObj := mkDeploymentObj { do_flat : Deployment; do_Labels : Ref; do_Args : Ref }.
Record PodObj := mkPodObj {
  po_flat : Pod; po_Labels : Ref; po_Args : Ref; po_ExitCode : Ref;
  po_ScheduledAt : Ref; po_StartedAt : Ref; po_FinishedAt : Ref }.
Record NodeObj := mkNodeObj { no_flat : Node; no_Labels : Ref }.
Record ServiceObj := mkServiceObj { so_flat : Service; so_Selector : Ref }.
Record JobObj := mkJobObj { jo_flat : Job; jo_Args : Ref; jo_StartedAt : Ref; jo_FinishedAt : Ref }.

Inductive Cell :=
| CMap (m : gmap string string)
| CSlice (xs : list string)
| CInt (n : Z)
| CTime (t : Time)
| CDeployment (o : DeploymentObj)
| CPod (o : PodObj)
| CNode (o : NodeObj)
| CService (o : ServiceObj).

Abbreviation Heap := (gmap positive Cell) (only parsing).

Definition alloc (c : Cell) (h : Heap) : loc * Heap :=
  let l := fresh (dom h) in (l, <[l := c]> h).

(** ** Reading through a reference

    [None]: a cell of another type, which Go's type system excludes. *)
Definition read_map (h : Heap) (r : Ref) : option (gmap string string) :=
  match r with
  | None => Some ∅
  | Some l => match h !! l with Some (CMap m) => Some m | _ => None end
  end.
Definition read_slice (h : Heap) (r : Ref) : option (list string) :=
  match r with
  | None => Some []
  | Some l => match h !! l with Some (CSlice xs) => Some xs | _ => None end
  end.
Definition read_int (h : Heap) (r : Ref) : option (option Z) :=
  match r with
  | None => Some None
  | Some l => match h !! l with Some (CInt n) => Some (Some n) | _ => None end
  end.
Definition read_time (h : Heap) (r : Ref) : option (option Time) :=
  match r with
  | None => Some None
  | Some l => match h !! l with Some (CTime t) => Some (Some t) | _ => None end
  end.

(** ** Copying what a reference refers to *)

(** [if m != nil { c = make(map...); for k, v := range m { c[k] = v } }] *)
Definition clone_map (r : Ref) (h : Heap) : option (Ref * Heap) :=
  match r with
  | None => Some (None, h)
  | Some l => match h !! l with
      | Some (CMap m) => let '(l', h) := alloc (CMap m) h in Some (Some l', h)
      | _ => None
      end
  end.

(** [if s != nil { c = append([]string(nil), s...) }]: nil when [s] is empty. *)
Definition clone_slice (r : Ref) (h : Heap) : option (Ref * Heap) :=
  match r with
  | None => Some (None, h)
  | Some l => match h !! l with
      | Some (CSlice []) => Some (None, h)
      | Some (CSlice xs) => let '(l', h) := alloc (CSlice xs) h in Some (Some l', h)
      | _ => None
      end
  end.

(** [if p != nil { v := *p; c = &v }] *)
Definition clone_int (r : Ref) (h : Heap) : option (Ref * Heap) :=
  match r with
  | None => Some (None, h)
  | Some l => match h !! l with
      | Some (CInt n) => let '(l', h) := alloc (CInt n) h in Some (Some l', h)
      | _ => None
      end
  end.
Definition clone_time (r : Ref) (h : Heap) : option (Ref * Heap) :=
  match r with
  | None => Some (None, h)
  | Some l => match h !! l with
      | Some (CTime t) => let '(l', h) := alloc (CTime t) h in Some (Some l', h)
      | _ => None
      end
  end.

(** ** Clone *)

Definition Deployment_Clone (d : DeploymentObj) (h : Heap) : option (DeploymentObj * Heap) :=
  '(args, h) ← clone_slice (do_Args d) h;
  '(labels, h) ← clone_map (do_Labels d) h;
  Some (mkDeploymentObj (do_flat d) labels args, h).

Definition Pod_Clone (p : PodObj) (h : Heap) : option (PodObj * Heap) :=
  '(args, h) ← clone_slice (po_Args p) h;
  '(labels, h) ← clone_map (po_Labels p) h;
  '(exitCode, h) ← clone_int (po_ExitCode p) h;
  '(scheduledAt, h) ← clone_time (po_ScheduledAt p) h;
  '(startedAt, h) ← clone_time (po_StartedAt p) h;
  '(finishedAt, h) ← clone_time (po_FinishedAt p) h;
  Some (mkPodObj (po_flat p) labels args exitCode scheduledAt startedAt finishedAt, h).

Definition Node_Clone (n : NodeObj) (h : Heap) : option (NodeObj * Heap) :=
  '(labels, h) ← clone_map (no_Labels n) h;
  Some (mkNodeObj (no_flat n) labels, h).

Definition Service_Clone (s : ServiceObj) (h : Heap) : option (ServiceObj * Heap) :=
  '(selector, h) ← clone_map (so_Selector s) h;
  Some (mkServiceObj (so_flat s) selector, h).

Definition Job_Clone (j : JobObj) (h : Heap) : option (JobObj * Heap) :=
  '(args, h) ← clone_slice (jo_Args j) h;
  '(startedAt, h) ← clone_time (jo_StartedAt j) h;
  '(finishedAt, h) ← clone_time (jo_FinishedAt j) h;
  Some (mkJobObj (jo_flat j) args startedAt finishedAt, h).

(** ** The value of a struct *)

Definition Deployment_view (h : Heap) (d : DeploymentObj) : option Deployment :=
  labels ← read_map h (do_Labels d);
  args ← read_slice h (do_Args d);
  let f := do_flat d in
  Some (mkDeployment (Deployment_ID f) (Deployment_Name f) (Deployment_Namespace f) labels (Deployment_Type f)
    (Deployment_Image f) (Deployment_Command f) args (Deployment_Replicas f) (Deployment_MaxRetries f)
    (Deployment_RestartPolicy f) (Deployment_Resources f) (Deployment_Status f) (Deployment_CreatedAt f)
    (Deployment_UpdatedAt f)).

Definition Pod_view (h : Heap) (p : PodObj) : option Pod :=
  labels ← read_map h (po_Labels p);
  args ← read_slice h (po_Args p);
  exitCode ← read_int h (po_ExitCode p);
  scheduledAt ← read_time h (po_ScheduledAt p);
  startedAt ← read_time h (po_StartedAt p);
  finishedAt ← read_time h (po_FinishedAt p);
  let f := po_flat p in
  Some (mkPod (Pod_ID f) (Pod_DeploymentID f) (Pod_NodeID f) (Pod_Namespace f) labels (Pod_Attempt f)
    (Pod_Status f) (Pod_Image f) (Pod_ContainerID f) (Pod_Command f) args (Pod_Resources f) exitCode
    (Pod_Error f) (Pod_Output f) (Pod_CreatedAt f) scheduledAt startedAt finishedAt (Pod_RunAfter f)).

Definition Node_view (h : Heap) (n : NodeObj) : option Node :=
  labels ← read_map h (no_Labels n);
  let f := no_flat n in
  Some (mkNode (Node_ID f) (Node_Hostname f) (Node_Address f) labels (Node_Status f) (Node_Capacity f)
    (Node_Available f) (Node_RunningJobs f) (Node_MaxConcurrent f) (Node_LastHeartbeatAt f) (Node_RegisteredAt f)).

Definition Service_view (h : Heap) (s : ServiceObj) : option Service :=
  selector ← read_map h (so_Selector s);
  let f := so_flat s in
  Some (mkService (Service_ID f) (Service_Name f) (Service_Namespace f) (Service_PathPrefix f)
    (Service_Strategy f) selector (Service_RetryPolicy f) (Service_HealthCheck f) (Service_UpdatedAt f)).

Definition Job_view (h : Heap) (j : JobObj) : option Job :=
  args ← read_slice h (jo_Args j);
  startedAt ← read_time h (jo_StartedAt j);
  finishedAt ← read_time h (jo_FinishedAt j);
  let f := jo_flat j in
  Some (mkJob (Job_ID f) (Job_Name f) (Job_Type f) (Job_Command f) args (Job_State f) (Job_Priority f)
    (Job_MaxRetries f) (Job_RetryCount f) (Job_TimeoutSeconds f) (Job_RunAfter f) (Job_CreatedAt f)
    startedAt finishedAt (Job_Output f) (Job_ErrorMessage f)).

(** ** What a clone promises *)

(** The locations of reference fields that are not nil. *)
Definition locs (rs : list Ref) : list loc := omap id rs.
#[global] Arguments locs : simpl never.

(** [h] extended by cells that were not in use: nothing readable before changed. *)
Definition fresh_in (h h' : Heap) (ls : list loc) : Prop :=
  h ⊆ h' /\ Forall (fun l => h !! l = None /\ is_Some (h' !! l)) ls.

(** Cells other than structs. *)
Definition leaf (c : Cell) : bool :=
  match c with CMap _ | CSlice _ | CInt _ | CTime _ => true | _ => false end.
Definition at_leaf (h : Heap) (l : loc) : Prop := exists c, h !! l = Some c /\ leaf c = true.

Class Object (O V : Type) := {
  refs : O -> list loc;
  view : Heap -> O -> option V;
  Clone : O -> Heap -> option (O * Heap);
  (** the value depends on the cells of its references only *)
  view_frame : forall h h' o, (forall l, l ∈ refs o -> h' !! l = h !! l) -> view h' o = view h o;
  view_refs : forall h o v, view h o = Some v -> Forall (at_leaf h) (refs o);
  Clone_ok : forall h o v, view h o = Some v ->
    exists o' h', Clone o h = Some (o', h') /\ view h' o' = Some v /\ fresh_in h h' (refs o') }.

Lemma view_mono {O V} `{Object O V} h h' o v : h ⊆ h' -> view h o = Some v -> view h' o = Some v.
Proof.
  intros Hsub Hv. rewrite (view_frame h h' o); [done|]. intros l Hl.
  pose proof (view_refs _ _ _ Hv) as Hr. rewrite Forall_forall in Hr. destruct (Hr l Hl) as (c & Hc & _).
  rewrite Hc. by eapply lookup_weaken.
Qed.

(** One reference: how it is read and how it is copied. *)
Record Reading {A} (read : Heap -> Ref -> option A) (clone : Ref -> Heap -> option (Ref * Heap)) : Prop := {
  rd_frame : forall h h' r, (forall l, r = Some l -> h' !! l = h !! l) -> read h' r = read h r;
  rd_refs : forall h r a l, read h r = Some a -> r = Some l -> at_leaf h l;
  rd_clone : forall h r a, read h r = Some a ->
    exists r' h', clone r h = Some (r', h') /\ read h' r' = Some a /\ fresh_in h h' (locs [r']) }.

Lemma fresh_in_refl h : fresh_in h h [].
Proof. split; [done|constructor]. Qed.

Lemma fresh_in_alloc h c : fresh_in h (alloc c h).2 [(alloc c h).1].
Proof.
  unfold alloc. cbn [fst snd]. assert (Hf : h !! fresh (dom h) = None) by apply not_elem_of_dom, is_fresh.
  split; [by apply insert_subseteq|]. apply Forall_singleton. split; [done|]. by rewrite lookup_insert_eq.
Qed.

Lemma fresh_in_trans h1 h2 h3 ls1 ls2 :
  fresh_in h1 h2 ls1 -> fresh_in h2 h3 ls2 -> fresh_in h1 h3 (ls1 ++ ls2).
Proof.
  intros [S1 F1] [S2 F2]. split; [by etrans|]. apply Forall_app. split.
  - eapply Forall_impl; [exact F1|]. cbn. intros l [Hn [c Hc]]. split; [done|]. exists c. by eapply lookup_weaken.
  - eapply Forall_impl; [exact F2|]. cbn. intros l [Hn Hc]. split; [|done]. by eapply lookup_weaken_None.
Qed.

Lemma fresh_in_perm h h' ls ls' : ls' ⊆ ls -> fresh_in h h' ls -> fresh_in h h' ls'.
Proof. intros Hs [? HF]. split; [done|]. rewrite Forall_forall in HF |- *. auto. Qed.

(** The four kinds of references. *)
Ltac reading :=
  split;
  [ intros h h' [l|] Hl; cbn; [by rewrite (Hl l)|done]
  | intros h r a l Hr ->; cbn in Hr; unfold at_leaf; destruct (h !! l) as [[]|]; try done; by eexists
  | intros h [l|] a Hr; cbn in Hr |- *;
    [ destruct (h !! l) as [[]|] eqn:E; simplify_eq/=
    | simplify_eq; exists None, h; split_and!; [done|done|apply fresh_in_refl] ] ].

Ltac cloned c h :=
  exists (Some (alloc c h).1), (alloc c h).2; split_and!;
  [done|unfold alloc; cbn [fst snd read_map read_slice read_int read_time]; by rewrite lookup_insert_eq|apply (fresh_in_alloc h c)].

Lemma map_reading : Reading read_map clone_map.
Proof. reading. cloned (CMap a) h. Qed.
Lemma slice_reading : Reading read_slice clone_slice.
Proof.
  reading. destruct a as [|x xs].
  - exists None, h. split_and!; [done|done|apply fresh_in_refl].
  - cloned (CSlice (x :: xs)) h.
Qed.
Lemma int_reading : Reading read_int clone_int.
Proof. reading. cloned (CInt n) h. Qed.
Lemma time_reading : Reading read_time clone_time.
Proof. reading. cloned (CTime t) h. Qed.

Lemma rd_mono {A} read clone (R : @Reading A read clone) h h' r a :
  h ⊆ h' -> read h r = Some a -> read h' r = Some a.
Proof.
  intros Hs Hr. rewrite (rd_frame _ _ R h h' r); [done|]. intros l ->.
  destruct (rd_refs _ _ R _ _ _ _ Hr eq_refl) as (c & Hc & _). rewrite Hc. by eapply lookup_weaken.
Qed.

Lemma elem_of_locs l rs : l ∈ locs rs <-> Some l ∈ rs.
Proof. unfold locs. rewrite list_elem_of_omap. naive_solver. Qed.

(** Copying one reference after others: [h0] is the heap the values were read
    in, [h] the heap reached so far. *)
Lemma clone_next {A} read clone (R : @Reading A read clone) h0 h ls r a :
  fresh_in h0 h ls -> read h0 r = Some a ->
  exists r' h', clone r h = Some (r', h') /\ read h' r' = Some a /\ h ⊆ h' /\ fresh_in h0 h' (ls ++ locs [r']).
Proof.
  intros Hf Hr. destruct (rd_clone _ _ R h r a) as (r' & h' & Hc & Hr' & Hf').
  { eapply rd_mono; [exact R|apply Hf|done]. }
  exists r', h'. split_and!; [done|done|apply Hf'|]. by eapply fresh_in_trans.
Qed.

Lemma heap_sub_trans (h1 h2 h3 : Heap) : h1 ⊆ h2 -> h2 ⊆ h3 -> h1 ⊆ h3.
Proof. intros. by etrans. Qed.

(** Steps through the reads of a [view] that succeeds. *)
Ltac reads H :=
  repeat (apply bind_Some in H; let a := fresh "a" in let Ha := fresh "Ha" in destruct H as (a & Ha & H)).

(** The laws, for a struct whose references are read and cloned one by one. *)
Ltac frame_with R h h' Hl :=
  rewrite (rd_frame _ _ R h h') by (intros l Hr; apply Hl, elem_of_locs; rewrite <- Hr; set_solver).
Ltac framed h h' Hl := repeat first
  [frame_with map_reading h h' Hl|frame_with slice_reading h h' Hl
  |frame_with int_reading h h' Hl|frame_with time_reading h h' Hl].

Ltac refer_with R := match goal with
  | Ha : _ = Some _, Hr : Some _ = _ |- _ => exact (rd_refs _ _ R _ _ _ _ Ha (eq_sym Hr))
  end.
Ltac referred Hv :=
  reads Hv; apply Forall_forall; intros l; rewrite elem_of_locs, ?elem_of_cons, elem_of_nil;
  intros Hl; destruct_or!; try done;
  first [refer_with map_reading|refer_with slice_reading|refer_with int_reading|refer_with time_reading].

Ltac clone_with R := match goal with
  | F : fresh_in _ _ _, Ha : _ = Some _ |- _ =>
      let r := fresh "r" in let h := fresh "h" in let Hc := fresh "Hc" in let Hr := fresh "Hr" in
      let S := fresh "S" in let F' := fresh "F" in
      destruct (clone_next _ _ R _ _ _ _ _ F Ha) as (r & h & Hc & Hr & S & F');
      rewrite Hc; cbn [mbind option_bind]; clear F Hc
  end.
Ltac reread_with R := match goal with
  | Ha : ?rd ?h0 ?r = Some ?a |- context [?rd ?h ?r] =>
      first [rewrite Ha | rewrite (rd_mono _ _ R h0 h r a ltac:(eauto 7 using heap_sub_trans) Ha)];
      cbn [mbind option_bind]
  end.

#[global] Arguments read_map : simpl never.
#[global] Arguments read_slice : simpl never.
#[global] Arguments read_int : simpl never.
#[global] Arguments read_time : simpl never.
Ltac reread := repeat first
  [reread_with map_reading|reread_with slice_reading|reread_with int_reading|reread_with time_reading].
Ltac all_fresh := match goal with F : fresh_in _ _ _ |- _ =>
  eapply fresh_in_perm; [|exact F]; intros l; rewrite ?elem_of_app, !elem_of_locs; set_solver end.

#[global] Program Instance deployment_object : Object DeploymentObj Deployment := {|
  refs o := locs [do_Args o; do_Labels o];
  view := Deployment_view;
  Clone := Deployment_Clone |}.
Next Obligation. intros h h' o Hl. unfold Deployment_view. by framed h h' Hl. Qed.
Next Obligation. intros h o v Hv. unfold Deployment_view in Hv. referred Hv. Qed.
Next Obligation.
  intros h o v Hv. unfold Deployment_view in Hv. reads Hv. unfold Deployment_Clone.
  pose proof (fresh_in_refl h) as F. clone_with slice_reading. clone_with map_reading.
  eexists _, _. split_and!; [done| |all_fresh]. unfold Deployment_view. cbn. by reread.
Qed.

#[global] Program Instance pod_object : Object PodObj Pod := {|
  refs o := locs [po_Args o; po_Labels o; po_ExitCode o; po_ScheduledAt o; po_StartedAt o; po_FinishedAt o];
  view := Pod_view;
  Clone := Pod_Clone |}.
Next Obligation. intros h h' o Hl. unfold Pod_view. by framed h h' Hl. Qed.
Next Obligation. intros h o v Hv. unfold Pod_view in Hv. referred Hv. Qed.
Next Obligation.
  intros h o v Hv. unfold Pod_view in Hv. reads Hv. unfold Pod_Clone.
  pose proof (fresh_in_refl h) as F. clone_with slice_reading. clone_with map_reading. clone_with int_reading. clone_with time_reading. clone_with time_reading. clone_with time_reading.
  eexists _, _. split_and!; [done| |all_fresh]. unfold Pod_view. cbn. by reread.
Qed.

#[global] Program Instance node_object : Object NodeObj Node := {|
  refs o := locs [no_Labels o];
  view := Node_view;
  Clone := Node_Clone |}.
Next Obligation. intros h h' o Hl. unfold Node_view. by framed h h' Hl. Qed.
Next Obligation. intros h o v Hv. unfold Node_view in Hv. referred Hv. Qed.
Next Obligation.
  intros h o v Hv. unfold Node_view in Hv. reads Hv. unfold Node_Clone.
  pose proof (fresh_in_refl h) as F. clone_with map_reading.
  eexists _, _. split_and!; [done| |all_fresh]. unfold Node_view. cbn. by reread.
Qed.

#[global] Program Instance service_object : Object ServiceObj Service := {|
  refs o := locs [so_Selector o];
  view := Service_view;
  Clone := Service_Clone |}.
Next Obligation. intros h h' o Hl. unfold Service_view. by framed h h' Hl. Qed.
Next Obligation. intros h o v Hv. unfold Service_view in Hv. referred Hv. Qed.
Next Obligation.
  intros h o v Hv. unfold Service_view in Hv. reads Hv. unfold Service_Clone.
  pose proof (fresh_in_refl h) as F. clone_with map_reading.
  eexists _, _. split_and!; [done| |all_fresh]. unfold Service_view. cbn. by reread.
Qed.

#[global] Program Instance job_object : Object JobObj Job := {|
  refs o := locs [jo_Args o; jo_StartedAt o; jo_FinishedAt o];
  view := Job_view;
  Clone := Job_Clone |}.
Next Obligation. intros h h' o Hl. unfold Job_view. by framed h h' Hl. Qed.
Next Obligation. intros h o v Hv. unfold Job_view in Hv. referred Hv. Qed.
Next Obligation.
  intros h o v Hv. unfold Job_view in Hv. reads Hv. unfold Job_Clone.
  pose proof (fresh_in_refl h) as F. clone_with slice_reading. clone_with time_reading. clone_with time_reading.
  eexists _, _. split_and!; [done| |all_fresh]. unfold Job_view. cbn. by reread.
Qed.
