(* ===== verification/SharedStore.v ===== *)
(** * control-plane/internal/state/memory_store.go, with its references

    MemoryStore.v models the store on values.  Here the store keeps structs with
    references, its methods take and return pointers, and the clients of the
    store may write through every reference they hold at any time.  Each method
    clones what it takes and what it returns.  [store_isolated]: the store then
    behaves as the contract of [Store] says on values, whatever the clients do
    with their references. *)

From S2P Require Import Prelude Model Store GoHeap.
From Stdlib Require Import ZArith Lia.
From stdpp Require Import base gmap strings list fin_maps fin_map_dom.

(** ** The store *)

Record Shared := mkShared {
  sh_heap : Heap;
  sh_deployments : gmap string DeploymentObj;
  sh_pods : gmap string PodObj;
  sh_nodes : gmap string NodeObj;
  sh_services : gmap string ServiceObj }.

Definition with_heap (h : Heap) (s : Shared) : Shared :=
  mkShared h (sh_deployments s) (sh_pods s) (sh_nodes s) (sh_services s).

(** One of the four [sync.Map]s: the structs it holds, and the pointers to such
    structs its methods take. *)
Class Table (O V : Type) := {
  tb_object :: Object O V;
  tb_cell : O -> Cell;
  tb_struct : Cell -> option O;
  tb_key : O -> string;
  tb_get : Shared -> gmap string O;
  tb_set : gmap string O -> Shared -> Shared }.

#[global] Instance deployment_table : Table DeploymentObj Deployment := {|
  tb_cell := CDeployment;
  tb_struct c := match c with CDeployment o => Some o | _ => None end;
  tb_key o := Deployment_ID (do_flat o);
  tb_get := sh_deployments;
  tb_set m s := mkShared (sh_heap s) m (sh_pods s) (sh_nodes s) (sh_services s) |}.
#[global] Instance pod_table : Table PodObj Pod := {|
  tb_cell := CPod;
  tb_struct c := match c with CPod o => Some o | _ => None end;
  tb_key o := Pod_ID (po_flat o);
  tb_get := sh_pods;
  tb_set m s := mkShared (sh_heap s) (sh_deployments s) m (sh_nodes s) (sh_services s) |}.
#[global] Instance node_table : Table NodeObj Node := {|
  tb_cell := CNode;
  tb_struct c := match c with CNode o => Some o | _ => None end;
  tb_key o := Node_ID (no_flat o);
  tb_get := sh_nodes;
  tb_set m s := mkShared (sh_heap s) (sh_deployments s) (sh_pods s) m (sh_services s) |}.
#[global] Instance service_table : Table ServiceObj Service := {|
  tb_cell := CService;
  tb_struct c := match c with CService o => Some o | _ => None end;
  tb_key o := Service_ID (so_flat o);
  tb_get := sh_services;
  tb_set m s := mkShared (sh_heap s) (sh_deployments s) (sh_pods s) (sh_nodes s) m |}.

(** ** The shapes of the methods

    [None] is a dereference that Go's types exclude; [store_isolated] shows that
    it does not happen. *)
Section Methods.
Context {O V : Type} `{!Table O V}.

Definition deref (h : Heap) (p : loc) : option O := h !! p ≫= tb_struct.

Definition put (id : string) (o : O) (h : Heap) (s : Shared) : Shared :=
  tb_set (<[id := o]> (tb_get s)) (with_heap h s).

(** [if _, exists := m.Load(x.ID); exists { return ErrAlreadyExists };
    m.Store(x.ID, x.Clone())] *)
Definition create (p : loc) (s : Shared) : option (error * Shared) :=
  o ← deref (sh_heap s) p;
  match tb_get s !! tb_key o with
  | Some _ => Some (Some ErrAlreadyExists, s)
  | None => '(c, h) ← Clone o (sh_heap s); Some (None, put (tb_key o) c h s)
  end.

(** [v, ok := m.Load(id); if !ok { return ErrNotFound }; x := v.Clone(); return &x] *)
Definition get (id : string) (s : Shared) : option ((loc + Err) * Shared) :=
  match tb_get s !! id with
  | None => Some (inr ErrNotFound, s)
  | Some o =>
      '(c, h) ← Clone o (sh_heap s);
      let '(p, h) := alloc (tb_cell c) h in
      Some (inl p, with_heap h s)
  end.

(** The callback of [Range]: [if keep(x) { c := x.Clone(); out = append(out, &c) }] *)
Fixpoint range (keep : V -> bool) (os : list O) (h : Heap) : option (list loc * Heap) :=
  match os with
  | [] => Some ([], h)
  | o :: os =>
      v ← view h o;
      if keep v then
        '(c, h) ← Clone o h;
        let '(p, h) := alloc (tb_cell c) h in
        '(ps, h) ← range keep os h;
        Some (p :: ps, h)
      else range keep os h
  end.

Definition list_where `{MapRange} (keep : V -> bool) (n : nat) (s : Shared) : option ((list loc * error) * Shared) :=
  '(ps, h) ← range keep (map_range n (tb_get s)) (sh_heap s);
  Some ((ps, None), with_heap h s).

(** [touch] is the assignment through the caller's pointer, if there is one. *)
Definition upsert (touch : O -> O) (p : loc) (s : Shared) : option (error * Shared) :=
  o ← deref (sh_heap s) p;
  let o := touch o in
  '(c, h) ← Clone o (<[p := tb_cell o]> (sh_heap s));
  Some (None, put (tb_key o) c h s).

Definition update (touch : O -> O) (p : loc) (s : Shared) : option (error * Shared) :=
  o ← deref (sh_heap s) p;
  match tb_get s !! tb_key o with
  | None => Some (Some ErrNotFound, s)
  | Some _ => upsert touch p s
  end.

Definition delete_key (id : string) (s : Shared) : option (error * Shared) :=
  match tb_get s !! id with
  | None => Some (Some ErrNotFound, s)
  | Some _ => Some (None, tb_set (delete id (tb_get s)) s)
  end.

(** The struct read from the map is assigned to and stored back, without a
    clone: its references stay the store's own. *)
Definition transition (id : string) (legal : O -> bool) (assign : O -> Heap -> O * Heap) (s : Shared)
    : option (error * Shared) :=
  match tb_get s !! id with
  | None => Some (Some ErrNotFound, s)
  | Some o =>
      if negb (legal o) then Some (Some ErrInvalidTransition, s)
      else let '(o, h) := assign o (sh_heap s) in Some (None, put id o h s)
  end.
End Methods.

(** ** The methods *)

(** *** Deployments *)

Definition CreateDeployment (d : loc) := create (O := DeploymentObj) d.
Definition GetDeployment (id : string) := get (O := DeploymentObj) id.
Definition ListDeployments `{MapRange} := list_where (O := DeploymentObj) (fun _ => true).
Definition ListDeploymentsByNamespace `{MapRange} (namespace : string) :=
  list_where (O := DeploymentObj) (fun d => bool_decide (Deployment_Namespace d = namespace)).
(** [d.UpdatedAt = time.Now()] *)
Definition touch_deployment (now : Time) (d : DeploymentObj) : DeploymentObj :=
  mkDeploymentObj (deployment_touch now (do_flat d)) (do_Labels d) (do_Args d).
Definition UpdateDeployment (now : Time) (d : loc) := update (touch_deployment now) d.
(** [d.Status = to; d.UpdatedAt = time.Now()] *)
Definition assign_deployment (to : DeploymentStatus) (now : Time) (d : DeploymentObj) (h : Heap)
    : DeploymentObj * Heap :=
  (mkDeploymentObj (deployment_with_status to now (do_flat d)) (do_Labels d) (do_Args d), h).
Definition TransitionDeployment (now : Time) (id : string) (to : DeploymentStatus) :=
  transition id (fun d => Model.TransitionDeployment (Deployment_Status (do_flat d)) to) (assign_deployment to now).
Definition DeleteDeployment (id : string) := delete_key (O := DeploymentObj) id.

(** *** Pods *)

Definition CreatePod (p : loc) := create (O := PodObj) p.
Definition GetPod (id : string) := get (O := PodObj) id.
Definition ListPodsByDeployment `{MapRange} (deploymentID : string) :=
  list_where (O := PodObj) (fun p => bool_decide (Pod_DeploymentID p = deploymentID)).
Definition ListPodsByStatus `{MapRange} (status : PodStatus) :=
  list_where (O := PodObj) (fun p => bool_decide (Pod_Status p = status)).
Definition ListPodsByNode `{MapRange} (nodeID : string) :=
  list_where (O := PodObj) (fun p => bool_decide (Pod_NodeID p = nodeID)).
Definition ListPodsByLabels `{MapRange} (namespace : string) (selector : gmap string string) :=
  list_where (O := PodObj) (fun p =>
    (String.eqb namespace EmptyString || bool_decide (Pod_Namespace p = namespace))
    && matchesSelector (Pod_Labels p) selector).
Definition UpdatePod (p : loc) := update (O := PodObj) (fun p => p) p.

(** [if r == nil { r = &now }] *)
Definition set_ref (now r : Ref) : Ref := match r with None => now | Some _ => r end.

Definition assign_pod (to : PodStatus) (errMsg : string) (now : Time) (p : PodObj) (h : Heap) : PodObj * Heap :=
  let '(l, h) := alloc (CTime now) h in
  let f := po_flat p in
  (mkPodObj
     (pod_set (Pod_NodeID f) (Pod_Attempt f) to (Pod_ExitCode f)
        (if String.eqb errMsg EmptyString then Pod_Error f else errMsg) (Pod_Output f)
        (Pod_ScheduledAt f) (Pod_StartedAt f) (Pod_FinishedAt f) (Pod_RunAfter f) f)
     (po_Labels p) (po_Args p) (po_ExitCode p)
     (match to with PodScheduled => set_ref (Some l) (po_ScheduledAt p) | _ => po_ScheduledAt p end)
     (match to with PodRunning => set_ref (Some l) (po_StartedAt p) | _ => po_StartedAt p end)
     (if isTerminalPodStatus to then set_ref (Some l) (po_FinishedAt p) else po_FinishedAt p), h).
Definition TransitionPod (now : Time) (id : string) (to : PodStatus) (errMsg : string) :=
  transition id (fun p => Model.TransitionPod (Pod_Status (po_flat p)) to) (assign_pod to errMsg now).

(** *** Nodes *)

Definition RegisterNode (n : loc) := create (O := NodeObj) n.
Definition GetNode (id : string) := get (O := NodeObj) id.
Definition ListNodes `{MapRange} := list_where (O := NodeObj) (fun _ => true).
Definition ListNodesByLabels `{MapRange} (selector : gmap string string) :=
  list_where (O := NodeObj) (fun n => matchesSelector (Node_Labels n) selector).
Definition UpdateNode (n : loc) := update (O := NodeObj) (fun n => n) n.
Definition assign_node (to : NodeStatus) (n : NodeObj) (h : Heap) : NodeObj * Heap :=
  (mkNodeObj (node_with_status to (no_flat n)) (no_Labels n), h).
Definition TransitionNode (id : string) (to : NodeStatus) :=
  transition id (fun n => Model.TransitionNode (Node_Status (no_flat n)) to) (assign_node to).

(** *** Services *)

(** [svc.UpdatedAt = time.Now()] *)
Definition touch_service (now : Time) (s : ServiceObj) : ServiceObj :=
  mkServiceObj (service_touch now (so_flat s)) (so_Selector s).
Definition UpsertService (now : Time) (svc : loc) := upsert (touch_service now) svc.
Definition GetService (id : string) := get (O := ServiceObj) id.
Definition ListServices `{MapRange} := list_where (O := ServiceObj) (fun _ => true).
Definition DeleteService (id : string) := delete_key (O := ServiceObj) id.

(** ** Calls *)

Inductive Call :=
| CCreateDeployment (d : loc) | CGetDeployment (id : string) | CListDeployments
| CListDeploymentsByNamespace (ns : string) | CUpdateDeployment (d : loc)
| CTransitionDeployment (id : string) (to : DeploymentStatus) | CDeleteDeployment (id : string)
| CCreatePod (p : loc) | CGetPod (id : string) | CListPodsByDeployment (deploymentID : string)
| CListPodsByStatus (st : PodStatus) | CListPodsByNode (nodeID : string)
| CListPodsByLabels (ns : string) (selector : gmap string string) | CUpdatePod (p : loc)
| CTransitionPod (id : string) (to : PodStatus) (errMsg : string)
| CRegisterNode (n : loc) | CGetNode (id : string) | CListNodes
| CListNodesByLabels (selector : gmap string string) | CUpdateNode (n : loc)
| CTransitionNode (id : string) (to : NodeStatus)
| CUpsertService (s : loc) | CGetService (id : string) | CListServices | CDeleteService (id : string).

(** What a method returns. *)
Inductive Result := RError (e : error) | RPointer (r : loc + Err) | RSlice (r : list loc * error).

Definition returns {A} (f : A -> Result) (r : option (A * Shared)) : option (Result * Shared) :=
  '(a, s) ← r; Some (f a, s).

Definition shared_do `{MapRange} (a : Call) (now : Time) (n : nat) (s : Shared) : option (Result * Shared) :=
  match a with
  | CCreateDeployment d => returns RError (CreateDeployment d s)
  | CGetDeployment id => returns RPointer (GetDeployment id s)
  | CListDeployments => returns RSlice (ListDeployments n s)
  | CListDeploymentsByNamespace ns => returns RSlice (ListDeploymentsByNamespace ns n s)
  | CUpdateDeployment d => returns RError (UpdateDeployment now d s)
  | CTransitionDeployment id to => returns RError (TransitionDeployment now id to s)
  | CDeleteDeployment id => returns RError (DeleteDeployment id s)
  | CCreatePod p => returns RError (CreatePod p s)
  | CGetPod id => returns RPointer (GetPod id s)
  | CListPodsByDeployment id => returns RSlice (ListPodsByDeployment id n s)
  | CListPodsByStatus st => returns RSlice (ListPodsByStatus st n s)
  | CListPodsByNode id => returns RSlice (ListPodsByNode id n s)
  | CListPodsByLabels ns sel => returns RSlice (ListPodsByLabels ns sel n s)
  | CUpdatePod p => returns RError (UpdatePod p s)
  | CTransitionPod id to errMsg => returns RError (TransitionPod now id to errMsg s)
  | CRegisterNode p => returns RError (RegisterNode p s)
  | CGetNode id => returns RPointer (GetNode id s)
  | CListNodes => returns RSlice (ListNodes n s)
  | CListNodesByLabels sel => returns RSlice (ListNodesByLabels sel n s)
  | CUpdateNode p => returns RError (UpdateNode p s)
  | CTransitionNode id to => returns RError (TransitionNode id to s)
  | CUpsertService p => returns RError (UpsertService now p s)
  | CGetService id => returns RPointer (GetService id s)
  | CListServices => returns RSlice (ListServices n s)
  | CDeleteService id => returns RError (DeleteService id s)
  end.
