(* ===== verification/SharedStoreProperties.v ===== *)
(** * The store does not share references with its clients

    [views]: the cluster of values the store's structs stand for.  [isolated]: no
    reference a client holds leads into the store.  Every method keeps both and
    meets the contract on the values; a client's writes change neither. *)

From S2P Require Import Prelude Model Store GoHeap SharedStore.
From Stdlib Require Import ZArith Lia.
From stdpp Require Import base gmap strings list fin_maps fin_map_dom.

(** ** Values and ownership *)

(** The references of a struct a pointer leads to. *)
Definition cell_refs (c : Cell) : list loc :=
  match c with
  | CDeployment o => refs o
  | CPod o => refs o
  | CNode o => refs o
  | CService o => refs o
  | _ => []
  end.

Definition table_views {O V} `{!Object O V} (h : Heap) (m : gmap string O) (mv : gmap string V) : Prop :=
  map_Forall2 (fun _ o v => view h o = Some v) m mv.

Record views (s : Shared) (c : Cluster) : Prop := {
  vw_deployments : table_views (sh_heap s) (sh_deployments s) (deployments c);
  vw_pods : table_views (sh_heap s) (sh_pods s) (pods c);
  vw_nodes : table_views (sh_heap s) (sh_nodes s) (nodes c);
  vw_services : table_views (sh_heap s) (sh_services s) (services c) }.

Definition table_refs {O V} `{!Object O V} (m : gmap string O) (l : loc) : Prop :=
  exists id o, m !! id = Some o /\ l ∈ refs o.

(** A reference of a stored struct. *)
Definition stored (s : Shared) (l : loc) : Prop :=
  table_refs (sh_deployments s) l \/ table_refs (sh_pods s) l \/
  table_refs (sh_nodes s) l \/ table_refs (sh_services s) l.

(** [K]: the locations the clients can reach. *)
Record isolated (K : gset loc) (s : Shared) : Prop := {
  iso_known : forall l, l ∈ K -> is_Some (sh_heap s !! l);
  iso_closed : forall l c l', l ∈ K -> sh_heap s !! l = Some c -> l' ∈ cell_refs c -> l' ∈ K;
  iso_apart : forall l, stored s l -> l ∉ K }.

(** What the clients may do to the heap: nothing outside [K]. *)
Record evolves (K : gset loc) (h h' : Heap) : Prop := {
  ev_kept : forall l c, h !! l = Some c -> l ∉ K -> h' !! l = Some c;
  ev_dom : forall l, is_Some (h !! l) -> is_Some (h' !! l);
  ev_closed : forall l c l', l ∈ K -> h' !! l = Some c -> l' ∈ cell_refs c -> l' ∈ K }.

(** ** The four tables alike *)

Class TableLaws (O V : Type) `{!Table O V} := {
  tb_vkey : V -> string;
  tb_vals : Cluster -> gmap string V;
  tb_with : gmap string V -> Cluster -> Cluster;
  tb_struct_cell : forall c (o : O), tb_struct c = Some o <-> c = tb_cell o;
  tb_cell_refs : forall o : O, cell_refs (tb_cell o) = refs o;
  tb_key_view : forall h (o : O) (v : V), view h o = Some v -> tb_key o = tb_vkey v;
  tb_views : forall s c, views s c -> table_views (sh_heap s) (tb_get (O := O) s) (tb_vals c);
  tb_stored : forall s l, table_refs (tb_get (O := O) s) l -> stored s l;
  tb_vals_id : forall c, tb_with (tb_vals c) c = c;
  tb_commit : forall s c h (m : gmap string O) mv, views s c ->
    (forall l, stored s l -> h !! l = sh_heap s !! l) ->
    table_views h m mv -> views (tb_set m (with_heap h s)) (tb_with mv c);
  tb_stored_set : forall s h (m : gmap string O) l,
    stored (tb_set m (with_heap h s)) l -> table_refs m l \/ stored s l;
  tb_cell_struct : forall o : O, leaf (tb_cell o) = false;
  tb_get_heap : forall h s, tb_get (O := O) (with_heap h s) = tb_get s;
  tb_heap_set : forall (m : gmap string O) s, sh_heap (tb_set m s) = sh_heap s }.

Lemma table_views_frame {O V} `{!Object O V} h h' (m : gmap string O) (mv : gmap string V) :
  (forall l, table_refs m l -> h' !! l = h !! l) -> table_views h m mv -> table_views h' m mv.
Proof.
  intros Hl Hv id. specialize (Hv id). destruct (m !! id) as [o|] eqn:E; inversion Hv as [? v Hov|]; constructor.
  rewrite (view_frame h h'); [done|]. intros l Hin. apply Hl. by exists id, o.
Qed.

(** The laws of one table, each by computation. *)
Ltac table_law :=
  first
  [ done
  | by intros []
  | intros [] ?; cbn; naive_solver
  | intros s c [? ? ? ?]; done
  | intros s l Hl; unfold stored; by auto
  | intros h o v Hv; cbn in Hv; repeat (apply bind_Some in Hv as (? & ? & Hv)); by injection Hv as <-
  | intros s h m l; unfold stored; cbn; tauto
  | intros s c h m mv [? ? ? ?] Hl Hm; split; cbn; try exact Hm;
    (eapply table_views_frame; [|eassumption]; intros l Ht; apply Hl; unfold stored; by auto) ].

#[global] Program Instance deployment_laws : TableLaws DeploymentObj Deployment := {|
  tb_vkey := Deployment_ID; tb_vals := deployments; tb_with := with_deployments |}.
Solve All Obligations with table_law.
#[global] Program Instance pod_laws : TableLaws PodObj Pod := {|
  tb_vkey := Pod_ID; tb_vals := pods; tb_with := with_pods |}.
Solve All Obligations with table_law.
#[global] Program Instance node_laws : TableLaws NodeObj Node := {|
  tb_vkey := Node_ID; tb_vals := nodes; tb_with := with_nodes |}.
Solve All Obligations with table_law.
#[global] Program Instance service_laws : TableLaws ServiceObj Service := {|
  tb_vkey := Service_ID; tb_vals := services; tb_with := with_services |}.
Solve All Obligations with table_law.

(** ** Steps of the heap *)

Lemma table_refs_known {O V} `{!Object O V} h (m : gmap string O) (mv : gmap string V) l :
  table_views h m mv -> table_refs m l -> is_Some (h !! l).
Proof.
  intros Hv (id & o & Ho & Hin). specialize (Hv id). rewrite Ho in Hv. inversion Hv as [? v Hov|]; subst.
  pose proof (view_refs _ _ _ Hov) as Hr. rewrite Forall_forall in Hr.
  destruct (Hr l Hin) as (x & Hx & _). by exists x.
Qed.

Lemma stored_known s c l : views s c -> stored s l -> is_Some (sh_heap s !! l).
Proof.
  intros [Hd Hp Hn Hs] [Hl|[Hl|[Hl|Hl]]];
    [exact (table_refs_known _ _ _ _ Hd Hl)|exact (table_refs_known _ _ _ _ Hp Hl)
    |exact (table_refs_known _ _ _ _ Hn Hl)|exact (table_refs_known _ _ _ _ Hs Hl)].
Qed.

Lemma evolves_kept K s c h l : isolated K s -> views s c -> evolves K (sh_heap s) h -> stored s l -> h !! l = sh_heap s !! l.
Proof.
  intros Hi Hv He Hl. destruct (stored_known _ _ _ Hv Hl) as [x Hx]. rewrite Hx.
  apply (ev_kept _ _ _ He); [done|]. by apply (iso_apart _ _ Hi).
Qed.

Lemma fresh_evolves K s h ls : isolated K s -> fresh_in (sh_heap s) h ls -> evolves K (sh_heap s) h.
Proof.
  intros Hi [Hs _]. split.
  - intros l c Hl _. by eapply lookup_weaken.
  - intros l [c Hc]. exists c. by eapply lookup_weaken.
  - intros l c l' Hl Hc. destruct (iso_known _ _ Hi l Hl) as [c' Hc'].
    assert (c' = c) as -> by (eapply lookup_weaken in Hc'; [|exact Hs]; congruence).
    by apply (iso_closed _ _ Hi _ _ _ Hl).
Qed.

(** The heap alone changes. *)
Lemma heap_step K s c h :
  isolated K s -> views s c -> evolves K (sh_heap s) h -> views (with_heap h s) c /\ isolated K (with_heap h s).
Proof.
  intros Hi Hv He. pose proof (evolves_kept K s c h) as Hk. split.
  - destruct Hv as [Hd Hp Hn Hs] eqn:E. split; cbn;
      (eapply table_views_frame; [|eassumption]; intros l Hl; apply Hk; [done|done|done|]; unfold stored; auto).
  - split; cbn.
    + intros l Hl. by apply (ev_dom _ _ _ He), (iso_known _ _ Hi).
    + apply (ev_closed _ _ _ He).
    + intros l Hl. by apply (iso_apart _ _ Hi).
Qed.

(** The locations a result hands to the caller. *)
Definition handed (h : Heap) (ps : list loc) : list loc :=
  ps ≫= fun p => p :: match h !! p with Some c => cell_refs c | None => [] end.

(** Cells that the store does not use can be given away, with all they refer to. *)
Lemma hand_over K s ls :
  isolated K s ->
  (forall l, l ∈ ls -> is_Some (sh_heap s !! l) /\ ~ stored s l /\
     forall c l', sh_heap s !! l = Some c -> l' ∈ cell_refs c -> l' ∈ ls) ->
  isolated (K ∪ list_to_set ls) s.
Proof.
  intros Hi Hls. split.
  - intros l [Hl|Hl]%elem_of_union; [by apply (iso_known _ _ Hi)|]. apply elem_of_list_to_set in Hl. by apply Hls.
  - intros l c l' [Hl|Hl]%elem_of_union Hc Hr; apply elem_of_union.
    + left. by eapply (iso_closed _ _ Hi).
    + right. rewrite elem_of_list_to_set in Hl |- *. by eapply Hls.
  - intros l Hs [Hl|Hl]%elem_of_union; [by apply (iso_apart _ _ Hi l)|]. apply elem_of_list_to_set in Hl.
    by destruct (Hls l Hl) as (_ & ? & _).
Qed.

Section OneTable.
Context {O V : Type} `{!Table O V, !TableLaws O V}.
Context (K : gset loc) (s : Shared) (c : Cluster).
Hypothesis Hi : isolated K s.
Hypothesis Hv : views s c.

Definition denotes (h : Heap) (p : loc) (v : V) : Prop :=
  exists o, deref (O := O) h p = Some o /\ view h o = Some v.

Lemma commit h (m : gmap string O) mv :
  evolves K (sh_heap s) h -> table_views h m mv ->
  (forall l, table_refs m l -> stored s l \/ l ∉ K) ->
  views (tb_set m (with_heap h s)) (tb_with mv c) /\ isolated K (tb_set m (with_heap h s)).
Proof using All.
  intros He Hm Hr. split.
  - apply tb_commit; [done| |done]. intros l Hl. by eapply evolves_kept.
  - split.
    + rewrite tb_heap_set. cbn. intros l Hl. by apply (ev_dom _ _ _ He), (iso_known _ _ Hi).
    + rewrite tb_heap_set. cbn. apply (ev_closed _ _ _ He).
    + intros l Hl. apply tb_stored_set in Hl as [Hl|Hl]; [destruct (Hr l Hl) as [?|?]; [|done]|];
        by apply (iso_apart _ _ Hi).
Qed.

Lemma table_lookup id :
  match tb_get (O := O) s !! id, tb_vals (O := O) c !! id with
  | Some o, Some v => view (sh_heap s) o = Some v
  | None, None => True
  | _, _ => False
  end.
Proof using All.
  pose proof (tb_views _ _ Hv id) as Hid. destruct (tb_get s !! id); inversion Hid; done.
Qed.

(** Storing an object whose references are the store's own or fresh. *)
Lemma commit_insert h id (o : O) (v : V) :
  evolves K (sh_heap s) h -> view h o = Some v -> (forall l, l ∈ refs o -> stored s l \/ l ∉ K) ->
  views (put id o h s) (tb_with (<[id := v]> (tb_vals c)) c) /\ isolated K (put id o h s).
Proof using All.
  intros He Ho Hr. unfold put. apply commit; [done| |].
  - apply map_Forall2_insert_2; [done|]. eapply table_views_frame; [|exact (tb_views (O := O) _ _ Hv)].
    intros l Hl. eapply evolves_kept; [done|done|done|]. exact (tb_stored (O := O) _ _ Hl).
  - intros l (id' & o' & Ho' & Hl). apply lookup_insert_Some in Ho' as [[_ <-]|[_ Ho']]; [by apply Hr|].
    left. apply (tb_stored (O := O)). by exists id', o'.
Qed.

Lemma fresh_unknown h l ls : fresh_in (sh_heap s) h ls -> l ∈ ls -> (l ∉ K) /\ ~ stored s l.
Proof using All.
  intros [_ Hf] Hl. rewrite Forall_forall in Hf. destruct (Hf l Hl) as [Hn _]. split.
  - intros Hk. destruct (iso_known _ _ Hi l Hk) as [x Hx]. congruence.
  - intros Hs. destruct (stored_known _ _ _ Hv Hs) as [x Hx]. congruence.
Qed.

(** *** Methods *)

Lemma create_ok p v :
  p ∈ K -> denotes (sh_heap s) p v ->
  exists e s' mv, create (O := O) p s = Some (e, s') /\ create_post (tb_vkey v) v (tb_vals c) e mv /\
    views s' (tb_with mv c) /\ isolated K s'.
Proof using All.
  intros Hp (o & Ho & Hov). unfold create. rewrite Ho. cbn. rewrite (tb_key_view _ _ _ Hov).
  pose proof (table_lookup (tb_vkey v)) as Hid. unfold create_post.
  destruct (tb_get s !! tb_vkey v) as [x|], (tb_vals c !! tb_vkey v) as [y|]; try done.
  { exists (Some ErrAlreadyExists), s, (tb_vals c). rewrite tb_vals_id. done. }
  destruct (Clone_ok _ _ _ Hov) as (o' & h' & -> & Hv' & Hf). cbn.
  eexists _, _, _. split; [done|]. split; [done|]. apply commit_insert; [by eapply fresh_evolves|done|].
  intros l Hl. right. by eapply fresh_unknown.
Qed.

Lemma delete_ok id :
  exists e s' mv, delete_key (O := O) id s = Some (e, s') /\ delete_post id (tb_vals c) e mv /\
    views s' (tb_with mv c) /\ isolated K s'.
Proof using All.
  pose proof (table_lookup id) as Hid. unfold delete_key, delete_post.
  destruct (tb_get s !! id) as [x|], (tb_vals c !! id) as [y|]; try done.
  - eexists _, _, _. split; [done|]. split; [done|].
    replace (tb_set (delete id (tb_get s)) s) with (tb_set (delete id (tb_get (O := O) s)) (with_heap (sh_heap s) s))
      by by destruct s.
    apply commit.
    + split; [done|done|]. apply (iso_closed _ _ Hi).
    + apply map_Forall2_delete. exact (tb_views _ _ Hv).
    + intros l (id' & o & Ho & Hl). left. apply (tb_stored (O := O)). exists id', o.
      by apply lookup_delete_Some in Ho as [_ ?].
  - exists (Some ErrNotFound), s, (tb_vals c). by rewrite tb_vals_id.
Qed.
End OneTable.

Section Writes.
Context {O V : Type} `{!Table O V, !TableLaws O V}.
Context (K : gset loc) (s : Shared) (c : Cluster).
Hypothesis Hi : isolated K s.
Hypothesis Hv : views s c.

(** An assignment through the caller's pointer. *)
Lemma assign_through p (o o' : O) :
  p ∈ K -> deref (sh_heap s) p = Some o -> refs o' = refs o -> evolves K (sh_heap s) (<[p := tb_cell o']> (sh_heap s)).
Proof using All.
  intros Hp Ho Hr. unfold deref in Ho. apply bind_Some in Ho as (x & Hx & Ho). apply tb_struct_cell in Ho as ->. split.
  - intros l y Hl Hn. rewrite lookup_insert_ne; [done|]. by intros ->.
  - intros l Hl. destruct (decide (p = l)) as [<-|Hne]; [by rewrite lookup_insert_eq|by rewrite lookup_insert_ne].
  - intros l y l' Hl Hy Hin. apply lookup_insert_Some in Hy as [[<- <-]|[_ Hy]].
    + rewrite tb_cell_refs, Hr in Hin. eapply (iso_closed _ _ Hi _ _ _ Hp Hx). by rewrite tb_cell_refs.
    + by eapply (iso_closed _ _ Hi _ _ _ Hl).
Qed.

Lemma view_assigned p (o o' : O) v :
  deref (sh_heap s) p = Some o -> view (sh_heap s) o' = Some v ->
  view (<[p := tb_cell o']> (sh_heap s)) o' = Some v.
Proof using All.
  intros Ho Hv'. rewrite (view_frame (sh_heap s)); [done|]. intros l Hl. rewrite lookup_insert_ne; [done|]. intros <-.
  pose proof (view_refs _ _ _ Hv') as Hr. rewrite Forall_forall in Hr. destruct (Hr p Hl) as (x & Hx & Hlf).
  unfold deref in Ho. rewrite Hx in Ho. cbn in Ho. apply tb_struct_cell in Ho as ->. by rewrite tb_cell_struct in Hlf.
Qed.

Lemma upsert_ok (touch : O -> O) (f : V -> V) p v :
  (forall o, refs (touch o) = refs o) ->
  (forall h o v, view h o = Some v -> view h (touch o) = Some (f v)) ->
  p ∈ K -> denotes (sh_heap s) p v ->
  exists s', upsert touch p s = Some (None, s') /\
    views s' (tb_with (<[tb_vkey (f v) := f v]> (tb_vals c)) c) /\ isolated K s'.
Proof using All.
  intros Hr Hf Hp (o & Ho & Hov). unfold upsert. rewrite Ho. cbn.
  pose proof (view_assigned p o (touch o) (f v) Ho (Hf _ _ _ Hov)) as Hov'.
  pose proof (assign_through p o (touch o) Hp Ho (Hr o)) as He.
  destruct (heap_step _ _ _ _ Hi Hv He) as [Hv1 Hi1].
  destruct (Clone_ok _ _ _ Hov') as (o' & h' & -> & Hv' & Hfr). cbn. eexists. split; [done|].
  rewrite (tb_key_view _ _ _ Hov').
  replace (put (tb_vkey (f v)) o' h' s) with (put (tb_vkey (f v)) o' h' (with_heap (<[p := tb_cell (touch o)]> (sh_heap s)) s)).
  - apply commit_insert; [done|done|by eapply fresh_evolves|done|]. intros l Hl. right.
    by eapply (fresh_unknown _ _ _ Hi1 Hv1).
  - unfold put. by rewrite tb_get_heap.
Qed.

Lemma update_ok (touch : O -> O) (f : V -> V) p v :
  (forall o, refs (touch o) = refs o) ->
  (forall h o v, view h o = Some v -> view h (touch o) = Some (f v)) -> (forall v, tb_vkey (f v) = tb_vkey v) ->
  p ∈ K -> denotes (sh_heap s) p v ->
  exists e s' mv, update touch p s = Some (e, s') /\ update_post (tb_vkey v) (f v) (tb_vals c) e mv /\
    views s' (tb_with mv c) /\ isolated K s'.
Proof using All.
  intros Hr Hf Hk Hp Hd. destruct (upsert_ok touch f p v Hr Hf Hp Hd) as (s' & Hu & Hv' & Hi').
  destruct Hd as (o & Ho & Hov). unfold update, update_post. rewrite Ho. cbn. rewrite (tb_key_view _ _ _ Hov).
  pose proof (table_lookup K s c Hi Hv (tb_vkey v)) as Hid.
  destruct (tb_get s !! tb_vkey v) as [x|], (tb_vals c !! tb_vkey v) as [y|]; try done.
  - rewrite Hu. eexists _, _, _. split; [done|]. split; [done|]. by rewrite <- (Hk v).
  - exists (Some ErrNotFound), s, (tb_vals c). by rewrite tb_vals_id.
Qed.

(** [assign] may allocate; the references of its result are the old ones or new. *)
Lemma transition_ok id (legal : O -> bool) (vlegal : V -> bool) (assign : O -> Heap -> O * Heap) (f : V -> V) :
  (forall h o v, view h o = Some v -> legal o = vlegal v) ->
  (forall h o v, view h o = Some v -> exists ls, view (assign o h).2 (assign o h).1 = Some (f v) /\
     fresh_in h (assign o h).2 ls /\ refs (assign o h).1 ⊆ refs o ++ ls) ->
  exists e s' mv, transition id legal assign s = Some (e, s') /\ transition_post id vlegal f (tb_vals c) e mv /\
    views s' (tb_with mv c) /\ isolated K s'.
Proof using All.
  intros Hl Ha. pose proof (table_lookup K s c Hi Hv id) as Hid. unfold transition, transition_post.
  destruct (tb_get s !! id) as [o|] eqn:Eo, (tb_vals c !! id) as [v|]; try done.
  2:{ exists (Some ErrNotFound), s, (tb_vals c). by rewrite tb_vals_id. }
  rewrite (Hl _ _ _ Hid). destruct (vlegal v); cbn [negb].
  2:{ exists (Some ErrInvalidTransition), s, (tb_vals c). by rewrite tb_vals_id. }
  destruct (Ha _ _ _ Hid) as (ls & Hv' & Hf & Hr). destruct (assign o (sh_heap s)) as [o' h']. cbn in *.
  eexists _, _, _. split; [done|]. split; [done|]. apply commit_insert; [done|done|by eapply fresh_evolves|done|].
  intros l Hin. apply Hr, elem_of_app in Hin as [Hin|Hin].
  - left. apply (tb_stored (O := O)). by exists id, o.
  - right. by eapply (fresh_unknown _ _ _ Hi Hv).
Qed.
End Writes.

(** The values of a table in the order of its structs. *)
Lemma table_values {O V} `{!Object O V} h (m : gmap string O) (mv : gmap string V) :
  table_views h m mv ->
  exists vs, Forall2 (fun o v => view h o = Some v) (map_to_list m).*2 vs /\ vs ≡ₚ (map_to_list mv).*2.
Proof.
  revert mv. induction m as [|id o m Hid IH] using map_ind; intros mv Hm.
  { apply map_Forall2_empty_inv_l in Hm as ->. exists []. by rewrite !map_to_list_empty. }
  apply map_Forall2_insert_inv_l in Hm as (v & mv' & -> & Hid' & Ho & Hm'); [|done].
  destruct (IH mv' Hm') as (vs & HF & Hp).
  destruct (Permutation_Forall2 (l1 := o :: (map_to_list m).*2) (l1' := (map_to_list (<[id:=o]> m)).*2)
    (l2 := v :: vs) (P := fun o v => view h o = Some v)) as (vs' & Hp' & HF').
  - by rewrite map_to_list_insert.
  - by constructor.
  - exists vs'. split; [done|]. rewrite <- Hp', map_to_list_insert by done. cbn. by rewrite Hp.
Qed.

Section Reads.
Context {O V : Type} `{!Table O V, !TableLaws O V}.

Lemma denotes_mono h h' p (v : V) : h ⊆ h' -> denotes (O := O) h p v -> denotes (O := O) h' p v.
Proof using Type.
  intros Hs (o & Ho & Hv). exists o. split; [|by eapply view_mono]. unfold deref in *.
  apply bind_Some in Ho as (x & Hx & Ho). by rewrite (lookup_weaken _ _ _ _ Hx Hs).
Qed.

(** A clone on the heap, with a pointer to it. *)
Lemma clone_alloc h (o : O) v :
  view h o = Some v ->
  exists c h1, Clone o h = Some (c, h1) /\
    let '(p, h2) := alloc (tb_cell c) h1 in
    denotes (O := O) h2 p v /\ fresh_in h h2 (p :: refs c) /\ h2 !! p = Some (tb_cell c).
Proof using TableLaws0.
  intros Ho. destruct (Clone_ok _ _ _ Ho) as (c & h1 & Hc & Hv & Hf). exists c, h1. split; [done|].
  pose proof (fresh_in_alloc h1 (tb_cell c)) as Ha. destruct (alloc (tb_cell c) h1) as [p h2] eqn:E. cbn in Ha.
  assert (Hp : h2 !! p = Some (tb_cell c)).
  { unfold alloc in E. injection E as <- <-. apply lookup_insert_eq. }
  split_and!; [|eapply fresh_in_perm; [|by eapply fresh_in_trans]; set_solver|done].
  exists c. split; [|eapply view_mono; [apply Ha|done]]. unfold deref. rewrite Hp. cbn. by apply tb_struct_cell.
Qed.

Lemma range_ok keep (os : list O) (vs : list V) h :
  Forall2 (fun o v => view h o = Some v) os vs ->
  exists ps h', range keep os h = Some (ps, h') /\
    Forall2 (denotes (O := O) h') ps (filter (fun v => keep v = true) vs) /\ fresh_in h h' (handed h' ps).
Proof using TableLaws0.
  revert vs h. induction os as [|o os IH]; intros vs h HF.
  { inversion HF; subst. exists [], h. split_and!; [done|constructor|apply fresh_in_refl]. }
  inversion HF as [|? v ? vs' Ho Hos]; subst. cbn [range]. rewrite Ho. cbn [mbind option_bind].
  rewrite filter_cons. destruct (keep v) eqn:Ek.
  2:{ destruct (IH vs' h Hos) as (ps & h' & -> & HF' & Hf). exists ps, h'. by rewrite decide_False by done. }
  rewrite decide_True by done. destruct (clone_alloc h o v Ho) as (c & h1 & -> & Hp). cbn [mbind option_bind].
  destruct (alloc (tb_cell c) h1) as [p h2]. destruct Hp as (Hd & Hf & Hp).
  destruct (IH vs' h2) as (ps & h' & -> & HF' & Hf').
  { eapply Forall2_impl; [exact Hos|]. cbn. intros x y Hxy. eapply view_mono; [apply Hf|done]. }
  exists (p :: ps), h'. split_and!; [done| |].
  - constructor; [|done]. eapply denotes_mono; [apply Hf'|done].
  - unfold handed. cbn [mbind list_bind]. rewrite (lookup_weaken _ _ _ _ Hp (proj1 Hf')), tb_cell_refs.
    by eapply fresh_in_trans.
Qed.

Context (K : gset loc) (s : Shared) (c : Cluster).
Hypothesis Hi : isolated K s.
Hypothesis Hv : views s c.

(** Pointers to clones are given to the caller. *)
Lemma given_ok h ps (vs : list V) :
  fresh_in (sh_heap s) h (handed h ps) -> Forall2 (denotes (O := O) h) ps vs ->
  views (with_heap h s) c /\ isolated (K ∪ list_to_set (handed h ps)) (with_heap h s).
Proof using All.
  intros Hf HF. destruct (heap_step K s c h Hi Hv) as [Hv' Hi']; [by eapply fresh_evolves|]. split; [done|].
  apply hand_over; [done|]. intros l Hl. cbn [sh_heap with_heap].
  destruct (fresh_unknown K s c Hi Hv h l _ Hf Hl) as [_ Hns]. destruct Hf as [_ Hf]. rewrite Forall_forall in Hf.
  split_and!; [by apply Hf|exact Hns|]. intros x l' Hx Hl'.
  unfold handed in Hl. apply list_elem_of_bind in Hl as (p & Hl & Hp).
  assert (Hgo : forall l'', l'' ∈ (match h !! p with Some c => cell_refs c | None => [] end) -> l'' ∈ handed h ps).
  { intros l'' H. unfold handed. apply list_elem_of_bind. exists p. set_solver. }
  apply elem_of_cons in Hl as [->|Hl]; [apply Hgo; by rewrite Hx|].
  assert (exists v, denotes (O := O) h p v) as (v & o & Ho & Hov).
  { apply list_elem_of_lookup in Hp as [i Hp]. destruct (Forall2_lookup_l _ _ _ _ _ HF Hp) as (v & _ & ?). by exists v. }
  unfold deref in Ho. apply bind_Some in Ho as (y & Hy & Ho). apply tb_struct_cell in Ho as ->.
  rewrite Hy, tb_cell_refs in Hl. pose proof (view_refs _ _ _ Hov) as Hr. rewrite Forall_forall in Hr.
  destruct (Hr l Hl) as (z & Hz & Hlf). assert (z = x) as -> by congruence. destruct x; try done; by apply not_elem_of_nil in Hl'.
Qed.

Lemma get_ok id :
  exists r s', get (O := O) id s = Some (r, s') /\ views s' c /\
    match r with
    | inl p => exists v, tb_vals c !! id = Some v /\ denotes (O := O) (sh_heap s') p v /\
                 isolated (K ∪ list_to_set (handed (sh_heap s') [p])) s'
    | inr e => tb_vals c !! id = None /\ e = ErrNotFound /\ isolated K s'
    end.
Proof using All.
  pose proof (table_lookup K s c Hi Hv id) as Hid. unfold get.
  destruct (tb_get s !! id) as [o|], (tb_vals c !! id) as [v|]; try done; [|by exists (inr ErrNotFound), s].
  destruct (clone_alloc _ o v Hid) as (x & h1 & -> & Hp). cbn [mbind option_bind].
  destruct (alloc (tb_cell x) h1) as [p h2]. destruct Hp as (Hd & Hf & Hp).
  destruct (given_ok h2 [p] [v]) as [Hv' Hi']; [|by apply Forall2_cons; split; [|apply Forall2_nil]|].
  - unfold handed. cbn. by rewrite Hp, tb_cell_refs, app_nil_r.
  - exists (inl p), (with_heap h2 s). split_and!; [done|done|]. by exists v.
Qed.

Lemma list_ok `{MapRange} keep n :
  exists ps vs s', list_where (O := O) keep n s = Some ((ps, None), s') /\ views s' c /\
    list_post keep (tb_vals c) (vs, None) /\ Forall2 (denotes (O := O) (sh_heap s')) ps vs /\
    isolated (K ∪ list_to_set (handed (sh_heap s') ps)) s'.
Proof using All.
  assert (Hlist : exists vs, Forall2 (fun (o : O) v => view (sh_heap s) o = Some v) (map_range n (tb_get s)) vs /\
    vs ≡ₚ (map_to_list (tb_vals c)).*2).
  { destruct (table_values (sh_heap s) (tb_get (O := O) s) (tb_vals c)) as (vs & HF & Hp); [by apply tb_views|].
    destruct (Permutation_Forall2 (symmetry (map_range_perm _ n (tb_get (O := O) s))) HF) as (vs' & Hp' & HF').
    exists vs'. split; [done|]. by rewrite <- Hp'. }
  destruct Hlist as (vs & HF & Hp). destruct (range_ok keep _ vs _ HF) as (ps & h' & Hr & HF' & Hf).
  unfold list_where. rewrite Hr. cbn. destruct (given_ok h' ps _ Hf HF') as [Hv' Hi'].
  eexists ps, _, _. split_and!; [done|done| |exact HF'|done]. split; [done|]. cbn. by rewrite Hp.
Qed.
End Reads.

(** ** The store and its clients *)

(** A call as the contract sees it: on values. *)
Inductive Event :=
| mkEvent {X : Type} (op : StoreOp X) (now : Time) (r : X).

Definition meets (ev : Event) (c c' : Cluster) : Prop := match ev with mkEvent op now r => op_ok op now c r c' end.

Inductive honours : list Event -> Cluster -> Cluster -> Prop :=
| honours_nil c : honours [] c c
| honours_cons ev evs c1 c2 c3 : meets ev c1 c2 -> honours evs c2 c3 -> honours (ev :: evs) c1 c3.

(** The value a returned pointer or slice stands for. *)
Definition shows_pointer {O V} `{!Table O V} (h : Heap) (r : Result) (x : V + Err) : Prop :=
  match r, x with
  | RPointer (inl p), inl v => denotes (O := O) h p v
  | RPointer (inr e), inr e' => e = e'
  | _, _ => False
  end.
Definition shows_slice {O V} `{!Table O V} (h : Heap) (r : Result) (x : list V * error) : Prop :=
  match r with RSlice (ps, e) => Forall2 (denotes (O := O) h) ps x.1 /\ e = x.2 | _ => False end.

(** A call made in the heap [h] that returned [r] in [h'] is [ev] on values. *)
Definition shows (h h' : Heap) (a : Call) (now : Time) (r : Result) (ev : Event) : Prop :=
  let with_arg O V {T : Table O V} (p : loc) (op : V -> StoreOp error) :=
    exists v e, denotes (O := O) h p v /\ r = RError e /\ ev = mkEvent (op v) now e in
  let with_error (op : StoreOp error) := exists e, r = RError e /\ ev = mkEvent op now e in
  let with_pointer O V {T : Table O V} (op : StoreOp (V + Err)) :=
    exists x, shows_pointer (O := O) h' r x /\ ev = mkEvent op now x in
  let with_slice O V {T : Table O V} (op : StoreOp (list V * error)) :=
    exists x, shows_slice (O := O) h' r x /\ ev = mkEvent op now x in
  match a with
  | CCreateDeployment d => with_arg DeploymentObj _ d OpCreateDeployment
  | CGetDeployment id => with_pointer DeploymentObj _ (OpGetDeployment id)
  | CListDeployments => with_slice DeploymentObj _ OpListDeployments
  | CListDeploymentsByNamespace ns => with_slice DeploymentObj _ (OpListDeploymentsByNamespace ns)
  | CUpdateDeployment d => with_arg DeploymentObj _ d OpUpdateDeployment
  | CTransitionDeployment id to => with_error (OpTransitionDeployment id to)
  | CDeleteDeployment id => with_error (OpDeleteDeployment id)
  | CCreatePod p => with_arg PodObj _ p OpCreatePod
  | CGetPod id => with_pointer PodObj _ (OpGetPod id)
  | CListPodsByDeployment id => with_slice PodObj _ (OpListPodsByDeployment id)
  | CListPodsByStatus st => with_slice PodObj _ (OpListPodsByStatus st)
  | CListPodsByNode id => with_slice PodObj _ (OpListPodsByNode id)
  | CListPodsByLabels ns sel => with_slice PodObj _ (OpListPodsByLabels ns sel)
  | CUpdatePod p => with_arg PodObj _ p OpUpdatePod
  | CTransitionPod id to errMsg => with_error (OpTransitionPod id to errMsg)
  | CRegisterNode p => with_arg NodeObj _ p OpRegisterNode
  | CGetNode id => with_pointer NodeObj _ (OpGetNode id)
  | CListNodes => with_slice NodeObj _ OpListNodes
  | CListNodesByLabels sel => with_slice NodeObj _ (OpListNodesByLabels sel)
  | CUpdateNode p => with_arg NodeObj _ p OpUpdateNode
  | CTransitionNode id to => with_error (OpTransitionNode id to)
  | CUpsertService p => with_arg ServiceObj _ p OpUpsertService
  | CGetService id => with_pointer ServiceObj _ (OpGetService id)
  | CListServices => with_slice ServiceObj _ OpListServices
  | CDeleteService id => with_error (OpDeleteService id)
  end.

Definition pointers (r : Result) : list loc :=
  match r with RError _ => [] | RPointer (inl p) => [p] | RPointer (inr _) => [] | RSlice (ps, _) => ps end.

(** A caller passes pointers of its own, to structs of the right type. *)
Definition own_args (K : gset loc) (h : Heap) (a : Call) : Prop :=
  match a with
  | CCreateDeployment p | CUpdateDeployment p => p ∈ K /\ exists v, denotes (O := DeploymentObj) h p v
  | CCreatePod p | CUpdatePod p => p ∈ K /\ exists v, denotes (O := PodObj) h p v
  | CRegisterNode p | CUpdateNode p => p ∈ K /\ exists v, denotes (O := NodeObj) h p v
  | CUpsertService p => p ∈ K /\ exists v, denotes (O := ServiceObj) h p v
  | _ => True
  end.

Record Label := mkLabel { lb_before : Heap; lb_call : Call; lb_now : Time; lb_result : Result; lb_after : Heap }.
Definition shows_label (l : Label) (ev : Event) : Prop :=
  shows (lb_before l) (lb_after l) (lb_call l) (lb_now l) (lb_result l) ev.

(** A client calls a method, writes anything to a cell it can reach, or
    allocates one. *)
Inductive shared_steps `{MapRange} : gset loc * Shared -> list Label -> gset loc * Shared -> Prop :=
| ss_done w : shared_steps w [] w
| ss_call K s a now n r s' ls w : own_args K (sh_heap s) a -> shared_do a now n s = Some (r, s') ->
    shared_steps (K ∪ list_to_set (handed (sh_heap s') (pointers r)), s') ls w ->
    shared_steps (K, s) (mkLabel (sh_heap s) a now r (sh_heap s') :: ls) w
| ss_write K s l x ls w : l ∈ K -> (forall l', l' ∈ cell_refs x -> l' ∈ K) ->
    shared_steps (K, with_heap (<[l := x]> (sh_heap s)) s) ls w -> shared_steps (K, s) ls w
| ss_alloc K s x ls w : (forall l', l' ∈ cell_refs x -> l' ∈ K) ->
    shared_steps (K ∪ {[(alloc x (sh_heap s)).1]}, with_heap (alloc x (sh_heap s)).2 s) ls w ->
    shared_steps (K, s) ls w.

Section Isolation.
Context `{MapRange}.

(** The outcome of a call: its result on values meets the contract. *)
Definition answered (K : gset loc) (s : Shared) (c : Cluster) (a : Call) (now : Time) (n : nat) : Prop :=
  exists r s' ev c', shared_do a now n s = Some (r, s') /\ shows (sh_heap s) (sh_heap s') a now r ev /\
    meets ev c c' /\ views s' c' /\ isolated (K ∪ list_to_set (handed (sh_heap s') (pointers r))) s'.

Section Shapes.
Context {O V : Type} `{!Table O V, !TableLaws O V}.
Context (K : gset loc) (s : Shared) (c : Cluster) (a : Call) (now : Time) (n : nat).
Hypothesis Hi : isolated K s.
Hypothesis Hv : views s c.

(** A method that returns an error, on one table. *)
Lemma answered_error (m : option (error * Shared)) (post : gmap string V -> error -> gmap string V -> Prop) ev :
  (exists e s' mv, m = Some (e, s') /\ post (tb_vals c) e mv /\ views s' (tb_with mv c) /\ isolated K s') ->
  shared_do a now n s = returns RError m ->
  (forall e h', shows (sh_heap s) h' a now (RError e) (ev e)) ->
  (forall e mv, post (tb_vals c) e mv -> meets (ev e) c (tb_with mv c)) ->
  answered K s c a now n.
Proof using Type.
  intros (e & s' & mv & Hm & Hp & Hvs & His) Hdo Hsh Hmt. exists (RError e), s', (ev e), (tb_with mv c).
  split_and!; [by rewrite Hdo, Hm|by apply Hsh|by apply Hmt|done|].
  cbn [pointers handed mbind list_bind]. by rewrite list_to_set_nil, (right_id_L ∅ (∪)).
Qed.

Lemma answered_get id (op : StoreOp (V + Err)) :
  shared_do a now n s = returns RPointer (get (O := O) id s) ->
  (forall h' r x, shows_pointer (O := O) h' r x -> shows (sh_heap s) h' a now r (mkEvent op now x)) ->
  (forall x, get_post id (tb_vals c) x -> op_ok op now c x c) ->
  answered K s c a now n.
Proof using All.
  intros Hdo Hsh Hok. destruct (get_ok (O := O) K s c Hi Hv id) as (r & s' & Hg & Hv' & Hr). rewrite Hg in Hdo.
  unfold get_post in Hok. destruct r as [p|e].
  - destruct Hr as (v & Hid & Hd & Hi'). rewrite Hid in Hok.
    exists (RPointer (inl p)), s', (mkEvent op now (inl v)), c. split_and!; [done|by apply Hsh|by apply Hok|done|done].
  - destruct Hr as (Hid & -> & Hi'). rewrite Hid in Hok.
    exists (RPointer (inr ErrNotFound)), s', (mkEvent op now (inr ErrNotFound)), c.
    split_and!; [done|by apply Hsh|by apply Hok|done|].
    cbn [pointers handed mbind list_bind]. by rewrite list_to_set_nil, (right_id_L ∅ (∪)).
Qed.

Lemma answered_list keep (op : StoreOp (list V * error)) :
  shared_do a now n s = returns RSlice (list_where (O := O) keep n s) ->
  (forall h' r x, shows_slice (O := O) h' r x -> shows (sh_heap s) h' a now r (mkEvent op now x)) ->
  (forall x, list_post keep (tb_vals c) x -> op_ok op now c x c) ->
  answered K s c a now n.
Proof using All.
  intros Hdo Hsh Hok. destruct (list_ok (O := O) K s c Hi Hv keep n) as (ps & vs & s' & Hl & Hv' & Hp & HF & Hi').
  rewrite Hl in Hdo. exists (RSlice (ps, None)), s', (mkEvent op now (vs, None)), c.
  split_and!; [done|by apply Hsh|by apply Hok|done|done].
Qed.
End Shapes.

(** *** The assignments on values *)

(** A [view] that succeeds, read by read. *)
Ltac viewed Hv := cbn in Hv |- *; unfold Deployment_view, Pod_view, Node_view, Service_view in Hv |- *; cbn;
  reads Hv; injection Hv as <-;
  repeat match goal with Ha : ?rd ?h ?r = Some _ |- context [?rd ?h ?r] => rewrite Ha; cbn [mbind option_bind] end.

Lemma touch_deployment_ok now h (o : DeploymentObj) v :
  view h o = Some v -> view h (touch_deployment now o) = Some (deployment_touch now v).
Proof using Type. intros Hv. by viewed Hv. Qed.

Lemma touch_service_ok now h (o : ServiceObj) v :
  view h o = Some v -> view h (touch_service now o) = Some (service_touch now v).
Proof using Type. intros Hv. by viewed Hv. Qed.

Lemma assign_deployment_ok to now h (o : DeploymentObj) v :
  view h o = Some v ->
  exists ls, view (assign_deployment to now o h).2 (assign_deployment to now o h).1 = Some (deployment_with_status to now v) /\
    fresh_in h (assign_deployment to now o h).2 ls /\ refs (assign_deployment to now o h).1 ⊆ refs o ++ ls.
Proof using Type.
  intros Hv. exists []. split_and!; [by viewed Hv|apply fresh_in_refl|]. by rewrite app_nil_r.
Qed.

Lemma assign_node_ok to h (o : NodeObj) v :
  view h o = Some v ->
  exists ls, view (assign_node to o h).2 (assign_node to o h).1 = Some (node_with_status to v) /\
    fresh_in h (assign_node to o h).2 ls /\ refs (assign_node to o h).1 ⊆ refs o ++ ls.
Proof using Type.
  intros Hv. exists []. split_and!; [by viewed Hv|apply fresh_in_refl|]. by rewrite app_nil_r.
Qed.

Lemma set_ref_read h l now r t :
  read_time h (Some l) = Some (Some now) -> read_time h r = Some t ->
  read_time h (set_ref (Some l) r) = Some (set_once now t).
Proof using Type.
  intros Hl Hr. destruct r as [l'|]; cbn [set_ref].
  - rewrite Hr. unfold read_time in Hr. destruct (h !! l') as [[]|]; try done. by injection Hr as <-.
  - unfold read_time in Hr. by injection Hr as <-.
Qed.

Lemma assign_pod_ok to errMsg now h (o : PodObj) v :
  view h o = Some v ->
  exists ls, view (assign_pod to errMsg now o h).2 (assign_pod to errMsg now o h).1 =
      Some (apply_pod_transition to errMsg now v) /\
    fresh_in h (assign_pod to errMsg now o h).2 ls /\ refs (assign_pod to errMsg now o h).1 ⊆ refs o ++ ls.
Proof using Type.
  intros Hv. unfold assign_pod. pose proof (fresh_in_alloc h (CTime now)) as Hf.
  assert (Hl : read_time (alloc (CTime now) h).2 (Some (alloc (CTime now) h).1) = Some (Some now)).
  { unfold read_time, alloc. cbn [fst snd]. by rewrite lookup_insert_eq. }
  pose proof (view_mono _ _ _ _ (proj1 Hf) Hv) as Hv'.
  destruct (alloc (CTime now) h) as [l h']. cbn [fst snd] in *. exists [l].
  split_and!; [|done|].
  - cbn in Hv' |- *. unfold Pod_view in Hv' |- *. cbn. reads Hv'. injection Hv' as <-.
    pose proof (set_ref_read _ _ _ _ _ Hl Ha2). pose proof (set_ref_read _ _ _ _ _ Hl Ha3).
    pose proof (set_ref_read _ _ _ _ _ Hl Ha4).
    destruct to; cbn [isTerminalPodStatus];
      repeat match goal with Ha : ?rd ?h ?r = Some _ |- context [?rd ?h ?r] => rewrite Ha; cbn [mbind option_bind] end; done.
  - intros x Hx. apply elem_of_app. cbn in Hx |- *. rewrite elem_of_locs in Hx |- *.
    assert (Hs : forall r, Some x = set_ref (Some l) r -> Some x = r \/ x ∈ [l]).
    { intros [l'|] E; cbn in E; [by left|]. right. apply list_elem_of_singleton. congruence. }
    rewrite !elem_of_cons, elem_of_nil in Hx |- *.
    destruct Hx as [?|[?|[?|[Hx|[Hx|[Hx|?]]]]]]; [tauto|tauto|tauto| | | |tauto].
    + destruct to; try tauto. destruct (Hs _ Hx); tauto.
    + destruct to; try tauto. destruct (Hs _ Hx); tauto.
    + destruct (isTerminalPodStatus to); [destruct (Hs _ Hx)|]; tauto.
Qed.

(** One method after the other. *)
Ltac by_create O v := eapply (answered_error (O := O) _ _ _ _ _ _ _ (create_post (tb_vkey v) v));
  [by apply create_ok|done|intros e h'; by exists v, e|intros e mv Hm; by exists mv].
Ltac by_update O touch f v := eapply (answered_error (O := O) _ _ _ _ _ _ _ (update_post (tb_vkey v) (f v)));
  [eapply (update_ok (O := O) _ _ _ ltac:(eassumption) ltac:(eassumption) touch f); [done| |done|done|done]
  |done|intros e h'; by exists v, e|intros e mv Hm; by exists mv].
Ltac by_delete O id := eapply (answered_error (O := O) _ _ _ _ _ _ _ (delete_post id));
  [by apply (delete_ok (O := O))|done|intros e h'; by exists e|intros e mv Hm; by exists mv].
Ltac by_transition O id legal vlegal assign f :=
  eapply (answered_error (O := O) _ _ _ _ _ _ _ (transition_post id vlegal f));
  [eapply (transition_ok (O := O) _ _ _ ltac:(eassumption) ltac:(eassumption) id legal vlegal assign f)
  |done|intros e h'; by exists e|intros e mv Hm; by exists mv].
Ltac by_get O := eapply (answered_get (O := O)); [done|done|done|intros h' r x Hx; by exists x|intros x Hx; by split].
Ltac by_list O := eapply (answered_list (O := O)); [done|done|done|intros h' r x Hx; by exists x|intros x Hx; by split].

Lemma call_ok K s c a now n :
  isolated K s -> views s c -> own_args K (sh_heap s) a -> answered K s c a now n.
Proof using Type.
  intros Hi Hv Ha. destruct a; cbn in Ha; try destruct Ha as (Hp & v & Hd).
  - by_create DeploymentObj v.
  - by_get DeploymentObj.
  - by_list DeploymentObj.
  - by_list DeploymentObj.
  - by_update DeploymentObj (touch_deployment now) (deployment_touch now) v. apply touch_deployment_ok.
  - by_transition DeploymentObj id (fun d => Model.TransitionDeployment (Deployment_Status (do_flat d)) to)
      (fun d => Model.TransitionDeployment (Deployment_Status d) to) (assign_deployment to now) (deployment_with_status to now).
    + intros h o v Ho. by viewed Ho.
    + apply assign_deployment_ok.
  - by_delete DeploymentObj id.
  - by_create PodObj v.
  - by_get PodObj.
  - by_list PodObj.
  - by_list PodObj.
  - by_list PodObj.
  - by_list PodObj.
  - by_update PodObj (fun p : PodObj => p) (fun p : Pod => p) v. done.
  - by_transition PodObj id (fun p => Model.TransitionPod (Pod_Status (po_flat p)) to)
      (fun p => Model.TransitionPod (Pod_Status p) to) (assign_pod to errMsg now) (apply_pod_transition to errMsg now).
    + intros h o v Ho. by viewed Ho.
    + apply assign_pod_ok.
  - by_create NodeObj v.
  - by_get NodeObj.
  - by_list NodeObj.
  - by_list NodeObj.
  - by_update NodeObj (fun n : NodeObj => n) (fun n : Node => n) v. done.
  - by_transition NodeObj id (fun n => Model.TransitionNode (Node_Status (no_flat n)) to)
      (fun n => Model.TransitionNode (Node_Status n) to) (assign_node to) (node_with_status to).
    + intros h o v Ho. by viewed Ho.
    + apply assign_node_ok.
  - eapply (answered_error (O := ServiceObj) _ _ _ _ _ _ _
      (fun m e m' => e = None /\ m' = <[Service_ID v := service_touch now v]> m) (fun e => mkEvent (OpUpsertService v) now e)).
    + destruct (upsert_ok (O := ServiceObj) K s c Hi Hv (touch_service now) (service_touch now) s0 v) as (s' & Hu & Hv' & Hi');
        [done|apply touch_service_ok|done|done|]. by eexists None, s', _.
    + done.
    + intros e h'. by exists v, e.
    + intros e mv [-> ->]. done.
  - by_get ServiceObj.
  - by_list ServiceObj.
  - by_delete ServiceObj id.
Qed.

(** A client's write or allocation leaves the store's values alone. *)
Lemma write_ok K s c l x :
  isolated K s -> views s c -> l ∈ K -> (forall l', l' ∈ cell_refs x -> l' ∈ K) ->
  views (with_heap (<[l := x]> (sh_heap s)) s) c /\ isolated K (with_heap (<[l := x]> (sh_heap s)) s).
Proof using Type.
  intros Hi Hv Hl Hx. apply heap_step; [done|done|]. split.
  - intros l' y Hy Hn. rewrite lookup_insert_ne; [done|]. by intros ->.
  - intros l' Hy. destruct (decide (l = l')) as [<-|?]; [by rewrite lookup_insert_eq|by rewrite lookup_insert_ne].
  - intros l' y l'' Hl' Hy Hr. apply lookup_insert_Some in Hy as [[<- <-]|[_ Hy]]; [by apply Hx|].
    by eapply (iso_closed _ _ Hi _ _ _ Hl').
Qed.

Lemma alloc_ok K s c x :
  isolated K s -> views s c -> (forall l', l' ∈ cell_refs x -> l' ∈ K) ->
  views (with_heap (alloc x (sh_heap s)).2 s) c /\
  isolated (K ∪ {[(alloc x (sh_heap s)).1]}) (with_heap (alloc x (sh_heap s)).2 s).
Proof using Type.
  intros Hi Hv Hx. pose proof (fresh_in_alloc (sh_heap s) x) as Hf.
  destruct (heap_step K s c _ Hi Hv (fresh_evolves _ _ _ _ Hi Hf)) as [Hv' Hi']. split; [done|].
  pose proof Hf as [_ Hl]. apply Forall_singleton in Hl as [Hn Hs].
  destruct (fresh_unknown (O := PodObj) K s c Hi Hv _ _ _ Hf (list_elem_of_here _ _)) as [_ Hns].
  split; cbn [sh_heap with_heap].
  - intros l [Hk|Hk]%elem_of_union; [by apply (iso_known _ _ Hi')|]. by apply elem_of_singleton in Hk as ->.
  - intros l y l' [Hk|Hk]%elem_of_union Hy Hr; apply elem_of_union; left.
    + by eapply (iso_closed _ _ Hi' _ _ _ Hk).
    + apply elem_of_singleton in Hk as ->. unfold alloc in Hy. cbn [fst snd] in Hy.
      rewrite lookup_insert_eq in Hy. injection Hy as <-. by apply Hx.
  - intros l Hst [Hk|Hk]%elem_of_union; [by apply (iso_apart _ _ Hi' l)|]. by apply elem_of_singleton in Hk as ->.
Qed.

Lemma steps_ok w ls w' c :
  shared_steps w ls w' -> isolated w.1 w.2 -> views w.2 c ->
  exists evs c', Forall2 shows_label ls evs /\ honours evs c c' /\ views w'.2 c' /\ isolated w'.1 w'.2.
Proof using Type.
  intros Hs. revert c. induction Hs as [w|K s a now n r s' ls w Ha Hdo _ IH|K s l x ls w Hl Hx _ IH|K s x ls w Hx _ IH];
    intros c Hi Hv; cbn in *.
  - exists [], c. split_and!; [constructor|constructor|done|done].
  - destruct (call_ok K s c a now n Hi Hv Ha) as (r' & s'' & ev & c1 & Hdo' & Hsh & Hm & Hv1 & Hi1).
    rewrite Hdo in Hdo'. injection Hdo' as <- <-.
    destruct (IH c1 Hi1 Hv1) as (evs & c2 & HF & Hh & ?). exists (ev :: evs), c2.
    split_and!; [by constructor|by econstructor|tauto|tauto].
  - destruct (write_ok K s c l x Hi Hv Hl Hx) as [Hv1 Hi1]. by apply IH.
  - destruct (alloc_ok K s c x Hi Hv Hx) as [Hv1 Hi1]. by apply IH.
Qed.
End Isolation.

(** C2: The store shares nothing with its clients.  Take any execution in which
    clients call the methods of the in-memory store with pointers of their own
    and, between and after the calls, write anything into any struct, map, slice
    or integer they can reach: what they passed, what they were given, what they
    allocated.  Then the calls behave, on the values behind the pointers at the
    moment of the call, exactly as the contract of the store says for a store of
    immutable values, and nothing the clients write shows up in it.  Every call
    with pointers of the right type returns. *)
Theorem store_isolated `{MapRange} (K K' : gset loc) (s s' : Shared) (c : Cluster) (ls : list Label) :
  isolated K s -> views s c -> shared_steps (K, s) ls (K', s') ->
  (exists evs c', Forall2 shows_label ls evs /\ honours evs c c' /\ views s' c' /\ isolated K' s') /\
  (forall a now n, own_args K' (sh_heap s') a -> is_Some (shared_do a now n s')).
Proof.
  intros Hi Hv Hs. destruct (steps_ok _ _ _ c Hs Hi Hv) as (evs & c' & HF & Hh & Hv' & Hi'). split; [by eauto 7|].
  intros a now n Ha. destruct (call_ok K' s' c' a now n Hi' Hv' Ha) as (r & s2 & _ & _ & Hdo & _). by exists (r, s2).
Qed.

(** ** An execution: a client keeps the label map it submitted and edits it *)

Definition empty_shared : Shared := mkShared ∅ ∅ ∅ ∅ ∅.
Definition labels_cell : Cell := CMap {["app" := "web"]}.
Definition labels_ptr : loc := (alloc labels_cell ∅).1.
Definition with_labels : Shared := with_heap (alloc labels_cell ∅).2 empty_shared.
Definition submitted : Deployment :=
  mkDeployment "deploy_1" "web" "default" ∅ DeploymentService "" "sleep" [] 1 0 RestartAlways zeroRequest DeploymentPending 1 1.
Definition struct_cell : Cell := CDeployment (mkDeploymentObj submitted (Some labels_ptr) None).
Definition struct_ptr : loc := (alloc struct_cell (sh_heap with_labels)).1.
Definition with_struct : Shared := with_heap (alloc struct_cell (sh_heap with_labels)).2 with_labels.
Definition after (a : Call) (now : Time) (s : Shared) : Result * Shared :=
  default (RError None, s) (shared_do a now 0 s).
Definition created : Shared := (after (CCreateDeployment struct_ptr) 5 with_struct).2.
Definition edited : Shared := with_heap (<[labels_ptr := CMap {["app" := "other"]}]> (sh_heap created)) created.
Definition fetched : Result * Shared := after (CGetDeployment "deploy_1") 6 edited.

Definition edit_labels : list Label :=
  [mkLabel (sh_heap with_struct) (CCreateDeployment struct_ptr) 5 (RError None) (sh_heap created);
   mkLabel (sh_heap edited) (CGetDeployment "deploy_1") 6 fetched.1 (sh_heap fetched.2)].

Lemma edit_run :
  exists K, shared_steps (∅, empty_shared) edit_labels (K, fetched.2).
Proof.
  eexists. eapply (ss_alloc _ _ labels_cell); [intros l Hl; by apply not_elem_of_nil in Hl|].
  eapply (ss_alloc _ _ struct_cell).
  { intros l Hl. cbn in Hl. rewrite elem_of_locs in Hl. rewrite !elem_of_cons, elem_of_nil in Hl.
    destruct Hl as [Hl|[Hl|[]]]; [done|]. injection Hl as ->. set_solver. }
  apply (ss_call _ with_struct (CCreateDeployment struct_ptr) 5 0 (RError None) created).
  { split; [set_solver|]. exists (mkDeployment "deploy_1" "web" "default" {["app" := "web"]} DeploymentService "" "sleep" []
      1 0 RestartAlways zeroRequest DeploymentPending 1 1). eexists. split; vm_compute; reflexivity. }
  { vm_compute. reflexivity. }
  apply (ss_write _ _ labels_ptr (CMap {["app" := "other"]})); [set_solver|intros l Hl; by apply not_elem_of_nil in Hl|].
  apply (ss_call _ edited (CGetDeployment "deploy_1") 6 0 fetched.1 fetched.2); [done|vm_compute; reflexivity|].
  apply ss_done.
Qed.

(** The store still holds the labels as they were submitted. *)
Example edit_not_seen :
  (deref (O := DeploymentObj) (sh_heap fetched.2) (List.hd xH (pointers fetched.1)) ≫= view (sh_heap fetched.2))
    = Some (mkDeployment "deploy_1" "web" "default" {["app" := "web"]} DeploymentService "" "sleep" []
        1 0 RestartAlways zeroRequest DeploymentPending 1 1).
Proof. vm_compute. reflexivity. Qed.

Lemma store_isolated_witness :
  exists K evs c', shared_steps (∅, empty_shared) edit_labels (K, fetched.2) /\
    Forall2 shows_label edit_labels evs /\ honours evs empty_cluster c' /\ views fetched.2 c'.
Proof.
  destruct edit_run as [K Hs]. destruct (store_isolated ∅ K empty_shared fetched.2 empty_cluster edit_labels)
    as [(evs & c' & HF & Hh & Hv & _) _].
  - split; cbn; [intros l Hl; by apply not_elem_of_empty in Hl|intros l x l' Hl; by apply not_elem_of_empty in Hl|].
    intros l Hl Hk. by apply not_elem_of_empty in Hk.
  - split; apply map_Forall2_empty.
  - exact Hs.
  - exists K, evs, c'. split_and!; assumption.
Defined.
