(* ===== verification/Ticker.v ===== *)
(** * Ticker loops and HTTP servers

    The background goroutines of the programs share one shape: make a ticker,
    then [select] between the context and the ticker until the context is done,
    running a body on every tick.  Some run the body once before they make the
    ticker.  [LoopState] is where such a goroutine is; [loop_step] moves it
    between its operations; the operations of the body are the body's own. *)

From S2P Require Import Prelude.
From Stdlib Require Import ZArith Lia.
From stdpp Require Import base list relations.

Section Loop.
Context {E : Type -> Type}.

(** A goroutine [for { select { case <-ctx.Done(): return; case <-ticker.C: body } }]. *)
Record Loop := mkLoop {
  lp_first : bool;          (* the body runs once before the ticker is made *)
  lp_interval : Duration;
  lp_body : prog E unit }.

Inductive LoopState :=
| LFirst (p : prog E unit)   (* in the run before the ticker *)
| LNewTicker
| LSelect
| LBody (p : prog E unit)
| LReturned
| LPanicked.                 (* time.NewTicker on an interval that is not positive *)

Definition loop_start (l : Loop) : LoopState := if lp_first l then LFirst (lp_body l) else LNewTicker.

(** A step between operations; [cancelled]: the context is done.  A [select]
    with both cases ready takes either. *)
Inductive loop_step (l : Loop) (cancelled : bool) : LoopState -> LoopState -> Prop :=
| ls_first : loop_step l cancelled (LFirst (Ret tt)) LNewTicker
| ls_ticker : (0 < lp_interval l)%Z -> loop_step l cancelled LNewTicker LSelect
| ls_panic : (lp_interval l <= 0)%Z -> loop_step l cancelled LNewTicker LPanicked
| ls_tick : loop_step l cancelled LSelect (LBody (lp_body l))
| ls_body : loop_step l cancelled (LBody (Ret tt)) LSelect
| ls_done : cancelled = true -> loop_step l cancelled LSelect LReturned.

(** The body a loop is running. *)
Definition loop_prog (s : LoopState) : option (prog E unit) :=
  match s with LFirst p | LBody p => Some p | _ => None end.

Definition loop_with (s : LoopState) (p : prog E unit) : LoopState :=
  match s with LFirst _ => LFirst p | LBody _ => LBody p | s => s end.

(** ** What a loop does *)

(** A step starts the body anew, ends it, or leaves it alone. *)
Lemma loop_step_prog l cancelled s s' :
  loop_step l cancelled s s' ->
  (loop_prog s = None \/ loop_prog s = Some (Ret tt)) /\
  (loop_prog s' = None \/ (s = LSelect /\ loop_prog s' = Some (lp_body l))).
Proof using Type. intros []; cbn; auto. Qed.

(** Only an interval that is not positive makes a loop panic. *)
Definition loop_safe (l : Loop) (s : LoopState) : Prop :=
  (0 < lp_interval l)%Z -> s <> LPanicked.

Lemma loop_step_safe l cancelled s s' : loop_step l cancelled s s' -> loop_safe l s'.
Proof using Type. unfold loop_safe. intros []; intros Hi ?; try done. lia. Qed.

Lemma loop_start_safe l : loop_safe l (loop_start l).
Proof using Type. unfold loop_safe, loop_start. by destruct (lp_first l). Qed.

Lemma loop_with_safe l s p : loop_safe l s -> loop_safe l (loop_with s p).
Proof using Type. intros Hs Hi. specialize (Hs Hi). by destruct s. Qed.

(** ** Running a loop on its own *)

Section Alone.
Context {W : Type} (R : forall X, E X -> W -> X -> W -> Prop) (env : W -> W -> Prop) (l : Loop).

(** The loop, and an environment that changes the world between its steps. *)
Inductive alone_step : LoopState * W -> LoopState * W -> Prop :=
| al_loop cancelled s s' w : loop_step l cancelled s s' -> alone_step (s, w) (s', w)
| al_op s X (e : E X) k w x w' : loop_prog s = Some (Vis e k) -> R X e w x w' ->
    alone_step (s, w) (loop_with s (k x), w')
| al_env s w w' : env w w' -> alone_step (s, w) (s, w').

(** An uninterrupted run of the body. *)
Lemma runs_alone s p w w' :
  loop_prog s = Some p -> runs R p w tt w' -> rtc alone_step (s, w) (loop_with s (Ret tt), w').
Proof using Type.
  revert s w. induction p as [a|X e k IH]; intros s w Hp.
  - intros [<- ->]. destruct s; try done; cbn in *; injection Hp as ->; apply rtc_refl.
  - intros (x & w1 & HR & Hr). eapply rtc_l; [by eapply al_op|].
    replace (loop_with s (Ret tt)) with (loop_with (loop_with s (k x)) (Ret tt)) by (by destruct s).
    apply (IH x); [|exact Hr]. by destruct s.
Qed.

(** An invariant that the body keeps, with the environment at work between its
    operations, is an invariant of the loop. *)
Variable I : W -> Prop.

(** [w] is the world after the last operation. *)
Fixpoint keeps_inv {A} (p : prog E A) (w : W) : Prop :=
  match p with
  | Ret _ => True
  | @Vis _ _ X e k => forall w1 x w', env w w1 -> I w1 -> R X e w1 x w' -> I w' /\ keeps_inv (k x) w'
  end.

Definition loop_inv (c : LoopState * W) : Prop :=
  I c.2 /\ match loop_prog c.1 with Some p => exists w0, env w0 c.2 /\ keeps_inv p w0 | None => True end.

Context `{!PreOrder env}.
Hypothesis Hbody : forall w, I w -> keeps_inv (lp_body l) w.
Hypothesis Henv : forall w w', I w -> env w w' -> I w'.

Lemma alone_step_inv c c' : loop_inv c -> alone_step c c' -> loop_inv c'.
Proof using All.
  intros [Hi Hk] Hs.
  destruct Hs as [cancelled s s' w Hs|s X e k w x w' Hp HR|s w w' He]; unfold loop_inv in *; cbn [fst snd] in *.
  - split; [exact Hi|]. apply loop_step_prog in Hs as [_ [->|[_ ->]]]; [exact Logic.I|].
    exists w. split; [reflexivity|]. by apply Hbody.
  - rewrite Hp in Hk. destruct Hk as (w0 & He & Hk). destruct (Hk w x w' He Hi HR) as [Hi' Hk'].
    split; [exact Hi'|]. destruct s; cbn; try exact Logic.I; exists w'; (split; [reflexivity|exact Hk']).
  - split; [by eapply Henv|]. destruct (loop_prog s) as [p|]; [|exact Logic.I].
    destruct Hk as (w0 & He0 & Hk). exists w0. split; [by etrans|exact Hk].
Qed.

Lemma alone_inv w c : I w -> rtc alone_step (loop_start l, w) c -> loop_inv c.
Proof using All.
  intros Hi Hs. assert (H0 : loop_inv (loop_start l, w)).
  { split; [exact Hi|]. cbn. unfold loop_start. destruct (lp_first l); cbn; [|exact Logic.I].
    exists w. split; [reflexivity|]. by apply Hbody. }
  clear Hi. remember (loop_start l, w) as c0 eqn:Hc. clear Hc. induction Hs as [|c1 c2 c3 H12 _ IH]; [done|].
  apply IH. by eapply alone_step_inv.
Qed.
End Alone.
End Loop.
Arguments Loop E : clear implicits.
Arguments LoopState E : clear implicits.

(** ** Processes

    What one step of a process does to the multiset of programs its goroutines
    are running: nothing, one more program, the next operation of one of them,
    the end of one, or the end of one and the start of another. *)

Section Programs.
Context {E : Type -> Type} {W : Type} (R : forall X, E X -> W -> X -> W -> Prop) (entry : prog E unit -> Prop).

Inductive progs_step (w : W) : list (prog E unit) -> list (prog E unit) -> W -> Prop :=
| pp_same ps ps' : ps ≡ₚ ps' -> progs_step w ps ps' w
| pp_start p ps ps' : entry p -> ps' ≡ₚ p :: ps -> progs_step w ps ps' w
| pp_op X (e : E X) k x w' ps ps' rest : R X e w x w' ->
    ps ≡ₚ Vis e k :: rest -> ps' ≡ₚ k x :: rest -> progs_step w ps ps' w'
| pp_finish ps ps' : ps ≡ₚ Ret tt :: ps' -> progs_step w ps ps' w
| pp_restart p ps ps' rest : entry p -> ps ≡ₚ Ret tt :: rest -> ps' ≡ₚ p :: rest -> progs_step w ps ps' w.

(** A loop between its operations. *)
Lemma loop_progs l cancelled s s' (before after : list (prog E unit)) w :
  entry (lp_body l) -> loop_step l cancelled s s' ->
  progs_step w (before ++ option_list (loop_prog s) ++ after) (before ++ option_list (loop_prog s') ++ after) w.
Proof using Type.
  intros He Hs. destruct Hs; cbn [loop_prog option_list app]; try (apply pp_same; reflexivity).
  - apply pp_finish. by rewrite Permutation_middle.
  - eapply pp_start; [exact He|]. by rewrite Permutation_middle.
  - apply pp_finish. by rewrite Permutation_middle.
Qed.

(** The next operation of one of the programs. *)
Lemma op_progs X (e : E X) k x w w' (before after : list (prog E unit)) :
  R X e w x w' -> progs_step w (before ++ Vis e k :: after) (before ++ k x :: after) w'.
Proof using Type. intros HR. eapply pp_op; [exact HR|by rewrite <- Permutation_middle..]. Qed.

Lemma loop_op_progs X (e : E X) k x s w w' (before after : list (prog E unit)) :
  loop_prog s = Some (Vis e k) -> R X e w x w' ->
  progs_step w (before ++ option_list (loop_prog s) ++ after)
    (before ++ option_list (loop_prog (loop_with s (k x))) ++ after) w'.
Proof using Type. intros Hp HR. destruct s; simplify_eq/=; by apply op_progs. Qed.
End Programs.

(** ** [http.Server]

    Where the goroutine that serves is: [ListenAndServe] is yet to be called,
    serves, could not listen, or has returned [ErrServerClosed] (at once, when
    [Shutdown] was called first). *)
Inductive ServerState := SvStarting | SvServing | SvFailed | SvClosed.
#[global] Instance ServerState_eq_dec : EqDecision ServerState.
Proof. solve_decision. Defined.
