(* ===== verification/Discovery.v ===== *)
(** * Dynamic discovery: the proxy against the control plane

    backend/config_provider.go as the program it is: [refresh] builds a request,
    sends it, checks the status and decodes the answer; [Run] is its ticker
    loop.  The composition runs it against the control plane: a request that
    the network delivers is routed by the control plane's mux to its handler,
    which answers from the stored nodes and services. *)

From S2P Require Import Prelude GoText Model Store Runtime Fixtures Scheduler Api ApiProperties.
From S2P Require Import Http ServeMux Routes Proxy ProxyProperties Ticker.
From Stdlib Require Import ZArith Lia Ascii.
From stdpp Require Import base gmap strings list relations.

(** ** config_provider.go *)

(** A response: its status and what decoding the body into [backendsResponse]
    gives. *)
Record BackendsResponse := mkBackendsResponse {
  br_StatusCode : Z; br_Decoded : list backendSpec + string }.

(** What [refresh] uses of its surroundings.  [DInstall] is the loop over the
    specs and [pool.Swap]: between the two nothing of what it reads can change,
    the names, URLs and weights of backends being fixed. *)
Inductive DcE : Type -> Type :=
| DNewRequest (method url : string) : DcE (unit + string)
| DDo (method url : string) : DcE (BackendsResponse + string)
| DInstall (specs : list backendSpec) : DcE unit.

Record ConfigProvider := mkConfigProvider {
  cpv_url : string;
  cpv_interval : Duration;
  cpv_timeout : Duration }.     (* of its http.Client *)

Definition NewConfigProvider (url : string) (interval : Duration) : ConfigProvider :=
  mkConfigProvider url interval (5 * Second).

(** The request and the checks of its answer. *)
Definition fetch (c : ConfigProvider) : prog DcE (option (list backendSpec)) :=
  req ← call (DNewRequest "GET" (cpv_url c));
  match req with
  | inr _ => Ret None
  | inl _ =>
      resp ← call (DDo "GET" (cpv_url c));
      match resp with
      | inr _ => Ret None
      | inl r =>
          if negb (br_StatusCode r =? StatusOK)%Z then Ret None
          else match br_Decoded r with inr _ => Ret None | inl specs => Ret (Some specs) end
      end
  end.

Definition ConfigProvider_refresh (c : ConfigProvider) : prog DcE unit :=
  fetched ← fetch c;
  match fetched with
  | None => Ret tt
  | Some specs => call (DInstall specs)
  end.

Definition ConfigProvider_Run (c : ConfigProvider) : Loop DcE :=
  mkLoop true (cpv_interval c) (ConfigProvider_refresh c).

(** ** The composition *)

Definition spec_of (b : BackendSpec) : backendSpec := mkSpec (Spec_Name b) (Spec_URL b) (Spec_Weight b).

(** The control plane's answer as the proxy's decoder sees it; of a body that is
    no list of backends nothing is said. *)
Definition reads (r : Response) (x : BackendsResponse) : Prop :=
  br_StatusCode x = r_status r /\
  forall bs total, r_body r = BBackends bs total -> br_Decoded x = inl (spec_of <$> bs).

(** A request without a body. *)
Definition bare (method target : string) : Incoming :=
  mkIncoming method target None None (mkHeartbeat 0 zeroCapacity) None None.

Section Composition.
Context `{UrlLib} `{SliceSort} (base : string) (reliable : bool).

(** The proxy's provider and the control plane.  A request for a URL under
    [base] is routed by the control plane's mux and handled; on a network that
    is not [reliable] it may fail instead. *)
Definition discovery_rel X (e : DcE X) : Provider * World -> X -> Provider * World -> Prop :=
  match e in DcE X return Provider * World -> X -> Provider * World -> Prop with
  | DNewRequest _ _ => fun s x s' => s' = s /\ (x = inl tt \/ (reliable = false /\ exists err, x = inr err))
  | DDo method url => fun s x s' => s'.1 = s.1 /\
      ((exists target h resp r,
         trim_prefix base url = Some target /\ cp_mux (bare method target) = ToHandler h /\
         runs (cp_rel false) (NewRouter true h) s.2 resp s'.2 /\ reads resp r /\ x = inl r) \/
       (reliable = false /\ s'.2 = s.2 /\ exists err, x = inr err))
  | DInstall specs => fun s _ s' => s' = (refresh (Some specs) s.1, s.2)
  end.
End Composition.

(** The URL of the discovery endpoint, with its query if there is one. *)
Definition backends_url (base : string) (query : option string) : string :=
  base +:+ path_of ["api"; "v1"; "proxy"; "backends"] +:+
  match query with Some q => String "?" q | None => EmptyString end.

Definition service_of (query : option string) : string :=
  Values_Get (ParseQuery (default EmptyString query)) "service".

(** The selector a request is answered with; [None]: the service is unknown. *)
Definition selector_of (c : Cluster) (svcID : string) : option (gmap string string) :=
  if String.eqb svcID EmptyString then Some ∅ else Service_Selector <$> (services c !! svcID).

(** A node a request with selector [sel] is answered with. *)
Definition eligible (sel : gmap string string) (n : Node) : Prop :=
  Node_Status n = NodeHealthy /\ forall k v, sel !! k = Some v -> label_at (Node_Labels n) k = v.

(** The backend [b] stands for node [n]: its name, weight one, and its address,
    as written or as parsed. *)
Definition stands_for `{UrlLib} (n : Node) (b : Backend) : Prop :=
  b_Name b = Node_ID n /\ b_Weight b = 1%Z /\
  (url_String (b_URL b) = Node_Address n \/ url_Parse (Node_Address n) = Some (b_URL b)).

(** The pool is that of the nodes of [c]: every backend stands for an eligible
    node, every eligible node whose address parses has a backend, and no node
    has two. *)
Record pool_of `{UrlLib} (p : Provider) (c : Cluster) (sel : gmap string string) : Prop := {
  po_sound : forall l, l ∈ pv_pool p -> exists b id n, pv_heap p !! l = Some b /\
    nodes c !! id = Some n /\ eligible sel n /\ stands_for n b;
  po_complete : forall id n, nodes c !! id = Some n -> eligible sel n -> is_Some (url_Parse (Node_Address n)) ->
    exists l b, l ∈ pv_pool p /\ pv_heap p !! l = Some b /\ stands_for n b;
  po_once : forall i j l l' b b', pv_pool p !! i = Some l -> pv_pool p !! j = Some l' ->
    pv_heap p !! l = Some b -> pv_heap p !! l' = Some b' -> b_Name b = b_Name b' -> i = j }.

(** ** What the control plane answers *)

Section Answers.
Context `{SliceSort}.

Lemma ProxyBackends_wp (svcID : string) (w : World) :
  cluster_wf (w_cluster w) ->
  wp (cp_rel false) (ProxyBackends svcID) (fun r w' =>
    w_cluster w' = w_cluster w /\
    match selector_of (w_cluster w) svcID with
    | None => r_status r = StatusNotFound
    | Some sel => r_status r = StatusOK /\
        exists bs, r_body r = BBackends bs None /\ service_backends (w_cluster w) sel bs
    end) w.
Proof using Type.
  intros Hwf. unfold ProxyBackends, selector_of. destruct (String.eqb svcID EmptyString); cbn [negb].
  - apply wp_store. intros t [ns e] c' _ [[Hl ->]|(? & _)]; [|done].
    pose proof Hl as [He _]. cbn in He. subst e. cbn [wp]. split; [done|]. split; [done|].
    eexists. split; [done|]. eapply (resolve_listed _ ∅ (fun _ => true)); [done| |exact Hl].
    intros n. symmetry. apply matchesSelector_spec. intros k v Hk. by rewrite lookup_empty in Hk.
  - apply wp_get_service. intros t _. destruct (services (w_cluster w) !! svcID) as [svc|]; [|done]. cbn [fmap option_fmap option_map].
    unfold resolveServiceBackends. rewrite wp_bind. apply wp_store. intros t' [ns e] c' _ [[Hl ->]|(? & _)]; [|done].
    pose proof Hl as [He _]. cbn in He. subst e. cbn [wp]. split; [done|]. split; [done|].
    eexists. split; [done|]. by eapply resolve_listed.
Qed.

Lemma backends_routed (query : option string) :
  cp_mux (bare "GET" (path_of ["api"; "v1"; "proxy"; "backends"] +:+
    match query with Some q => String "?" q | None => EmptyString end))
  = ToHandler (RProxyBackends (service_of query)).
Proof using Type.
  rewrite (cp_mux_path _ ["api"; "v1"; "proxy"; "backends"] query); [|by repeat constructor|done].
  unfold service_of. generalize (ParseQuery (default EmptyString query)) as q. intros q. vm_compute. reflexivity.
Qed.
End Answers.

(** ** What a refresh makes of the answer *)

Section Refresh.
Context `{UrlLib}.

(** The backend that serves a spec of weight one stands for it. *)
Lemma serves_stands p h' n l :
  provider_wf p -> (forall l b, pv_heap p !! l = Some b -> h' !! l = Some b) ->
  serves p h' (spec_of (backend_of n)) l -> exists b, h' !! l = Some b /\ stands_for n b.
Proof using Type.
  intros Hwf Hold. unfold serves. destruct (reusable _ _ _) as [l0|] eqn:Er.
  - intros ->. unfold reusable in Er. cbn [spec_of backend_of bs_Name bs_URL bs_Weight Spec_Name Spec_URL Spec_Weight] in Er.
    destruct (pv_known p !! Node_ID n) as [l1|] eqn:Ek; [|done].
    destruct (pw_known _ Hwf _ _ Ek) as (b & Hb & Hn). rewrite Hb in Er.
    destruct (String.eqb_spec (url_String (b_URL b)) (Node_Address n)); [|done].
    destruct (Z.eqb_spec (b_Weight b) 1); [|done]. injection Er as <-.
    exists b. split; [by apply Hold|]. split_and!; [done|done|by left].
  - intros (_ & b & Hb & Hl). exists b. split; [done|]. unfold New in Hb. cbn in Hb.
    destruct (url_Parse (Node_Address n)) eqn:Eu; [|done]. injection Hb as <-. split_and!; [done|done|by right].
Qed.

Lemma accepted_parses p n : is_Some (url_Parse (Node_Address n)) -> accepted p (spec_of (backend_of n)) = true.
Proof using Type.
  intros [u Hu]. unfold accepted. destruct (reusable _ _ _); [done|]. unfold New. cbn. by rewrite Hu.
Qed.

Lemma refresh_pool_of p c sel bs :
  provider_wf p -> service_backends c sel bs ->
  let p' := refresh (Some (spec_of <$> bs)) p in
  provider_wf p' /\ (forall l b, pv_heap p !! l = Some b -> pv_heap p' !! l = Some b) /\ pool_of p' c sel.
Proof using Type.
  intros Hwf [Hnd Hbs] p'. destruct (refresh_spec p (spec_of <$> bs) Hwf) as [Hnl Hold Hbd Hnext Hserve].
  fold p' in Hnl, Hold, Hbd, Hnext, Hserve.
  assert (Hkeep : forall l b, pv_heap p !! l = Some b -> pv_heap p' !! l = Some b).
  { intros l b Hl. rewrite Hold; [done|]. apply (pw_heap _ Hwf). eauto. }
  assert (Hserved : forall s l, s ∈ filter (fun s => accepted p s = true) (spec_of <$> bs) ->
    serves p (pv_heap p') s l -> exists b id n, pv_heap p' !! l = Some b /\ nodes c !! id = Some n /\
      eligible sel n /\ stands_for n b /\ s = spec_of (backend_of n)).
  { intros s l [_ Hs]%list_elem_of_filter Hl. apply list_elem_of_fmap in Hs as (x & -> & Hx).
    apply Hbs in Hx as (id & n & Hn & Hh & Hm & ->). destruct (serves_stands _ _ _ _ Hwf Hkeep Hl) as (b & ? & ?).
    exists b, id, n. done. }
  split_and!; [by split|done|]. split.
  - intros l [i Hi]%list_elem_of_lookup. destruct (Forall2_lookup_r _ _ _ _ _ Hserve Hi) as (s & Hs & Hl).
    destruct (Hserved s l) as (b & id & n & ? & ? & ? & ? & _); [by eapply list_elem_of_lookup_2|done|].
    exists b, id, n. done.
  - intros id n Hn [Hh Hm] Hu.
    assert (Hin : spec_of (backend_of n) ∈ filter (fun s => accepted p s = true) (spec_of <$> bs)).
    { apply list_elem_of_filter. split; [by apply accepted_parses|]. apply list_elem_of_fmap_2, Hbs. by exists id, n. }
    apply list_elem_of_lookup in Hin as [i Hi]. destruct (Forall2_lookup_l _ _ _ _ _ Hserve Hi) as (l & Hl & Hsv).
    destruct (serves_stands _ _ _ _ Hwf Hkeep Hsv) as (b & ? & ?). exists l, b. split; [|done].
    by eapply list_elem_of_lookup_2.
  - intros i j l l' b b' Hi Hj Hb Hb' Hname.
    destruct (Forall2_lookup_r _ _ _ _ _ Hserve Hi) as (s & Hs & Hl).
    destruct (Forall2_lookup_r _ _ _ _ _ Hserve Hj) as (s' & Hs' & Hl').
    destruct (Hserved s l) as (b1 & _ & n & Hb1 & _ & _ & [Hn1 _] & ->); [by eapply list_elem_of_lookup_2|done|].
    destruct (Hserved s' l') as (b2 & _ & n' & Hb2 & _ & _ & [Hn2 _] & ->); [by eapply list_elem_of_lookup_2|done|].
    assert (Hnd' : NoDup (bs_Name <$> filter (fun s => accepted p s = true) (spec_of <$> bs))).
    { eapply sublist_NoDup; [|apply fmap_sublist, sublist_filter]. by rewrite <- list_fmap_compose. }
    eapply NoDup_lookup; [exact Hnd'| |].
    + by rewrite list_lookup_fmap, Hs.
    + rewrite list_lookup_fmap, Hs'. cbn. congruence.
Qed.
End Refresh.

(** ** Composition with the control plane *)

Section Tracking.
Context `{UrlLib} `{SliceSort} (base : string) (query : option string) (interval : Duration).

(** The provider of cmd/proxy with the discovery endpoint as its URL. *)
Definition provider : ConfigProvider := NewConfigProvider (backends_url base query) interval.

(** What [fetch] brings back when the cluster is [c]. *)
Definition fetched_from (c : Cluster) (r : option (list backendSpec)) : Prop :=
  match selector_of c (service_of query) with
  | None => r = None
  | Some sel => exists bs, r = Some (spec_of <$> bs) /\ service_backends c sel bs
  end.

(** The answer to the discovery request. *)
Lemma answer_fetched (w w' : World) h resp x target :
  cluster_wf (w_cluster w) -> trim_prefix base (cpv_url provider) = Some target ->
  cp_mux (bare "GET" target) = ToHandler h -> runs (cp_rel false) (NewRouter true h) w resp w' -> reads resp x ->
  w_cluster w' = w_cluster w /\
  fetched_from (w_cluster w)
    (if negb (br_StatusCode x =? StatusOK)%Z then None
     else match br_Decoded x with inr _ => None | inl specs => Some specs end).
Proof using Type.
  intros Hwf Ht Hh Hr [Hs Hd]. cbn [provider NewConfigProvider cpv_url] in Ht. unfold backends_url in Ht.
  rewrite trim_prefix_app in Ht. injection Ht as <-. rewrite backends_routed in Hh. injection Hh as <-.
  destruct (wp_runs _ _ _ _ _ _ (ProxyBackends_wp (service_of query) w Hwf) Hr) as [Hc Ha]. split; [done|].
  unfold fetched_from. destruct (selector_of _ _) as [sel|]; [|by rewrite Hs, Ha].
  destruct Ha as (Hst & bs & Hb & Hbs). rewrite Hs, Hst. cbn [negb Z.eqb]. rewrite (Hd _ _ Hb). eauto.
Qed.

Lemma fetch_wp (p : Provider) (w : World) :
  cluster_wf (w_cluster w) ->
  wp (discovery_rel base true) (fetch provider) (fun r s' =>
    s'.1 = p /\ w_cluster s'.2 = w_cluster w /\ fetched_from (w_cluster w) r) (p, w).
Proof using Type.
  intros Hwf. apply wp_call. intros req s [-> [->|[? _]]]; [|done]. apply wp_call.
  intros resp [p' w'] [Hp [(target & h & r & x & Ht & Hh & Hr & Hx & ->)|[? _]]]; [|done]. cbn in Hp, Hr. subst p'.
  destruct (answer_fetched w w' h r x target Hwf Ht Hh Hr Hx) as [Hc Hf].
  destruct (negb (br_StatusCode x =? StatusOK)%Z); [done|]. by destruct (br_Decoded x).
Qed.

Lemma refresh_runs (p : Provider) (w : World) :
  exists s', runs (discovery_rel base true) (ConfigProvider_refresh provider) (p, w) tt s'.
Proof using Type.
  destruct (cp_runs_total false (NewRouter true (RProxyBackends (service_of query))) w) as (resp & w1 & Hr).
  set (x := mkBackendsResponse (r_status resp)
    (match r_body resp with BBackends bs _ => inl (spec_of <$> bs) | _ => inr EmptyString end)).
  assert (Hrest : exists s', runs (discovery_rel base true)
    (fetched ← (if negb (br_StatusCode x =? StatusOK)%Z then Ret None
                else match br_Decoded x with inr _ => Ret None | inl specs => Ret (Some specs) end);
     match fetched with None => Ret tt | Some specs => call (DInstall specs) end) (p, w1) tt s').
  { destruct (negb (br_StatusCode x =? StatusOK)%Z); [by exists (p, w1)|].
    destruct (br_Decoded x) as [specs|]; [|by exists (p, w1)]. eexists. exists tt. eexists. by split. }
  destruct Hrest as [s' Hs']. exists s'. exists (inl tt), (p, w). split; [by split; [|left]|].
  exists (inl x), (p, w1). split; [|exact Hs']. split; [done|]. left. eexists _, _, resp, x.
  split_and!; [|apply backends_routed|exact Hr| |done].
  - apply trim_prefix_app.
  - split; [done|]. intros bs total Hb. cbn. by rewrite Hb.
Qed.

(** A refresh on a network that delivers. *)
Lemma refresh_wp (p : Provider) (w : World) :
  provider_wf p -> cluster_wf (w_cluster w) ->
  wp (discovery_rel base true) (ConfigProvider_refresh provider) (fun _ '(p', w') =>
    w_cluster w' = w_cluster w /\
    match selector_of (w_cluster w) (service_of query) with
    | None => p' = p
    | Some sel => provider_wf p' /\ pool_of p' (w_cluster w) sel /\
        (forall l b, pv_heap p !! l = Some b -> pv_heap p' !! l = Some b)
    end) (p, w).
Proof using Type.
  intros Hwf W. unfold ConfigProvider_refresh.
  eapply wp_seq; [by apply fetch_wp|]. intros r [p' w'] (Hp & Hc & Hf). cbn in Hp, Hc. subst p'.
  unfold fetched_from in Hf. destruct (selector_of _ _) as [sel|]; [|by subst r].
  destruct Hf as (bs & -> & Hbs). destruct (refresh_pool_of p _ sel bs Hwf Hbs) as (? & ? & ?).
  intros [] s' ->. cbn. by split_and!.
Qed.

(** *** The loop, with everything else going on *)

(** What the rest of the proxy does to the pool: health and counters change,
    names, URLs and weights do not. *)
Definition identity (b : Backend) : string * URL * Z := (b_Name b, b_URL b, b_Weight b).

Definition same_pool (p p' : Provider) : Prop :=
  pv_pool p' = pv_pool p /\ pv_known p' = pv_known p /\ pv_next p' = pv_next p /\
  forall l, identity <$> (pv_heap p' !! l) = identity <$> (pv_heap p !! l).

(** The provider, the control plane, and the states its cluster has been in. *)
Abbreviation Hist := (Provider * World * list Cluster)%type.

(** Between two operations the proxy serves and the control plane works. *)
Definition meanwhile (s s' : Hist) : Prop :=
  same_pool s.1.1 s'.1.1 /\ (cluster_wf (w_cluster s.1.2) -> cluster_wf (w_cluster s'.1.2)) /\
  s.2 ⊆ s'.2 /\ (w_cluster s.1.2 ∈ s.2 -> w_cluster s'.1.2 ∈ s'.2).

#[global] Instance meanwhile_preorder : PreOrder meanwhile.
Proof using Type.
  split.
  - intros s. split_and!; [by split_and!|done|done|done].
  - intros s1 s2 s3 ((Hp & Hk & Hn & Hh) & W & Hs & Hc) ((Hp' & Hk' & Hn' & Hh') & W' & Hs' & Hc').
    split_and!; [|auto|set_solver|auto]. split_and!; [congruence..|]. intros l. by rewrite Hh'.
Qed.

Definition hist_rel X (e : DcE X) (s : Hist) (x : X) (s' : Hist) : Prop :=
  discovery_rel base false X e s.1 x s'.1 /\ s'.2 = s.2.

Lemma runs_hist {A} (p : prog DcE A) s a s' (h : list Cluster) :
  runs (discovery_rel base true) p s a s' -> runs hist_rel p (s, h) a (s', h).
Proof using Type.
  revert s. induction p as [b|X e k IH]; intros s; cbn; [by intros [-> ->]|].
  intros (x & s1 & HR & Hr). exists x, (s1, h). split; [|by apply IH]. split; [|done]. cbn.
  destruct e; cbn in HR |- *; naive_solver.
Qed.

(** Nothing has been installed yet, or the pool is that of one of the states. *)
Definition recent (p : Provider) (h : list Cluster) : Prop :=
  pv_pool p = [] \/ exists c sel, c ∈ h /\ selector_of c (service_of query) = Some sel /\ pool_of p c sel.

Definition tracking (s : Hist) : Prop :=
  provider_wf s.1.1 /\ cluster_wf (w_cluster s.1.2) /\ w_cluster s.1.2 ∈ s.2 /\ recent s.1.1 s.2.

Lemma same_pool_lookup p p' l b :
  same_pool p p' -> pv_heap p !! l = Some b -> exists b', pv_heap p' !! l = Some b' /\ identity b' = identity b.
Proof using Type.
  intros (_ & _ & _ & Hh) Hb. specialize (Hh l). rewrite Hb in Hh. cbn in Hh.
  apply fmap_Some in Hh as (b' & ? & ?). eauto.
Qed.

Lemma same_pool_sym p p' : same_pool p p' -> same_pool p' p.
Proof using Type. intros (? & ? & ? & ?). by split_and!. Qed.

Lemma stands_for_identity n b b' : identity b' = identity b -> stands_for n b -> stands_for n b'.
Proof using Type. unfold stands_for. intros [= -> -> ->]. done. Qed.

Lemma same_pool_wf p p' : same_pool p p' -> provider_wf p -> provider_wf p'.
Proof using Type.
  intros Hs [Hh Hk]. pose proof Hs as (_ & Hkn & Hn & _). split.
  - intros l [b Hb]. rewrite Hn. apply Hh.
    destruct (same_pool_lookup p' p l b (same_pool_sym _ _ Hs) Hb) as (b' & Hb' & _). eauto.
  - intros name l. rewrite Hkn. intros Hl. destruct (Hk name l Hl) as (b & Hb & Hnm).
    destruct (same_pool_lookup p p' l b Hs Hb) as (b' & Hb' & [= Hi _ _]). exists b'. split; congruence.
Qed.

Lemma same_pool_pool_of p p' c sel : same_pool p p' -> pool_of p c sel -> pool_of p' c sel.
Proof using Type.
  intros Hs [Hsnd Hcmp Honce]. pose proof Hs as (Hp & _). split.
  - intros l. rewrite Hp. intros Hl. destruct (Hsnd l Hl) as (b & id & n & Hb & Hn & He & Hst).
    destruct (same_pool_lookup p p' l b Hs Hb) as (b' & Hb' & Hi). exists b', id, n.
    split_and!; [done|done|done|]. by eapply stands_for_identity.
  - intros id n Hn He Hu. destruct (Hcmp id n Hn He Hu) as (l & b & Hl & Hb & Hst).
    destruct (same_pool_lookup p p' l b Hs Hb) as (b' & Hb' & Hi). exists l, b'. rewrite Hp.
    split_and!; [done|done|]. by eapply stands_for_identity.
  - rewrite Hp. intros i j l l' b b' Hi Hj Hb Hb' Hname. apply same_pool_sym in Hs.
    destruct (same_pool_lookup p' p l b Hs Hb) as (b1 & Hb1 & [= Hn1 _ _]).
    destruct (same_pool_lookup p' p l' b' Hs Hb') as (b2 & Hb2 & [= Hn2 _ _]).
    eapply (Honce i j l l' b1 b2); congruence.
Qed.

Lemma tracking_meanwhile s s' : tracking s -> meanwhile s s' -> tracking s'.
Proof using Type.
  intros (Hwf & W & Hc & Hr) (Hs & HW & Hh & Hin). split_and!; [by eapply same_pool_wf|auto|auto|].
  destruct Hr as [He|(c & sel & Hc' & Hsel & Hp)].
  - left. destruct Hs as [-> _]. exact He.
  - right. exists c, sel. split_and!; [set_solver|done|]. by eapply same_pool_pool_of.
Qed.

Lemma installs_tracking (s : Hist) c specs :
  tracking s -> c ∈ s.2 -> fetched_from c (Some specs) -> tracking (refresh (Some specs) s.1.1, s.1.2, s.2).
Proof using Type.
  intros (Hwf & W & Hc & Hr) Hin Hf. unfold fetched_from in Hf.
  destruct (selector_of c (service_of query)) as [sel|] eqn:Hsel; [|done].
  destruct Hf as (bs & [= ->] & Hbs). destruct (refresh_pool_of s.1.1 c sel bs Hwf Hbs) as (Hwf' & _ & Hp).
  split_and!; [done|done|done|]. right. eauto.
Qed.

Lemma refresh_keeps (s : Hist) : tracking s -> keeps_inv hist_rel meanwhile tracking (ConfigProvider_refresh provider) s.
Proof using Type.
  intros _. cbn [ConfigProvider_refresh fetch call mbind prog_mbind prog_bind keeps_inv].
  intros s1 req s2 _ H1 [[Hs2 _] Hh2].
  assert (s2 = s1) as -> by (destruct s1, s2; cbn in *; congruence). split; [done|].
  destruct req as [[]|]; [|exact I]. cbn [keeps_inv prog_bind]. intros s3 resp [[p4 w4] h4] _ H3 [[Hp Hd] Hh4]. cbn in Hp, Hh4, Hd.
  destruct H3 as (Hwf & W & Hc & Hr).
  destruct Hd as [(target & h & r & x & Ht & Hh & Hrun & Hx & ->)|(_ & Hw & err & ->)].
  2:{ subst. split; [by split_and!|exact I]. }
  destruct (answer_fetched _ _ h r x target W Ht Hh Hrun Hx) as [Hcl Hf]. subst p4 h4.
  assert (Htr : tracking (s3.1.1, w4, s3.2)) by (split_and!; cbn; rewrite ?Hcl; done).
  split; [exact Htr|]. destruct (negb (br_StatusCode x =? StatusOK)%Z); [exact I|].
  destruct (br_Decoded x) as [specs|]; [|exact I]. cbn [prog_bind keeps_inv].
  intros s5 [] s6 (_ & _ & Hsub & _) H5 [Hs6 Hh6]. cbn in Hs6, Hsub. split; [|exact I].
  destruct s6 as [s6 h6]. cbn in Hs6, Hh6. subst. apply (installs_tracking s5 (w_cluster s3.1.2) specs H5); [|exact Hf].
  apply Hsub. exact Hc.
Qed.
End Tracking.

(** ** Properties *)

Section Properties.
Context `{UrlLib} `{SliceSort}.

(** C4: Discovery end to end.  A refresh against the control plane over a
    network that delivers comes to an end, changes nothing in the control plane,
    and leaves the pool with exactly the nodes the control plane has: one
    backend for every healthy node that carries the labels of the requested
    service (every healthy node when none is requested), under the node's ID,
    with weight one and the node's address; backends that persist keep their
    health and counters.  When the service is not known the pool is kept. *)
Theorem discovery_tracks_cluster (base : string) (query : option string) (interval : Duration)
    (p : Provider) (w : World) :
  provider_wf p -> cluster_wf (w_cluster w) ->
  (exists s', runs (discovery_rel base true) (ConfigProvider_refresh (provider base query interval)) (p, w) tt s') /\
  wp (discovery_rel base true) (ConfigProvider_refresh (provider base query interval)) (fun _ '(p', w') =>
    w_cluster w' = w_cluster w /\
    match selector_of (w_cluster w) (service_of query) with
    | None => p' = p
    | Some sel => provider_wf p' /\ pool_of p' (w_cluster w) sel /\
        (forall l b, pv_heap p !! l = Some b -> pv_heap p' !! l = Some b)
    end) (p, w).
Proof.
  intros Hwf W. split; [apply refresh_runs|by apply refresh_wp].
Qed.

End Properties.

(** ** The demo cluster behind a proxy *)

Import ToyUrl.

Lemma discovery_tracks_cluster_witness :
  exists s', runs (discovery_rel "http://cp" true)
    (ConfigProvider_refresh (provider "http://cp" (Some "service=svc_1") (5 * Second))) (toy_provider, demo_world) tt s' /\
    provider_wf s'.1.
Proof.
  destruct (discovery_tracks_cluster "http://cp" (Some "service=svc_1") (5 * Second) toy_provider demo_world
    toy_provider_wf demo_wf) as [[s' Hr] Hwp].
  exists s'. split; [exact Hr|]. pose proof (wp_runs _ _ _ _ _ _ Hwp Hr) as Hpost. destruct s' as [p' w'].
  destruct Hpost as [_ Hpost].
  assert (Hsel : selector_of (w_cluster demo_world) (service_of (Some "service=svc_1")) = Some (Service_Selector demo_service)) by (vm_compute; reflexivity).
  rewrite Hsel in Hpost. apply Hpost.
Defined.

(** The pool after a refresh on the demo cluster. *)
Example demo_discovered :
  let p := refresh (Some (spec_of <$> [mkBackendSpec "node_1" "http://localhost:9100" 1])) toy_provider in
  (fun b => (b_Name b, b_URL b)) <$> (pv_pool p ≫= fun l => option_list (pv_heap p !! l))
  = [("node_1", "http://localhost:9100")].
Proof. vm_compute. reflexivity. Qed.

(** The loop has installed the backends of the demo cluster. *)
Lemma demo_loop :
  exists st s', rtc (alone_step (hist_rel "http://cp") meanwhile (ConfigProvider_Run (provider "http://cp" None Second)))
    (loop_start (ConfigProvider_Run (provider "http://cp" None Second)), (mkProvider ∅ 0 [] ∅, demo_world, [demo_cluster]))
    (st, s') /\ pv_pool s'.1.1 <> [].
Proof.
  destruct (refresh_runs "http://cp" None Second (mkProvider ∅ 0 [] ∅) demo_world) as [s' Hr].
  exists (LFirst (Ret tt)), (s', [demo_cluster]). split.
  - eapply (runs_alone (hist_rel "http://cp") _ _ (LFirst _)); [done|]. by apply runs_hist.
  - assert (Hwf : provider_wf (mkProvider ∅ 0 [] ∅)).
    { split; cbn; [intros l [b Hb]|intros name l Hl]; by rewrite lookup_empty in *. }
    pose proof (wp_runs _ _ _ _ _ _ (refresh_wp "http://cp" None Second _ demo_world Hwf demo_wf) Hr) as Hp.
    destruct s' as [p' w']. destruct Hp as [_ Hp].
    change (selector_of (w_cluster demo_world) (service_of None)) with (Some (∅ : gmap string string)) in Hp.
    destruct Hp as (_ & Hpool & _).
    assert (Hn : exists n, nodes demo_cluster !! "node_1" = Some n /\ Node_Status n = NodeHealthy /\
      is_Some (url_Parse (Node_Address n))) by (eexists; vm_compute; split_and!; eauto).
    destruct Hn as (n & Hn & Hh & Hu).
    destruct (po_complete _ _ _ Hpool "node_1" n Hn) as (l & b & Hl & _); [|done|].
    + split; [done|]. intros k v Hk. by rewrite lookup_empty in Hk.
    + cbn. intros He. rewrite He in Hl. by apply not_elem_of_nil in Hl.
Qed.

