(* ===== verification/ControlPlaneProcess.v ===== *)
(** * control-plane/cmd/control-plane: the process

    [main] from the moment its settings are read: it starts the scheduler's and
    the reconciler's ticker loops and the HTTP server, waits for a signal, and
    shuts the server down.  [proc_step] interleaves these goroutines with one
    goroutine per request.  Every run of the process is a run of the system of
    [Concurrency], so what is proved there holds of the process; what is added
    is the life of the process itself: when it panics, what it still does after
    the signal, and when it exits. *)

From S2P Require Import Prelude GoText Model Store Runtime Fixtures Scheduler Reconciler Replicas Api.
From S2P Require Import Concurrency Http GoFormat Settings Ticker.
From Stdlib Require Import ZArith Lia.
From stdpp Require Import base gmap strings list relations.

(** ** scheduler.go, reconciler.go and handlers.go: constructors and loops *)

Record Scheduler := mkScheduler { sc_interval : Duration; sc_stats : Stats }.
Definition Scheduler_New (interval : Duration) : Scheduler := mkScheduler interval zeroStats.

Record Reconciler := mkReconciler { rc_interval : Duration; rc_heartbeatTimeout : Duration }.
Definition Reconciler_New (interval heartbeatTimeout : Duration) : Reconciler :=
  mkReconciler interval heartbeatTimeout.

(** The store is shared; what a handler asks of its scheduler is whether there
    is one. *)
Record Handlers := mkHandlers { h_scheduler : option Scheduler }.
Definition NewHandlers (sched : option Scheduler) : Handlers := mkHandlers sched.
Definition has_scheduler (h : Handlers) : bool := match h_scheduler h with Some _ => true | None => false end.

Section Loops.
Context `{SliceSort} (conv : Z -> Z).

Definition Scheduler_Run (s : Scheduler) : Loop CpE := mkLoop false (sc_interval s) Scheduler.Tick.

Definition Reconciler_Run (rc : Reconciler) : Loop CpE :=
  mkLoop false (rc_interval rc) (Reconciler.Tick conv (rc_heartbeatTimeout rc)).
End Loops.

(** ** server.go *)

Record Server := mkServer { sv_addr : string; sv_handlers : Handlers }.
Definition NewServer (addr : string) (h : Handlers) : Server := mkServer addr h.

(** ** main *)

Inductive MainState :=
| MServing                     (* at <-ctx.Done() *)
| MShutdown                    (* in srv.Shutdown *)
| MExited (timed_out : bool).  (* [main] has returned *)

Record Proc := mkProc {
  pr_signalled : bool;
  pr_scheduler : LoopState CpE;
  pr_reconciler : LoopState CpE;
  pr_server : ServerState;
  pr_requests : list (prog CpE unit);   (* accepted and not answered *)
  pr_main : MainState }.

(** A panic of any goroutine, or the return of [main], ends the process. *)
Definition running (P : Proc) : bool :=
  match pr_scheduler P, pr_reconciler P, pr_main P with
  | LPanicked, _, _ | _, LPanicked, _ | _, _, MExited _ => false
  | _, _, _ => true
  end.

Section Process.
Context `{SliceSort} (fl : bool) (conv : Z -> Z) (sched : Scheduler) (rec : Reconciler) (srv : Server).

Definition proc_start : Proc :=
  mkProc false (loop_start (Scheduler_Run sched)) (loop_start (Reconciler_Run conv rec)) SvStarting [] MServing.

Definition with_scheduler (s : LoopState CpE) (P : Proc) : Proc :=
  mkProc (pr_signalled P) s (pr_reconciler P) (pr_server P) (pr_requests P) (pr_main P).
Definition with_reconciler (s : LoopState CpE) (P : Proc) : Proc :=
  mkProc (pr_signalled P) (pr_scheduler P) s (pr_server P) (pr_requests P) (pr_main P).
Definition with_server (s : ServerState) (P : Proc) : Proc :=
  mkProc (pr_signalled P) (pr_scheduler P) (pr_reconciler P) s (pr_requests P) (pr_main P).
Definition with_requests (rs : list (prog CpE unit)) (P : Proc) : Proc :=
  mkProc (pr_signalled P) (pr_scheduler P) (pr_reconciler P) (pr_server P) rs (pr_main P).
Definition with_main (m : MainState) (P : Proc) : Proc :=
  mkProc (pr_signalled P) (pr_scheduler P) (pr_reconciler P) (pr_server P) (pr_requests P) m.
Definition signalled (P : Proc) : Proc :=
  mkProc true (pr_scheduler P) (pr_reconciler P) (pr_server P) (pr_requests P) (pr_main P).

(** The goroutine of one request. *)
Definition handle (req : Request) : prog CpE unit := _ ← NewRouter (has_scheduler (sv_handlers srv)) req; Ret tt.

Inductive proc_step : Proc * World -> Proc * World -> Prop :=
| pc_signal P w : running P = true -> proc_step (P, w) (signalled P, w)
| pc_sched P w s : running P = true ->
    loop_step (Scheduler_Run sched) (pr_signalled P) (pr_scheduler P) s ->
    proc_step (P, w) (with_scheduler s P, w)
| pc_sched_op P w X (e : CpE X) k x w' : running P = true ->
    loop_prog (pr_scheduler P) = Some (Vis e k) -> cp_rel fl X e w x w' ->
    proc_step (P, w) (with_scheduler (loop_with (pr_scheduler P) (k x)) P, w')
| pc_rec P w s : running P = true ->
    loop_step (Reconciler_Run conv rec) (pr_signalled P) (pr_reconciler P) s ->
    proc_step (P, w) (with_reconciler s P, w)
| pc_rec_op P w X (e : CpE X) k x w' : running P = true ->
    loop_prog (pr_reconciler P) = Some (Vis e k) -> cp_rel fl X e w x w' ->
    proc_step (P, w) (with_reconciler (loop_with (pr_reconciler P) (k x)) P, w')
| pc_listen P w ok : running P = true -> pr_server P = SvStarting ->
    proc_step (P, w) (with_server (if ok : bool then SvServing else SvFailed) P, w)
| pc_serve_error P w : running P = true -> pr_server P = SvServing ->   (* a listener that fails *)
    proc_step (P, w) (with_server SvFailed P, w)
| pc_accept P w req : running P = true -> pr_server P = SvServing ->
    proc_step (P, w) (with_requests (pr_requests P ++ [handle req]) P, w)
| pc_request_op P w rs1 X (e : CpE X) k rs2 x w' : running P = true ->
    pr_requests P = rs1 ++ Vis e k :: rs2 -> cp_rel fl X e w x w' ->
    proc_step (P, w) (with_requests (rs1 ++ k x :: rs2) P, w')
| pc_answered P w rs1 rs2 : running P = true -> pr_requests P = rs1 ++ Ret tt :: rs2 ->
    proc_step (P, w) (with_requests (rs1 ++ rs2) P, w)
| pc_shutdown P w : running P = true -> pr_main P = MServing -> pr_signalled P = true ->
    proc_step (P, w) (with_main MShutdown (with_server SvClosed P), w)
| pc_drained P w : running P = true -> pr_main P = MShutdown -> pr_requests P = [] ->
    proc_step (P, w) (with_main (MExited false) P, w)
| pc_timeout P w : running P = true -> pr_main P = MShutdown ->
    proc_step (P, w) (with_main (MExited true) P, w).

Definition proc_steps : Proc * World -> Proc * World -> Prop := rtc proc_step.

(** ** The process is an instance of the concurrent system *)

(** The programs under way. *)
Definition progs (P : Proc) : list (prog CpE unit) :=
  option_list (loop_prog (pr_scheduler P)) ++ option_list (loop_prog (pr_reconciler P)) ++ pr_requests P.

(** What is started. *)
Local Abbreviation starts := (entry conv (rc_heartbeatTimeout rec) (has_scheduler (sv_handlers srv))).

Lemma proc_step_progs P w P' w' :
  proc_step (P, w) (P', w') -> progs_step (cp_rel fl) starts w (progs P) (progs P') w'.
Proof using Type.
  intros Hs. inversion Hs; subst; unfold progs; cbn; try (apply pp_same; reflexivity).
  - eapply (loop_progs _ _ (Scheduler_Run sched) _ _ _ []); [constructor|eassumption].
  - by eapply (loop_op_progs _ _ _ _ _ _ _ _ _ []).
  - eapply (loop_progs _ _ (Reconciler_Run conv rec) _ _ _ (option_list _)); [constructor|eassumption].
  - by eapply loop_op_progs.
  - eapply (pp_start _ _ _ (handle _)); [apply entry_request|]. rewrite !app_assoc. by rewrite <- Permutation_cons_append.
  - match goal with Hr : pr_requests P = _ |- _ => rewrite Hr end. rewrite !app_assoc. by apply op_progs.
  - apply pp_finish. match goal with Hr : pr_requests P = _ |- _ => rewrite Hr end. rewrite !app_assoc. by rewrite <- Permutation_middle.
Qed.

(** The system has the programs of the process, and threads that are done. *)
Definition simulated (w0 : World) (c : Proc * World) : Prop :=
  exists ts extra, csteps fl conv (rc_heartbeatTimeout rec) (has_scheduler (sv_handlers srv)) ([], w0) (ts, c.2) /\
    ts ≡ₚ (Running <$> progs c.1) ++ extra.

Lemma proc_step_simulated w0 c c' : proc_step c c' -> simulated w0 c -> simulated w0 c'.
Proof using Type.
  destruct c as [P w], c' as [P' w']. intros Hs (ts & extra & Hcs & Hts). cbn in *.
  apply proc_step_progs in Hs. unfold simulated. cbn [fst snd].
  remember (progs P) as ps0 eqn:E0. remember (progs P') as ps1 eqn:E1. clear E0 E1. destruct Hs as [ps ps' Hp|p ps ps' He Hp|X e k x w' ps ps' rest HR Hp Hp'|ps ps' Hp|p ps ps' rest He Hp Hp'].
  - exists ts, extra. split; [done|]. by rewrite Hts, Hp.
  - exists (ts ++ [Running p]), extra. split; [eapply rtc_r; [exact Hcs|by apply cs_start]|].
    rewrite Hp, Hts. cbn. by rewrite <- Permutation_cons_append.
  - rewrite Hp in Hts. cbn in Hts. symmetry in Hts.
    destruct (Permutation_cons_inv_l _ _ _ Hts) as (l1 & l2 & -> & Hrest).
    exists (l1 ++ Running (k x) :: l2), extra. split; [eapply rtc_r; [exact Hcs|by apply cs_step]|].
    rewrite Hp'. cbn. by rewrite <- Permutation_middle, Hrest.
  - exists ts, (Running (Ret tt) :: extra). split; [done|]. rewrite Hts, Hp. cbn. by rewrite Permutation_middle.
  - exists (ts ++ [Running p]), (Running (Ret tt) :: extra). split; [eapply rtc_r; [exact Hcs|by apply cs_start]|].
    rewrite Hp', Hts, Hp, Permutation_app_comm. cbn. apply Permutation_skip, Permutation_middle.
Qed.

Lemma proc_steps_simulated w P w' : proc_steps (proc_start, w) (P, w') -> simulated w (P, w').
Proof using Type.
  intros Hs. assert (H0 : simulated w (proc_start, w)) by (exists [], []; by split; [apply rtc_refl|]).
  revert H0. unfold proc_steps in Hs. generalize dependent (P, w'). intros c Hs.
  induction Hs as [c0|c1 c2 c3 H12 _ IH]; [done|]. intros H1. apply IH. by eapply proc_step_simulated.
Qed.

(** ** The life of the process *)

(** The loops panic only on a bad interval; [main] shuts down only after a
    signal, with the server closed, and only a process that answered everything
    exits without a timeout. *)
Record proc_ok (P : Proc) : Prop := {
  po_sched : loop_safe (Scheduler_Run sched) (pr_scheduler P);
  po_rec : loop_safe (Reconciler_Run conv rec) (pr_reconciler P);
  po_closed : pr_main P <> MServing -> pr_signalled P = true /\ pr_server P = SvClosed;
  po_drained : pr_main P = MExited false -> pr_requests P = [] }.

Lemma running_main P t : running P = true -> pr_main P <> MExited t.
Proof using Type. unfold running. intros Hr Hm. rewrite Hm in Hr. by destruct (pr_scheduler P), (pr_reconciler P). Qed.

Lemma proc_start_ok : proc_ok proc_start.
Proof using Type. split; try done; apply loop_start_safe. Qed.

Lemma proc_step_ok c c' : proc_step c c' -> proc_ok c.1 -> proc_ok c'.1.
Proof using Type.
  intros Hs [H1 H2 H3 H4]. inversion Hs; subst; cbn [fst] in *;
    match goal with Hr : running ?P = true |- _ => pose proof (running_main P false Hr) as Hm end;
    split; cbn; try done; eauto using loop_step_safe, loop_with_safe.
  - intros Hn. by destruct (H3 Hn).
  - intros Hn. destruct (H3 Hn); congruence.
  - intros Hn. destruct (H3 Hn); congruence.
  - intros _. apply H3. congruence.
  - intros _. apply H3. congruence.
Qed.

Lemma proc_steps_ok c c' : proc_steps c c' -> proc_ok c.1 -> proc_ok c'.1.
Proof using Type. induction 1 as [|c1 c2 c3 H12 _ IH]; [done|]. intros. eapply IH, proc_step_ok; eauto. Qed.

(** A request under way can be brought to its end. *)
Lemma request_answered (p : prog CpE unit) rs P w :
  running P = true -> pr_requests P = p :: rs -> exists w', proc_steps (P, w) (with_requests rs P, w').
Proof using Type.
  intros Hr Hp. destruct (cp_runs_total fl p w) as (a & w' & Hruns). exists w'.
  revert P w Hr Hp Hruns. induction p as [[]|X e k IH]; intros P w Hr Hp.
  - intros [_ ->]. apply rtc_once. by apply (pc_answered P w [] rs).
  - intros (x & w1 & HR & Hruns). eapply rtc_l; [by apply (pc_request_op P w [] X e k rs x w1)|].
    apply (IH x (with_requests ([] ++ k x :: rs) P) w1); done.
Qed.

Lemma requests_drained P w : running P = true -> exists w', proc_steps (P, w) (with_requests [] P, w').
Proof using Type.
  remember (pr_requests P) as rs eqn:E. revert P w E. induction rs as [|p rs IH]; intros P w E Hr.
  { exists w. destruct P. cbn in E. subst. apply rtc_refl. }
  destruct (request_answered p rs P w Hr (eq_sym E)) as [w1 H1].
  destruct (IH (with_requests rs P) w1 eq_refl Hr) as [w2 H2]. exists w2. unfold proc_steps in *. by etrans.
Qed.

(** Once the signal has come the process can answer what it has accepted and
    exit, whatever its loops are doing. *)
Lemma proc_can_exit P w :
  running P = true -> pr_signalled P = true ->
  exists P' w', proc_steps (P, w) (P', w') /\ pr_main P' = MExited false.
Proof using Type.
  intros Hr Hsig.
  assert (Hm : exists Q, proc_steps (P, w) (Q, w) /\ running Q = true /\ pr_main Q = MShutdown).
  { destruct (pr_main P) as [| |t] eqn:Hmain; [|by exists P; split; [apply rtc_refl|]|by destruct (running_main P t Hr)].
    eexists. split; [by apply rtc_once, pc_shutdown|]. split; [|done].
    unfold running in *. cbn. destruct (pr_scheduler P), (pr_reconciler P); try done; by rewrite Hmain in Hr. }
  destruct Hm as (Q & HPQ & HrQ & HmQ). destruct (requests_drained Q w HrQ) as [w1 HQ1].
  exists (with_main (MExited false) (with_requests [] Q)), w1. split; [|done].
  unfold proc_steps in *. etrans; [exact HPQ|]. eapply rtc_r; [exact HQ1|]. by apply pc_drained.
Qed.

Lemma stopped_no_step P w c : running P = false -> ~ proc_step (P, w) c.
Proof using Type. intros Hr Hs. inversion Hs; congruence. Qed.

End Process.

(** ** Properties *)

(** The parts [main] makes of its plan. *)
Definition plan_scheduler (plan : ControlPlanePlan) : Scheduler := Scheduler_New (cpl_scheduler plan).
Definition plan_reconciler (plan : ControlPlanePlan) : Reconciler :=
  Reconciler_New (cpl_reconciler plan).1 (cpl_reconciler plan).2.
Definition plan_server (plan : ControlPlanePlan) : Server :=
  NewServer (cpl_addr plan) (NewHandlers (Some (plan_scheduler plan))).

Section Properties.
Context `{SliceSort}.

(** The process as [main] starts it from its plan. *)
Definition process (fl : bool) (conv : Z -> Z) (plan : ControlPlanePlan) : Proc * World -> Proc * World -> Prop :=
  proc_steps fl conv (plan_scheduler plan) (plan_reconciler plan) (plan_server plan).
Definition process_start (conv : Z -> Z) (plan : ControlPlanePlan) : Proc :=
  proc_start conv (plan_scheduler plan) (plan_reconciler plan).


End Properties.

(** ** A short life *)

(** The plan of an empty environment. *)
Definition default_plan : ControlPlanePlan :=
  match control_plane_main (fun _ => EmptyString) (fun _ => true) with inl plan => plan | inr _ =>
    mkControlPlanePlan UseMemory (LevelInfo, JSONHandler) 0 (0%Z, 0%Z) EmptyString 0 end.

(** The scheduler is in a pass, one request has been answered, one is under way
    when the signal comes, and [main] waits for it. *)
Definition late_state : Proc :=
  mkProc true (LBody Scheduler.Tick) LNewTicker SvClosed [handle (plan_server default_plan) RReadyz] MShutdown.

Lemma late_reached : process true (fun z => z) default_plan (process_start (fun z => z) default_plan, demo_world) (late_state, demo_world).
Proof.
  unfold process, proc_steps.
  eapply rtc_l; [apply pc_sched; [reflexivity|]; apply ls_ticker; vm_compute; reflexivity|].
  eapply rtc_l; [apply (pc_listen _ _ _ _ _ _ _ true); reflexivity|].
  eapply rtc_l; [apply (pc_accept _ _ _ _ _ _ _ RHealthz); reflexivity|].
  eapply rtc_l; [apply (pc_answered _ _ _ _ _ _ _ [] []); reflexivity|].
  eapply rtc_l; [apply pc_sched; [reflexivity|]; apply ls_tick|].
  eapply rtc_l; [apply (pc_accept _ _ _ _ _ _ _ RReadyz); reflexivity|].
  eapply rtc_l; [apply pc_signal; reflexivity|].
  eapply rtc_l; [apply pc_shutdown; reflexivity|].
  apply rtc_refl.
Qed.


