(* ===== verification/WorkerProcess.v ===== *)
(** * control-plane/cmd/worker: the process

    [main] of the node agent: settings, Docker client, the listener for metrics
    and health checks, [agent.Run], and the exit.  The agent is the system of
    [Agent]; this file adds the listener and the life of the process around it. *)

From S2P Require Import Prelude GoText Model Agent AgentProperties AgentShutdown AgentPods.
From S2P Require Import Http ServeMux GoFormat Settings Ticker.
From Stdlib Require Import ZArith Lia.
From stdpp Require Import base gmap strings list relations.

(** ** Setting up *)

(** The mux of the listener: path and what is written. *)
Inductive Page := Static (body : string) | Prometheus.

Definition worker_pages : list (string * Page) :=
  [("/healthz", Static ("{" +:+ Quote "status" +:+ ":" +:+ Quote "ok" +:+ "}"));
   ("/readyz", Static ("{" +:+ Quote "status" +:+ ":" +:+ Quote "ready" +:+ "}"));
   ("/metrics", Prometheus)].

Record WorkerPlan := mkWorkerPlan {
  wk_logger : Level * LogFormat;
  wk_cfg : Config;
  wk_slots : Z;                  (* of the agent's semaphore *)
  wk_patterns : list Pattern;
  wk_addr : string }.

Inductive WorkerStart :=
| WorkerExits (status : Z)
| WorkerPanics               (* mux.Handle *)
| WorkerRuns (plan : WorkerPlan).

(** [newClient]: the error of the third-party Docker client's constructor. *)
Definition worker_main (env : string -> string) (hostname : string) (newClient : list DockerOpt -> option string)
    : WorkerStart :=
  let logger := NewLogger (worker_envString env "WORKER_LOG_LEVEL" "info") (worker_envString env "WORKER_LOG_FORMAT" "json") in
  let '(cfg, metricsPort) := worker_settings env hostname in
  match Agent.New newClient cfg with
  | inr _ => WorkerExits 1
  | inl slots =>
      match mux_handle_all [] worker_pages.*1 with
      | None => WorkerPanics
      | Some pats => WorkerRuns (mkWorkerPlan logger cfg slots pats (":" +:+ itoa metricsPort))
      end
  end.

(** ** Running *)

Inductive WorkerMain :=
| WRunning                  (* in agent.Run *)
| WShutdown                 (* in metricsSrv.Shutdown *)
| WExited (status : Z)
| WPanicked.

Record Worker := mkWorker {
  wk_agent : System;
  wk_listener : ServerState;
  wk_scrapes : nat;         (* requests the listener is serving *)
  wk_main : WorkerMain }.

(** A goroutine about to panic: its ticker's interval is not positive. *)
Definition panicking (s : System) : Prop :=
  exists i g k, s_threads s !! i = Some (g, @Vis AgE unit _ EPanic k).

Definition with_agent (s : System) (W : Worker) : Worker := mkWorker s (wk_listener W) (wk_scrapes W) (wk_main W).
Definition with_listener (l : ServerState) (n : nat) (W : Worker) : Worker := mkWorker (wk_agent W) l n (wk_main W).
Definition with_wmain (m : WorkerMain) (W : Worker) : Worker := mkWorker (wk_agent W) (wk_listener W) (wk_scrapes W) m.

Definition alive (W : Worker) : bool := match wk_main W with WRunning | WShutdown => true | _ => false end.

Section Process.
Context (conv : float64 -> Z) (cfg : Config) (fuel : nat).

Definition worker_start : Worker := mkWorker (agent_start cfg) SvStarting 0 WRunning.

Inductive worker_step : Worker -> Worker -> Prop :=
| ws_agent W s : alive W = true -> agent_step conv cfg fuel (wk_agent W) s -> worker_step W (with_agent s W)
| ws_panic W : alive W = true -> panicking (wk_agent W) -> worker_step W (with_wmain WPanicked W)
| ws_listen W ok : alive W = true -> wk_listener W = SvStarting ->
    worker_step W (with_listener (if ok : bool then SvServing else SvFailed) 0 W)
| ws_scrape W : alive W = true -> wk_listener W = SvServing ->
    worker_step W (with_listener SvServing (S (wk_scrapes W)) W)
| ws_scraped W n : alive W = true -> wk_scrapes W = S n ->
    worker_step W (with_listener (wk_listener W) n W)
| ws_failed W err : wk_main W = WRunning -> s_main (wk_agent W) = Ret (Some err) ->
    worker_step W (with_wmain (WExited 1) W)
| ws_returned W : wk_main W = WRunning -> s_main (wk_agent W) = Ret None ->
    worker_step W (with_wmain WShutdown (with_listener SvClosed (wk_scrapes W) W))
| ws_exit W : wk_main W = WShutdown ->      (* drained, or after two seconds *)
    worker_step W (with_wmain (WExited 0) W).

(** ** What the process inherits from the agent *)

(** The agent inside is always a reachable one; after [main] has left [Run]
    it has returned. *)
Definition worker_inv (W : Worker) : Prop :=
  rtc (agent_step conv cfg fuel) (agent_start cfg) (wk_agent W) /\
  match wk_main W with
  | WRunning => True
  | WPanicked => panicking (wk_agent W)
  | WShutdown => s_main (wk_agent W) = Ret None
  | WExited status =>
      (status = 0%Z /\ s_main (wk_agent W) = Ret None) \/
      (status = 1%Z /\ exists err, s_main (wk_agent W) = Ret (Some err))
  end.

Lemma agent_step_returned s s' r : agent_step conv cfg fuel s s' -> s_main s = Ret r -> s_main s' = Ret r.
Proof using Type. intros Hs Hm. by destruct Hs. Qed.

Lemma worker_step_inv W W' : worker_step W W' -> worker_inv W -> worker_inv W'.
Proof using Type.
  intros Hs [Hr Hm]. destruct Hs as [W s Ha Hs|W Ha Hp|W ok Ha Hl|W Ha Hl|W n Ha Hn|W err Hw Hrun|W Hw Hrun|W Hw].
  - split; [by eapply rtc_r|]. cbn. unfold alive in Ha. destruct (wk_main W); try done.
    by eapply agent_step_returned.
  - by split.
  - by split.
  - by split.
  - by split.
  - split; [done|]. cbn. eauto.
  - by split.
  - split; [done|]. cbn. rewrite Hw in Hm. auto.
Qed.

Lemma worker_inv_reachable W : rtc worker_step worker_start W -> worker_inv W.
Proof using Type.
  revert W. apply rtc_ind_r; [split; [apply rtc_refl|done]|]. intros W W' _ Hs. by apply worker_step_inv.
Qed.
End Process.

(** *** A worker that cannot register starts nothing *)

(** Whether a goroutine has been started. *)
Definition started X (e : AgE X) (b : bool) : bool := match e with EGo _ => true | _ => b end.

Definition fails_idle (p : prog AgE (option string)) (b : bool) : Prop :=
  gwp (fun _ _ _ => True) (fun X e b _ b' => b' = started X e b) p
    (fun r b => forall err, r = Some err -> b = false) b.

Lemma fails_idle_none {A} (p : prog AgE A) (f : A -> prog AgE (option string)) b :
  only (fun X e => match e with EGo _ => false | _ => true end) p -> (forall a, fails_idle (f a) b) ->
  fails_idle (p ≫= f) b.
Proof.
  intros Hp Hf. induction p as [a|X e k IH]; [apply Hf|]. destruct Hp as [He Hk]. split; [done|].
  intros x b' ->. replace (started X e b) with b by (by destruct e). by apply IH.
Qed.

Lemma returns_none_idle (p : prog AgE (option string)) b :
  gwp (fun _ _ _ => True) (fun _ _ _ _ _ => True) p (fun r _ => r = None) b -> fails_idle p b.
Proof.
  revert b. induction p as [a|X e k IH]; intros b; cbn; [by intros -> err|].
  intros [_ Hk]. split; [done|]. intros x b' ->. apply IH. by apply Hk.
Qed.

Lemma Run_fails_idle cfg : fails_idle (Agent.Run cfg) false.
Proof.
  unfold Agent.Run. apply fails_idle_none.
  - eapply only_mono; [|apply only_register]. by intros X [].
  - intros [err|]; [by intros e _|]. apply returns_none_idle. unfold run_registered.
    do 5 (apply gwp_call; [done|]; intros [] ? _). apply gwp_call; [done|]. intros [|] ? _; repeat split.
Qed.

Lemma idle_reachable conv cfg fuel s :
  rtc (agent_step conv cfg fuel) (agent_start cfg) s ->
  exists b, fails_idle (s_main s) b /\ (s_threads s <> [] -> b = true).
Proof.
  revert s. apply rtc_ind_r; [exists false; split; [apply Run_fails_idle|done]|].
  intros s s' _ Hs (b & Hi & Ht). destruct Hs as [X e k x ts p p' HR|i g X e k x m ts p p' Hi' HR|m ts p]; cbn in *.
  - destruct Hi as [_ Hk]. exists (started X e b). split; [by apply Hk|].
    intros Hne. destruct (decide (ts = [])) as [->|]; [|rewrite (Ht n); by destruct e]. by destruct e.
  - exists b. split; [done|]. intros _. apply Ht. by intros ->.
  - exists b. by split.
Qed.

(** *** No panic when the intervals are positive *)

Definition calm_op X (e : AgE X) : bool := match e with EPanic => false | _ => true end.

Lemma tick_loop_calm fuel step : only calm_op step -> only calm_op (tick_loop fuel step).
Proof. intros Hs. induction fuel as [|fuel IH]; cbn; [by split|]. split; [done|]. intros [|]; [|done]. by apply only_bind. Qed.

Lemma pollOnce_calm a : only calm_op (pollOnce a).
Proof.
  unfold pollOnce. apply only_bind; [by split|]. intros [|]; [|done]. cbn [negb]. apply only_bind.
  - eapply only_mono; [|apply only_get]. by intros X [].
  - intros [[pod|]|]; by repeat split.
Qed.

Lemma goroutine_calm conv cfg id fuel g :
  worker_starts cfg = true -> only calm_op (goroutine conv (mkAgent cfg id) fuel g).
Proof.
  unfold worker_starts. rewrite andb_true_iff, !Z.ltb_lt. intros [Hh Hp].
  destruct g; cbn [goroutine]; unfold heartbeatLoop, pollLoop, with_ticker; cbn [a_cfg].
  - rewrite (proj2 (Z.leb_gt _ _) Hh). apply only_bind; [|by split]. apply tick_loop_calm.
    eapply only_mono; [|apply only_heartbeat]. by intros X [].
  - rewrite (proj2 (Z.leb_gt _ _) Hp). apply only_bind; [|by split]. apply tick_loop_calm, pollOnce_calm.
  - by repeat split.
  - unfold pod_goroutine. apply only_bind; [|by repeat split].
    eapply only_mono; [|apply only_runPod]. by intros X [].
Qed.

Lemma never_panicking conv cfg fuel s :
  worker_starts cfg = true -> rtc (agent_step conv cfg fuel) (agent_start cfg) s -> ~ panicking s.
Proof.
  intros Hpos Hr. assert (Hall : Forall (fun gp => only calm_op gp.2) (s_threads s)).
  { revert s Hr. apply rtc_ind_r; [constructor|]. intros s s' _ Hs Ht.
    assert (Hnew : forall id gs, Forall (fun gp => only calm_op gp.2) (start_all conv cfg fuel id gs)).
    { intros id gs. apply Forall_fmap, Forall_true. intros g. by apply goroutine_calm. }
    destruct Hs as [X e k x ts p p' HR|i g X e k x m ts p p' Hi HR|m ts p]; cbn in *; [by apply Forall_app| |done].
    apply Forall_app. split; [|done]. apply Forall_insert; [done|].
    rewrite Forall_lookup in Ht. destruct (Ht _ _ Hi) as [_ Hk]. apply Hk. }
  intros (i & g & k & Hi). rewrite Forall_lookup in Hall. destruct (Hall _ _ Hi) as [Hbad _]. discriminate Hbad.
Qed.

(** ** Properties *)

(** How a worker process has ended, if it has. *)
Definition worker_verdict (W : Worker) : Prop :=
  let s := wk_agent W in
  match wk_main W with
  | WRunning | WShutdown => True
  | WPanicked => panicking s
  | WExited status =>
      (status = 0%Z /\ p_done (s_proc s) = true /\ p_drained (s_proc s) = true /\
        Forall (fun gp => gp.1 = GHeartbeat \/ gp.1 = GPoll -> live gp.2 = false) (s_threads s) /\ (live_pods s <= 1)%Z) \/
      (status = 1%Z /\ s_threads s = [] /\ exists err, s_main s = Ret (Some err))
  end.

Lemma worker_verdict_reachable conv cfg fuel W : rtc (worker_step conv cfg fuel) (worker_start cfg) W -> worker_verdict W.
Proof.
  intros Hr. destruct (worker_inv_reachable conv cfg fuel W Hr) as [Hs Hm]. unfold worker_verdict.
  destruct (wk_main W) as [| |status|]; try done. destruct Hm as [[-> Hrun]|[-> [err Hrun]]].
  - left. split; [done|]. by eapply Run_drains.
  - right. split; [done|]. split; [|by exists err].
    destruct (idle_reachable _ _ _ _ Hs) as (b & Hi & Ht). rewrite Hrun in Hi. specialize (Hi err eq_refl).
    destruct (s_threads (wk_agent W)); [done|]. by rewrite Ht in Hi.
Qed.


(** A worker whose control plane URL is no URL. *)
Definition default_cfg : Config := (worker_settings (fun _ => EmptyString) "host").1.

Lemma refused_reached : exists W, rtc (worker_step (fun _ => 0%Z) default_cfg 3) (worker_start default_cfg) W /\
  wk_main W = WExited 1.
Proof.
  eexists. split.
  - eapply rtc_l; [apply ws_agent; [reflexivity|]; apply (as_main _ _ _ _ _ _ (inr "missing scheme")); reflexivity|].
    eapply rtc_l; [eapply ws_failed; reflexivity|]. apply rtc_refl.
  - reflexivity.
Qed.

