(* ===== verification/ProxyProcess.v ===== *)
(** * reverse-proxy-load-balancer/cmd/proxy: the process

    [main] from the moment it serves: the health checker's loop, the discovery
    loop, the server with one goroutine per request, the signal and the
    shutdown.  Every run is a run of the proxy of [ProxyHandlerProperties]
    (requests, checks and refreshes in any order), whose accounting of
    connections therefore holds of the process, up to its exit. *)

From S2P Require Import Prelude GoText Http ServeMux Settings Proxy ProxyProperties.
From S2P Require Import ProxyHandler ProxyHandlerProperties ProxyConfig ProxyMain Ticker Discovery.
From Stdlib Require Import ZArith Lia.
From stdpp Require Import base gmap strings list relations.

(** ** health/checker.go: the loop *)

(** [checkAll] loads the pool, starts a goroutine per backend and waits for all
    of them.  [HComplete pending]: one of the pending goroutines has its probe
    answered and records it; the result is its position. *)
Inductive HcE : Type -> Type :=
| HBackends : HcE (list nat)
| HComplete (pending : list nat) : HcE nat.

Fixpoint await_checks (n : nat) (pending : list nat) : prog HcE unit :=
  match n with
  | O => Ret tt
  | S n => i ← call (HComplete pending); await_checks n (delete i pending)
  end.

Definition checkAll_round : prog HcE unit :=
  backends ← call HBackends;
  await_checks (length backends) backends.

Definition Checker_Run (interval : Duration) : Loop HcE := mkLoop true interval checkAll_round.

(** ** The goroutines of the process *)

Inductive PxMain :=
| PServing                  (* at <-stop *)
| PShutdown                 (* cancelled, in srv.Shutdown *)
| PExited (status : Z).

Section Process.
Context `{UrlLib}.
Local Abbreviation World := (PxWorld (S := AnyBalancer)) (only parsing).
Local Abbreviation Thread := (prog PxE unit * list Obs)%type (only parsing).

Record PxProc := mkPxProc {
  xp_cancelled : bool;                   (* ctx *)
  xp_checker : option (LoopState HcE);   (* None: health checks are off *)
  xp_discovery : option (LoopState DcE);
  xp_server : ServerState;
  xp_requests : list Thread;             (* accepted and not answered *)
  xp_main : PxMain }.

(** The parts of a started proxy that go on running. *)
Definition discovery_of (a : App) : option ConfigProvider :=
  match app_discovery a with Some (url, interval) => Some (NewConfigProvider url interval) | None => None end.

(** Its thresholds; any will do when there is no checker. *)
Definition checker_of (a : App) : Checker :=
  match app_checker a with Some (c, _) => c | None => NewChecker 0 0 end.

Definition px_start (a : App) : PxProc :=
  mkPxProc false
    (match app_checker a with Some (_, hc) => Some (loop_start (Checker_Run (hc_Interval hc))) | None => None end)
    (match discovery_of a with Some c => Some (loop_start (ConfigProvider_Run c)) | None => None end)
    SvStarting [] PServing.

Definition px_running (P : PxProc) : bool :=
  match xp_checker P, xp_discovery P, xp_main P with
  | Some LPanicked, _, _ | _, Some LPanicked, _ | _, _, PExited _ => false
  | _, _, _ => true
  end.

Definition with_checker (s : LoopState HcE) (P : PxProc) : PxProc :=
  mkPxProc (xp_cancelled P) (Some s) (xp_discovery P) (xp_server P) (xp_requests P) (xp_main P).
Definition with_discovery (s : LoopState DcE) (P : PxProc) : PxProc :=
  mkPxProc (xp_cancelled P) (xp_checker P) (Some s) (xp_server P) (xp_requests P) (xp_main P).
Definition with_xserver (s : ServerState) (P : PxProc) : PxProc :=
  mkPxProc (xp_cancelled P) (xp_checker P) (xp_discovery P) s (xp_requests P) (xp_main P).
Definition with_xrequests (ts : list Thread) (P : PxProc) : PxProc :=
  mkPxProc (xp_cancelled P) (xp_checker P) (xp_discovery P) (xp_server P) ts (xp_main P).
Definition with_xmain (m : PxMain) (P : PxProc) : PxProc :=
  mkPxProc (xp_cancelled P) (xp_checker P) (xp_discovery P) (xp_server P) (xp_requests P) m.

(** What the operations of the loops do to the pool.  Answers to probes and to
    discovery requests are up to the environment. *)
Definition check_rel (c : Checker) X (e : HcE X) : World -> X -> World -> Prop :=
  match e in HcE X return World -> X -> World -> Prop with
  | HBackends => fun w x w' => x = pv_pool (px_prov w) /\ w' = w
  | HComplete pending => fun w i w' => exists l answer, pending !! i = Some l /\
      let st := check_at c (px_counts w, pv_heap (px_prov w)) (l, answer) in w' = with_heap st.2 st.1 w
  end.

Definition fetch_rel X (e : DcE X) : World -> X -> World -> Prop :=
  match e in DcE X return World -> X -> World -> Prop with
  | DInstall specs => fun w _ w' => w' = mkPxWorld (refresh (Some specs) (px_prov w)) (px_bal w) (px_counts w)
  | _ => fun w _ w' => w' = w
  end.

Section Steps.
Context (a : App).

Inductive px_step : PxProc * World -> PxProc * World -> Prop :=
| xs_check P w c hc s s' : px_running P = true -> app_checker a = Some (c, hc) -> xp_checker P = Some s ->
    loop_step (Checker_Run (hc_Interval hc)) (xp_cancelled P) s s' -> px_step (P, w) (with_checker s' P, w)
| xs_check_op P w s X (e : HcE X) k x w' : px_running P = true -> xp_checker P = Some s ->
    loop_prog s = Some (Vis e k) -> check_rel (checker_of a) X e w x w' ->
    px_step (P, w) (with_checker (loop_with s (k x)) P, w')
| xs_fetch P w c s s' : px_running P = true -> discovery_of a = Some c -> xp_discovery P = Some s ->
    loop_step (ConfigProvider_Run c) (xp_cancelled P) s s' -> px_step (P, w) (with_discovery s' P, w)
| xs_fetch_op P w s X (e : DcE X) k x w' : px_running P = true -> xp_discovery P = Some s ->
    loop_prog s = Some (Vis e k) -> fetch_rel X e w x w' ->
    px_step (P, w) (with_discovery (loop_with s (k x)) P, w')
| xs_listen P w : px_running P = true -> xp_server P = SvStarting ->
    px_step (P, w) (with_xserver SvServing P, w)
| xs_serve_error P w : px_running P = true -> xp_server P <> SvClosed ->   (* of ListenAndServe *)
    px_step (P, w) (with_xmain (PExited 1) P, w)
| xs_accept P w r : px_running P = true -> xp_server P = SvServing ->
    px_step (P, w) (with_xrequests (xp_requests P ++ [(ServeHTTP (app_maxRetries a) r, [])]) P, w)
| xs_op P w ts1 X (e : PxE X) k h ts2 x w' : px_running P = true ->
    xp_requests P = ts1 ++ (Vis e k, h) :: ts2 -> px_rel X e w x w' ->
    px_step (P, w) (with_xrequests (ts1 ++ (k x, h ++ [Ob e x]) :: ts2) P, w')
| xs_answered P w ts1 h ts2 : px_running P = true -> xp_requests P = ts1 ++ (Ret tt, h) :: ts2 ->
    px_step (P, w) (with_xrequests (ts1 ++ ts2) P, w)
| xs_signal P w : px_running P = true -> xp_main P = PServing ->
    px_step (P, w) (mkPxProc true (xp_checker P) (xp_discovery P) SvClosed (xp_requests P) PShutdown, w)
| xs_drained P w : px_running P = true -> xp_main P = PShutdown -> xp_requests P = [] ->
    px_step (P, w) (with_xmain (PExited 0) P, w)
| xs_timeout P w : px_running P = true -> xp_main P = PShutdown ->
    px_step (P, w) (with_xmain (PExited 1) P, w).

Definition px_steps : PxProc * World -> PxProc * World -> Prop := rtc px_step.

(** ** The process is an instance of the running proxy *)

(** What a step does to the requests and the pool. *)
Inductive threads_step (w : World) : list Thread -> list Thread -> World -> Prop :=
| ts_same ts : threads_step w ts ts w
| ts_accept r ts : threads_step w ts (ts ++ [(ServeHTTP (app_maxRetries a) r, [])]) w
| ts_op ts1 X (e : PxE X) k h ts2 x w' : px_rel X e w x w' ->
    threads_step w (ts1 ++ (Vis e k, h) :: ts2) (ts1 ++ (k x, h ++ [Ob e x]) :: ts2) w'
| ts_answered ts1 h ts2 : threads_step w (ts1 ++ (Ret tt, h) :: ts2) (ts1 ++ ts2) w
| ts_check probe ts : let st := check_at (checker_of a) (px_counts w, pv_heap (px_prov w)) probe in
    threads_step w ts ts (with_heap st.2 st.1 w)
| ts_refresh specs ts : threads_step w ts ts (mkPxWorld (refresh (Some specs) (px_prov w)) (px_bal w) (px_counts w)).

Lemma px_step_threads P w P' w' : px_step (P, w) (P', w') -> threads_step w (xp_requests P) (xp_requests P') w'.
Proof using Type.
  intros Hs. inversion Hs; subst; cbn [with_checker with_discovery with_xserver with_xrequests with_xmain xp_requests];
    try constructor.
  - destruct e as [|pending]; cbn in *; [|].
    + match goal with Hr : _ /\ _ |- _ => destruct Hr as [_ ->] end. constructor.
    + match goal with Hr : exists _ _, _ |- _ => destruct Hr as (l & answer & _ & ->) end. apply (ts_check w (l, answer)).
  - destruct e; cbn in *; subst; constructor.
  - match goal with Hr : xp_requests P = _ |- _ => rewrite Hr end. by constructor.
  - match goal with Hr : xp_requests P = _ |- _ => rewrite Hr end. constructor.
Qed.

(** The running proxy has the requests under way and requests that are done. *)
Definition px_simulated (w0 : World) (c : PxProc * World) : Prop :=
  exists ts extra, psteps (checker_of a) (app_maxRetries a) ([], w0) (ts, c.2) /\
    ts ≡ₚ xp_requests c.1 ++ extra /\ Forall (fun t => t.1 = Ret tt) extra.

Lemma px_step_simulated w0 c c' : px_step c c' -> px_simulated w0 c -> px_simulated w0 c'.
Proof using Type.
  destruct c as [P w], c' as [P' w']. intros Hs (ts & extra & Hps & Hts & Hex). cbn [fst snd] in *.
  apply px_step_threads in Hs. unfold px_simulated. cbn [fst snd].
  remember (xp_requests P) as t0 eqn:E0. remember (xp_requests P') as t1 eqn:E1. clear E0 E1.
  destruct Hs as [t|r t|t1 X e k h t2 x w' HR|t1 h t2|probe t|specs t].
  - by exists ts, extra.
  - exists (ts ++ [(ServeHTTP (app_maxRetries a) r, [])]), extra. split_and!; [by eapply rtc_r; [|apply ps_request]| |done].
    rewrite Hts, <- !app_assoc. apply Permutation_app_head, Permutation_app_comm.
  - rewrite <- app_assoc in Hts. cbn in Hts. rewrite <- Permutation_middle in Hts. symmetry in Hts.
    destruct (Permutation_cons_inv_l _ _ _ Hts) as (l1 & l2 & -> & Hrest).
    exists (l1 ++ (k x, h ++ [Ob e x]) :: l2), extra. split_and!; [| |done].
    + eapply rtc_r; [exact Hps|]. rewrite <- (insert_middle l1 l2 (Vis e k, h) (k x, h ++ [Ob e x])). eapply ps_op; [|exact HR].
      by rewrite list_lookup_middle.
    + rewrite <- (Permutation_middle l1), <- app_assoc, <- app_comm_cons, <- (Permutation_middle t1). by constructor.
  - exists ts, ((Ret tt, h) :: extra). split_and!; [done| |by constructor].
    rewrite Hts. rewrite <- !app_assoc, <- app_comm_cons, <- !Permutation_middle. reflexivity.
  - exists ts, extra. split_and!; [|done|done]. eapply rtc_r; [exact Hps|]. apply (ps_check _ _ probe).
  - exists ts, extra. split_and!; [|done|done]. eapply rtc_r; [exact Hps|]. apply (ps_refresh _ _ (Some specs)).
Qed.

Lemma px_steps_simulated w P w' : px_steps (px_start a, w) (P, w') -> px_simulated w (P, w').
Proof using Type.
  intros Hs. assert (H0 : px_simulated w (px_start a, w)) by (exists [], []; split_and!; [apply rtc_refl|done|constructor]).
  revert H0. unfold px_steps in Hs. generalize dependent (P, w'). intros c Hs.
  induction Hs as [c0|c1 c2 c3 H12 _ IH]; [done|]. intros H1. apply IH. by eapply px_step_simulated.
Qed.

(** ** The life of the process *)

Record px_ok (P : PxProc) : Prop := {
  xo_checker : forall c hc s, app_checker a = Some (c, hc) -> xp_checker P = Some s ->
    loop_safe (Checker_Run (hc_Interval hc)) s;
  xo_discovery : forall c s, discovery_of a = Some c -> xp_discovery P = Some s -> loop_safe (ConfigProvider_Run c) s;
  xo_parts : (app_checker a = None -> xp_checker P = None) /\ (discovery_of a = None -> xp_discovery P = None);
  xo_closed : xp_main P <> PServing -> xp_main P <> PExited 1 -> xp_cancelled P = true /\ xp_server P = SvClosed;
  xo_drained : xp_main P = PExited 0 -> xp_requests P = [];
  xo_status : forall n, xp_main P = PExited n -> n = 0%Z \/ n = 1%Z }.

Lemma px_running_main P n : px_running P = true -> xp_main P <> PExited n.
Proof using Type.
  unfold px_running. intros Hr Hm. rewrite Hm in Hr. by destruct (xp_checker P) as [[]|], (xp_discovery P) as [[]|].
Qed.

Lemma px_start_ok : px_ok (px_start a).
Proof using Type.
  split; cbn; try done.
  - intros c hc s -> [= <-]. apply (loop_start_safe (Checker_Run _)).
  - intros c s -> [= <-]. apply (loop_start_safe (ConfigProvider_Run c)).
  - split; intros ->; done.
Qed.

Lemma px_step_ok c c' : px_step c c' -> px_ok c.1 -> px_ok c'.1.
Proof using Type.
  intros Hs [H1 H2 [H3 H3'] H4 H5 H6]. inversion Hs; subst; cbn [fst] in *;
    match goal with Hr : px_running ?P = true |- _ => pose proof (px_running_main P 0 Hr) as Hm end;
    split; cbn; try done; try (by split);
    try (intros; simplify_eq; by eauto using loop_step_safe, loop_with_safe).
  1,2: split; [intros Hn; specialize (H3 Hn); congruence|done].
  1,2: split; [done|intros Hn; specialize (H3' Hn); congruence].
  - intros Ha Hb. destruct (H4 Ha Hb). congruence.
  - intros _ _. apply H4; congruence.
Qed.

Lemma px_steps_ok c c' : px_steps c c' -> px_ok c.1 -> px_ok c'.1.
Proof using Type. induction 1 as [|c1 c2 c3 H12 _ IH]; [done|]. intros. eapply IH, px_step_ok; eauto. Qed.

(** Every operation of the handler has an outcome. *)
Lemma px_rel_total X (e : PxE X) (w : World) : exists x w', px_rel X e w x w'.
Proof using Type.
  destruct e; cbn; try (by exists tt; eexists).
  - eexists _, _. by split.
  - eexists _, _. by split.
  - by exists (Failed false), w.
  - by exists true, w.
  - by exists 0%Z, w.
Qed.

Lemma px_request_answered (p : prog PxE unit) h ts P w :
  px_running P = true -> xp_requests P = (p, h) :: ts -> exists w', px_steps (P, w) (with_xrequests ts P, w').
Proof using Type.
  revert h P w. induction p as [[]|X e k IH]; intros h P w Hr Hp.
  - exists w. apply rtc_once. by apply (xs_answered P w [] h ts).
  - destruct (px_rel_total X e w) as (x & w1 & HR).
    destruct (IH x (h ++ [Ob e x]) (with_xrequests ([] ++ (k x, h ++ [Ob e x]) :: ts) P) w1) as [w' Hs]; [done|done|].
    exists w'. eapply rtc_l; [by apply (xs_op P w [] X e k h ts x w1)|exact Hs].
Qed.

Lemma px_requests_drained P w : px_running P = true -> exists w', px_steps (P, w) (with_xrequests [] P, w').
Proof using Type.
  remember (xp_requests P) as ts eqn:E. revert P w E. induction ts as [|[p h] ts IH]; intros P w E Hr.
  { exists w. destruct P. cbn in E. subst. apply rtc_refl. }
  destruct (px_request_answered p h ts P w Hr (eq_sym E)) as [w1 H1].
  destruct (IH (with_xrequests ts P) w1 eq_refl Hr) as [w2 H2]. exists w2. unfold px_steps in *. by etrans.
Qed.

Lemma px_can_exit P w :
  px_running P = true -> exists P' w', px_steps (P, w) (P', w') /\ xp_main P' = PExited 0.
Proof using Type.
  intros Hr.
  assert (Hm : exists Q, px_steps (P, w) (Q, w) /\ px_running Q = true /\ xp_main Q = PShutdown).
  { destruct (xp_main P) as [| |n] eqn:Hmain; [|by exists P; split; [apply rtc_refl|]|by destruct (px_running_main P n Hr)].
    eexists. split; [by apply rtc_once, xs_signal|]. split; [|done].
    unfold px_running in *. cbn. rewrite Hmain in Hr. by destruct (xp_checker P) as [[]|], (xp_discovery P) as [[]|]. }
  destruct Hm as (Q & HPQ & HrQ & HmQ). destruct (px_requests_drained Q w HrQ) as [w1 HQ1].
  exists (with_xmain (PExited 0) (with_xrequests [] Q)), w1. split; [|done].
  unfold px_steps in *. etrans; [exact HPQ|]. eapply rtc_r; [exact HQ1|]. by apply xs_drained.
Qed.

Lemma px_stopped P w c : px_running P = false -> ~ px_step (P, w) c.
Proof using Type. intros Hr Hs. inversion Hs; congruence. Qed.

(** The counts of the process. *)
Lemma px_counts_exact w0 P w' :
  fresh_world w0 -> px_steps (px_start a, w0) (P, w') ->
  forall l b, pv_heap (px_prov w') !! l = Some b -> b_activeConns b = int64_wrap (in_flight_to l (xp_requests P)).
Proof using Type.
  intros [Hwf Hf] Hs l b Hl. destruct (px_steps_simulated w0 P w' Hs) as (ts & extra & Hps & Hts & Hex). cbn [fst snd] in *.
  assert (H0 : balanced ([], w0)).
  { split; cbn [fst snd]; [done|intros t Ht|intros t k Ht|intros t k Ht|].
    1-3: by apply not_elem_of_nil in Ht.
    intros k b0 Hk. destruct (Hf _ _ Hk) as (_ & Hz & _). by rewrite Hz. }
  pose proof (psteps_balanced _ _ _ _ H0 Hps) as Hb. rewrite (bl_count _ Hb _ _ Hl). cbn [fst]. f_equal.
  assert (Hperm : forall l1 l2, l1 ≡ₚ l2 -> in_flight_to l l1 = in_flight_to l l2).
  { induction 1; rewrite ?in_flight_cons; [done|lia|lia|congruence]. }
  rewrite (Hperm _ _ Hts), in_flight_app, (in_flight_none l extra); [lia|].
  intros t Ht. pose proof (bl_threads _ Hb t) as Hh. cbn [fst] in Hh. rewrite Hts in Hh.
  specialize (Hh (proj2 (elem_of_app _ _ _) (or_intror Ht))).
  rewrite Forall_forall in Hex. rewrite (Hex _ Ht) in Hh. apply Hh.
Qed.
End Steps.

(** ** Properties *)

(** C11: The proxy process from its configuration to its exit, whatever its
    clients, backends, probes, discovery answers and the signal do: every
    backend's connection count is the number of requests the process has in
    flight to it; only a ticker interval that is not positive makes it panic; it
    exits with status 0 only after the signal, with every accepted request
    answered and every connection count at zero, and with status 1 otherwise;
    while it runs it can always answer what it has accepted and exit with
    status 0; once it has exited nothing runs. *)
Theorem proxy_process_correct (cfg : Config) (a : App) (P : PxProc) (w' : World) :
  serve cfg None = Serving a ->
  px_steps a (px_start a, app_world a) (P, w') ->
  (forall l b, pv_heap (px_prov w') !! l = Some b -> b_activeConns b = int64_wrap (in_flight_to l (xp_requests P))) /\
  (tickers_panic a = false -> px_running P = false -> exists status, xp_main P = PExited status) /\
  (forall status, xp_main P = PExited status -> status = 0%Z \/ status = 1%Z) /\
  (xp_main P = PExited 0 -> xp_cancelled P = true /\ xp_requests P = [] /\
     forall l b, pv_heap (px_prov w') !! l = Some b -> b_activeConns b = 0%Z) /\
  (px_running P = true -> exists P2 w2, px_steps a (P, w') (P2, w2) /\ xp_main P2 = PExited 0) /\
  (px_running P = false -> forall c, px_steps a (P, w') c -> c = (P, w')).
Proof using Type.
  intros Hserve Hs.
  assert (Hfresh : fresh_world (app_world a)).
  { unfold serve in Hserve. destruct (start_pool cfg None) as [prov|] eqn:Hsp; [|done].
    destruct (NewBalancer _); [|done]. destruct (mux_handle_all _ _); [|done]. injection Hserve as <-.
    exact (start_pool_fresh cfg None prov Hsp). }
  pose proof (px_counts_exact a (app_world a) P w' Hfresh Hs) as Hcount.
  destruct (px_steps_ok a _ _ Hs (px_start_ok a)) as [H1 H2 [H3 H3'] H4 H5 H6]. cbn [fst] in *.
  split_and!; [exact Hcount| |exact H6| |by apply px_can_exit|].
  - intros Ht Hr. unfold tickers_panic in Ht. apply orb_false_iff in Ht as [Hc Hd]. unfold px_running in Hr.
    destruct (xp_checker P) as [[]|] eqn:Ec, (xp_discovery P) as [[]|] eqn:Ed, (xp_main P) eqn:Em; try done; eauto; exfalso;
      try (destruct (app_checker a) as [[c hc]|] eqn:Ea; [|by specialize (H3 eq_refl)];
           apply Z.leb_gt in Hc; by eapply (H1 c hc _ eq_refl eq_refl Hc));
      (destruct (app_discovery a) as [[url d]|] eqn:Ea; [|unfold discovery_of in H3'; rewrite Ea in H3'; by specialize (H3' eq_refl)];
       apply Z.leb_gt in Hd; unfold discovery_of in H2; rewrite Ea in H2; by eapply (H2 _ _ eq_refl eq_refl Hd)).
  - intros Hm. split_and!; [apply H4; congruence|by apply H5|]. intros l b Hl. by rewrite (Hcount _ _ Hl), (H5 Hm).
  - intros Hr c Hc. inversion Hc as [|? c1 ? Hstep _]; [done|]. by apply px_stopped in Hstep.
Qed.
End Process.

(** ** A short life *)

Import ToyUrl.

Definition toy_config : Config := applyDefaults (raw_config [mkBackendConfig "a" "a" 0] false true EmptyString).

Definition toy_app : App :=
  match serve toy_config None with
  | Serving a => a
  | _ => mkApp (mkPxWorld (mkProvider ∅ 0 [] ∅) (RoundRobin 0) ∅) (Handler_New (mkHandlerConfig 0 0)) [] None None [] (c_Server toy_config) (LevelInfo, JSONHandler)
  end.

Lemma toy_serves : serve toy_config None = Serving toy_app.
Proof. vm_compute. reflexivity. Qed.

(** The server listens, and a request has been accepted when the first round of
    checks begins. *)
Definition busy_state : PxProc :=
  with_checker (LFirst (await_checks 1 [0]))
    (with_xrequests [(ServeHTTP (app_maxRetries toy_app) toy_request, [])] (with_xserver SvServing (px_start toy_app))).

Lemma busy_reached : px_steps toy_app (px_start toy_app, app_world toy_app) (busy_state, app_world toy_app).
Proof.
  unfold px_steps.
  eapply rtc_l; [apply xs_listen; reflexivity|].
  eapply rtc_l; [apply (xs_accept _ _ _ toy_request); reflexivity|].
  apply rtc_once. unfold busy_state.
  apply (xs_check_op toy_app (with_xrequests [(ServeHTTP (app_maxRetries toy_app) toy_request, [])] (with_xserver SvServing (px_start toy_app)))
    (app_world toy_app) (LFirst checkAll_round) _ HBackends (fun x => await_checks (length x) x) [0]);
    try reflexivity. split; reflexivity.
Qed.

Lemma proxy_process_correct_witness :
  exists P2 w2, px_steps toy_app (busy_state, app_world toy_app) (P2, w2) /\ xp_main P2 = PExited 0.
Proof.
  destruct (proxy_process_correct toy_config toy_app busy_state (app_world toy_app) toy_serves busy_reached)
    as (_ & _ & _ & _ & Hexit & _).
  apply Hexit. reflexivity.
Defined.
