(* ===== verification/OrchestratorServer.v ===== *)
(** * ml-job-orchestrator/internal/api/server.go: routes, and mlctl against them

    The routing table of the job orchestrator.  The router is gorilla/mux, a
    third-party package: [GorillaMux] is its path matching, with the documented
    behaviour the table relies on as laws.  The second half runs mlctl against
    the orchestrator: what a command prints is what the store holds. *)

From S2P Require Import Prelude GoText Http GoFormat Jobs Orchestrator Settings Mlctl MlctlProperties.
From Stdlib Require Import ZArith Lia Ascii.
From stdpp Require Import base gmap strings list.

(** ** gorilla/mux *)

(** [path_match template path]: the variables, if the path matches.  A template
    without variables matches itself; a variable at the end matches one
    non-empty segment. *)
Class GorillaMux := {
  path_match : string -> string -> option (list (string * string));
  path_match_literal : forall tpl path, has_char "{" tpl = false ->
    path_match tpl path = if String.eqb tpl path then Some [] else None;
  path_match_var : forall prefix name path, has_char "{" prefix = false -> has_char "}" name = false ->
    path_match (prefix +:+ "/{" +:+ name +:+ "}") path =
    match trim_prefix (prefix +:+ "/") path with
    | Some v => if String.eqb v EmptyString || has_char "/" v then None else Some [(name, v)]
    | None => None
    end }.

(** [mux.Vars(r)[name]] *)
Definition mux_var (vars : list (string * string)) (name : string) : string :=
  default EmptyString (list_to_map (M := gmap string string) vars !! name).

(** ** The table *)

Inductive JRequest :=
| JSubmit (body : option submitJobRequest)
| JList (state type limit : string)
| JGet (id : string)
| JCancel (id : string)
| JHealthz.

Inductive JRouted :=
| JHandler (r : JRequest)
| JPrometheus
| JNotFound
| JMethodNotAllowed
| JRedirect.            (* a path that is not clean *)

(** A request: method, path, query, and what its body decodes to. *)
Record JIncoming := mkJIncoming {
  ji_Method : string; ji_Path : string; ji_Query : gmap string (list string); ji_Body : option submitJobRequest }.

Record JRoute := mkJRoute {
  jt_Method : string; jt_Path : string; jt_Entry : JIncoming -> list (string * string) -> JRouted }.

Definition orchestrator_routes : list JRoute := [
  mkJRoute "POST" "/jobs" (fun i _ => JHandler (JSubmit (ji_Body i)));
  mkJRoute "GET" "/jobs" (fun i _ =>
    JHandler (JList (Values_Get (ji_Query i) "state") (Values_Get (ji_Query i) "type") (Values_Get (ji_Query i) "limit")));
  mkJRoute "GET" "/jobs/{id}" (fun _ v => JHandler (JGet (mux_var v "id")));
  mkJRoute "DELETE" "/jobs/{id}" (fun _ v => JHandler (JCancel (mux_var v "id")));
  mkJRoute "GET" "/healthz" (fun _ _ => JHandler JHealthz);
  mkJRoute "GET" "/metrics" (fun _ _ => JPrometheus) ].

Section Router.
Context `{GorillaMux}.

(** Routes are tested in the order they were added, the first that matches
    serves; a path that matches only with another method is a 405. *)
Fixpoint mux_route (routes : list JRoute) (i : JIncoming) (mismatch : bool) : JRouted :=
  match routes with
  | [] => if mismatch then JMethodNotAllowed else JNotFound
  | r :: routes =>
      match path_match (jt_Path r) (ji_Path i) with
      | None => mux_route routes i mismatch
      | Some vars =>
          if String.eqb (jt_Method r) (ji_Method i) then jt_Entry r i vars
          else mux_route routes i true
      end
  end.

Definition orchestrator_router (i : JIncoming) : JRouted :=
  if negb (clean_path (ji_Path i)) then JRedirect else mux_route orchestrator_routes i false.

(** The handler of a request. *)
Definition serve_job (r : JRequest) : prog JobE (option JResponse) :=
  match r with
  | JSubmit body => x ← SubmitJob body; Ret (Some x)
  | JList state type limit => x ← ListJobs state type limit; Ret (Some x)
  | JGet id => x ← GetJob id; Ret (Some x)
  | JCancel id => CancelJob id
  | JHealthz => Ret (Some Healthz)
  end.

(** ** Which request reaches which handler *)

Lemma match_jobs path : path_match "/jobs" path = if String.eqb "/jobs" path then Some [] else None.
Proof using Type. by apply path_match_literal. Qed.

Lemma match_job path : path_match "/jobs/{id}" path =
  match trim_prefix "/jobs/" path with
  | Some v => if String.eqb v EmptyString || has_char "/" v then None else Some [("id", v)]
  | None => None
  end.
Proof using Type. by apply (path_match_var "/jobs" "id" path). Qed.

(** A path of a job. *)
Lemma route_job method id query body :
  plain_id id = true ->
  orchestrator_router (mkJIncoming method ("/jobs/" +:+ id) query body) =
  if String.eqb "GET" method then JHandler (JGet id)
  else if String.eqb "DELETE" method then JHandler (JCancel id)
  else JMethodNotAllowed.
Proof using Type.
  intros Hid. destruct (plain_id_spec id Hid) as (Hs & _ & _ & Hne). unfold plain_id in Hid.
  apply andb_true_iff in Hid as [_ Hdots]. apply negb_true_iff, bool_decide_eq_false in Hdots.
  unfold orchestrator_router. cbn [ji_Path].
  assert (Hsplit : split_at "/" ("/jobs/" +:+ id) = [EmptyString; "jobs"; id]).
  { change ("/jobs/" +:+ id) with (EmptyString +:+ String "/" ("jobs" +:+ String "/" id)).
    rewrite !split_at_app, split_at_piece by done. done. }
  assert (Hclean : clean_path ("/jobs/" +:+ id) = true).
  { unfold clean_path. rewrite Hsplit. cbn. rewrite andb_true_r. apply negb_true_iff, bool_decide_eq_false. set_solver. }
  rewrite Hclean. cbn [negb orchestrator_routes mux_route jt_Path jt_Method jt_Entry ji_Path ji_Method].
  rewrite !match_jobs, !match_job, trim_prefix_app, Hs.
  assert (He : String.eqb id EmptyString = false) by (apply String.eqb_neq; set_solver).
  rewrite He. cbn [orb]. rewrite !path_match_literal by done.
  assert (Hother : String.eqb "/jobs" ("/jobs/" +:+ id) = false /\ String.eqb "/healthz" ("/jobs/" +:+ id) = false /\
    String.eqb "/metrics" ("/jobs/" +:+ id) = false) by done.
  destruct Hother as (-> & -> & ->). done.
Qed.

Lemma route_jobs method query body :
  orchestrator_router (mkJIncoming method "/jobs" query body) =
  if String.eqb "POST" method then JHandler (JSubmit body)
  else if String.eqb "GET" method
  then JHandler (JList (Values_Get query "state") (Values_Get query "type") (Values_Get query "limit"))
  else JMethodNotAllowed.
Proof using Type.
  unfold orchestrator_router. cbn [ji_Path]. change (clean_path "/jobs") with true.
  cbn [negb orchestrator_routes mux_route jt_Path jt_Method jt_Entry ji_Path ji_Method].
  rewrite !match_jobs, !match_job, !path_match_literal by done. done.
Qed.
End Router.

(** ** mlctl against the orchestrator *)

Record MlWorld := mkMlWorld {
  mw_orch : OWorld;
  mw_last : option JBody;      (* the body of the last response *)
  mw_out : list string;        (* standard output *)
  mw_err : list string }.

Definition with_out (line : string) (w : MlWorld) : MlWorld :=
  mkMlWorld (mw_orch w) (mw_last w) (mw_out w ++ [line]) (mw_err w).
Definition with_err (line : string) (w : MlWorld) : MlWorld :=
  mkMlWorld (mw_orch w) (mw_last w) (mw_out w) (mw_err w ++ [line]).

(** A body as the client's decoder reads it; of others nothing is said. *)
Definition decodes {A} (out : MlReply A) (b : option JBody) : A + string -> Prop :=
  match out in MlReply A return A + string -> Prop with
  | ReCreated => fun x => forall id s t, b = Some (JBSubmitted id s t) -> x = inl id
  | ReJob => fun x => forall j, b = Some (JBJob j) -> x = inl j
  | ReJobs => fun x => forall js total, b = Some (JBJobs js total) -> x = inl (js, total)
  end.

Section Client.
Context `{GorillaMux} `{MapRange} `{SliceSort} (cap : nat) (base : string).

(** MLCTL_SERVER is [base]; a network that delivers its requests to the
    orchestrator, which handles them one at a time. *)
Definition ml_rel X (e : MlE X) : MlWorld -> X -> MlWorld -> Prop :=
  match e in MlE X return MlWorld -> X -> MlWorld -> Prop with
  | MGetenv key => fun w x w' => w' = w /\ (key = "MLCTL_SERVER" -> x = base)
  | MNewRequest _ _ => fun w x w' => x = true /\ w' = w
  | MDo req => fun w x w' => exists target h resp o' text,
      trim_prefix base (ml_URL req) = Some target /\
      (let '(path, query) := split_target target in
       orchestrator_router (mkJIncoming (ml_Method req) path (ParseQuery query) (ml_Body req)) = JHandler h) /\
      runs (job_rel cap true) (serve_job h) (mw_orch w) (Some resp) o' /\
      x = inl (mkMlResponse (jr_status resp) (itoa (jr_status resp)) text) /\
      w' = mkMlWorld o' (Some (jr_body resp)) (mw_out w) (mw_err w)
  | MDecode out _ => fun w x w' => decodes out (mw_last w) x /\ w' = w
  | MNow => fun w _ w' => w' = w
  | MStdout line => fun w _ w' => w' = with_out line w
  | MStderr line => fun w _ w' => w' = with_err line w
  end.

(** *** What the handlers do *)

Lemma allocate_job_wp n req (w : OWorld) :
  wp (job_rel cap true) (allocate_job n req) (fun r w' =>
    match r with
    | Some id => if String.eqb id EmptyString then ow_jobs w' = ow_jobs w
        else exists t, ow_jobs w !! id = None /\ ow_jobs w' = <[id := submitted_job req id t]> (ow_jobs w)
    | None => ow_jobs w' = ow_jobs w
    end) w.
Proof using Type.
  revert w. induction n as [|n IH]; intros w; [done|]. cbn [allocate_job]. unfold generateID. rewrite wp_bind.
  apply wp_call. intros r w1 [-> _]. cbn [wp]. destruct r as [bs|]; [|done].
  set (id := "job_" +:+ EncodeToString bs). apply wp_call. intros t w1 [_ ->]. apply wp_call.
  intros err w2 [-> ->]. cbn [ow_jobs with_jobs]. unfold Create. cbn [submitted_job Job_ID].
  destruct (ow_jobs w !! id) as [j|] eqn:Ej; cbn [fst snd].
  - eapply wp_mono; [|apply IH]. done.
  - cbn [wp]. change (String.eqb id EmptyString) with false. exists t. done.
Qed.

Definition submittable (req : submitJobRequest) : Prop := sj_Name req <> EmptyString /\ sj_Command req <> EmptyString.

(** A submission: a new pending job with the fields asked for, or none. *)
Lemma SubmitJob_wp req (w : OWorld) :
  submittable req ->
  wp (job_rel cap true) (SubmitJob (Some req)) (fun r w' =>
    (jr_status r = StatusInternalServerError /\ ow_jobs w' = ow_jobs w) \/
    (jr_status r = StatusCreated /\ exists id t, ow_jobs w !! id = None /\
       ow_jobs w' = <[id := submitted_job req id t]> (ow_jobs w) /\ jr_body r = JBSubmitted id StatePending t)) w.
Proof using Type.
  intros [Hn Hc]. unfold SubmitJob. rewrite (proj2 (String.eqb_neq _ _) Hn), (proj2 (String.eqb_neq _ _) Hc).
  cbn [orb]. eapply wp_seq; [apply allocate_job_wp|]. intros [id|] w1 Hr; [|left; done].
  destruct (String.eqb id EmptyString); [left; done|]. destruct Hr as (t & Hnew & Hj).
  apply wp_call. intros [] w2 ->. apply wp_call. intros job w3 [-> ->]. cbn [ow_jobs]. rewrite Hj. unfold Get.
  rewrite lookup_insert_eq. cbn [wp]. right. split; [done|]. exists id, t. by split_and!.
Qed.

Lemma GetJob_wp id (w : OWorld) :
  wp (job_rel cap true) (GetJob id) (fun r w' => w' = w /\
    match ow_jobs w !! id with
    | Some j => jr_status r = StatusOK /\ jr_body r = JBJob j
    | None => jr_status r = StatusNotFound
    end) w.
Proof using Type.
  apply wp_call. intros job w1 [-> ->]. unfold Get. by destruct (ow_jobs w !! id).
Qed.

(** Cancelling a job that has not started. *)
Lemma CancelJob_waiting_wp id j (w : OWorld) :
  ow_jobs w !! id = Some j -> Job_State j = StatePending \/ Job_State j = StateQueued ->
  wp (job_rel cap true) (CancelJob id) (fun r w' =>
    exists resp t, r = Some resp /\ jr_status resp = StatusOK /\
      ow_jobs w' = <[id := job_moved t StateCancelled "cancelled by user" j]> (ow_jobs w)) w.
Proof using Type.
  intros Hj Hst. apply wp_call. intros job w1 [-> ->]. unfold Get. rewrite Hj.
  assert (Hcase : wp (job_rel cap true)
    (err ← call (ETransition id StateCancelled "cancelled by user");
     match err with
     | Some e => Ret (Some (writeJSON StatusConflict (JBStoreError e)))
     | None => job ← call (EGet id);
         match job with
         | inl job => Ret (Some (writeJSON StatusOK (JBState (Job_ID job) (State_string (Job_State job)))))
         | inr _ => Ret (Some (writeJSON StatusOK (JBState EmptyString EmptyString)))
         end
     end) (fun r w' => exists resp t, r = Some resp /\ jr_status resp = StatusOK /\
        ow_jobs w' = <[id := job_moved t StateCancelled "cancelled by user" j]> (ow_jobs w)) w).
  { apply wp_call. intros err w1 (t & _ & -> & ->). unfold TransitionJob. rewrite Hj.
    assert (Ht : Transition (Job_State j) StateCancelled = true) by (destruct Hst as [-> | ->]; reflexivity).
    rewrite Ht. cbn [negb fst snd]. apply wp_call. intros job w2 [-> ->]. cbn [ow_jobs with_jobs]. unfold Get.
    rewrite lookup_insert_eq. cbn [wp]. eexists _, t. done. }
  destruct Hst as [Hs|Hs]; rewrite Hs; exact Hcase.
Qed.

(** *** What the commands do *)

Lemma ml_seq {A B} (p : mlcmd A) (k : A -> mlcmd B) P Q w :
  wp ml_rel p P w ->
  (forall r w', P r w' -> match r with inl x => wp ml_rel (k x) Q w' | inr status => Q (inr status) w' end) ->
  wp ml_rel (ml_bind p k) Q w.
Proof using Type.
  intros Hp Hk. apply (wp_seq ml_rel p _ P Q w Hp). intros r w' Hr. specialize (Hk r w' Hr). by destruct r.
Qed.

(** The server's address and a request to it. *)
Lemma ml_server {A} (k : string -> mlcmd A) Q w :
  base <> EmptyString -> wp ml_rel (k base) Q w -> wp ml_rel (ml_bind serverURL k) Q w.
Proof using Type.
  intros Hb Hk. unfold serverURL, ml_bind at 1 2. cbn. intros v w' [-> Hv]. rewrite (Hv eq_refl).
  by rewrite (proj2 (String.eqb_neq _ _) Hb).
Qed.

Lemma ml_do {A} req path (h : JRequest) (P : option JResponse -> OWorld -> Prop) (k : MlResponse + string -> mlcmd A) Q w :
  ml_URL req = base +:+ path -> has_char "?" path = false ->
  orchestrator_router (mkJIncoming (ml_Method req) path (ParseQuery EmptyString) (ml_Body req)) = JHandler h ->
  wp (job_rel cap true) (serve_job h) P (mw_orch w) ->
  (forall resp o' text, P (Some resp) o' ->
     wp ml_rel (k (inl (mkMlResponse (jr_status resp) (itoa (jr_status resp)) text))) Q
       (mkMlWorld o' (Some (jr_body resp)) (mw_out w) (mw_err w))) ->
  wp ml_rel (ml_bind (ml_call (MDo req)) k) Q w.
Proof using Type.
  intros Hu Hq Hr Hh Hk x w' (target & h' & resp & o' & text & Ht & Hroute & Hrun & -> & ->).
  rewrite Hu, trim_prefix_app in Ht. injection Ht as <-. unfold split_target in Hroute.
  rewrite cut_at_none in Hroute by done. rewrite Hr in Hroute. injection Hroute as <-.
  apply Hk. by eapply wp_runs.
Qed.

(** A response that has the status wanted is decoded; another is reported. *)
Lemma ml_expect {A B} what decodeWhat resp want (out : MlReply A) (k : A -> mlcmd B) Q w :
  (ml_StatusCode resp = want -> forall x, decodes out (mw_last w) (inl x) -> wp ml_rel (k x) Q w) ->
  (ml_StatusCode resp = want -> forall err, decodes out (mw_last w) (inr err) ->
     Q (inr 1%Z) (with_err (decodeWhat +:+ ": failed to decode response: " +:+ err) w)) ->
  (ml_StatusCode resp <> want -> Q (inr 1%Z) (with_err (what +:+ " failed: " +:+ readErrorBody resp) w)) ->
  wp ml_rel (ml_bind (expect what decodeWhat (inl resp) want out) k) Q w.
Proof using Type.
  intros Hok Hbad Hst. unfold expect. destruct (Z.eqb_spec (ml_StatusCode resp) want) as [He|He]; cbn [negb].
  - intros x w' [Hd ->]. destruct x as [x|err].
    + by apply Hok.
    + intros [] w' ->. by apply Hbad.
  - intros [] w' ->. by apply Hst.
Qed.

Lemma post_job_wp req w :
  base <> EmptyString -> submittable req ->
  wp ml_rel (post_job req) (fun r w' =>
    match r with
    | inl _ => exists id t, ow_jobs (mw_orch w) !! id = None /\
        ow_jobs (mw_orch w') = <[id := submitted_job req id t]> (ow_jobs (mw_orch w)) /\
        mw_out w' = mw_out w ++ ["Submitted " +:+ id] /\ mw_err w' = mw_err w
    | inr status => status = 1%Z /\ ow_jobs (mw_orch w') = ow_jobs (mw_orch w) /\ mw_out w' = mw_out w /\
        exists line, mw_err w' = mw_err w ++ [line]
    end) w.
Proof using Type.
  intros Hb Hreq. unfold post_job. apply ml_server; [done|].
  eapply (ml_do _ "/jobs" (JSubmit (Some req)) (fun r w' => exists x, r = Some x /\
    ((jr_status x = StatusInternalServerError /\ ow_jobs w' = ow_jobs (mw_orch w)) \/
     (jr_status x = StatusCreated /\ exists id t, ow_jobs (mw_orch w) !! id = None /\
       ow_jobs w' = <[id := submitted_job req id t]> (ow_jobs (mw_orch w)) /\ jr_body x = JBSubmitted id StatePending t))));
    [done|done|apply route_jobs| |].
  { cbn [serve_job]. eapply wp_seq; [by apply SubmitJob_wp|]. intros x w' Hx. cbn [wp]. eauto. }
  intros resp o' text (x & [= <-] & Hx). apply ml_expect; cbn [ml_StatusCode mw_last].
  - intros Hst id Hd. destruct Hx as [[Hbad _]|(_ & id' & t & Hnew & Hj & Hbody)]; [rewrite Hbad in Hst; discriminate|].
    specialize (Hd id' StatePending t). rewrite Hbody in Hd. specialize (Hd eq_refl). injection Hd as ->.
    intros [] w' ->. cbn. exists id', t. by split_and!.
  - intros Hst err Hd. destruct Hx as [[Hbad _]|(_ & id' & t & _ & _ & Hbody)]; [rewrite Hbad in Hst; discriminate|].
    specialize (Hd id' StatePending t). rewrite Hbody in Hd. by specialize (Hd eq_refl).
  - intros Hst. destruct Hx as [[_ Hj]|(Hok & _)]; [|done]. cbn. split_and!; [done|done|done|eauto].
Qed.

(** *** The commands come to an end *)

Lemma job_rel_total X (e : JobE X) (w : OWorld) : exists x w', job_rel cap true X e w x w'.
Proof using Type.
  destruct e; cbn; try (by exists tt; eexists); try (by exists (EmptyString, None), w).
  all: try (eexists _, _; split; reflexivity).
  - eexists _, _, (ow_clock w). by split_and!.
  - eexists _, w. split; [done|]. intros _. by exists 0.
  - eexists _, w. split; [done|]. intros _. by exists 0.
  - case_decide; eexists _, _; by split.
  - destruct (ow_queue w); eexists _, _; by split.
  - exists WakeStop, w. right. auto.
  - exists tt. eexists. exists (Z.max (ow_clock w) (ow_clock w + d)). split_and!; [lia|lia|done].
  - by exists None, w.
  - exists (Some Canceled), w. done.
Qed.

Lemma job_runs_total {A} (p : prog JobE A) (w : OWorld) : exists a w', runs (job_rel cap true) p w a w'.
Proof using Type.
  revert w. induction p as [a|X e k IH]; intros w; [by exists a, w|].
  destruct (job_rel_total X e w) as (x & w1 & HR). destruct (IH x w1) as (a & w' & Hr). exists a, w', x, w1. done.
Qed.

Lemma decodes_total {A} (out : MlReply A) b : exists x, decodes out b x.
Proof using Type.
  destruct out; cbn.
  - destruct b as [[| | |id st t| | | |]|]; try (exists (inr EmptyString); intros; discriminate).
    exists (inl id). intros id' s t' [=]. congruence.
  - destruct b as [[| | | |j| | |]|]; try (exists (inr EmptyString); intros; discriminate).
    exists (inl j). intros j' [=]. congruence.
  - destruct b as [[| | | | |js n| |]|]; try (exists (inr EmptyString); intros; discriminate).
    exists (inl (js, n)). intros js' n' [=]. congruence.
Qed.

Lemma post_job_runs req w :
  base <> EmptyString -> exists r w', runs ml_rel (post_job req) w r w'.
Proof using Type.
  intros Hb. destruct (job_runs_total (SubmitJob (Some req)) (mw_orch w)) as (resp & o' & Hr).
  set (w1 := mkMlWorld o' (Some (jr_body resp)) (mw_out w) (mw_err w)).
  set (x := mkMlResponse (jr_status resp) (itoa (jr_status resp)) EmptyString).
  assert (Hrest : exists r w', runs ml_rel
    (ml_bind (expect "submit" "submit" (inl x) StatusCreated ReCreated) (fun id => Println ("Submitted " +:+ id))) w1 r w').
  { unfold expect. destruct (negb (ml_StatusCode x =? StatusCreated)%Z).
    - eexists _, _, tt, _. split; [reflexivity|]. by split.
    - destruct (decodes_total ReCreated (mw_last w1)) as [[id|err] Hd].
      + eexists _, _, (inl id), w1. split; [by split|]. eexists tt, _. split; [reflexivity|]. by split.
      + eexists _, _, (inr err), w1. split; [by split|]. eexists tt, _. split; [reflexivity|]. by split. }
  destruct Hrest as (r & w' & Hrest). exists r, w', base, w. split; [by split|].
  cbn [prog_bind ml_ret]. rewrite (proj2 (String.eqb_neq _ _) Hb). cbn [negb prog_bind]. exists (inl x), w1. split; [|exact Hrest].
  exists "/jobs", (JSubmit (Some req)), resp, o', EmptyString.
  split_and!; [apply trim_prefix_app|apply route_jobs| |done|done].
  cbn [serve_job]. eapply runs_bind; [exact Hr|]. by split.
Qed.

(** The lines [mlctl status] prints; [d] is the duration. *)
Definition status_lines (j : Job) (d : string) : list string :=
  ["ID:       " +:+ Job_ID j; "Name:     " +:+ Job_Name j; "State:    " +:+ State_string (Job_State j);
   "Duration: " +:+ d; "Retries:  " +:+ itoa (Job_RetryCount j)] ++
  (if String.eqb (Job_ErrorMessage j) EmptyString then [] else ["Error:    " +:+ Job_ErrorMessage j]).

Lemma formatDuration_wp {A} j (k : string -> mlcmd A) Q w :
  (forall d, wp ml_rel (k d) Q w) -> wp ml_rel (ml_bind (formatDuration j) k) Q w.
Proof using Type.
  intros Hk. unfold formatDuration. destruct (Job_StartedAt j); [destruct (Job_FinishedAt j)|]; [apply Hk| |apply Hk].
  intros now w' ->. apply Hk.
Qed.

Lemma cmdStatus_wp id w :
  base <> EmptyString -> plain_id id = true ->
  wp ml_rel (cmdStatus [id]) (fun r w' => mw_orch w' = mw_orch w /\
    match ow_jobs (mw_orch w) !! id with
    | Some j => r = inl tt /\ exists d, mw_out w' = mw_out w ++ status_lines j d
    | None => r = inr 1%Z /\ mw_out w' = mw_out w
    end) w.
Proof using Type.
  intros Hb Hid. unfold cmdStatus, fetchJob.
  assert (Hq : has_char "?" ("/jobs/" +:+ id) = false).
  { rewrite has_char_app. destruct (plain_id_spec id Hid) as (_ & Hq & _). by rewrite Hq. }
  assert (Hmain : wp ml_rel (ml_bind (ml_call (MDo (mkMlRequest "GET" (base +:+ "/jobs/" +:+ id) None None)))
    (fun resp => expect "status" "status" resp StatusOK ReJob)) (fun r w' => mw_orch w' = mw_orch w /\ mw_out w' = mw_out w /\
      r = match ow_jobs (mw_orch w) !! id with Some j => inl j | None => inr 1%Z end) w).
  { eapply (ml_do _ _ (JGet id) (fun r w' => exists x, r = Some x /\ w' = mw_orch w /\
      match ow_jobs (mw_orch w) !! id with Some j => jr_status x = StatusOK /\ jr_body x = JBJob j | None => jr_status x = StatusNotFound end));
      [done|exact Hq|by apply route_job| |].
    { cbn [serve_job]. eapply wp_seq; [apply GetJob_wp|]. intros x w' [-> Hx]. cbn [wp]. eauto. }
    intros resp o' text (x & [= <-] & -> & Hx). unfold expect. cbn [ml_StatusCode].
    destruct (ow_jobs (mw_orch w) !! id) as [j|].
    - destruct Hx as [Hst Hbody]. rewrite Hst. cbn [negb Z.eqb]. intros y w' [Hd ->]. cbn [mw_last] in Hd.
      rewrite Hbody in Hd. rewrite (Hd j eq_refl). done.
    - rewrite Hx. intros [] w' ->. done. }
  eapply ml_seq; [apply (ml_server (A := Job)); [done|exact Hmain]|]. intros r w1 (Ho & Hout & ->). destruct (ow_jobs (mw_orch w) !! id) as [j|]; [|done].
  intros [] w2 -> [] w3 -> [] w4 ->. apply formatDuration_wp. intros d [] w5 -> [] w6 ->.
  destruct (String.eqb_spec (Job_ErrorMessage j) EmptyString) as [He|He]; cbn [negb].
  - split; [done|]. split; [done|]. exists d. unfold status_lines. rewrite He. cbn. by rewrite Hout, <- !app_assoc.
  - intros [] w7 ->. split; [done|]. split; [done|]. exists d. unfold status_lines.
    rewrite (proj2 (String.eqb_neq _ _) He). cbn. by rewrite Hout, <- !app_assoc.
Qed.

Lemma cmdCancel_wp id j w :
  base <> EmptyString -> plain_id id = true ->
  ow_jobs (mw_orch w) !! id = Some j -> Job_State j = StatePending \/ Job_State j = StateQueued ->
  wp ml_rel (cmdCancel [id]) (fun r w' => r = inl tt /\ mw_out w' = mw_out w ++ ["Cancelled " +:+ id] /\
    exists t, ow_jobs (mw_orch w') = <[id := job_moved t StateCancelled "cancelled by user" j]> (ow_jobs (mw_orch w))) w.
Proof using Type.
  intros Hb Hid Hj Hst. unfold cmdCancel. apply ml_server; [done|]. intros ok w1 [-> ->]. cbn [negb].
  assert (Hq : has_char "?" ("/jobs/" +:+ id) = false).
  { rewrite has_char_app. destruct (plain_id_spec id Hid) as (_ & Hq & _). by rewrite Hq. }
  eapply (ml_do _ _ (JCancel id)); [done|exact Hq|by apply route_job|by apply (CancelJob_waiting_wp id j)|].
  intros resp o' text (x & t & [= <-] & Hok & Hjobs). cbn [ml_StatusCode]. rewrite Hok. cbn [negb Z.eqb].
  intros [] w' ->. cbn. split; [done|]. split; [done|]. exists t. exact Hjobs.
Qed.
End Client.

(** ** Properties *)

(** C12: mlctl against the orchestrator, end to end.  A submission comes to an end
    and either stores exactly one new PENDING job with the name, type, command,
    arguments and limits asked for and prints its ID, or stores nothing, reports
    an error and exits with status 1; [status] changes nothing and prints the
    stored job, or exits with status 1 when there is none; [cancel] of a job that
    is still waiting leaves it CANCELLED and every other job as it was. *)
Theorem mlctl_orchestrates `{GorillaMux} `{MapRange} `{SliceSort} (cap : nat) (base : string) (w : MlWorld) :
  base <> EmptyString ->
  (forall req, submittable req ->
     (exists r w', runs (ml_rel cap base) (post_job req) w r w') /\
     wp (ml_rel cap base) (post_job req) (fun r w' =>
       match r with
       | inl _ => exists id t, ow_jobs (mw_orch w) !! id = None /\
           ow_jobs (mw_orch w') = <[id := submitted_job req id t]> (ow_jobs (mw_orch w)) /\
           mw_out w' = mw_out w ++ ["Submitted " +:+ id] /\ mw_err w' = mw_err w
       | inr status => status = 1%Z /\ ow_jobs (mw_orch w') = ow_jobs (mw_orch w) /\ mw_out w' = mw_out w /\
           exists line, mw_err w' = mw_err w ++ [line]
       end) w) /\
  (forall id, plain_id id = true ->
     wp (ml_rel cap base) (cmdStatus [id]) (fun r w' => mw_orch w' = mw_orch w /\
       match ow_jobs (mw_orch w) !! id with
       | Some j => r = inl tt /\ exists d, mw_out w' = mw_out w ++ status_lines j d
       | None => r = inr 1%Z /\ mw_out w' = mw_out w
       end) w) /\
  (forall id j, plain_id id = true -> ow_jobs (mw_orch w) !! id = Some j ->
     Job_State j = StatePending \/ Job_State j = StateQueued ->
     wp (ml_rel cap base) (cmdCancel [id]) (fun r w' =>
       r = inl tt /\ mw_out w' = mw_out w ++ ["Cancelled " +:+ id] /\
       exists t, ow_jobs (mw_orch w') =
         <[id := job_moved t StateCancelled "cancelled by user" j]> (ow_jobs (mw_orch w))) w).
Proof.
  intros Hb. split_and!.
  - intros req Hreq. split; [by apply post_job_runs|by apply post_job_wp].
  - intros id Hid. by apply cmdStatus_wp.
  - intros id j Hid Hj Hst. by apply cmdCancel_wp.
Qed.

(** ** A router *)

Module PlainMux.
(** Path matching by the letter of the two laws. *)
Definition matches_path (tpl path : string) : option (list (string * string)) :=
  match cut_at "{" tpl with
  | (before, after, true) =>
      match trim_prefix before path with
      | Some v => if String.eqb v EmptyString || has_char "/" v then None
                  else Some [((cut_at "}" after).1.1, v)]
      | None => None
      end
  | _ => if String.eqb tpl path then Some [] else None
  end.

#[program] Instance plain_mux : GorillaMux := {| path_match := matches_path |}.
Next Obligation. intros tpl path Ht. unfold matches_path. by rewrite cut_at_none. Qed.
Next Obligation.
  intros prefix name path Hp Hn. unfold matches_path.
  replace (prefix +:+ "/{" +:+ name +:+ "}") with ((prefix +:+ "/") +:+ String "{" (name +:+ "}"))
    by (rewrite app_assoc_str; reflexivity).
  rewrite cut_at_app by (rewrite has_char_app, Hp; done). by rewrite cut_at_app.
Qed.
End PlainMux.

Lemma mlctl_orchestrates_witness :
  exists r w', runs (ml_rel (H := PlainMux.plain_mux) 10 "http://localhost:8080")
    (post_job (mkSubmitJob "train" "" "sleep" ["1"] 0 0 0))
    (mkMlWorld (mkOWorld ∅ [] ∅ 0 ∅ 0 []) None [] []) r w'.
Proof.
  apply (mlctl_orchestrates (H := PlainMux.plain_mux) 10 "http://localhost:8080"
    (mkMlWorld (mkOWorld ∅ [] ∅ 0 ∅ 0 []) None [] [])); [discriminate|split; discriminate].
Defined.
