(* ===== verification/OrchestratorProcess.v ===== *)
(** * ml-job-orchestrator/cmd/orchestrator: the process

    [main] with everything it starts: the scheduler's ticker loop, the worker
    goroutines, the server with one goroutine per request, the signal and the
    two shutdowns.  Every run is a run of the system of [JobCustody] (scheduler
    passes, worker iterations and requests in any order); what is added is the
    order of the shutdown and what it leaves behind. *)

From S2P Require Import Prelude GoText Jobs Orchestrator JobCustody OrchestratorProperties Ticker.
From Stdlib Require Import ZArith Lia.
From stdpp Require Import base gmap strings list relations.

(** ** The goroutines *)

Definition pollInterval : Duration := (500 * Millisecond)%Z.

Section Process.
Context `{MapRange} `{SliceSort} (cap : nat) (conv : Z -> Z).

Definition Scheduler_Run : Loop JobE := mkLoop false pollInterval scheduleReady.

(** A worker goroutine: in an iteration, or returned. *)
Inductive WorkerState := WIterating (p : prog JobE bool) | WReturned.

Inductive OMain :=
| OServing           (* at <-ctx.Done() *)
| OServerShutdown    (* in srv.Shutdown *)
| OPoolShutdown      (* in pool.Shutdown: stopCh is closed *)
| OExited.

Record OProc := mkOProc {
  op_signalled : bool;
  op_scheduler : LoopState JobE;
  op_workers : list WorkerState;
  op_server : ServerState;
  op_requests : list (prog JobE unit);
  op_main : OMain }.

(** [worker.New] with [numWorkers], [scheduler.New], [api.NewServer]. *)
Definition orch_start (numWorkers : nat) : OProc :=
  mkOProc false (loop_start Scheduler_Run) (replicate numWorkers (WIterating (worker_iteration conv))) SvStarting []
    OServing.

Definition orch_running (P : OProc) : bool := match op_main P with OExited => false | _ => true end.

Definition stop_closed (P : OProc) : bool := match op_main P with OPoolShutdown | OExited => true | _ => false end.

Definition with_sched (s : LoopState JobE) (P : OProc) : OProc :=
  mkOProc (op_signalled P) s (op_workers P) (op_server P) (op_requests P) (op_main P).
Definition with_workers (ws : list WorkerState) (P : OProc) : OProc :=
  mkOProc (op_signalled P) (op_scheduler P) ws (op_server P) (op_requests P) (op_main P).
Definition with_oserver (s : ServerState) (P : OProc) : OProc :=
  mkOProc (op_signalled P) (op_scheduler P) (op_workers P) s (op_requests P) (op_main P).
Definition with_orequests (rs : list (prog JobE unit)) (P : OProc) : OProc :=
  mkOProc (op_signalled P) (op_scheduler P) (op_workers P) (op_server P) rs (op_main P).
Definition with_omain (m : OMain) (P : OProc) : OProc :=
  mkOProc (op_signalled P) (op_scheduler P) (op_workers P) (op_server P) (op_requests P) m.

(** A worker that waits is woken by [stopCh] only when it is closed, by its
    context only when that is done. *)
Definition wake_ok (P : OProc) X (e : JobE X) : X -> Prop :=
  match e in JobE X return X -> Prop with
  | EWait => fun x => match x with WakeStop => stop_closed P = true | WakeDone => op_signalled P = true | _ => True end
  | _ => fun _ => True
  end.

(** A request of the API: the handler, run for its response. *)
Inductive request_prog : prog JobE unit -> Prop :=
| rp_submit body : (forall req, body = Some req -> in_int64 (sj_MaxRetries req)) -> request_prog (_ ← SubmitJob body; Ret tt)
| rp_get id : request_prog (_ ← GetJob id; Ret tt)
| rp_list st ty lim : request_prog (_ ← ListJobs st ty lim; Ret tt)
| rp_cancel id : request_prog (_ ← CancelJob id; Ret tt).

Inductive orch_step : OProc * OWorld -> OProc * OWorld -> Prop :=
| os_signal P w : orch_running P = true ->
    orch_step (P, w) (mkOProc true (op_scheduler P) (op_workers P) (op_server P) (op_requests P) (op_main P), w)
| os_sched P w s : orch_running P = true -> loop_step Scheduler_Run (op_signalled P) (op_scheduler P) s ->
    orch_step (P, w) (with_sched s P, w)
| os_sched_op P w X (e : JobE X) k x w' : orch_running P = true ->
    loop_prog (op_scheduler P) = Some (Vis e k) -> job_rel cap false X e w x w' ->
    orch_step (P, w) (with_sched (loop_with (op_scheduler P) (k x)) P, w')
| os_worker_op P w ws1 X (e : JobE X) k ws2 x w' : orch_running P = true ->
    op_workers P = ws1 ++ WIterating (Vis e k) :: ws2 -> job_rel cap false X e w x w' -> wake_ok P X e x ->
    orch_step (P, w) (with_workers (ws1 ++ WIterating (k x) :: ws2) P, w')
| os_worker_again P w ws1 ws2 : orch_running P = true -> op_workers P = ws1 ++ WIterating (Ret true) :: ws2 ->
    orch_step (P, w) (with_workers (ws1 ++ WIterating (worker_iteration conv) :: ws2) P, w)
| os_worker_return P w ws1 ws2 : orch_running P = true -> op_workers P = ws1 ++ WIterating (Ret false) :: ws2 ->
    orch_step (P, w) (with_workers (ws1 ++ WReturned :: ws2) P, w)
| os_listen P w ok : orch_running P = true -> op_server P = SvStarting ->
    orch_step (P, w) (with_oserver (if ok : bool then SvServing else SvFailed) P, w)
| os_serve_error P w : orch_running P = true -> op_server P = SvServing ->
    orch_step (P, w) (with_oserver SvFailed P, w)
| os_accept P w p : orch_running P = true -> op_server P = SvServing -> request_prog p ->
    orch_step (P, w) (with_orequests (op_requests P ++ [p]) P, w)
| os_request_op P w rs1 X (e : JobE X) k rs2 x w' : orch_running P = true ->
    op_requests P = rs1 ++ Vis e k :: rs2 -> job_rel cap false X e w x w' ->
    orch_step (P, w) (with_orequests (rs1 ++ k x :: rs2) P, w')
| os_answered P w rs1 rs2 : orch_running P = true -> op_requests P = rs1 ++ Ret tt :: rs2 ->
    orch_step (P, w) (with_orequests (rs1 ++ rs2) P, w)
| os_shutdown P w : op_main P = OServing -> op_signalled P = true ->
    orch_step (P, w) (with_omain OServerShutdown (with_oserver SvClosed P), w)
| os_server_down P w : op_main P = OServerShutdown ->     (* drained, or timed out *)
    orch_step (P, w) (with_omain OPoolShutdown P, w)
| os_exit P w : op_main P = OPoolShutdown -> Forall (eq WReturned) (op_workers P) ->
    orch_step (P, w) (with_omain OExited P, w).

Definition orch_steps : OProc * OWorld -> OProc * OWorld -> Prop := rtc orch_step.

(** ** The process is an instance of the system *)

Definition worker_progs (s : WorkerState) : list (prog JobE unit) :=
  match s with WIterating p => [_ ← p; Ret tt] | WReturned => [] end.

Definition orch_progs (P : OProc) : list (prog JobE unit) :=
  option_list (loop_prog (op_scheduler P)) ++ (op_workers P ≫= worker_progs) ++ op_requests P.

Lemma request_entry p : request_prog p -> jentry conv p.
Proof using Type. intros []; by constructor. Qed.

Lemma orch_step_progs P w P' w' :
  orch_step (P, w) (P', w') -> progs_step (job_rel cap false) (jentry conv) w (orch_progs P) (orch_progs P') w'.
Proof using Type.
  intros Hs. inversion Hs; subst; unfold orch_progs;
    cbn [with_sched with_workers with_oserver with_orequests with_omain op_scheduler op_workers op_requests];
    try (apply pp_same; reflexivity).
  - eapply (loop_progs _ _ Scheduler_Run _ _ _ []); [constructor|eassumption].
  - by eapply (loop_op_progs _ _ _ _ _ _ _ _ _ []).
  - match goal with Hw : op_workers P = _ |- _ => rewrite Hw end.
    rewrite !bind_app, !bind_cons. cbn [worker_progs app]. rewrite <- !app_assoc, <- ?app_comm_cons, !(app_assoc (option_list _)). 
    change ((Vis e k : prog JobE bool) ≫= (fun _ : bool => Ret tt)) with (Vis e (fun x => (k x : prog JobE bool) ≫= (fun _ => Ret tt))). by apply (op_progs _ _ _ e (fun x => _ ← k x; Ret tt) x).
  - match goal with Hw : op_workers P = _ |- _ => rewrite Hw end.
    rewrite !bind_app, !bind_cons. cbn [worker_progs app]. rewrite <- !app_assoc, <- ?app_comm_cons, !(app_assoc (option_list _)).
    eapply pp_restart; [apply (je_worker conv)|symmetry; apply Permutation_middle|symmetry; apply Permutation_middle].
  - match goal with Hw : op_workers P = _ |- _ => rewrite Hw end.
    rewrite !bind_app, !bind_cons. cbn [worker_progs app]. rewrite <- !app_assoc, <- ?app_comm_cons, !(app_assoc (option_list _)).
    apply pp_finish. symmetry. apply Permutation_middle.
  - eapply pp_start; [by apply request_entry|]. rewrite !app_assoc. by rewrite <- Permutation_cons_append.
  - match goal with Hr : op_requests P = _ |- _ => rewrite Hr end. rewrite !app_assoc. by apply op_progs.
  - match goal with Hr : op_requests P = _ |- _ => rewrite Hr end. apply pp_finish. rewrite !app_assoc.
    by rewrite <- Permutation_middle.
Qed.

Definition orch_simulated (w0 : OWorld) (c : OProc * OWorld) : Prop :=
  exists ts extra, jsteps cap conv ([], w0) (ts, c.2) /\ ts ≡ₚ orch_progs c.1 ++ extra /\ Forall (eq (Ret tt)) extra.

Lemma orch_step_simulated w0 c c' : orch_step c c' -> orch_simulated w0 c -> orch_simulated w0 c'.
Proof using Type.
  destruct c as [P w], c' as [P' w']. intros Hs (ts & extra & Hjs & Hts & Hex). cbn [fst snd] in *.
  apply orch_step_progs in Hs. unfold orch_simulated. cbn [fst snd].
  remember (orch_progs P) as ps0 eqn:E0. remember (orch_progs P') as ps1 eqn:E1. clear E0 E1.
  destruct Hs as [ps ps' Hp|p ps ps' He Hp|X e k x w' ps ps' rest HR Hp Hp'|ps ps' Hp|p ps ps' rest He Hp Hp'].
  - exists ts, extra. split_and!; [done| |done]. by rewrite Hts, Hp.
  - exists (ts ++ [p]), extra. split_and!; [eapply rtc_r; [exact Hjs|by apply js_start]| |done].
    rewrite Hp, Hts. cbn. by rewrite <- Permutation_cons_append.
  - rewrite Hp in Hts. cbn in Hts. symmetry in Hts.
    destruct (Permutation_cons_inv_l _ _ _ Hts) as (l1 & l2 & -> & Hrest).
    exists (l1 ++ k x :: l2), extra. split_and!; [| |done].
    + eapply rtc_r; [exact Hjs|]. rewrite <- (insert_middle l1 l2 (Vis e k) (k x)). eapply js_step; [|exact HR].
      by rewrite list_lookup_middle.
    + rewrite Hp'. cbn. by rewrite <- Permutation_middle, Hrest.
  - exists ts, (Ret tt :: extra). split_and!; [done| |by constructor]. rewrite Hts, Hp. cbn. by rewrite Permutation_middle.
  - exists (ts ++ [p]), (Ret tt :: extra). split_and!; [eapply rtc_r; [exact Hjs|by apply js_start]| |by constructor].
    rewrite Hp', Hts, Hp, Permutation_app_comm. cbn. apply Permutation_skip, Permutation_middle.
Qed.

(** The workers are running when [main] goes on. *)
Lemma orch_start_simulated n w : orch_simulated w (orch_start n, w).
Proof using Type.
  exists (replicate n (_ ← worker_iteration conv; Ret tt)), []. split_and!; [|cbn|constructor].
  - induction n as [|n IH]; [apply rtc_refl|]. cbn [fst snd] in *. rewrite replicate_S_end.
    eapply rtc_r; [exact IH|]. apply js_start, je_worker.
  - rewrite !app_nil_r. induction n as [|n IH]; [done|]. cbn. by rewrite <- IH.
Qed.

Lemma orch_steps_simulated n w P w' : orch_steps (orch_start n, w) (P, w') -> orch_simulated w (P, w').
Proof using Type.
  intros Hs. pose proof (orch_start_simulated n w) as H1.
  revert H1. unfold orch_steps in Hs. generalize dependent (P, w'). intros c Hs.
  induction Hs as [c0|c1 c2 c3 H12 _ IH]; [done|]. intros H1. apply IH. by eapply orch_step_simulated.
Qed.

(** ** The life of the process *)

Record orch_ok (P : OProc) : Prop := {
  oo_sched : op_scheduler P <> LPanicked;
  oo_closed : op_main P <> OServing -> op_signalled P = true /\ op_server P = SvClosed;
  oo_workers : op_main P = OExited -> Forall (eq WReturned) (op_workers P) }.

Lemma orch_step_ok c c' : orch_step c c' -> orch_ok c.1 -> orch_ok c'.1.
Proof using Type.
  assert (Hrun : forall P, orch_running P = true -> op_main P <> OExited).
  { intros P Hr Hm. unfold orch_running in Hr. by rewrite Hm in Hr. }
  intros Hs [H1 H2 H3]. inversion Hs; subst; cbn [fst] in *; split; cbn; try done;
    try (intros Hm; exfalso; by eapply Hrun).
  - intros Hm. by destruct (H2 Hm).
  - match goal with Hl : loop_step _ _ _ _ |- _ => exact (loop_step_safe _ _ _ _ Hl eq_refl) end.
  - by destruct (op_scheduler P).
  - intros Hm. destruct (H2 Hm). congruence.
  - intros Hm. destruct (H2 Hm). congruence.
  - intros _. apply H2. congruence.
  - intros _. apply H2. congruence.
Qed.

Lemma orch_steps_ok c c' : orch_steps c c' -> orch_ok c.1 -> orch_ok c'.1.
Proof using Type. induction 1 as [|c1 c2 c3 H12 _ IH]; [done|]. intros. eapply IH, orch_step_ok; eauto. Qed.

Lemma orch_start_ok n : orch_ok (orch_start n).
Proof using Type. by split. Qed.
End Process.

(** ** Properties *)

Section Properties.
Context `{MapRange} `{SliceSort} (cap : nat) (conv : Z -> Z).

(** No goroutine is in the middle of anything. *)
Definition at_rest (P : OProc) : Prop :=
  loop_prog (op_scheduler P) = None /\ Forall (eq WReturned) (op_workers P) /\ op_requests P = [].

Lemma at_rest_progs P : at_rest P -> orch_progs P = [].
Proof using Type.
  intros (Hs & Hw & Hr). unfold orch_progs. rewrite Hs, Hr. cbn.
  induction Hw as [|s ws <- _ IH]; [done|exact IH].
Qed.

(** C13: The process cmd/orchestrator, with any number of workers.  Every run is a
    run of the system of scheduler passes, worker iterations and requests, every
    program under way being one of its threads.  The scheduler's ticker never
    panics; shutdown begins only after the signal, with the server closed; [main]
    returns only when every worker has.  When it has returned and no request or
    scheduler pass was cut short, no job is left RUNNING or FAILED, and every
    QUEUED job is in the channel exactly once. *)
Theorem orchestrator_process_correct (numWorkers : nat) (w : OWorld) (P : OProc) (w' : OWorld) :
  fresh_start w -> orch_steps cap conv (orch_start conv numWorkers, w) (P, w') ->
  (exists ts, jsteps cap conv ([], w) (ts, w') /\ forall p, p ∈ orch_progs P -> p ∈ ts) /\
  op_scheduler P <> LPanicked /\
  (op_main P <> OServing -> op_signalled P = true /\ op_server P = SvClosed) /\
  (op_main P = OExited -> Forall (eq WReturned) (op_workers P)) /\
  (at_rest P -> forall id j, ow_jobs w' !! id = Some j ->
     Job_State j <> StateRunning /\ Job_State j <> StateFailed /\
     (Job_State j = StateQueued -> queued_times id (ow_queue w') = 1)).
Proof using Type.
  intros Hf Hs. destruct (orch_steps_simulated cap conv numWorkers w P w' Hs) as (ts & extra & Hjs & Hts & Hex).
  cbn [fst snd] in *. destruct (orch_steps_ok cap conv _ _ Hs (orch_start_ok conv numWorkers)) as [H1 H2 H3]. cbn [fst] in *.
  split_and!; [|exact H1|exact H2|exact H3|].
  - exists ts. split; [exact Hjs|]. intros p Hp. rewrite Hts. apply elem_of_app. by left.
  - intros Hrest id j Hj. rewrite (at_rest_progs P Hrest) in Hts. cbn in Hts.
    destruct (job_custody cap conv w w' ts Hf Hjs) as [holder Hh]. specialize (Hh id j Hj).
    assert (Hidle : forall t, ~ working ts t).
    { intros t (p & Hp & Hne). apply Hne. apply list_elem_of_lookup_2 in Hp. rewrite Hts in Hp.
      rewrite Forall_forall in Hex. by rewrite <- (Hex p Hp). }
    destruct (Job_State j); split_and!; try done.
    + intros _. destruct Hh as [[_ ?]|(t & _ & Ht)]; [done|by destruct (Hidle t)].
    + destruct Hh as (t & _ & Ht). by destruct (Hidle t).
    + destruct Hh as (t & _ & Ht). by destruct (Hidle t).
Qed.
End Properties.

(** ** A short life *)

(** One worker; the signal comes before anything is scheduled. *)
Definition ended : OProc := mkOProc true LNewTicker [WReturned] SvClosed [] OExited.

Lemma ended_reached : orch_steps 1 (fun _ => 0%Z) (orch_start (fun _ => 0%Z) 1, toy_world) (ended, toy_world).
Proof.
  unfold orch_steps, orch_start, worker_iteration. cbn [replicate].
  eapply rtc_l; [eapply (os_worker_op 1 (fun _ => 0%Z) _ _ [] _ ETryReceive _ [] RecvEmpty); [reflexivity|reflexivity|by split|exact I]|].
  eapply rtc_l; [apply os_signal; reflexivity|].
  eapply rtc_l; [apply os_shutdown; reflexivity|].
  eapply rtc_l; [apply os_server_down; reflexivity|].
  eapply rtc_l; [eapply (os_worker_op 1 (fun _ => 0%Z) _ _ [] _ EWait _ [] WakeStop);
    [reflexivity|reflexivity|by right; split; [left|]|reflexivity]|].
  eapply rtc_l; [apply (os_worker_return 1 (fun _ => 0%Z) _ _ [] []); reflexivity|].
  apply rtc_once, os_exit; [reflexivity|]. repeat constructor.
Qed.

Lemma orchestrator_process_correct_witness :
  exists j, ow_jobs toy_world !! "job_1" = Some j /\ Job_State j <> StateRunning.
Proof.
  destruct (orchestrator_process_correct 1 (fun _ => 0%Z) 1 toy_world ended toy_world toy_fresh ended_reached)
    as (_ & _ & _ & _ & Hrest).
  assert (Hj : exists j, ow_jobs toy_world !! "job_1" = Some j) by (eexists; vm_compute; reflexivity).
  destruct Hj as [j Hj]. exists j. split; [exact Hj|].
  exact (proj1 (Hrest ltac:(split_and!; [reflexivity|repeat constructor|reflexivity]) "job_1" j Hj)).
Defined.
