(* ===== verification/CpMetrics.v ===== *)
(** * The Prometheus collectors of the control plane, the agent and the orchestrator

    internal/metrics, internal/agentmetrics and the orchestrator's metrics as
    data, what a call of the code does to which collector, and two results: the
    collectors of the programs register without a panic, and the creation
    counters of the control plane are exact under every interleaving.  The
    registry is client_golang, a third-party package: [PromRegistry] states what
    its documentation says it accepts. *)

From S2P Require Import Prelude GoText Http Model Store Runtime Fixtures Scheduler Reconciler Replicas Api.
From S2P Require Import Concurrency.
From S2P Require Agent Jobs Orchestrator.
From Stdlib Require Import ZArith Lia Ascii.
From stdpp Require Import base gmap strings list.

(** ** Collectors *)

Inductive CollectorKind :=
| Counter
| Gauge
| Histogram (bounds : option (list Z)).   (* None: prometheus.DefBuckets *)

Record Collector := mkCollector {
  co_Name : string; co_Help : string; co_Kind : CollectorKind; co_Labels : list string }.

(** control-plane/internal/metrics *)
Definition ctrlplane_collectors : list Collector := [
  mkCollector "ctrlplane_workloads_total" "Total deployments submitted" Counter [];
  mkCollector "ctrlplane_jobs_total" "Total pods created" Counter [];
  mkCollector "ctrlplane_jobs_pending" "Pods currently pending" Gauge [];
  mkCollector "ctrlplane_jobs_running" "Pods currently running" Gauge [];
  mkCollector "ctrlplane_jobs_succeeded_total" "Total pods that succeeded" Counter [];
  mkCollector "ctrlplane_jobs_failed_total" "Total pod attempts that failed (including ones later retried)" Counter [];
  mkCollector "ctrlplane_jobs_dead_letter_total"
    "Total pods that exhausted their retry budget and were dead-lettered" Counter [];
  mkCollector "ctrlplane_scheduler_queue_depth" "Number of pods currently pending scheduling" Gauge [];
  mkCollector "ctrlplane_scheduler_latency_seconds" "Time from pod creation to being scheduled onto a node"
    (Histogram None) [];
  mkCollector "ctrlplane_reconciler_iterations_total" "Total reconciler loop iterations" Counter [];
  mkCollector "ctrlplane_worker_heartbeats_total" "Total node heartbeats received" Counter [];
  mkCollector "ctrlplane_unhealthy_workers" "Number of nodes currently marked unhealthy" Gauge [] ].

(** control-plane/internal/agentmetrics *)
Definition agent_collectors : list Collector := [
  mkCollector "worker_running_jobs" "Jobs currently executing on this worker" Gauge [];
  mkCollector "worker_completed_jobs_total" "Total jobs completed successfully by this worker" Counter [];
  mkCollector "worker_failed_jobs_total" "Total jobs that failed on this worker" Counter [];
  mkCollector "worker_heartbeat_latency_seconds" "Round-trip latency of heartbeat requests to the control plane"
    (Histogram None) [] ].

(** ml-job-orchestrator/internal/metrics *)
Definition orchestrator_collectors : list Collector := [
  mkCollector "mlorch_jobs_submitted_total" "Total jobs submitted, by type" Counter ["job_type"];
  mkCollector "mlorch_jobs_completed_total" "Total jobs completed successfully, by type" Counter ["job_type"];
  mkCollector "mlorch_jobs_failed_total"
    "Total jobs that failed (including timeouts and exhausted retries), by type" Counter ["job_type"];
  mkCollector "mlorch_job_duration_seconds" "Job execution duration in seconds"
    (Histogram (Some [1; 5; 10; 30; 60; 120; 300; 600]%Z)) ["job_type"; "state"];
  mkCollector "mlorch_queue_depth" "Number of jobs currently queued" Gauge [] ].

(** *** What the code calls *)

(** The collector of a call of the control plane ... *)
Definition metric_collector (m : Metric) : string :=
  match m with
  | DeploymentsTotal => "ctrlplane_workloads_total"
  | JobsTotal => "ctrlplane_jobs_total"
  | JobsSucceeded => "ctrlplane_jobs_succeeded_total"
  | JobsFailed => "ctrlplane_jobs_failed_total"
  | JobsDeadLetter => "ctrlplane_jobs_dead_letter_total"
  | SchedulerQueueDepth _ => "ctrlplane_scheduler_queue_depth"
  | SchedulerLatency _ => "ctrlplane_scheduler_latency_seconds"
  | ReconcilerIterations => "ctrlplane_reconciler_iterations_total"
  | WorkerHeartbeats => "ctrlplane_worker_heartbeats_total"
  | UnhealthyWorkers _ => "ctrlplane_unhealthy_workers"
  end.

(** ... of the agent, and of the orchestrator, with its label values. *)
Definition agent_collector (m : Agent.AgentMetric) : string :=
  match m with
  | Agent.WorkerRunningJobs _ => "worker_running_jobs"
  | Agent.WorkerCompletedJobsTotal => "worker_completed_jobs_total"
  | Agent.WorkerFailedJobsTotal => "worker_failed_jobs_total"
  | Agent.WorkerHeartbeatLatency _ => "worker_heartbeat_latency_seconds"
  end.

Definition job_collector (m : Orchestrator.JobMetric) : string * list string :=
  match m with
  | Orchestrator.JobsSubmitted t => ("mlorch_jobs_submitted_total", [t])
  | Orchestrator.JobsCompleted t => ("mlorch_jobs_completed_total", [t])
  | Orchestrator.JobsFailed t => ("mlorch_jobs_failed_total", [t])
  | Orchestrator.JobsDuration t s _ => ("mlorch_job_duration_seconds", [t; Jobs.State_string s])
  | Orchestrator.QueueDepth _ => ("mlorch_queue_depth", [])
  end.

(** The value of a counter after the calls [ms]. *)
Definition counter_value (name : string) (ms : list Metric) : Z :=
  tally (fun m => b2z (String.eqb (metric_collector m) name)) ms.

(** The calls that set a gauge. *)
Definition gauge_sets (name : string) (ms : list Metric) : list Z :=
  ms ≫= (fun m => match m with
    | SchedulerQueueDepth v | UnhealthyWorkers v => if String.eqb (metric_collector m) name then [v] else []
    | _ => []
    end).

(** ** Registration *)

Definition name_start (c : ascii) : bool :=
  let n := code c in ((65 <=? n) && (n <=? 90) || (97 <=? n) && (n <=? 122) || (n =? 95))%Z.
Definition name_char (c : ascii) : bool := name_start c || ((48 <=? code c) && (code c <=? 57))%Z.

Fixpoint name_rest (s : string) : bool := match s with EmptyString => true | String c s => name_char c && name_rest s end.

(** [[a-zA-Z_][a-zA-Z0-9_]*], which is a metric name and a label name. *)
Definition valid_name (s : string) : bool := match s with EmptyString => false | String c s => name_start c && name_rest s end.

(** A label name of the user's does not start with two underscores. *)
Definition valid_label (s : string) : bool := valid_name s && match trim_prefix "__" s with Some _ => false | None => true end.

Fixpoint increasing (l : list Z) : bool :=
  match l with x :: (y :: _) as rest => (x <? y)%Z && increasing rest | _ => true end.

(** A histogram has increasing bounds and no label [le]. *)
Definition valid_kind (c : Collector) : bool :=
  match co_Kind c with
  | Histogram bounds => (match bounds with Some l => increasing l | None => true end) && negb (bool_decide ("le" ∈ co_Labels c))
  | _ => true
  end.

Definition well_declared (c : Collector) : bool :=
  valid_name (co_Name c) && forallb valid_label (co_Labels c) && bool_decide (NoDup (co_Labels c)) && valid_kind c.

(** [promauto] registers with the default registry and panics when it refuses.
    It accepts a well-formed collector whose name is new. *)
Class PromRegistry := {
  prom_accepts : list Collector -> Collector -> bool;
  prom_accepts_new : forall registered c, well_declared c = true -> co_Name c ∉ co_Name <$> registered ->
    prom_accepts registered c = true }.

(** The package initialisers run one after the other; [None]: a panic. *)
Fixpoint register_all `{PromRegistry} (registered : list Collector) (cs : list Collector) : option (list Collector) :=
  match cs with
  | [] => Some registered
  | c :: cs => if prom_accepts registered c then register_all (registered ++ [c]) cs else None
  end.

Lemma register_all_ok `{PromRegistry} registered cs :
  Forall (fun c => well_declared c = true) cs -> NoDup (co_Name <$> (registered ++ cs)) ->
  register_all registered cs = Some (registered ++ cs).
Proof.
  revert registered. induction cs as [|c cs IH]; intros registered Hw Hn; cbn; [by rewrite app_nil_r|].
  apply Forall_cons in Hw as [Hc Hw].
  assert (Hnew : co_Name c ∉ co_Name <$> registered).
  { rewrite fmap_app, NoDup_app in Hn. destruct Hn as (_ & Hd & _). intros Hin. apply (Hd _ Hin). cbn. set_solver. }
  rewrite prom_accepts_new by done. rewrite (IH (registered ++ [c])); [by rewrite <- app_assoc|done|].
  by rewrite <- app_assoc.
Qed.

(** ** What a program owes

    A program that has stored a new entry owes the counter one increment.  [pays]
    follows the debt along every path: it stores a second entry only after it has
    paid for the first, counts only what it owes, and deletes nothing. *)

Inductive Counted := CDeployments | CPods.

Definition counter_of (x : Counted) : Metric := match x with CDeployments => DeploymentsTotal | CPods => JobsTotal end.
Definition stored (x : Counted) (c : Cluster) : Z :=
  match x with CDeployments => Z.of_nat (size (deployments c)) | CPods => Z.of_nat (size (pods c)) end.

(** A call that added an entry. *)
Definition creates (x : Counted) {X} (op : StoreOp X) : X -> bool :=
  match op in StoreOp X return X -> bool with
  | OpCreateDeployment _ => fun r => match x, r with CDeployments, None => true | _, _ => false end
  | OpCreatePod _ => fun r => match x, r with CPods, None => true | _, _ => false end
  | _ => fun _ => false
  end.

Definition keeps_entries {X} (op : StoreOp X) : bool := match op with OpDeleteDeployment _ => false | _ => true end.

Definition counts (x : Counted) (m : Metric) : bool := String.eqb (metric_collector m) (metric_collector (counter_of x)).

Lemma create_size {A} k (v : A) m r m' :
  create_post k v m r m' -> Z.of_nat (size m') = (Z.of_nat (size m) + b2z (match r with None => true | Some _ => false end))%Z.
Proof.
  unfold create_post. intros H. destruct (m !! k) eqn:E; destruct H as [-> ->]; cbn; [lia|].
  rewrite map_size_insert_None by done. lia.
Qed.

Lemma update_size {A} k (v : A) m r m' : update_post k v m r m' -> size m' = size m.
Proof.
  unfold update_post. intros H. destruct (m !! k) eqn:E; destruct H as [-> ->]; [|done].
  by rewrite map_size_insert_Some by (by rewrite E).
Qed.

Lemma transition_size {A} k legal (g : A -> A) m r m' : transition_post k legal g m r m' -> size m' = size m.
Proof.
  unfold transition_post. intros H. destruct (m !! k) eqn:E; [destruct (legal _)|]; destruct H as [-> ->]; try done.
  by rewrite map_size_insert_Some by (by rewrite E).
Qed.

(** A store call adds what [creates] says. *)
Lemma stored_after fl x X (op : StoreOp X) now c r c' :
  keeps_entries op = true -> op_post fl op now c r c' -> stored x c' = (stored x c + b2z (creates x op r))%Z.
Proof.
  intros Hk [Hok|(_ & Hf & ->)].
  - destruct op; cbn in Hk, Hok |- *; try done; split_and_all; subst; destruct x; cbn; try lia;
      try (by rewrite (update_size _ _ _ _ _ ltac:(eassumption)); lia);
      try (by rewrite (transition_size _ _ _ _ _ _ ltac:(eassumption)); lia);
      by rewrite (create_size _ _ _ _ _ ltac:(eassumption)).
  - destruct op; cbn in Hf |- *; try (cbn; lia); subst; destruct x; cbn; lia.
Qed.

Section Pays.
Context (x : Counted).

Fixpoint pays {A} (p : prog CpE A) (Q : A -> bool -> Prop) (owed : bool) : Prop :=
  match p with
  | Ret a => Q a owed
  | @Vis _ _ X e k =>
      match e in CpE X return (X -> bool -> Prop) -> Prop with
      | EStore op => fun F => keeps_entries op = true /\
          forall r, creates x op r && owed = false /\ F r (creates x op r || owed)
      | EMetric m => fun F => if counts x m then owed = true /\ F tt false else F tt owed
      | _ => fun F => forall r, F r owed
      end (fun r owed => pays (k r) Q owed)
  end.

Definition clear {A} (_ : A) (owed : bool) : Prop := owed = false.

Lemma pays_mono {A} (p : prog CpE A) (Q Q' : A -> bool -> Prop) owed :
  (forall a b, Q a b -> Q' a b) -> pays p Q owed -> pays p Q' owed.
Proof using Type.
  intros HQ. revert owed. induction p as [a|X e k IH]; intros owed; cbn; [by apply HQ|].
  destruct e; try (intros H r; by apply IH).
  - intros [Hk H]. split; [done|]. intros r. destruct (H r). split; [done|]. by apply IH.
  - destruct (counts x m); [intros [? H]; split; [done|]|intros H]; by apply IH.
Qed.

Lemma pays_bind {A B} (p : prog CpE A) (f : A -> prog CpE B) Q owed :
  pays p (fun a b => pays (f a) Q b) owed -> pays (p ≫= f) Q owed.
Proof using Type.
  revert owed. induction p as [a|X e k IH]; intros owed; cbn; [done|].
  destruct e; try (intros H r; by apply IH).
  - intros [Hk H]. split; [done|]. intros r. destruct (H r). split; [done|]. by apply IH.
  - destruct (counts x m); [intros [? H]; split; [done|]|intros H]; by apply IH.
Qed.

Lemma pays_seq {A B} (p : prog CpE A) (f : A -> prog CpE B) Q :
  pays p clear false -> (forall a, pays (f a) Q false) -> pays (p ≫= f) Q false.
Proof using Type. intros Hp Hf. apply pays_bind. eapply pays_mono; [|exact Hp]. intros a b ->. apply Hf. Qed.

(** The rules for calls that create nothing. *)
Section Quiet.
Context {A : Type} (Q : A -> bool -> Prop) (owed : bool).

Lemma pays_store {X} (op : StoreOp X) (k : X -> prog CpE A) :
  keeps_entries op = true -> (forall r, creates x op r = false) ->
  (forall r, pays (k r) Q owed) -> pays (store op ≫= k) Q owed.
Proof using Type. intros Hk Hc H. split; [done|]. intros r. rewrite Hc. split; [done|apply H]. Qed.

Lemma pays_metric m (k : unit -> prog CpE A) :
  counts x m = false -> pays (k tt) Q owed -> pays (metric m ≫= k) Q owed.
Proof using Type. intros Hc H. cbn. by rewrite Hc. Qed.

Lemma pays_now (k : Time -> prog CpE A) : (forall t, pays (k t) Q owed) -> pays (time_now ≫= k) Q owed.
Proof using Type. done. Qed.

Lemma pays_rand n (k : option (list byte) -> prog CpE A) :
  (forall r, pays (k r) Q owed) -> pays (call (ERandRead n) ≫= k) Q owed.
Proof using Type. done. Qed.
End Quiet.

Lemma pays_for_each {A S} (f : A -> S -> prog CpE S) l s :
  (forall a s, pays (f a s) clear false) -> pays (for_each l s f) clear false.
Proof using Type.
  intros Hf. revert s. induction l as [|a l IH]; intros s; cbn; [done|]. by apply pays_seq.
Qed.
End Pays.

Create HintDb pays discriminated.

(** Steps through a program; what it calls is in [pays], the rest creates nothing. *)
Ltac pays_quiet := repeat first
  [ reflexivity
  | solve [auto 2 with pays nocore]
  | match goal with
    | |- pays _ (store _ ≫= _) _ _ => apply pays_store; [reflexivity|reflexivity|intros ?r]
    | |- pays _ (metric _ ≫= _) _ _ => apply pays_metric; [reflexivity|]
    | |- pays _ (time_now ≫= _) _ _ => apply pays_now; intros ?t
    | |- pays _ (call (ERandRead _) ≫= _) _ _ => apply pays_rand; intros ?r
    | |- pays _ (for_each _ _ _) _ _ => apply pays_for_each; intros ?a ?s
    | |- pays _ (match ?t with _ => _ end) _ _ => destruct t
    | |- pays _ (let x := ?t in _) _ _ => cbv zeta
    | |- pays _ (Ret _) _ _ => reflexivity
    | |- pays _ (store _) _ _ => split; [reflexivity|intros ?r; split; reflexivity]
    | |- pays _ (call EGetStats) _ _ => intros ?r; reflexivity
    | |- pays _ (_ ≫= _) _ _ => apply pays_seq; [|intros ?s]
    end ].

Section Debts.
Context `{SliceSort}.

Lemma schedule_pod_pays x now pod s : pays x (schedule_pod now pod s) clear false.
Proof using Type. destruct s as [ns k]. unfold schedule_pod, place_pod. destruct x; pays_quiet. Qed.

Lemma scheduler_tick_pays x : pays x Scheduler.Tick clear false.
Proof using Type.
  unfold Scheduler.Tick. apply pays_store; [done|done|]. intros [ps e]. destruct e; [done|].
  apply pays_store; [done|done|]. intros [ns e]. destruct e; [done|]. apply pays_now. intros t.
  apply pays_seq; [apply pays_for_each; intros; apply schedule_pod_pays|]. intros [ns' k].
  apply pays_metric; [by destruct x|]. by intros t' [].
Qed.

Lemma create_replica_pays x d : pays x (create_replica d) clear false.
Proof using Type.
  unfold create_replica. apply pays_bind. apply pays_rand. intros [bs|]; [|done]. apply pays_now. intros t.
  split; [done|]. by intros [e|]; destruct x.
Qed.
Hint Resolve create_replica_pays schedule_pod_pays : pays.

Lemma reconcileDeployments_pays x : pays x reconcileDeployments clear false.
Proof using Type.
  unfold reconcileDeployments, reconcile_deployment, reconcile_pods, scale, mark_degraded.
  destruct x; pays_quiet.
Qed.

Lemma reschedulePodsFor_pays x conv nid : pays x (reschedulePodsFor conv nid) clear false.
Proof using Type.
  unfold reschedulePodsFor, reschedule_pod, requeue_scheduled, retry_running. destruct x; pays_quiet.
Qed.
Hint Resolve reschedulePodsFor_pays reconcileDeployments_pays : pays.

Lemma reconciler_tick_pays x conv hto : pays x (Reconciler.Tick conv hto) clear false.
Proof using Type.
  unfold Reconciler.Tick. apply pays_seq; [auto with pays|]. intros [].
  apply pays_seq; [|by destruct x]. unfold detectUnhealthyNodes, detect_node. destruct x; pays_quiet.
Qed.

Lemma update_status_pays x nid pid body : pays x (UpdatePodStatus nid pid body) clear false.
Proof using Type. unfold UpdatePodStatus, releaseNodeCapacity. destruct x; pays_quiet. Qed.

Lemma allocate_pays x n prefix create (Q : option string -> bool -> Prop) :
  prefix <> "" -> (forall id t, keeps_entries (create id t) = true) ->
  Q None false -> Q (Some "") false ->
  (forall id t, id <> "" -> Q (Some id) (creates x (create id t) None)) ->
  (forall id t e, creates x (create id t) (Some e) = false) ->
  pays x (allocate n prefix create) Q false.
Proof using Type.
  intros Hp Hk Hn He Hs Hf. induction n as [|n IH]; cbn [allocate]; [exact He|].
  unfold generateID. apply pays_bind, pays_rand. intros [bs|]; [|exact Hn]. apply pays_now. intros t.
  split; [apply Hk|]. intros [e|].
  - rewrite Hf. split; [done|exact IH].
  - rewrite andb_false_r, orb_false_r. split; [done|]. apply Hs. by destruct prefix.
Qed.

Lemma create_deployment_pays x body : pays x (CreateDeployment body) clear false.
Proof using Type.
  unfold CreateDeployment. destruct body as [req|]; [|done]. case_one; [done|]. apply pays_bind.
  apply allocate_pays; try done; [|by destruct x].
  intros id t Hid. rewrite (proj2 (String.eqb_neq id "") Hid). destruct x; [split; [done|]|];
    (apply pays_store; [done|done|]); intros [d|e]; done.
Qed.

Lemma register_node_pays x body : pays x (RegisterNode body) clear false.
Proof using Type.
  unfold RegisterNode. destruct body as [req|]; [|done]. case_one; [done|].
  apply pays_seq; [by apply allocate_pays|]. intros id. pays_quiet.
Qed.
Hint Resolve update_status_pays create_deployment_pays register_node_pays scheduler_tick_pays : pays.

Lemma router_pays x running req : pays x (NewRouter running req) clear false.
Proof using Type.
  destruct req; cbn [NewRouter]; auto with pays nocore.
  all: unfold ListDeployments, GetDeployment, CancelDeployment, ListDeploymentPods, PollPods, ListNodes, GetNode,
    DrainNode, SchedulerQueue, SchedulerStats, SchedulerRebalance, ListServices, CreateService, generateID, GetService,
    UpdateService, DeleteService, GetServiceBackends, ProxyConfig, ProxyBackends, resolveServiceBackends, Heartbeat.
  all: destruct x; pays_quiet.
Qed.
End Debts.

(** ** The counters of the running system *)

Definition thread_pays (x : Counted) (t : Thread) (owed : bool) : Prop :=
  match t with
  | Running p => pays x p clear owed
  | Ranging _ _ _ k => forall r, pays x (k r) clear owed
  end.

(** Every thread owes at most one increment, and with what they owe the counter
    is the number of entries stored since the start. *)
Definition accounted (x : Counted) (start : Cluster) (cfg : list Thread * World) : Prop :=
  exists debts, Forall2 (thread_pays x) cfg.1 debts /\
    (counter_value (metric_collector (counter_of x)) (w_metrics cfg.2) + tally b2z debts
      = stored x (w_cluster cfg.2) - stored x start)%Z.

Lemma entry_pays `{SliceSort} conv hto running x p : entry conv hto running p -> pays x p clear false.
Proof.
  intros [| |req]; [apply scheduler_tick_pays|apply reconciler_tick_pays|].
  apply pays_seq; [apply router_pays|done].
Qed.

Lemma pays_step fl x X (e : CpE X) (k : X -> prog CpE unit) w r w' owed :
  pays x (Vis e k) clear owed -> cp_rel fl X e w r w' ->
  exists owed', pays x (k r) clear owed' /\
    (counter_value (metric_collector (counter_of x)) (w_metrics w') + b2z owed' - stored x (w_cluster w')
      = counter_value (metric_collector (counter_of x)) (w_metrics w) + b2z owed - stored x (w_cluster w))%Z.
Proof.
  intros Hp HR. destruct e as [X op| |n|m| |st]; cbn in Hp, HR.
  - destruct Hp as [Hk Hp], HR as (now & c' & _ & Hop & ->). destruct (Hp r) as [Ho Hr]. exists (creates x op r || owed).
    split; [done|]. cbn [w_metrics w_cluster with_cluster]. rewrite (stored_after _ x _ _ _ _ _ _ Hk Hop).
    destruct (creates x op r), owed; cbn [b2z andb orb] in Ho |- *; [done|lia..].
  - destruct HR as [_ ->]. eauto.
  - destruct HR as [-> _]. eauto.
  - subst w'. cbn. unfold counter_value. rewrite tally_app. cbn [tally]. unfold counts in Hp.
    destruct (String.eqb _ _); [destruct Hp as [-> Hp]|]; destruct r; eexists; (split; [exact Hp|]); cbn; lia.
  - destruct HR as [_ ->]. eauto.
  - subst w'. eauto.
Qed.

Lemma accounted_step `{SliceSort} fl conv hto running x start cfg cfg' :
  accounted x start cfg -> cstep fl conv hto running cfg cfg' -> accounted x start cfg'.
Proof.
  intros (debts & Hd & Hsum) Hstep.
  destruct Hstep as [p ts w He|ts1 X e k ts2 w r w' HR|ts1 X op k ts2 w r Hr
    |ts1 X op seen r k ts2 w id r' _ Hv|ts1 X op seen r k ts2 w]; cbn [fst snd] in *.
  { exists (debts ++ [false]). split; [|rewrite tally_app; cbn; lia]. apply Forall2_app; [done|].
    constructor; [|constructor]. by eapply entry_pays. }
  all: apply Forall2_app_inv_l in Hd as (d1 & d2' & H1 & (owed & d2 & Ht & H2 & ->)%Forall2_cons_inv_l & ->).
  - destruct (pays_step _ _ _ _ _ _ _ _ _ Ht HR) as (owed' & Hp & Heq). exists (d1 ++ owed' :: d2).
    split; [apply Forall2_app; [done|by constructor]|]. rewrite tally_app in *. cbn [tally fst snd] in *. lia.
  - exists (d1 ++ owed :: d2). split; [|done]. apply Forall2_app; [done|]. constructor; [|done].
    intros r0. destruct Ht as [_ Ht]. destruct (Ht r0) as [_ Hk]. by destruct op.
  - exists (d1 ++ owed :: d2). split; [|done]. apply Forall2_app; [done|]. by constructor.
  - exists (d1 ++ owed :: d2). split; [|done]. apply Forall2_app; [done|]. constructor; [apply Ht|done].
Qed.

Lemma accounted_steps `{SliceSort} fl conv hto running x start cfg cfg' :
  accounted x start cfg -> csteps fl conv hto running cfg cfg' -> accounted x start cfg'.
Proof. intros Ha Hs. induction Hs; eauto using accounted_step. Qed.

(** A thread that has not returned. *)
Definition under_way (t : Thread) : bool := match t with Running (Ret _) => false | _ => true end.

Lemma owed_under_way x t owed : thread_pays x t owed -> (b2z owed <= b2z (under_way t))%Z.
Proof. destruct t as [[a|X e k]|X op seen r k]; cbn; [intros ->; cbn|destruct owed; cbn|destruct owed; cbn]; lia. Qed.

Lemma accounted_bounds x start ts w :
  accounted x start (ts, w) ->
  let counted := counter_value (metric_collector (counter_of x)) (w_metrics w) in
  let made := (stored x (w_cluster w) - stored x start)%Z in
  (counted <= made <= counted + tally (fun t => b2z (under_way t)) ts)%Z.
Proof.
  intros (debts & Hd & Hsum) counted made. cbn [fst snd] in *. subst counted made.
  assert (0 <= tally b2z debts)%Z by (apply tally_nonneg; intros []; cbn; lia).
  assert (tally b2z debts <= tally (fun t => b2z (under_way t)) ts)%Z.
  { apply (tally_le_Forall2 _ _ (fun owed t => thread_pays x t owed)); [intros owed t; apply owed_under_way|].
    by apply Forall2_flip. }
  lia.
Qed.

(** ** Properties *)

(** The collectors that the control plane, the agent and the orchestrator
    declare register at start-up without a panic, in whatever registry accepts
    well-formed collectors under new names; every call of the code goes to a
    declared collector and gives it one value per label; and no two of the three
    programs, which one Prometheus scrapes, use the same name. *)
Theorem collectors_register `{PromRegistry} :
  register_all [] ctrlplane_collectors = Some ctrlplane_collectors /\
  register_all [] agent_collectors = Some agent_collectors /\
  register_all [] orchestrator_collectors = Some orchestrator_collectors /\
  (forall m, (metric_collector m, []) ∈ (fun c => (co_Name c, co_Labels c)) <$> ctrlplane_collectors) /\
  (forall m, (agent_collector m, []) ∈ (fun c => (co_Name c, co_Labels c)) <$> agent_collectors) /\
  (forall m, ((job_collector m).1, length (job_collector m).2)
     ∈ (fun c => (co_Name c, length (co_Labels c))) <$> orchestrator_collectors) /\
  NoDup (co_Name <$> (ctrlplane_collectors ++ agent_collectors ++ orchestrator_collectors)).
Proof.
  assert (Hn : NoDup (co_Name <$> (ctrlplane_collectors ++ agent_collectors ++ orchestrator_collectors)))
    by (apply (bool_decide_unpack _); vm_compute; exact I).
  assert (Hw : forall cs, forallb well_declared cs = true -> NoDup (co_Name <$> cs) -> register_all [] cs = Some cs).
  { intros cs Hcs Hc. apply register_all_ok; [|done]. apply Forall_forall. intros c Hc'. by apply (proj1 (forallb_forall _ _) Hcs), list_elem_of_In. }
  pose proof Hn as Hn'. rewrite !fmap_app in Hn'. apply NoDup_app in Hn' as (N1 & _ & (N2 & _ & N3)%NoDup_app).
  split_and!; [by apply Hw|by apply Hw|by apply Hw| | | |exact Hn].
  - intros m. apply (bool_decide_unpack _). by destruct m.
  - intros m. apply (bool_decide_unpack _). by destruct m.
  - intros m. apply (bool_decide_unpack _). by destruct m.
Qed.

(** C17: The creation counters count what was created.  Under every interleaving of
    scheduler passes, reconciler passes and requests, with storage faults,
    ctrlplane_workloads_total and ctrlplane_jobs_total lag behind the number of
    deployments and pods stored since the start by at most one for every thread
    still under way; when all have returned they are equal to it. *)
Theorem creation_counters_exact `{SliceSort} (fl : bool) (conv : Z -> Z) (heartbeatTimeout : Duration) (running : bool)
    (w w' : World) (ts : list Thread) (x : Counted) :
  w_metrics w = [] ->
  csteps fl conv heartbeatTimeout running ([], w) (ts, w') ->
  let counted := counter_value (metric_collector (counter_of x)) (w_metrics w') in
  let made := (stored x (w_cluster w') - stored x (w_cluster w))%Z in
  (counted <= made <= counted + tally (fun t => b2z (under_way t)) ts)%Z /\
  (Forall (fun t => under_way t = false) ts -> counted = made).
Proof.
  intros Hm Hs counted made.
  assert (Hb : (counted <= made <= counted + tally (fun t => b2z (under_way t)) ts)%Z).
  { apply accounted_bounds. eapply accounted_steps; [|exact Hs]. exists []. split; [constructor|]. cbn. rewrite Hm. cbn. lia. }
  split; [exact Hb|]. intros Hret.
  assert (Hz : tally (fun t => b2z (under_way t)) ts = 0%Z).
  { clear -Hret. induction Hret as [|t ts Ht _ IH]; cbn; [done|]. by rewrite Ht, IH. }
  lia.
Qed.

(** ctrlplane_jobs_pending and ctrlplane_jobs_running are declared, and no call
    of the control plane sets them: they stay 0. *)
Theorem pod_gauges_never_set (ms : list Metric) :
  "ctrlplane_jobs_pending" ∈ co_Name <$> ctrlplane_collectors /\
  "ctrlplane_jobs_running" ∈ co_Name <$> ctrlplane_collectors /\
  gauge_sets "ctrlplane_jobs_pending" ms = [] /\ gauge_sets "ctrlplane_jobs_running" ms = [] /\
  Forall (fun m => metric_collector m <> "ctrlplane_jobs_pending" /\ metric_collector m <> "ctrlplane_jobs_running") ms.
Proof.
  split_and!; [apply (bool_decide_unpack _); by vm_compute..| | |].
  - induction ms as [|m ms IH]; [done|]. cbn. unfold gauge_sets in IH. rewrite IH. by destruct m.
  - induction ms as [|m ms IH]; [done|]. cbn. unfold gauge_sets in IH. rewrite IH. by destruct m.
  - apply Forall_true. intros m. by destruct m.
Qed.

(** ** Witnesses *)

(** A registry that accepts exactly the well-formed collectors under new names. *)
Definition strict_registry : PromRegistry.
Proof.
  refine {| prom_accepts registered c := well_declared c && negb (bool_decide (co_Name c ∈ co_Name <$> registered)) |}.
  intros registered c Hw Hn. by rewrite Hw, bool_decide_false.
Defined.

(** It refuses a second registration. *)
Example strict_registry_refuses : @register_all strict_registry [] (agent_collectors ++ agent_collectors) = None.
Proof. vm_compute. reflexivity. Qed.

Lemma collectors_register_witness : @register_all strict_registry [] ctrlplane_collectors = Some ctrlplane_collectors.
Proof. apply (@collectors_register strict_registry). Defined.

(** Submitting a deployment of two replicas and reconciling it. *)
Example fresh_counters :
  counter_value "ctrlplane_jobs_total" (mc_metrics fresh_run.2) = 2%Z /\
  forallb (fun p => negb (under_way (Running p))) fresh_run.1 = true.
Proof. vm_compute. split; reflexivity. Qed.

Lemma creation_counters_exact_witness :
  exists w, counter_value "ctrlplane_jobs_total" (w_metrics w) = 2%Z /\ stored CPods (w_cluster w) = 2%Z.
Proof.
  destruct fresh_reached as (w & Hs & Ha). exists w.
  destruct (creation_counters_exact false (fun _ => 0%Z) 0 true fresh_world w (Running <$> fresh_run.1) CPods eq_refl Hs)
    as [_ Heq].
  assert (Hc : counter_value "ctrlplane_jobs_total" (w_metrics w) = 2%Z)
    by (rewrite <- (ma_metrics _ _ _ Ha); apply fresh_counters).
  split; [exact Hc|]. cbn [counter_of metric_collector] in Heq. rewrite Hc in Heq.
  enough (2 = stored CPods (w_cluster w) - 0)%Z by lia. apply Heq.
  apply Forall_fmap, Forall_forall. intros p Hp. apply list_elem_of_In in Hp. cbn.
  pose proof (proj1 (forallb_forall _ _) (proj2 fresh_counters) p Hp) as Hr. by apply negb_true_iff in Hr.
Defined.
