(* ===== verification/DemoBackend.v ===== *)
(** * cmd/backend: the demo upstream

    The flags, the two routes and the handlers of the server that stands in for a
    real backend, over the operations it uses: a random number, a sleep, and the
    calls on the response writer.  The JSON body is the map it encodes.  Its
    answers are what the proxy's health checker counts as successes. *)

From S2P Require Import Prelude GoText GoFormat Http ServeMux Model Proxy.
From Stdlib Require Import ZArith Lia Ascii.
From stdpp Require Import base gmap strings list.
Local Open Scope go_scope.

Inductive DemoCall :=
| DHeader (key value : string)
| DStatus (code : Z)
| DBytes (data : string)
| DJson (object : gmap string string).

Inductive DemoE : Type -> Type :=
| DInt63n (n : Z) : DemoE (option Z)      (* None: it panics *)
| DSleep (d : Duration) : DemoE unit
| DRw (c : DemoCall) : DemoE unit.

(** ** main *)

Definition demo_flags : list (string * FlagValue) :=
  [("name", FString "backend"); ("addr", FString ":9001"); ("latency", FDuration 0); ("jitter", FDuration 0)].

Record DemoConfig := mkDemoConfig {
  dm_name : string; dm_addr : string; dm_latency : Duration; dm_jitter : Duration }.

Definition demo_config (v : gmap string FlagValue) : DemoConfig :=
  mkDemoConfig (flag_string v "name") (flag_string v "addr") (flag_duration v "latency") (flag_duration v "jitter").

Definition demo_patterns : list string := ["/health"; "/"].

(** The handlers return whether they panicked. *)
Definition demo_health : prog DemoE bool :=
  _ ← call (DRw (DStatus 200)); _ ← call (DRw (DBytes "ok")); Ret false.

(** [path] is [r.URL.Path]. *)
Definition demo_answer (cfg : DemoConfig) (path : string) : prog DemoE bool :=
  _ ← call (DRw (DHeader "Content-Type" "application/json"));
  _ ← call (DRw (DJson (list_to_map
        [("backend", dm_name cfg); ("path", path); ("message", "hello from " +:+ dm_name cfg)])));
  Ret false.

Definition demo_root (cfg : DemoConfig) (path : string) : prog DemoE bool :=
  if ((0 <? dm_latency cfg) || (0 <? dm_jitter cfg))%Z then
    if (0 <? dm_jitter cfg)%Z then
      n ← call (DInt63n (dm_jitter cfg));
      match n with
      | None => Ret true
      | Some n => _ ← call (DSleep (dm_latency cfg +64 n)); demo_answer cfg path
      end
    else _ ← call (DSleep (dm_latency cfg)); demo_answer cfg path
  else demo_answer cfg path.

(** The mux: a path that is not clean is redirected; [/health] is more specific
    than [/], which matches the rest. *)
Definition demo_serve (cfg : DemoConfig) (escapedPath : string) : option (prog DemoE bool) :=
  if negb (String.eqb (cleanPath escapedPath) escapedPath) then None
  else match match_segments ["" ; "health"] (split_at "/" escapedPath) with
       | Some _ => Some demo_health
       | None => Some (demo_root cfg (path_value escapedPath))
       end.

(** The exit status, or the server that listens. *)
Definition demo_main (args : list string) : DemoConfig + Z :=
  match flag_Parse demo_flags args with
  | FlagExit status => inr status
  | Flags v _ => inl (demo_config v)
  end.

(** ** Semantics *)

Record DemoWorld := mkDemoWorld { dw_slept : list Duration; dw_calls : list DemoCall }.

Definition demo_rel X (e : DemoE X) : DemoWorld -> X -> DemoWorld -> Prop :=
  match e in DemoE X return DemoWorld -> X -> DemoWorld -> Prop with
  | DInt63n n => fun w r w' => w' = w /\ if (0 <? n)%Z then exists k, r = Some k /\ (0 <= k < n)%Z else r = None
  | DSleep d => fun w _ w' => w' = mkDemoWorld (dw_slept w ++ [d]) (dw_calls w)
  | DRw c => fun w _ w' => w' = mkDemoWorld (dw_slept w) (dw_calls w ++ [c])
  end.

Definition demo_idle : DemoWorld := mkDemoWorld [] [].

(** The status net/http sends for the calls: the one written, or 200. *)
Fixpoint demo_status (cs : list DemoCall) : Z :=
  match cs with
  | [] => 200
  | DStatus c :: _ => c
  | (DBytes _ | DJson _) :: _ => 200
  | DHeader _ _ :: cs => demo_status cs
  end.

Definition identity_calls (cfg : DemoConfig) (path : string) : list DemoCall :=
  [DHeader "Content-Type" "application/json";
   DJson (list_to_map [("backend", dm_name cfg); ("path", path); ("message", "hello from " +:+ dm_name cfg)])].

(** ** Properties *)

Lemma demo_answer_wp cfg path slept :
  wp demo_rel (demo_answer cfg path) (fun panicked w => panicked = false /\ w = mkDemoWorld slept (identity_calls cfg path))
    (mkDemoWorld slept []).
Proof. intros [] w1 ->. intros [] w2 ->. done. Qed.

(** The time a request is kept waiting. *)
Definition demo_delay (cfg : DemoConfig) (slept : list Duration) : Prop :=
  if ((0 <? dm_latency cfg) || (0 <? dm_jitter cfg))%Z then
    exists d, slept = [d] /\
      ((0 <= dm_latency cfg)%Z -> in_int64 (dm_latency cfg + dm_jitter cfg)%Z ->
       (dm_latency cfg <= d <= dm_latency cfg + Z.max 0 (dm_jitter cfg - 1))%Z)
  else slept = [].

Lemma demo_root_wp cfg path :
  wp demo_rel (demo_root cfg path)
    (fun panicked w => panicked = false /\ demo_delay cfg (dw_slept w) /\ dw_calls w = identity_calls cfg path) demo_idle.
Proof.
  unfold demo_root, demo_delay. destruct (_ || _)%bool eqn:Hpos.
  - destruct (0 <? dm_jitter cfg)%Z eqn:Hj.
    + intros r w [-> Hr]. rewrite Hj in Hr. destruct Hr as (k & -> & Hk). intros [] w1 ->. cbn [dw_slept dw_calls demo_idle app].
      eapply wp_mono; [|apply demo_answer_wp]. intros p w [-> ->]. split_and!; [done| |done].
      eexists. split; [done|]. intros H0 Hmax. apply Z.ltb_lt in Hj. rewrite int64_wrap_id; unfold in_int64, min_int64, max_int64 in *; lia.
    + intros [] w1 ->. cbn [dw_slept dw_calls demo_idle app]. eapply wp_mono; [|apply demo_answer_wp].
      intros p w [-> ->]. split_and!; [done| |done]. eexists. split; [done|]. apply Z.ltb_ge in Hj. lia.
  - eapply wp_mono; [|apply demo_answer_wp]. intros p w [-> ->]. done.
Qed.

Lemma demo_health_wp :
  wp demo_rel demo_health (fun panicked w => panicked = false /\ w = mkDemoWorld [] [DStatus 200; DBytes "ok"]) demo_idle.
Proof. intros [] w1 ->. intros [] w2 ->. done. Qed.

(** The demo backend registers its routes and answers every request on a clean
    path once, without a panic: [/health] at once with 200 and [ok], every other
    path with its name and that path after a delay between the latency and latency
    plus jitter.  Either answer is one the proxy's checker records as a success. *)
Theorem demo_backend_correct `{UrlLib} (cfg : DemoConfig) (path : string) :
  cleanPath path = path ->
  is_Some (mux_handle_all [] demo_patterns) /\
  exists p, demo_serve cfg path = Some p /\
    wp demo_rel p (fun panicked w => panicked = false /\
      (if bool_decide (match_segments [""; "health"] (split_at "/" path) = None)
       then demo_delay cfg (dw_slept w) /\ dw_calls w = identity_calls cfg (path_value path)
       else dw_slept w = [] /\ dw_calls w = [DStatus 200; DBytes "ok"]) /\
      forall c counts b, check c (Some (demo_status (dw_calls w))) counts b = recordSuccess c counts b) demo_idle.
Proof.
  intros Hc. split; [by vm_compute; eexists|]. unfold demo_serve. rewrite Hc, String.eqb_refl. cbn [negb].
  destruct (match_segments _ _) eqn:E; (eexists; split; [reflexivity|]).
  - rewrite bool_decide_false by done. eapply wp_mono; [|apply demo_health_wp]. by intros p w [-> ->].
  - rewrite bool_decide_true by done. eapply wp_mono; [|apply demo_root_wp]. intros p w (-> & Hd & Hw).
    split_and!; [done|done|done|]. intros. by rewrite Hw.
Qed.

Example demo_examples :
  demo_main ["-name"; "b1"; "-latency=50ms"; "-jitter"; "10ms"] = inl (mkDemoConfig "b1" ":9001" (50 * Millisecond) (10 * Millisecond)) /\
  demo_main ["-latency"; "fast"] = inr 2%Z /\
  demo_serve (mkDemoConfig "b1" "" 0 0) "/health" = Some demo_health /\
  demo_serve (mkDemoConfig "b1" "" 0 0) "/health/" = Some (demo_root (mkDemoConfig "b1" "" 0 0) "/health/") /\
  demo_serve (mkDemoConfig "b1" "" 0 0) "//health" = None.
Proof. vm_compute. split_and!; reflexivity. Qed.
